(** * Markdown to Slack mrkdwn: the converter of [endpoints/slack.py]

    A shallow embedding of [SlackMarkdownConverter] and of the parts of the
    Python runtime it relies on ([str] methods, the backtracking [re]
    engine, codecs), followed by the properties of [convert].

    Python strings are sequences of Unicode code points; they are modelled
    as lists of [N].  *)

From Stdlib Require Import Ascii String DecimalString.
From Stdlib Require Import List NArith ZArith Bool Lia.
Import ListNotations.
Local Open Scope N_scope.
Local Open Scope list_scope.

(* ================================================================== *)
(** ** Python strings *)

Definition str := list N.

(** An ASCII literal as a Python string. *)
Definition lit (s : string) : str := map N_of_ascii (list_ascii_of_string s).

Definition str_eqb (a b : str) : bool :=
  if list_eq_dec N.eq_dec a b then true else false.

(** [str.isspace] for one code point; [\s] of a [str] pattern is the same set. *)
Definition isspace (c : N) : bool :=
  ((9 <=? c) && (c <=? 13)) || ((28 <=? c) && (c <=? 32))
  || (c =? 133) || (c =? 160) || (c =? 5760)
  || ((8192 <=? c) && (c <=? 8202))
  || (c =? 8232) || (c =? 8233) || (c =? 8239) || (c =? 8287) || (c =? 12288).

Definition ascii_isdigit (c : N) : bool := (48 <=? c) && (c <=? 57).
Definition ascii_isalnum (c : N) : bool :=
  ascii_isdigit c || ((65 <=? c) && (c <=? 90)) || ((97 <=? c) && (c <=? 122)).

Definition NL : N := 10.

Fixpoint lstrip_by (p : N -> bool) (s : str) : str :=
  match s with
  | [] => []
  | c :: s' => if p c then lstrip_by p s' else s
  end.

Fixpoint rstrip_by (p : N -> bool) (s : str) : str :=
  match s with
  | [] => []
  | c :: s' =>
      match rstrip_by p s' with
      | [] => if p c then [] else [c]
      | r => c :: r
      end
  end.

Definition strip_by (p : N -> bool) (s : str) : str := rstrip_by p (lstrip_by p s).

(** [s.strip()], [s.rstrip()] and [s.strip(chars)]. *)
Definition strip (s : str) : str := strip_by isspace s.
Definition rstrip (s : str) : str := rstrip_by isspace s.
Definition strip_chars (chars : str) (s : str) : str :=
  strip_by (fun c => existsb (N.eqb c) chars) s.

(** [s.split(sep)] for a separator of one character. *)
Fixpoint split (sep : N) (s : str) : list str :=
  match s with
  | [] => [[]]
  | c :: s' =>
      if c =? sep then [] :: split sep s'
      else match split sep s' with
           | l :: ls => (c :: l) :: ls
           | [] => [[c]]
           end
  end.

(** [sep.join(parts)]. *)
Fixpoint join (sep : str) (parts : list str) : str :=
  match parts with
  | [] => []
  | [p] => p
  | p :: ps => p ++ sep ++ join sep ps
  end.

Fixpoint startswith (s p : str) {struct p} : bool :=
  match p, s with
  | [], _ => true
  | a :: p', b :: s' => (a =? b) && startswith s' p'
  | _ :: _, [] => false
  end.

Definition endswith (s p : str) : bool := startswith (rev s) (rev p).

(** [s.replace(old, new)]: left to right, occurrences do not overlap. *)
Fixpoint replace_from (old new : str) (skip : nat) (s : str) : str :=
  match s with
  | [] => []
  | c :: s' =>
      match skip with
      | S k => replace_from old new k s'
      | O =>
          if startswith s old
          then new ++ replace_from old new (length old - 1) s'
          else c :: replace_from old new 0 s'
      end
  end.

Definition replace (old new s : str) : str :=
  match old with
  | [] => new ++ flat_map (fun c => c :: new) s
  | _ => replace_from old new 0 s
  end.

(** [str(n)] for an integer. *)
Definition str_of_int (z : Z) : str := lit (NilZero.string_of_int (Z.to_int z)).

(** What the conversion uses of the interpreter and is not fixed by the
    program: the (per-process salted) string hash and the Unicode tables
    behind [\w] and [\d] outside ASCII. *)
Record PyEnv := {
  py_hash : str -> Z;
  uni_isalnum : N -> bool;
  uni_isdecimal : N -> bool
}.

(** The glyphs the converter writes: the bullet (U+2022, category Po),
    the two ballot boxes (U+2610, U+2611) and the box-drawing dash
    (U+2500), all three of category So. *)
Definition bullet : N := 8226.
Definition box_open : N := 9744.
Definition box_checked : N := 9745.
Definition hline : N := 9472.
Definition is_glyph (c : N) : bool :=
  (c =? bullet) || (c =? box_open) || (c =? box_checked) || (c =? hline).

(** [\w] and [\d] on one code point: fixed on ASCII and on the glyphs
    above (punctuation and symbols are neither), the interpreter's
    tables elsewhere. *)
Definition isword (env : PyEnv) (c : N) : bool :=
  if c <? 128 then ascii_isalnum c || (c =? 95)
  else if is_glyph c then false else uni_isalnum env c.
Definition isdecimal (env : PyEnv) (c : N) : bool :=
  if c <? 128 then ascii_isdigit c
  else if is_glyph c then false else uni_isdecimal env c.

(** An interpreter whose hash is a polynomial hash folded into 64 bits. *)
Definition env0 : PyEnv := {|
  py_hash := fun s =>
    (Z.of_N (fold_left (fun h c => ((h * 1000003 + c) mod 2 ^ 64)%N) s 7%N) - 2 ^ 63)%Z;
  uni_isalnum := fun _ => false;
  uni_isdecimal := fun _ => false
|}.

(* ================================================================== *)
(** ** The [re] engine

    A backtracking matcher in continuation-passing style over a zipper of
    the subject string: [pre] holds the characters before the current
    position, last first, and [suf] those after it.  Alternatives are
    tried left to right, greedy repetitions longest first, lazy ones
    shortest first, as [sre] does. *)

(** Character sets: one-character atoms of a pattern. *)
Inductive cset :=
| Dot                     (* [.] without DOTALL: anything but a newline *)
| Lit (c : N)
| OneOf (cs : list N)     (* [[...]] *)
| NoneOf (cs : list N)    (* [[^...]] *)
| Space                   (* [\s] *)
| Digit                   (* [\d] *)
| Word.                   (* [\w] *)

Inductive regex :=
| Eps
| Chr (cs : cset)
| Seq (a b : regex)
| Alt (a b : regex)
| Grp (n : nat) (a : regex)           (* capturing group number [n] *)
| Rep (greedy : bool) (cs : cset)     (* [x*] and [x*?] of one atom *)
| Star (a : regex)                    (* greedy [(...)*] *)
| Bol (multiline : bool)              (* [^] *)
| Eol (multiline : bool)              (* [$] *)
| NotBehind (cs : cset)               (* [(?<!x)] *)
| NotAhead (cs : cset).               (* [(?!x)] *)

(** Captured groups, most recent first. *)
Definition caps := list (nat * str).

Fixpoint group (n : nat) (c : caps) : str :=
  match c with
  | [] => []
  | (m, s) :: c' => if Nat.eqb m n then s else group n c'
  end.

(** The text between two positions of the zipper. *)
Definition consumed (pre pre' : str) : str :=
  rev (firstn (length pre' - length pre) pre').

(** A successful match: the matched text (group 0) and the groups. *)
Definition mobj := (str * caps)%type.

Definition bol (multiline : bool) (pre : str) : bool :=
  match pre with
  | [] => true
  | c :: _ => multiline && (c =? NL)
  end.

Definition eol (multiline : bool) (suf : str) : bool :=
  match suf with
  | [] => true
  | c :: rest =>
      (c =? NL) && (multiline || match rest with [] => true | _ => false end)
  end.

Section Engine.
Variable env : PyEnv.

Definition cmatch (cs : cset) (c : N) : bool :=
  match cs with
  | Dot => negb (c =? NL)
  | Lit a => c =? a
  | OneOf l => existsb (N.eqb c) l
  | NoneOf l => negb (existsb (N.eqb c) l)
  | Space => isspace c
  | Digit => isdecimal env c
  | Word => isword env c
  end.

(** Continuations: what remains to be matched, given the position
    reached and the groups so far. *)
Definition cont := str -> str -> caps -> option (str * caps).

Fixpoint rep_greedy (cs : cset) (k : cont) (pre suf : str) (c : caps)
  : option (str * caps) :=
  match suf with
  | x :: suf' =>
      if cmatch cs x then
        match rep_greedy cs k (x :: pre) suf' c with
        | Some r => Some r
        | None => k pre suf c
        end
      else k pre suf c
  | [] => k pre suf c
  end.

Fixpoint rep_lazy (cs : cset) (k : cont) (pre suf : str) (c : caps)
  : option (str * caps) :=
  match k pre suf c with
  | Some r => Some r
  | None =>
      match suf with
      | x :: suf' => if cmatch cs x then rep_lazy cs k (x :: pre) suf' c else None
      | [] => None
      end
  end.

(** The greedy repetition of a body: another round of [body] and
    then the repetition again, or else the continuation.  A round that
    consumes nothing is refused, so [fuel] rounds are enough when [fuel]
    is the number of characters left ([star_loop_fuel] below). *)
Fixpoint star_loop (body : cont -> cont) (k : cont) (fuel : nat)
    (pre suf : str) (c : caps) : option (str * caps) :=
  match fuel with
  | O => k pre suf c
  | S fuel' =>
      match body (fun p s c' =>
                    if Nat.ltb (length s) (length suf)
                    then star_loop body k fuel' p s c' else None) pre suf c with
      | Some res => Some res
      | None => k pre suf c
      end
  end.

(** [run r k pre suf c]: match [r] at the position, then [k]. *)
Fixpoint run (r : regex) (k : cont) (pre suf : str) (c : caps)
  : option (str * caps) :=
  match r with
  | Eps => k pre suf c
  | Chr cs =>
      match suf with
      | x :: suf' => if cmatch cs x then k (x :: pre) suf' c else None
      | [] => None
      end
  | Seq a b => run a (fun p s c' => run b k p s c') pre suf c
  | Alt a b =>
      match run a k pre suf c with
      | Some res => Some res
      | None => run b k pre suf c
      end
  | Grp n a => run a (fun p s c' => k p s ((n, consumed pre p) :: c')) pre suf c
  | Rep true cs => rep_greedy cs k pre suf c
  | Rep false cs => rep_lazy cs k pre suf c
  | Star a => star_loop (run a) k (length suf) pre suf c
  | Bol ml => if bol ml pre then k pre suf c else None
  | Eol ml => if eol ml suf then k pre suf c else None
  | NotBehind cs =>
      match pre with
      | x :: _ => if cmatch cs x then None else k pre suf c
      | [] => k pre suf c
      end
  | NotAhead cs =>
      match suf with
      | x :: _ => if cmatch cs x then None else k pre suf c
      | [] => k pre suf c
      end
  end.

(** A match starting exactly at the position.  With [must_advance] an
    empty match is refused and the matcher backtracks ([sre]'s flag of
    the same name, set after an empty match). *)
Definition match_at (r : regex) (must_advance : bool) (pre suf : str)
  : option mobj :=
  run r (fun p _ c =>
           if must_advance && Nat.eqb (length p) (length pre) then None
           else Some (consumed pre p, c)) pre suf [].

(** [re.match(r, s)]. *)
Definition re_match (r : regex) (s : str) : option mobj := match_at r false [] s.

(** The pieces [pattern.sub] assembles its result from, in order:
    characters outside every match, and the matches.  The scan takes
    the leftmost match, resumes where it ended ([skip] counts the
    characters of the match still to pass over), and after an empty
    match looks for a non-empty one at the same place before it moves
    on. *)
Fixpoint pieces (r : regex) (skip : nat) (pre suf : str) : list (N + mobj) :=
  match skip with
  | S k =>
      match suf with
      | x :: suf' => pieces r k (x :: pre) suf'
      | [] => []
      end
  | O =>
      match match_at r false pre suf with
      | Some (x :: t, c) =>
          inr (x :: t, c) ::
          match suf with
          | y :: suf' => pieces r (length t) (y :: pre) suf'
          | [] => []
          end
      | Some ([], c) =>
          inr ([], c) ::
          match match_at r true pre suf with
          | Some (t, c') =>
              inr (t, c') ::
              match suf with
              | y :: suf' => pieces r (length t - 1) (y :: pre) suf'
              | [] => []
              end
          | None =>
              match suf with
              | y :: suf' => inl y :: pieces r 0 (y :: pre) suf'
              | [] => []
              end
          end
      | None =>
          match suf with
          | y :: suf' => inl y :: pieces r 0 (y :: pre) suf'
          | [] => []
          end
      end
  end.

(** [pattern.sub(f, s)] for a replacement function without effects. *)
Definition sub_fn (r : regex) (f : mobj -> str) (s : str) : str :=
  flat_map (fun p => match p with inl x => [x] | inr m => f m end)
           (pieces r 0 [] s).

(** [pattern.search(s)]: is there a match anywhere in [s]? *)
Fixpoint search_from (r : regex) (pre suf : str) : bool :=
  match match_at r false pre suf with
  | Some _ => true
  | None =>
      match suf with
      | x :: suf' => search_from r (x :: pre) suf'
      | [] => false
      end
  end.
Definition search (r : regex) (s : str) : bool := search_from r [] s.
End Engine.

(** Replacement templates: literal text and group references [\n]. *)
Inductive titem :=
| TLit (s : str)
| TGrp (n : nat).

Definition expand (t : list titem) (m : mobj) : str :=
  flat_map (fun i => match i with TLit s => s | TGrp n => group n (snd m) end) t.

(** [pattern.sub(template, s)]. *)
Definition sub (env : PyEnv) (r : regex) (t : list titem) (s : str) : str :=
  sub_fn env r (expand t) s.

(** Pattern syntax helpers. *)
Fixpoint seqs (rs : list regex) : regex :=
  match rs with
  | [] => Eps
  | [r] => r
  | r :: rs' => Seq r (seqs rs')
  end.
Definition text (s : string) : regex := seqs (map (fun c => Chr (Lit c)) (lit s)).
Definition plus (greedy : bool) (cs : cset) : regex := Seq (Chr cs) (Rep greedy cs).
Definition star_ch : N := 42.   (* the asterisk *)

(* ================================================================== *)
(** ** Exceptions, codecs and the converter object *)

Inductive exn := IndexError | UnicodeEncodeError | LookupError.

(** The codecs [encoding] may name; a name [codecs.lookup] does not know
    is [UnknownCodec]. *)
Inductive Encoding := Utf8 | AsciiCodec | Latin1 | UnknownCodec.

Definition is_surrogate (c : N) : bool := (55296 <=? c) && (c <=? 57343).

(** [s.encode(enc).decode(enc)]. *)
Definition encode_decode (enc : Encoding) (s : str) : exn + str :=
  match enc with
  | Utf8 => if existsb is_surrogate s then inl UnicodeEncodeError else inr s
  | AsciiCodec => if forallb (fun c => c <? 128) s then inr s else inl UnicodeEncodeError
  | Latin1 => if forallb (fun c => c <? 256) s then inr s else inl UnicodeEncodeError
  | UnknownCodec => inl LookupError
  end.

(** A [dict] with string keys, in insertion order. *)
Definition dict := list (str * str).

Fixpoint dict_set (d : dict) (k v : str) : dict :=
  match d with
  | [] => [(k, v)]
  | (k', v') :: d' => if str_eqb k' k then (k', v) :: d' else (k', v') :: dict_set d' k v
  end.

(** The mutable attributes of a [SlackMarkdownConverter]; [patterns],
    [triple_start] and [triple_end] are never assigned after [__init__]
    and are constants below. *)
Record SlackMarkdownConverter := {
  encoding : Encoding;
  in_code_block : bool;
  table_replacements : dict
}.

Definition __init__ (enc : Encoding) : SlackMarkdownConverter :=
  {| encoding := enc; in_code_block := false; table_replacements := [] |}.

(** Methods: state passing over the object, with exceptions. *)
Definition M (A : Type) : Type :=
  SlackMarkdownConverter -> (exn + A) * SlackMarkdownConverter.

Definition ret {A} (a : A) : M A := fun self => (inr a, self).
Definition raise {A} (e : exn) : M A := fun self => (inl e, self).
Definition bind {A B} (m : M A) (f : A -> M B) : M B :=
  fun self =>
    match m self with
    | (inr a, self') => f a self'
    | (inl e, self') => (inl e, self')
    end.
Definition lift {A} (r : exn + A) : M A := fun self => (r, self).

Notation "x <- m ;; k" := (bind m (fun x => k))
  (at level 61, m at next level, right associativity).
Notation "m ;;; k" := (bind m (fun _ => k))
  (at level 61, right associativity).

Fixpoint mapM {A B} (f : A -> M B) (l : list A) : M (list B) :=
  match l with
  | [] => ret []
  | a :: l' => b <- f a ;; bs <- mapM f l' ;; ret (b :: bs)
  end.

(** [l[i]]. *)
Definition index {A} (l : list A) (i : nat) : M A :=
  match nth_error l i with
  | Some a => ret a
  | None => raise IndexError
  end.

Definition set_in_code_block (b : bool) : M unit :=
  fun self => (inr tt, {| encoding := encoding self; in_code_block := b;
                          table_replacements := table_replacements self |}).
Definition set_table_replacements (d : dict) : M unit :=
  fun self => (inr tt, {| encoding := encoding self; in_code_block := in_code_block self;
                          table_replacements := d |}).
Definition get {A} (f : SlackMarkdownConverter -> A) : M A := fun self => (inr (f self), self).

(** The part of a [try] block that runs while the handler's [return
    markdown] would return [markdown]: an exception raised in [m] ends
    the method with that value, otherwise [k] goes on. *)
Definition try_returning {A} (markdown : str) (m : M A) (k : A -> M str) : M str :=
  fun self =>
    match m self with
    | (inr a, self') => k a self'
    | (inl _, self') => (inr markdown, self')
    end.

(* ================================================================== *)
(** ** The converter *)

Definition heading (level : nat) : regex * list titem :=
  (seqs [Bol true; text (String.concat "" (repeat "#"%string level)); text " ";
         Grp 1 (plus true Dot); Eol true],
   [TLit (lit "*"); TGrp 1; TLit (lit "*")]).

(** [self.patterns], in order. *)
Definition patterns : list (regex * list titem) :=
  [ (* "^(\s*)- \[([ ])\] (.+)" *)
    (seqs [Bol true; Grp 1 (Rep true Space); text "- ["; Grp 2 (Chr (OneOf (lit " ")));
           text "] "; Grp 3 (plus true Dot)],
     [TGrp 1; TLit [bullet; 32; box_open; 32]; TGrp 3]);
    (* "^(\s*)- \[([xX])\] (.+)" *)
    (seqs [Bol true; Grp 1 (Rep true Space); text "- ["; Grp 2 (Chr (OneOf (lit "xX")));
           text "] "; Grp 3 (plus true Dot)],
     [TGrp 1; TLit [bullet; 32; box_checked; 32]; TGrp 3]);
    (* "^(\s*)- (.+)" *)
    (seqs [Bol true; Grp 1 (Rep true Space); text "- "; Grp 2 (plus true Dot)],
     [TGrp 1; TLit [bullet; 32]; TGrp 2]);
    (* "^(\s*)(\d+)\. (.+)" *)
    (seqs [Bol true; Grp 1 (Rep true Space); Grp 2 (plus true Digit); text ". ";
           Grp 3 (plus true Dot)],
     [TGrp 1; TGrp 2; TLit (lit ". "); TGrp 3]);
    (* "!\[.*?\]\((.+?)\)" *)
    (seqs [text "!["; Rep false Dot; text "]("; Grp 1 (plus false Dot); text ")"],
     [TLit (lit "<"); TGrp 1; TLit (lit ">")]);
    (* "(?<!\*)\*([^*\n]+?)\*(?!\*)" *)
    (seqs [NotBehind (Lit star_ch); text "*"; Grp 1 (plus false (NoneOf [star_ch; NL]));
           text "*"; NotAhead (Lit star_ch)],
     [TLit (lit "_"); TGrp 1; TLit (lit "_")]);
    heading 6; heading 5; heading 4; heading 3; heading 2; heading 1;
    (* "(^|\s)~\*\*(.+?)\*\*(\s|$)" *)
    (seqs [Grp 1 (Alt (Bol true) (Chr Space)); text "~**"; Grp 2 (plus false Dot);
           text "**"; Grp 3 (Alt (Chr Space) (Eol true))],
     [TGrp 1; TLit (lit " *"); TGrp 2; TLit (lit "* "); TGrp 3]);
    (* "(?<!\*)\*\*(.+?)\*\*(?!\*)" *)
    (seqs [NotBehind (Lit star_ch); text "**"; Grp 1 (plus false Dot); text "**";
           NotAhead (Lit star_ch)],
     [TLit (lit "*"); TGrp 1; TLit (lit "*")]);
    (* "__(.+?)__" *)
    (seqs [text "__"; Grp 1 (plus false Dot); text "__"],
     [TLit (lit "*"); TGrp 1; TLit (lit "*")]);
    (* "\[(.+?)\]\((.+?)\)" *)
    (seqs [text "["; Grp 1 (plus false Dot); text "]("; Grp 2 (plus false Dot); text ")"],
     [TLit (lit "<"); TGrp 2; TLit (lit "|"); TGrp 1; TLit (lit ">")]);
    (* "`(.+?)`" *)
    (seqs [text "`"; Grp 1 (plus false Dot); text "`"],
     [TLit (lit "`"); TGrp 1; TLit (lit "`")]);
    (* "^> (.+)" *)
    (seqs [Bol true; text "> "; Grp 1 (plus true Dot)],
     [TLit (lit "> "); TGrp 1]);
    (* "^(---|\*\*\*|___)$" *)
    (seqs [Bol true; Grp 1 (Alt (text "---") (Alt (text "***") (text "___"))); Eol true],
     [TLit (repeat hline 10)]);
    (* "~~(.+?)~~" *)
    (seqs [text "~~"; Grp 1 (plus false Dot); text "~~"],
     [TLit (lit "~"); TGrp 1; TLit (lit "~")]) ].

Definition triple_start : str := lit "%%BOLDITALIC_START%%".
Definition triple_end : str := lit "%%BOLDITALIC_END%%".

(** "(?<!\*)\*\*\*([^*\n]+?)\*\*\*(?!\*)" *)
Definition triple_pattern : regex :=
  seqs [NotBehind (Lit star_ch); text "***"; Grp 1 (plus false (NoneOf [star_ch; NL]));
        text "***"; NotAhead (Lit star_ch)].

(** re.escape(triple_start) + "(.*?)" + re.escape(triple_end); neither
    sentinel holds a character that [re.escape] would change the meaning
    of. *)
Definition sentinel_pattern : regex :=
  seqs [text "%%BOLDITALIC_START%%"; Grp 1 (Rep false Dot); text "%%BOLDITALIC_END%%"].

(** "^```(\w*)$", compiled without MULTILINE. *)
Definition fence_pattern : regex :=
  seqs [Bol false; text "```"; Grp 1 (Rep true Word); Eol false].

(** "^\|(.+)\|\s*$\n^\|[-:| ]+\|\s*$(\n^\|.+\|\s*$)*" *)
Definition table_pattern : regex :=
  seqs [Bol true; text "|"; Grp 1 (plus true Dot); text "|"; Rep true Space; Eol true;
        Chr (Lit NL);
        Bol true; text "|"; plus true (OneOf (lit "-:| ")); text "|"; Rep true Space;
        Eol true;
        Star (Grp 2 (seqs [Chr (Lit NL); Bol true; text "|"; plus true Dot; text "|";
                           Rep true Space; Eol true]))].

Definition placeholder_prefix : str := lit "%%TABLE_PLACEHOLDER_".
Definition pct2 : str := lit "%%".
Definition bar : N := 124.

Section Converter.
Variable env : PyEnv.

(** The closure [convert_table] of [_convert_tables]. *)
Definition convert_table (m : mobj) : M str :=
  let original_table := fst m in
  let table_lines := split NL (strip original_table) in
  header_line <- index table_lines 0 ;;
  separator_line <- index table_lines 1 ;;
  let data_lines :=
    if Nat.ltb 2 (length table_lines) then skipn 2 table_lines else [] in
  let headers := map strip (split bar (strip_chars [bar] header_line)) in
  let rows := map (fun line => map strip (split bar (strip_chars [bar] line))) data_lines in
  let result :=
    join (lit " | ") (map (fun header => lit "*" ++ header ++ lit "*") headers)
    :: map (join (lit " | ")) rows in
  let placeholder :=
    placeholder_prefix ++ str_of_int (py_hash env original_table) ++ pct2 in
  d <- get table_replacements ;;
  set_table_replacements (dict_set d placeholder (join [NL] result)) ;;;
  ret placeholder.

(** [table_pattern.sub(convert_table, markdown)]: the callback runs on
    each match, left to right. *)
Definition _convert_tables (markdown : str) : M str :=
  parts <- mapM (fun p => match p with
                          | inl x => ret [x]
                          | inr m => convert_table m
                          end) (pieces env table_pattern 0 [] markdown) ;;
  ret (concat parts).

(** The tail of [_convert_line], reached outside a code block: the
    sentinel for triple emphasis, the ordered rules, the sentinel
    resolved, trailing whitespace removed. *)
Definition rewrite_rules (line : str) : str :=
  let line := sub_fn env triple_pattern
                (fun m => triple_start ++ group 1 (snd m) ++ triple_end) line in
  let line := fold_left (fun l pr => sub env (fst pr) (snd pr) l) patterns line in
  let line := sub env sentinel_pattern
                [TLit (lit "*_"); TGrp 1; TLit (lit "_*")] line in
  rstrip line.

Definition _convert_line (line : str) : M str :=
  if startswith line placeholder_prefix && endswith line pct2 then ret line
  else
    match re_match env fence_pattern line with
    | Some code_block_match =>
        let language := group 1 (snd code_block_match) in
        old <- get in_code_block ;;
        set_in_code_block (negb old) ;;;
        now <- get in_code_block ;;
        if now && negb (Nat.eqb (length language) 0)
        then ret (lit "```" ++ language)
        else ret (lit "```")
    | None =>
        inside <- get in_code_block ;;
        if inside then ret line else ret (rewrite_rules line)
    end.

Fixpoint replace_all (items : dict) (result : str) : str :=
  match items with
  | [] => result
  | (placeholder, table) :: rest => replace_all rest (replace placeholder table result)
  end.

Definition convert (markdown : str) : M str :=
  match markdown with
  | [] => ret []
  | _ =>
      let markdown1 := strip markdown in
      try_returning markdown1
        (set_table_replacements [] ;;; _convert_tables markdown1)
        (fun markdown2 =>
      try_returning markdown2
        (let lines := split NL markdown2 in
         converted_lines <- mapM _convert_line lines ;;
         let result := join [NL] converted_lines in
         items <- get table_replacements ;;
         let result := replace_all items result in
         enc <- get encoding ;;
         lift (encode_decode enc result))
        ret)
  end.
End Converter.

(* ================================================================== *)
(** ** Vocabulary of the statements *)

(** The result a caller of a method sees, and the object after the call. *)
Definition returned {A} (r : (exn + A) * SlackMarkdownConverter) : exn + A := fst r.
Definition after {A} (r : (exn + A) * SlackMarkdownConverter) : SlackMarkdownConverter :=
  snd r.

(** The object with its flag flipped, and with its flag set. *)
Definition toggled (self : SlackMarkdownConverter) : SlackMarkdownConverter :=
  {| encoding := encoding self; in_code_block := negb (in_code_block self);
     table_replacements := table_replacements self |}.

Definition with_flag (self : SlackMarkdownConverter) (b : bool) : SlackMarkdownConverter :=
  {| encoding := encoding self; in_code_block := b;
     table_replacements := table_replacements self |}.

Definition keys (self : SlackMarkdownConverter) : list str :=
  map fst (table_replacements self).

(** *** Placeholder tokens *)

(** The placeholder token [convert_table] makes for a table. *)
Definition placeholder_of (env : PyEnv) (original_table : str) : str :=
  placeholder_prefix ++ str_of_int (py_hash env original_table) ++ pct2.

(** The first test of [_convert_line]. *)
Definition placeholder_shape (line : str) : bool :=
  startswith line placeholder_prefix && endswith line pct2.

(** The characters of [str(n)]: decimal digits and the sign. *)
Definition sign_or_digit (c : N) : bool := (c =? 45) || ascii_isdigit c.

(** Placeholder tokens: the prefix, a signed number, two percent signs. *)
Definition is_token (k : str) : Prop :=
  exists d, k = placeholder_prefix ++ d ++ pct2 /\ forallb sign_or_digit d = true.

Definition percents (s : str) : nat := count_occ N.eq_dec s 37.

(** [p] occurs in [s]. *)
Definition occurs (p s : str) : Prop := exists a b, s = a ++ p ++ b.

(** The callback of the table pass on one piece of the scan. *)
Definition table_callback (env : PyEnv) (p : N + mobj) : M str :=
  match p with
  | inl x => ret [x]
  | inr m => convert_table env m
  end.

(** *** Fences *)

Fixpoint take_while (p : N -> bool) (s : str) : str :=
  match s with
  | x :: s' => if p x then x :: take_while p s' else []
  | [] => []
  end.

Fixpoint drop_while (p : N -> bool) (s : str) : str :=
  match s with
  | x :: s' => if p x then drop_while p s' else s
  | [] => []
  end.

Definition backticks : str := lit "```".

(** What the fence test of [_convert_line] computes: the tag after
    three backticks, when word characters run from there to the end of
    the line (or to a newline that ends it). *)
Definition fence_tag (env : PyEnv) (line : str) : option str :=
  if startswith line backticks then
    let rest := skipn 3 line in
    if eol false (drop_while (isword env) rest)
    then Some (take_while (isword env) rest) else None
  else None.

(** *** Texts without markdown, and clean texts *)

(** A line on which some pattern of the line engine matches. *)
Definition line_has_markdown (env : PyEnv) (line : str) : bool :=
  match re_match env fence_pattern line with Some _ => true | None => false end
  || search env triple_pattern line
  || existsb (fun pr => search env (fst pr) line) patterns
  || search env sentinel_pattern line.

(** A text without recognized markdown: no table block in it (as
    [convert] looks for one, after stripping) and no pattern matching
    on any of its lines. *)
Definition no_markdown (env : PyEnv) (s : str) : bool :=
  negb (search env table_pattern (strip s))
  && forallb (fun l => negb (line_has_markdown env l)) (split NL (strip s)).

(** Neither a percent sign nor a surrogate. *)
Definition cleanb (c : N) : bool := negb (c =? 37) && negb (is_surrogate c).
Definition clean (c : N) : Prop := cleanb c = true.

(** Three asterisks in a row somewhere in the text. *)
Fixpoint has3 (s : str) : bool :=
  match s with
  | [] => false
  | _ :: s' => startswith s (lit "***") || has3 s'
  end.

Definition template_clean (t : list titem) : bool :=
  forallb (fun i => match i with TLit s => forallb cleanb s | TGrp _ => true end) t.

(** The table of replacements: tokens as keys, clean texts as values. *)
Definition dict_ok (d : dict) : Prop :=
  Forall (fun kv => is_token (fst kv) /\ Forall clean (snd kv)) d.

(** *** What a successful match says about the subject

    [matches env r pre l suf']: the pattern [r] can match the text [l]
    with [pre] before it (last character first) and [suf'] after it.
    The relation forgets priorities and groups; every match the engine
    returns satisfies it ([run_sound] below). *)

Inductive star_m (R : str -> str -> str -> Prop) : str -> str -> str -> Prop :=
| star_m_nil pre suf' : star_m R pre [] suf'
| star_m_cons pre l1 l2 suf' :
    R pre l1 (l2 ++ suf') -> star_m R (rev l1 ++ pre) l2 suf' ->
    star_m R pre (l1 ++ l2) suf'.

Fixpoint matches (env : PyEnv) (r : regex) (pre l suf' : str) : Prop :=
  match r with
  | Eps => l = []
  | Chr cs => exists x, l = [x] /\ cmatch env cs x = true
  | Seq a b =>
      exists l1 l2, l = l1 ++ l2 /\ matches env a pre l1 (l2 ++ suf')
                    /\ matches env b (rev l1 ++ pre) l2 suf'
  | Alt a b => matches env a pre l suf' \/ matches env b pre l suf'
  | Grp _ a => matches env a pre l suf'
  | Rep _ cs => forallb (cmatch env cs) l = true
  | Star a => star_m (matches env a) pre l suf'
  | Bol ml => l = [] /\ bol ml pre = true
  | Eol ml => l = [] /\ eol ml suf' = true
  | NotBehind cs =>
      l = [] /\ match pre with x :: _ => cmatch env cs x = false | [] => True end
  | NotAhead cs =>
      l = [] /\ match suf' with x :: _ => cmatch env cs x = false | [] => True end
  end.

(** The shape of the soundness statement for a matcher [m] of a
    pattern whose matches satisfy [R]. *)
Definition sound_for (R : str -> str -> str -> Prop)
    (m : cont -> str -> str -> caps -> option (str * caps)) : Prop :=
  forall k pre suf c res,
    m k pre suf c = Some res ->
    exists l suf' c', suf = l ++ suf' /\ R pre l suf'
                      /\ k (rev l ++ pre) suf' c' = Some res.

(** The result of a matcher depends on its continuation only through
    the values the continuation takes. *)
Definition respects (m : cont -> cont) : Prop :=
  forall k1 k2, (forall p s c, k1 p s c = k2 p s c) ->
                forall pre suf c, m k1 pre suf c = m k2 pre suf c.

(** Patterns whose every match ends at the end of a line.  [ends ok r]:
    a match of [r] ends where [$] holds, if ([ok]) it started at such a
    place or ([negb ok]) wherever it started. *)
Fixpoint ends (ok : bool) (r : regex) : bool :=
  match r with
  | Eol true => true
  | Seq a b => ends (ends ok a) b
  | Grp _ a => ends ok a
  | Star a => ok && ends false a
  | Eps | Bol _ | NotBehind _ | NotAhead _ => ok
  | _ => false
  end.

(** [table_pattern] after its leading [^\|]. *)
Definition table_tail : regex :=
  Eval cbv in match table_pattern with Seq _ (Seq _ r) => r | _ => Eps end.

(** *** Where the characters of a substitution come from *)

(** Groups, matches, pieces of a scan and template items made of
    characters that satisfy [P]. *)
Definition capsP (P : N -> Prop) (c : caps) : Prop :=
  Forall (fun ns => Forall P (snd ns)) c.

Definition mobjP (P : N -> Prop) (m : mobj) : Prop :=
  Forall P (fst m) /\ capsP P (snd m).

Definition pieceP (P : N -> Prop) (pc : N + mobj) : Prop :=
  match pc with inl x => P x | inr m => mobjP P m end.

Definition titemP (P : N -> Prop) (i : titem) : Prop :=
  match i with TLit s => Forall P s | TGrp _ => True end.

(** A matcher hands its continuation positions and groups made of
    characters of the subject. *)
Definition carries (P : N -> Prop)
    (m : cont -> str -> str -> caps -> option (str * caps)) : Prop :=
  forall (Q : str * caps -> Prop) k pre suf c res,
    Forall P pre -> Forall P suf -> capsP P c ->
    (forall p s c' res', Forall P p -> Forall P s -> capsP P c' ->
                         k p s c' = Some res' -> Q res') ->
    m k pre suf c = Some res -> Q res.

(** *** The texts of the examples *)

(** The table of the spec's example. *)
Definition table_example : str :=
  lit "| A | B |" ++ [NL] ++ lit "|---|---|" ++ [NL] ++ lit "| 1 | 2 |".
Definition table_example_rendered : str := lit "*A* | *B*" ++ [NL] ++ lit "1 | 2".

(** The same table between two fence lines. *)
Definition fenced_table : str := backticks ++ [NL] ++ table_example ++ [NL] ++ backticks.
Definition fenced_table_converted : str :=
  backticks ++ [NL] ++ table_example_rendered ++ [NL] ++ backticks.

(** A table with a lone surrogate (U+D800) in a cell: a valid [str] that
    UTF-8 cannot encode. *)
Definition table_with_surrogate : str :=
  lit "| A |" ++ [NL] ++ lit "|---|" ++ [NL] ++ lit "| " ++ [55296] ++ lit " |".

(** *** The literal characters a pattern needs *)

(** Atoms that only match characters of the set [p]. *)
Definition cset_within (p : N -> bool) (cs : cset) : bool :=
  match cs with
  | Lit c => p c
  | OneOf l => forallb p l
  | _ => false
  end.

(** A lower bound on the number of characters of [p] in any match of
    a pattern ([min_in_sound] below). *)
Fixpoint min_in (p : N -> bool) (r : regex) : nat :=
  match r with
  | Chr cs => if cset_within p cs then 1 else 0
  | Seq a b => min_in p a + min_in p b
  | Alt a b => Nat.min (min_in p a) (min_in p b)
  | Grp _ a => min_in p a
  | _ => 0
  end.

Definition count_in (p : N -> bool) (s : str) : nat := length (filter p s).

(** The punctuation the patterns of the converter are written with:
    "-.!*#~_[`>%|". *)
Definition markers : str := lit "-.!*#~_[`>%|".
Definition is_marker (c : N) : bool := existsb (N.eqb c) markers.

(** Text the converter has nothing to do on: no marker and nothing
    UTF-8 refuses. *)
Definition plainb (c : N) : bool := negb (is_marker c) && negb (is_surrogate c).

(** What is left to do on such a text: the stripped text with the
    trailing whitespace of each line removed. *)
Definition tidy (s : str) : str := join [NL] (map rstrip (split NL (strip s))).

(** The test for a fence line in [_convert_line], and the number of
    fence lines among some lines. *)
Definition is_fence (env : PyEnv) (line : str) : bool :=
  match re_match env fence_pattern line with Some _ => true | None => false end.
Definition fence_count (env : PyEnv) (lines : list str) : nat :=
  length (filter (is_fence env) lines).

(** A heading line: [level] number signs, a blank, the title. *)
Definition heading_line (level : nat) (title : str) : str :=
  repeat 35 level ++ [32] ++ title.

(** A table row as it is usually written: cells padded with a blank
    between bars. *)
Definition table_row (cells : list str) : str :=
  [bar] ++ join [bar] (map (fun c => [32] ++ c ++ [32]) cells) ++ [bar].

(** The characters of a horizontal rule, and a test that a pattern
    cannot match a line, given bounds on the number of occurrences of
    each marker ([cnt]) and of the rule characters ([cnt3]) in the line. *)
Definition is_rule_char (c : N) : bool := existsb (N.eqb c) (lit "-*_").

Definition skipped (cnt : N -> nat) (cnt3 : nat) (r : regex) : bool :=
  existsb (fun m => Nat.ltb (cnt m) (min_in (N.eqb m) r)) markers
  || Nat.ltb cnt3 (min_in is_rule_char r).

(** The cells [convert_table] reads from a line. *)
Definition cells_of (line : str) : list str :=
  map strip (split bar (strip_chars [bar] line)).

(** *** Documents of simple lines *)

(** Three kinds of lines: a heading, an item of a bulleted list, a line
    of text without markers; how each is written and what each is
    converted to. *)
Inductive simple_line :=
| HeadingLine (level : nat) (title : str)
| BulletLine (indent item : str)
| ProseLine (words : str).

Definition source_of (l : simple_line) : str :=
  match l with
  | HeadingLine level title => heading_line level title
  | BulletLine indent item => indent ++ lit "- " ++ item
  | ProseLine words => words
  end.

Definition rendered_of (l : simple_line) : str :=
  match l with
  | HeadingLine _ title => lit "*" ++ title ++ lit "*"
  | BulletLine indent item => indent ++ [bullet; 32] ++ item
  | ProseLine words => rstrip words
  end.

(** Plain text inside a line, and a title or an item: not empty, no
    blank at its end. *)
Definition proseb (t : str) : bool :=
  forallb plainb t && negb (existsb (N.eqb NL) t).

Definition titleb (t : str) : bool :=
  negb (str_eqb t []) && proseb t && str_eqb (rstrip t) t.

Definition simple_ok (l : simple_line) : bool :=
  match l with
  | HeadingLine level title => Nat.leb 1 level && Nat.leb level 6 && titleb title
  | BulletLine indent item =>
      forallb isspace indent && negb (existsb (N.eqb NL) indent) && titleb item
  | ProseLine words => proseb words
  end.

(** The rules for italic and for bold text, the sixth and the
    fourteenth of [patterns]. *)
Definition italic_rule : regex * list titem := nth 5 patterns (Eps, []).
Definition bold_rule : regex * list titem := nth 13 patterns (Eps, []).

(** *** Tables as text *)

(** A line between two bars whose inner characters, and the closing
    bar, the atom [cs] matches. *)
Definition bar_line (env : PyEnv) (cs : cset) (l : str) : Prop :=
  exists m0 mid, l = bar :: m0 :: mid ++ [bar] /\
                 forallb (cmatch env cs) (m0 :: mid ++ [bar]) = true.

(** The lines after the first of a text, each with the newline before it. *)
Definition more_lines (ls : list str) : str := flat_map (fun l => NL :: l) ls.

(** The pattern of a data row of a table, as the group repeated at
    the end of [table_pattern]. *)
Definition row_pattern : regex :=
  Grp 2 (seqs [Chr (Lit NL); Bol true; text "|"; plus true Dot; text "|";
               Rep true Space; Eol true]).

(** A cell as [convert_table] returns it: no bar, no newline, no
    whitespace around it, nothing UTF-8 refuses. *)
Definition cellb (c : str) : bool :=
  negb (existsb (fun x => (x =? bar) || (x =? NL) || is_surrogate x) c)
  && str_eqb (strip c) c.

Definition pad (c : str) : str := [32] ++ c ++ [32].

(** A separator line: dashes, colons, bars and blanks between two bars. *)
Definition separator_line (inner : str) : str := [bar] ++ inner ++ [bar].

(** A table as text, and as [convert_table] renders it. *)
Definition table_text (headers : list str) (inner : str) (rows : list (list str)) : str :=
  join [NL] (table_row headers :: separator_line inner :: map table_row rows).

Definition table_rendered (headers : list str) (rows : list (list str)) : str :=
  join [NL] (join (lit " | ") (map (fun header => lit "*" ++ header ++ lit "*") headers)
             :: map (join (lit " | ")) rows).

(* ------------------------------------------------------------------ *)
(** *** What a successful match says about the groups

    [gmatches env r pre l suf' c c']: as [matches], and the groups go
    from [c] to [c'] while [r] matches [l].  The groups set inside a
    repetition of a body are not followed. *)
Fixpoint gmatches (env : PyEnv) (r : regex) (pre l suf' : str) (c c' : caps) : Prop :=
  match r with
  | Eps => l = [] /\ c' = c
  | Chr cs => (exists x, l = [x] /\ cmatch env cs x = true) /\ c' = c
  | Seq a b =>
      exists l1 l2 c1, l = l1 ++ l2 /\ gmatches env a pre l1 (l2 ++ suf') c c1
                       /\ gmatches env b (rev l1 ++ pre) l2 suf' c1 c'
  | Alt a b => gmatches env a pre l suf' c c' \/ gmatches env b pre l suf' c c'
  | Grp n a => exists c1, gmatches env a pre l suf' c c1 /\ c' = (n, l) :: c1
  | Rep _ cs => forallb (cmatch env cs) l = true /\ c' = c
  | Star a => star_m (matches env a) pre l suf'
  | Bol ml => l = [] /\ bol ml pre = true /\ c' = c
  | Eol ml => l = [] /\ eol ml suf' = true /\ c' = c
  | NotBehind cs =>
      l = [] /\ match pre with x :: _ => cmatch env cs x = false | [] => True end /\ c' = c
  | NotAhead cs =>
      l = [] /\ match suf' with x :: _ => cmatch env cs x = false | [] => True end /\ c' = c
  end.

(** *** Reading a text with an automaton

    [arun step q s]: the state reached from [q] over [s], or [None] when
    some character has no transition. *)
Fixpoint arun {Q : Type} (step : Q -> N -> option Q) (q : Q) (s : str) : option Q :=
  match s with
  | [] => Some q
  | x :: s' => match step q x with
               | Some q' => arun step q' s'
               | None => None
               end
  end.

(** What [sub_fn] makes of the pieces of a scan. *)
Definition render (f : mobj -> str) (ps : list (N + mobj)) : str :=
  flat_map (fun p => match p with inl x => [x] | inr m => f m end) ps.

(** *** The table pass, line by line *)

(** The text [convert_table] records for a table block. *)
Definition render_table (original_table : str) : str :=
  let table_lines := split NL (strip original_table) in
  let header_line := nth 0 table_lines [] in
  let data_lines :=
    if Nat.ltb 2 (length table_lines) then skipn 2 table_lines else [] in
  let headers := map strip (split bar (strip_chars [bar] header_line)) in
  let rows := map (fun line => map strip (split bar (strip_chars [bar] line))) data_lines in
  join [NL]
    (join (lit " | ") (map (fun header => lit "*" ++ header ++ lit "*") headers)
     :: map (join (lit " | ")) rows).

(** What the table pass makes of the lines of a text, from the start
    of a line on ([pre] is the text before it, last character first):
    a line at which no table block starts is kept, and the lines of a
    block that starts there give way to one line, the block's token. *)
Inductive collapsed (env : PyEnv) : str -> list str -> list str -> Prop :=
| col_nil pre : collapsed env pre [] []
| col_keep pre l ls os :
    match_at env table_pattern false pre (join [NL] (l :: ls)) = None ->
    collapsed env (NL :: rev l ++ pre) ls os ->
    collapsed env pre (l :: ls) (l :: os)
| col_table pre g ls os c :
    g <> [] ->
    match_at env table_pattern false pre (join [NL] (g ++ ls)) = Some (join [NL] g, c) ->
    collapsed env (NL :: rev (join [NL] g) ++ pre) ls os ->
    collapsed env pre (g ++ ls) (placeholder_of env (join [NL] g) :: os).

(** The entries the pass adds to the table of replacements: the token
    and the rendering of a block of the text. *)
Definition recorded (env : PyEnv) (text : str) (kv : str * str) : Prop :=
  exists t, occurs t text /\ kv = (placeholder_of env t, render_table t).

(** The automaton of the texts in which every line but the first
    starts with a bar or a blank character: the state says whether the
    last character read was a newline. *)
Definition tl_step (at_start : bool) (c : N) : option bool :=
  if at_start && negb ((c =? bar) || isspace c) then None else Some (c =? NL).

(** A line of a table block: it starts with a bar or a blank
    character, if it is not empty. *)
Definition tableish (l : str) : Prop :=
  match l with
  | [] => True
  | x :: _ => x = bar \/ isspace x = true
  end.

(** The text before a line, last character first, when the lines
    [done] come before it (after [pre]). *)
Definition before_line (pre : str) (done : list str) : str :=
  rev (flat_map (fun l => l ++ [NL]) done) ++ pre.

(** A table block starts at line [i] of the text made of [lines]. *)
Definition table_starts (env : PyEnv) (lines : list str) (i : nat) : bool :=
  match match_at env table_pattern false (before_line [] (firstn i lines))
                 (join [NL] (skipn i lines)) with
  | Some _ => true
  | None => false
  end.

(** [p] occurs in [s], as a test. *)
Fixpoint occursb (p s : str) : bool :=
  match s with
  | [] => startswith [] p
  | _ :: s' => startswith s p || occursb p s'
  end.

(** Patterns without groups. *)
Fixpoint no_groups (r : regex) : bool :=
  match r with
  | Seq a b | Alt a b => no_groups a && no_groups b
  | Grp _ _ | Star _ => false
  | _ => true
  end.

(** The automaton of the texts without two percent signs in a row: the
    state says whether the last character read was a percent sign. *)
Definition pp_step (p : bool) (c : N) : option bool :=
  if c =? 37 then (if p then None else Some true) else Some false.

(** A state is as good as another when it accepts all the other
    accepts: the same state, or the one after a character that is not a
    percent sign. *)
Definition rho_pp (q1 q2 : bool) : Prop := q2 = false \/ q2 = q1.

(** Replacing [m] by [e] puts no two percent signs side by side. *)
Definition sim_pp (m e : str) : Prop :=
  forall q1 q2 q1', rho_pp q1 q2 -> arun pp_step q1 m = Some q1' ->
                    exists q2', arun pp_step q2 e = Some q2' /\ rho_pp q1' q2'.

(** Texts without two percent signs in a row, as the automaton sees
    them. *)
Definition pp_ok (s : str) : Prop := arun pp_step false s <> None.

(** What a rule must do for these texts: its replacements are harmless. *)
Definition rule_pp (env : PyEnv) (pr : regex * list titem) : Prop :=
  forall adv pre suf m c,
    match_at env (fst pr) adv pre suf = Some (m, c) ->
    sim_pp m (expand (snd pr) (m, c)).

(** Every match holds a literal character of the pattern. *)
Definition has_literal (r : regex) : bool := Nat.leb 1 (min_in (fun _ => true) r).

(** *** Lines with sentinels

    The automaton of the lines between the first and the last step of
    [rewrite_rules]: no newline, text without two percent signs in a
    row, and in it the two sentinels in turn, the opening one first.  A
    state holds whether an emphasis is open, how many characters of the
    sentinel awaited next have just been read, and, at two characters,
    whether one more percent sign stands before them. *)
Definition pn_step (p : bool) (c : N) : option bool :=
  if c =? NL then None else pp_step p c.

Definition sw_tok (ins : bool) : str := if ins then triple_end else triple_start.

Definition sw_state : Type := (bool * nat * bool)%type.

Definition sw_step (q : sw_state) (c : N) : option sw_state :=
  let '(ins, k, lead) := q in
  if c =? NL then None
  else match k with
       | 0%nat => Some (ins, if c =? 37 then 1%nat else 0%nat, false)
       | 1%nat => Some (ins, if c =? 37 then 2%nat else 0%nat, false)
       | _ =>
           if (c =? 37) && Nat.eqb k 2
           then (if lead then None else Some (ins, 2%nat, true))
           else match nth_error (sw_tok ins) k with
                | Some x =>
                    if c =? x
                    then Some (if Nat.eqb (S k) (length (sw_tok ins))
                               then (negb ins, 0%nat, false) else (ins, S k, false))
                    else None
                | None => None
                end
       end.

(** The states in text: after a percent sign ([p]) or not. *)
Definition sw_text (ins p : bool) : sw_state := (ins, if p then 1%nat else 0%nat, false).

(** The lines the automaton accepts: every emphasis closed. *)
Definition sw_ok (s : str) : Prop :=
  exists p, arun sw_step (sw_text false false) s = Some (sw_text false p).

(** Replacing [m] by [e] leaves the automaton where it was. *)
Definition keeps (m e : str) : Prop :=
  forall q q', arun sw_step q m = Some q' -> arun sw_step q e = Some q'.

Definition rule_sw (env : PyEnv) (pr : regex * list titem) : Prop :=
  forall adv pre suf m c,
    match_at env (fst pr) adv pre suf = Some (m, c) ->
    keeps m (expand (snd pr) (m, c)).

(** Characters that are in no sentinel, and characters of plain text. *)
Definition neutral (c : N) : bool :=
  negb (existsb (N.eqb c) (NL :: triple_start ++ triple_end)).
Definition plainc (c : N) : bool := negb (c =? 37) && negb (c =? NL).

(** A line on which the rules keep the sentinels in order: triple
    asterisks and an opening square bracket do not meet in it. *)
Definition emphasis_apart (line : str) : bool :=
  negb (has3 line && existsb (N.eqb 91) line).

(* ================================================================== *)
(** ** The endpoint

    The steps of [SlackEndpoint._invoke] that compute on strings: the
    mention removed from the front of the message, the users of a
    thread, their ids replaced by names, and the answer cut into
    messages.  The calls to Slack and to the application between these
    steps are not modelled. *)

(** [s.split(sep, 1)] when [sep] occurs in [s]: the text before the
    first occurrence and the text after it; [None] is [sep not in s]. *)
Fixpoint split_once (sep s : str) : option (str * str) :=
  match s with
  | [] => if startswith [] sep then Some ([], []) else None
  | c :: s' =>
      if startswith s sep then Some ([], skipn (length sep) s)
      else match split_once sep s' with
           | Some (a, b) => Some (c :: a, b)
           | None => None
           end
  end.

(** "if message.startswith("<@"):
       message = message.split("> ", 1)[1] if "> " in message else message" *)
Definition strip_mention (message : str) : str :=
  if startswith message (lit "<@") then
    match split_once (lit "> ") message with
    | Some (_, rest) => rest
    | None => message
    end
  else message.

(** [re.findall(r, s)] for a pattern with one group: the group of each
    match, in order. *)
Definition findall (env : PyEnv) (r : regex) (s : str) : list str :=
  flat_map (fun p => match p with inl _ => [] | inr m => [group 1 (snd m)] end)
           (pieces env r 0 [] s).

(** "<@([^>]+)>" *)
Definition mention_pattern : regex :=
  seqs [text "<@"; Grp 1 (plus true (NoneOf (lit ">"))); text ">"].

(** "<@([A-Za-z0-9]+)>" *)
Definition alnum_chars : str :=
  lit "ABCDEFGHIJKLMNOPQRSTUVWXYZabcdefghijklmnopqrstuvwxyz0123456789".
Definition id_pattern : regex :=
  seqs [text "<@"; Grp 1 (plus true (OneOf alnum_chars)); text ">"].

(** The two patterns for a mention: "<@", one or more characters of a
    class, ">". *)
Definition tag_pattern (cs : cset) : regex :=
  seqs [text "<@"; Grp 1 (plus true cs); text ">"].

(** A mention as text. *)
Definition mention (user_id : str) : str := lit "<@" ++ user_id ++ lit ">".

(** A message of [conversations.replies]: the fields the endpoint
    reads, [None] for a key that is missing. *)
Record slack_message := {
  msg_bot_id : option str;
  msg_user : option str;
  msg_text : option str
}.

Definition get_default (v : option str) (default : str) : str :=
  match v with Some x => x | None => default end.

Definition unknown : str := lit "unknown".

(** "if user_id not in user_id_list: user_id_list.append(user_id)" *)
Definition append_new (user_id_list : list str) (user_id : str) : list str :=
  if existsb (str_eqb user_id) user_id_list then user_id_list
  else user_id_list ++ [user_id].

(** The loop over the messages of the thread, for [user_id_list]. *)
Definition user_id_step (env : PyEnv) (user_id_list : list str) (msg : slack_message)
  : list str :=
  let content := get_default (msg_text msg) [] in
  let user_id := get_default (msg_user msg) unknown in
  let user_id_list :=
    if negb (str_eqb user_id unknown) then append_new user_id_list user_id
    else user_id_list in
  if negb (str_eqb content [])
  then fold_left append_new (findall env mention_pattern content) user_id_list
  else user_id_list.

Definition collect_user_ids (env : PyEnv) (messages : list slack_message) : list str :=
  fold_left (user_id_step env) messages [].

(** [d.get(k)]. *)
Fixpoint dict_get (d : dict) (k : str) : option str :=
  match d with
  | [] => None
  | (k', v) :: d' => if str_eqb k' k then Some v else dict_get d' k
  end.

(** The closure [replace_id_with_name] and the substitution it is the
    callback of. *)
Definition replace_id_with_name (user_display_name_map : dict) (m : mobj) : str :=
  let user_id := group 1 (snd m) in
  match dict_get user_display_name_map user_id with
  | Some name => lit "@" ++ name
  | None => fst m
  end.

Definition replace_ids (env : PyEnv) (user_display_name_map : dict) (content : str) : str :=
  sub_fn env id_pattern (replace_id_with_name user_display_name_map) content.

(** "key_to_check = f"slack-{channel}-{thread_ts}"", for a thread
    timestamp that is a string. *)
Definition key_to_check (channel thread_ts : str) : str :=
  lit "slack-" ++ channel ++ lit "-" ++ thread_ts.

Definition MAX_MSG_LEN : nat := 3000.

(** [range(0, stop, step)] for a positive [step]; [fuel] bounds the
    number of elements. *)
Fixpoint range_from (fuel start stop step : nat) : list nat :=
  match fuel with
  | O => []
  | S fuel' =>
      if Nat.ltb start stop then start :: range_from fuel' (start + step) stop step
      else []
  end.
Definition range (stop step : nat) : list nat := range_from stop 0 stop step.

(** [s[i:j]] for [0 <= i <= j]. *)
Definition slice (s : str) (i j : nat) : str := firstn (j - i) (skipn i s).

(** "[converted_answer[i : i + MAX_MSG_LEN]
      for i in range(0, len(converted_answer), MAX_MSG_LEN)]" *)
Definition chunks_of (n : nat) (s : str) : list str :=
  map (fun i => slice s i (i + n)) (range (length s) n).
Definition chunks (converted_answer : str) : list str :=
  chunks_of MAX_MSG_LEN converted_answer.

(** The arguments of one [chat_postMessage] of the answer that vary:
    the fallback text, the text of the block, the broadcast flag. *)
Record posted := {
  post_text : str;
  post_block_text : str;
  post_reply_broadcast : bool
}.

Fixpoint enumerate_from {A} (i : nat) (l : list A) : list (nat * A) :=
  match l with
  | [] => []
  | a :: l' => (i, a) :: enumerate_from (S i) l'
  end.

(** The messages posted for a converted answer.  [first_reply_broadcast]
    is the truth value of the setting, [history_len] the length of
    [thread_history]. *)
Definition answer_posts (first_reply_broadcast : bool) (history_len : nat)
    (converted_answer : str) : list posted :=
  let reply_broadcast := first_reply_broadcast && Nat.eqb history_len 1 in
  map (fun ic =>
         let chunk_reply_broadcast :=
           if Nat.eqb (fst ic) 0 then reply_broadcast else false in
         {| post_text := snd ic; post_block_text := snd ic;
            post_reply_broadcast := chunk_reply_broadcast |})
      (enumerate_from 0 (chunks converted_answer)).

(** From the answer of the application ([None] when the response has
    no answer) to the messages: a new converter, [convert], the chunks. *)
Definition send_answer (env : PyEnv) (first_reply_broadcast : bool) (history_len : nat)
    (answer : option str) : exn + list posted :=
  let converter := __init__ Utf8 in
  match returned (convert env (get_default answer []) converter) with
  | inr converted_answer =>
      inr (answer_posts first_reply_broadcast history_len converted_answer)
  | inl e => inl e
  end.

(* ================================================================== *)
(** ** Facts about the string operations *)

Lemma startswith_app (p rest : str) : startswith (p ++ rest) p = true.
Proof.
  induction p as [|a p IH]; simpl; [reflexivity|].
  now rewrite N.eqb_refl, IH.
Qed.

Lemma endswith_app (rest p : str) : endswith (rest ++ p) p = true.
Proof.
  unfold endswith. rewrite rev_app_distr. apply startswith_app.
Qed.

Lemma startswith_true (s p : str) :
  startswith s p = true -> exists rest, s = p ++ rest.
Proof.
  revert s; induction p as [|a p IH]; intros s H; simpl in *.
  - now exists s.
  - destruct s as [|b s]; [discriminate|].
    apply andb_true_iff in H as [Hab Hs]. apply N.eqb_eq in Hab; subst b.
    destruct (IH _ Hs) as [rest ->]. now exists rest.
Qed.

Lemma split_no_sep (sep : N) (s : str) :
  ~ In sep s -> split sep s = [s].
Proof.
  induction s as [|c s IH]; intros Hn; simpl; [reflexivity|].
  destruct (N.eqb_spec c sep) as [->|Hne].
  - exfalso; apply Hn; now left.
  - rewrite IH; [reflexivity|]. intros Hin; apply Hn; now right.
Qed.

Lemma split_app_sep (sep : N) (a b : str) :
  ~ In sep a -> split sep (a ++ sep :: b) = a :: split sep b.
Proof.
  induction a as [|c a IH]; intros Hn; simpl.
  - now rewrite N.eqb_refl.
  - destruct (N.eqb_spec c sep) as [->|Hne].
    + exfalso; apply Hn; now left.
    + rewrite IH; [reflexivity|]. intros Hin; apply Hn; now right.
Qed.

Lemma replace_from_skip (old new a rest : str) :
  replace_from old new (length a) (a ++ rest) = replace_from old new 0 rest.
Proof.
  induction a as [|c a IH]; simpl; [|exact IH].
  destruct rest; reflexivity.
Qed.

Lemma replace_from_hit (old new rest : str) :
  old <> [] ->
  replace_from old new 0 (old ++ rest) = new ++ replace_from old new 0 rest.
Proof.
  destruct old as [|c old]; [congruence|]; intros _.
  change ((c :: old) ++ rest) with (c :: (old ++ rest)).
  cbn [replace_from].
  change (c :: old ++ rest) with ((c :: old) ++ rest).
  rewrite startswith_app.
  replace (length (c :: old) - 1)%nat with (length old) by (simpl; lia).
  now rewrite replace_from_skip.
Qed.

Lemma string_of_uint_digits (u : Decimal.uint) :
  forallb sign_or_digit (lit (NilEmpty.string_of_uint u)) = true.
Proof.
  induction u; simpl; try reflexivity; exact IHu.
Qed.

Lemma str_of_int_digits (z : Z) : forallb sign_or_digit (str_of_int z) = true.
Proof.
  unfold str_of_int, NilZero.string_of_int.
  destruct (Z.to_int z) as [u|u]; unfold NilZero.string_of_uint.
  - destruct u; try reflexivity; apply (string_of_uint_digits (_ u)).
  - change (forallb sign_or_digit (45 :: lit (NilZero.string_of_uint u)) = true).
    simpl. unfold NilZero.string_of_uint.
    destruct u; try reflexivity; apply (string_of_uint_digits (_ u)).
Qed.

(* ================================================================== *)
(** ** Lemmas on the converter *)

Lemma sign_or_digit_not (c : N) (l : str) :
  forallb sign_or_digit l = true -> sign_or_digit c = false -> ~ In c l.
Proof.
  intros Hall Hc Hin. rewrite forallb_forall in Hall.
  specialize (Hall _ Hin). congruence.
Qed.

Lemma placeholder_no_newline (env : PyEnv) (t : str) : ~ In NL (placeholder_of env t).
Proof.
  unfold placeholder_of. rewrite !in_app_iff. intros [H|[H|H]].
  - revert H. vm_compute. intuition discriminate.
  - revert H. apply sign_or_digit_not; [apply str_of_int_digits|reflexivity].
  - revert H. vm_compute. intuition discriminate.
Qed.

Lemma placeholder_nonempty (env : PyEnv) (t : str) : placeholder_of env t <> [].
Proof. unfold placeholder_of. discriminate. Qed.

(** A line of the placeholder's shape is returned as it is, whatever the
    state of the object. *)
Lemma _convert_line_shape (env : PyEnv) (line : str) (self : SlackMarkdownConverter) :
  startswith line placeholder_prefix = true ->
  endswith line pct2 = true ->
  _convert_line env line self = (inr line, self).
Proof.
  intros H1 H2. unfold _convert_line. now rewrite H1, H2.
Qed.

Lemma _convert_line_placeholder (env : PyEnv) (t : str) (self : SlackMarkdownConverter) :
  _convert_line env (placeholder_of env t) self = (inr (placeholder_of env t), self).
Proof.
  apply _convert_line_shape; unfold placeholder_of.
  - apply startswith_app.
  - rewrite app_assoc. apply endswith_app.
Qed.

Lemma convert_nonempty (env : PyEnv) (c : N) (s : str) (self : SlackMarkdownConverter) :
  convert env (c :: s) self =
  try_returning (strip (c :: s))
    (set_table_replacements [] ;;; _convert_tables env (strip (c :: s)))
    (fun markdown2 =>
       try_returning markdown2
         (converted_lines <- mapM (_convert_line env) (split NL markdown2) ;;
          items <- get table_replacements ;;
          enc <- get encoding ;;
          lift (encode_decode enc (replace_all items (join [NL] converted_lines))))
         ret) self.
Proof. reflexivity. Qed.

Lemma _convert_tables_example (env : PyEnv) (enc : Encoding) (b : bool) (d : dict) :
  (set_table_replacements [] ;;; _convert_tables env (strip table_example))
    {| encoding := enc; in_code_block := b; table_replacements := d |} =
  (inr (placeholder_of env table_example),
   {| encoding := enc; in_code_block := b;
      table_replacements := [(placeholder_of env table_example, table_example_rendered)] |}).
Proof.
  rewrite <- (app_nil_r (placeholder_of env table_example)) at 1.
  vm_compute. reflexivity.
Qed.

(* ------------------------------------------------------------------ *)
(** *** The fence marker *)

Lemma take_drop_while (p : N -> bool) (s : str) :
  take_while p s ++ drop_while p s = s.
Proof.
  induction s as [|x s IH]; simpl; [reflexivity|].
  destruct (p x); simpl; [now rewrite IH|reflexivity].
Qed.

Lemma take_while_all (p : N -> bool) (s : str) : forallb p (take_while p s) = true.
Proof.
  induction s as [|x s IH]; simpl; [reflexivity|].
  destruct (p x) eqn:E; simpl; [now rewrite E|reflexivity].
Qed.

Lemma take_while_forallb (p : N -> bool) (s rest : str) :
  forallb p s = true ->
  match rest with x :: _ => p x = false | [] => True end ->
  take_while p (s ++ rest) = s /\ drop_while p (s ++ rest) = rest.
Proof.
  intros Hs Hr. induction s as [|x s IH]; simpl in *.
  - destruct rest as [|y rest]; simpl; [auto|]. now rewrite Hr.
  - apply andb_true_iff in Hs as [Hx Hs]. rewrite Hx.
    destruct (IH Hs) as [-> ->]. auto.
Qed.

Lemma consumed_app (pre l : str) : consumed pre (rev l ++ pre) = l.
Proof.
  unfold consumed. rewrite length_app, length_rev.
  replace (length l + length pre - length pre)%nat with (length (rev l)) 
    by (rewrite length_rev; lia).
  rewrite firstn_app, Nat.sub_diag, firstn_all. simpl.
  now rewrite app_nil_r, rev_involutive.
Qed.

(** A greedy repetition whose continuation fails in front of a further
    character of the set stops exactly where the set ends. *)
Lemma rep_greedy_maximal (env : PyEnv) (cs : cset) (k : cont) :
  (forall p x s c, cmatch env cs x = true -> k p (x :: s) c = None) ->
  forall suf pre c,
    rep_greedy env cs k pre suf c =
    k (rev (take_while (cmatch env cs) suf) ++ pre) (drop_while (cmatch env cs) suf) c.
Proof.
  intros Hk. induction suf as [|x suf IH]; intros pre c; simpl; [reflexivity|].
  destruct (cmatch env cs x) eqn:E; [|reflexivity].
  rewrite IH. simpl. rewrite <- app_assoc. simpl.
  destruct (k _ _ c) eqn:Ek; [reflexivity|].
  now rewrite Hk.
Qed.

Lemma isword_not_newline (env : PyEnv) (x : N) : isword env x = true -> x <> NL.
Proof. intros H ->. discriminate H. Qed.

Lemma re_match_fence (env : PyEnv) (line : str) :
  re_match env fence_pattern line =
  match fence_tag env line with
  | Some tag => Some (backticks ++ tag, [(1%nat, tag)])
  | None => None
  end.
Proof.
  unfold fence_tag, re_match, match_at.
  change fence_pattern with
    (Seq (Bol false) (Seq (Seq (Chr (Lit 96)) (Seq (Chr (Lit 96)) (Chr (Lit 96))))
       (Seq (Grp 1 (Rep true Word)) (Eol false)))).
  cbn [run bol cmatch andb].
  destruct line as [|a [|b [|c rest]]].
  - reflexivity.
  - change (startswith [a] backticks) with ((96 =? a) && false).
    rewrite andb_false_r. now destruct (a =? 96).
  - change (startswith [a; b] backticks) with ((96 =? a) && ((96 =? b) && false)).
    rewrite !andb_false_r. now destruct (a =? 96), (b =? 96).
  - change (startswith (a :: b :: c :: rest) backticks)
      with ((96 =? a) && ((96 =? b) && ((96 =? c) && true))).
    rewrite (N.eqb_sym 96 a), (N.eqb_sym 96 b), (N.eqb_sym 96 c), andb_true_r.
    destruct (N.eqb_spec a 96) as [->|Ha]; [|reflexivity].
    destruct (N.eqb_spec b 96) as [->|Hb]; [|reflexivity].
    destruct (N.eqb_spec c 96) as [->|Hc]; [|reflexivity].
    cbn [andb skipn]. rewrite rep_greedy_maximal.
    + change (cmatch env Word) with (isword env).
      destruct (eol false _); [|reflexivity].
      change [96; 96; 96] with (rev backticks).
      rewrite consumed_app.
      rewrite <- rev_app_distr, <- (app_nil_r (rev _)), consumed_app.
      reflexivity.
    + intros p x s c0 Hx. cbn in Hx.
      apply isword_not_newline in Hx. unfold eol.
      destruct (N.eqb_spec x NL); [contradiction|reflexivity].
Qed.

Lemma fence_tag_some (env : PyEnv) (line tag : str) :
  fence_tag env line = Some tag ->
  forallb (isword env) tag = true /\
  (line = backticks ++ tag \/ line = backticks ++ tag ++ [NL]).
Proof.
  unfold fence_tag. destruct (startswith line backticks) eqn:Hs; [|discriminate].
  apply startswith_true in Hs as [rest ->].
  change (skipn 3 (backticks ++ rest)) with rest.
  destruct (eol false (drop_while (isword env) rest)) eqn:He; [|discriminate].
  intros [= <-]. split; [apply take_while_all|].
  rewrite <- (take_drop_while (isword env) rest) at 1 3.
  destruct (drop_while (isword env) rest) as [|x [|y r]]; simpl in He.
  - left. now rewrite app_nil_r.
  - right. rewrite andb_true_r in He. apply N.eqb_eq in He. now subst x.
  - now rewrite andb_false_r in He.
Qed.

Lemma fence_tag_whole (env : PyEnv) (tag : str) :
  forallb (isword env) tag = true -> fence_tag env (backticks ++ tag) = Some tag.
Proof.
  intros Ht. unfold fence_tag. rewrite startswith_app.
  change (skipn 3 (backticks ++ tag)) with tag.
  destruct (take_while_forallb (isword env) tag [] Ht I) as [H1 H2].
  rewrite app_nil_r in H1, H2. now rewrite H1, H2.
Qed.

Lemma fence_not_placeholder (line : str) :
  startswith line backticks = true -> startswith line placeholder_prefix = false.
Proof.
  intros H. apply startswith_true in H as [rest ->]. reflexivity.
Qed.

(** A fence line flips the flag; it is emitted with its tag when it
    opens a block and bare when it closes one. *)
Lemma _convert_line_fence (env : PyEnv) (line tag : str) (self : SlackMarkdownConverter) :
  fence_tag env line = Some tag ->
  _convert_line env line self =
  (inr (if negb (in_code_block self) && negb (Nat.eqb (length tag) 0)
        then backticks ++ tag else backticks), toggled self).
Proof.
  intros Hf. unfold _convert_line.
  assert (Hs : startswith line placeholder_prefix = false).
  { apply fence_not_placeholder. unfold fence_tag in Hf.
    now destruct (startswith line backticks). }
  rewrite Hs, re_match_fence, Hf. cbn [andb snd group Nat.eqb].
  unfold bind, get, set_in_code_block, ret, toggled. cbn [in_code_block].
  now destruct (negb (in_code_block self) && negb (Nat.eqb (length tag) 0)).
Qed.

(** A line that is not a fence leaves the object as it is; inside a code
    block it is returned unchanged, outside it goes through the rules. *)
Lemma _convert_line_plain (env : PyEnv) (line : str) (self : SlackMarkdownConverter) :
  fence_tag env line = None ->
  _convert_line env line self =
  (inr (if startswith line placeholder_prefix && endswith line pct2 then line
        else if in_code_block self then line else rewrite_rules env line), self).
Proof.
  intros Hf. unfold _convert_line. rewrite re_match_fence, Hf.
  destruct (startswith line placeholder_prefix && endswith line pct2); [reflexivity|].
  unfold bind, get, ret. now destruct (in_code_block self).
Qed.

Lemma fence_tag_none (env : PyEnv) (line : str) :
  ~ In NL line ->
  (forall tag, forallb (isword env) tag = true -> line <> backticks ++ tag) ->
  fence_tag env line = None.
Proof.
  intros Hnl Hshape. destruct (fence_tag env line) as [tag|] eqn:Hf; [|reflexivity].
  apply fence_tag_some in Hf as [Hw [->| ->]].
  - now elim (Hshape tag Hw).
  - elim Hnl. rewrite !in_app_iff. right; right; now left.
Qed.

Lemma backticks_tag_inv (tag rest : str) :
  backticks ++ rest = backticks ++ tag -> rest = tag.
Proof. intros H. now apply app_inv_head in H. Qed.

(* ------------------------------------------------------------------ *)
(** *** Fenced blocks *)

Lemma mapM_cons {A B} (f : A -> M B) (a : A) (l : list A) (self : SlackMarkdownConverter) :
  mapM f (a :: l) self =
  match f a self with
  | (inr b, self1) =>
      match mapM f l self1 with
      | (inr bs, self2) => (inr (b :: bs), self2)
      | (inl e, self2) => (inl e, self2)
      end
  | (inl e, self1) => (inl e, self1)
  end.
Proof.
  cbn [mapM]. unfold bind at 1. destruct (f a self) as [[e|b] self1]; [reflexivity|].
  unfold bind. destruct (mapM f l self1) as [[e|bs] self2]; reflexivity.
Qed.

Lemma mapM_inside_block (env : PyEnv) (body rest : list str)
    (self : SlackMarkdownConverter) :
  in_code_block self = true ->
  Forall (fun l => re_match env fence_pattern l = None) body ->
  mapM (_convert_line env) (body ++ rest) self =
  match mapM (_convert_line env) rest self with
  | (inr out, self') => (inr (body ++ out), self')
  | (inl e, self') => (inl e, self')
  end.
Proof.
  intros Hin Hbody. induction Hbody as [|l body Hl _ IH]; cbn [app].
  - now destruct (mapM _ rest self) as [[e|out] self'].
  - rewrite mapM_cons. rewrite re_match_fence in Hl.
    assert (Hf : fence_tag env l = None) by now destruct (fence_tag env l).
    rewrite (_convert_line_plain env l self Hf), Hin, IH.
    destruct (mapM _ rest self) as [[e|out] self']; [reflexivity|].
    now destruct (startswith l placeholder_prefix && endswith l pct2).
Qed.

(* ------------------------------------------------------------------ *)
(** *** The stages of [convert] *)

(** [convert] on a non-empty string, once the table pass has returned. *)
Lemma convert_after_tables (env : PyEnv) (c : N) (s md2 : str)
    (self self1 : SlackMarkdownConverter) :
  (set_table_replacements [] ;;; _convert_tables env (strip (c :: s))) self
    = (inr md2, self1) ->
  convert env (c :: s) self =
  match mapM (_convert_line env) (split NL md2) self1 with
  | (inr ls, self2) =>
      match encode_decode (encoding self2)
              (replace_all (table_replacements self2) (join [NL] ls)) with
      | inr r => (inr r, self2)
      | inl _ => (inr md2, self2)
      end
  | (inl _, self2) => (inr md2, self2)
  end.
Proof.
  intros Ht. rewrite convert_nonempty. unfold try_returning at 1. rewrite Ht.
  unfold try_returning, bind at 1.
  destruct (mapM _ _ self1) as [[e|ls] self2]; [reflexivity|].
  cbv [bind get lift ret].
  now destruct (encode_decode _ _).
Qed.

(** ... and when the table pass raised. *)
Lemma convert_tables_raised (env : PyEnv) (c : N) (s : str) (e : exn)
    (self self1 : SlackMarkdownConverter) :
  (set_table_replacements [] ;;; _convert_tables env (strip (c :: s))) self
    = (inl e, self1) ->
  convert env (c :: s) self = (inr (strip (c :: s)), self1).
Proof.
  intros Ht. rewrite convert_nonempty. unfold try_returning at 1. now rewrite Ht.
Qed.

Lemma replace_placeholder_alone (env : PyEnv) (t new : str) :
  replace (placeholder_of env t) new (placeholder_of env t) = new.
Proof.
  unfold replace.
  destruct (placeholder_of env t) as [|p0 ps] eqn:Hp;
    [now apply placeholder_nonempty in Hp|].
  rewrite <- (app_nil_r (p0 :: ps)) at 2.
  rewrite replace_from_hit by discriminate.
  apply app_nil_r.
Qed.

(** A document that is one table: the result is the rendered table if it
    can be encoded, and otherwise the placeholder token. *)
Lemma convert_single_table (env : PyEnv) (c : N) (s t rendered : str)
    (enc : Encoding) (b : bool) (d : dict) :
  (set_table_replacements [] ;;; _convert_tables env (strip (c :: s)))
    {| encoding := enc; in_code_block := b; table_replacements := d |}
  = (inr (placeholder_of env t),
     {| encoding := enc; in_code_block := b;
        table_replacements := [(placeholder_of env t, rendered)] |}) ->
  returned (convert env (c :: s)
              {| encoding := enc; in_code_block := b; table_replacements := d |})
  = inr (match encode_decode enc rendered with
         | inr r => r
         | inl _ => placeholder_of env t
         end).
Proof.
  intros Ht. rewrite (convert_after_tables env c s _ _ _ Ht).
  rewrite (split_no_sep NL _ (placeholder_no_newline env t)).
  rewrite mapM_cons, _convert_line_placeholder. cbn [mapM ret].
  cbn [table_replacements encoding join replace_all].
  rewrite replace_placeholder_alone.
  now destruct (encode_decode enc rendered).
Qed.

Lemma replace_from_miss (o : N) (old new a rest : str) :
  ~ In o a ->
  replace_from (o :: old) new 0 (a ++ rest) = a ++ replace_from (o :: old) new 0 rest.
Proof.
  induction a as [|c a IH]; intros Hn; [reflexivity|].
  cbn [app replace_from startswith].
  destruct (N.eqb_spec o c) as [->|Hne]; [elim Hn; now left|].
  cbn [andb]. rewrite IH; [reflexivity|]. intros H; apply Hn; now right.
Qed.

Lemma placeholder_head (env : PyEnv) (t : str) :
  placeholder_of env t = 37 :: tl (placeholder_of env t).
Proof. reflexivity. Qed.

Lemma replace_between (o : N) (old new a b : str) :
  ~ In o a -> ~ In o b ->
  replace (o :: old) new (a ++ (o :: old) ++ b) = a ++ new ++ b.
Proof.
  intros Ha Hb. unfold replace.
  rewrite replace_from_miss by exact Ha.
  rewrite replace_from_hit by discriminate.
  rewrite <- (app_nil_r b) at 1.
  rewrite replace_from_miss by exact Hb. cbn [replace_from].
  now rewrite app_nil_r.
Qed.

(** One occurrence of a placeholder between texts without a percent sign. *)
Lemma replace_placeholder_between (env : PyEnv) (t new a b : str) :
  ~ In 37 a -> ~ In 37 b ->
  replace (placeholder_of env t) new (a ++ placeholder_of env t ++ b) = a ++ new ++ b.
Proof.
  intros Ha Hb. rewrite (placeholder_head env t). now apply replace_between.
Qed.

Lemma _convert_tables_fenced (env : PyEnv) :
  (set_table_replacements [] ;;; _convert_tables env (strip fenced_table)) (__init__ Utf8) =
  (inr (backticks ++ [NL] ++ placeholder_of env table_example ++ [NL] ++ backticks),
   {| encoding := Utf8; in_code_block := false;
      table_replacements := [(placeholder_of env table_example, table_example_rendered)] |}).
Proof. vm_compute. reflexivity. Qed.

Lemma convert_fenced_table (env : PyEnv) :
  returned (convert env fenced_table (__init__ Utf8)) = inr fenced_table_converted.
Proof.
  change fenced_table with (96 :: tl fenced_table) at 1.
  rewrite (convert_after_tables env 96 (tl fenced_table) _ _ _ (_convert_tables_fenced env)).
  change (backticks ++ [NL] ++ placeholder_of env table_example ++ [NL] ++ backticks)
    with (backticks ++ NL :: (placeholder_of env table_example ++ NL :: backticks)).
  rewrite split_app_sep by (vm_compute; intuition discriminate).
  rewrite split_app_sep by apply placeholder_no_newline.
  change (split NL backticks) with [backticks].
  rewrite mapM_cons.
  rewrite (_convert_line_fence env backticks [] _ eq_refl).
  rewrite mapM_cons, _convert_line_placeholder.
  rewrite mapM_cons.
  rewrite (_convert_line_fence env backticks [] _ eq_refl).
  cbn [mapM ret toggled in_code_block negb andb encoding table_replacements
       replace_all join length Nat.eqb].
  change (backticks ++ [NL] ++ placeholder_of env table_example ++ [NL] ++ backticks)
    with ((backticks ++ [NL]) ++ placeholder_of env table_example ++ [NL] ++ backticks).
  rewrite replace_placeholder_between by (vm_compute; intuition discriminate).
  reflexivity.
Qed.

(* ------------------------------------------------------------------ *)
(** *** A table that UTF-8 cannot encode *)

Lemma _convert_tables_surrogate (env : PyEnv) :
  (set_table_replacements [] ;;; _convert_tables env (strip table_with_surrogate))
    {| encoding := Utf8; in_code_block := false; table_replacements := [] |} =
  (inr (placeholder_of env table_with_surrogate),
   {| encoding := Utf8; in_code_block := false;
      table_replacements :=
        [(placeholder_of env table_with_surrogate, lit "*A*" ++ [NL; 55296])] |}).
Proof.
  rewrite <- (app_nil_r (placeholder_of env table_with_surrogate)) at 1.
  vm_compute. reflexivity.
Qed.

(* ------------------------------------------------------------------ *)
(** *** Text without markdown *)

Section NoMatch.
Variable env : PyEnv.

(** Where a pattern finds nothing, [sub] returns its subject. *)
Lemma pieces_no_match (r : regex) (suf pre : str) :
  search_from env r pre suf = false -> pieces env r 0 pre suf = map inl suf.
Proof.
  revert pre. induction suf as [|x suf IH]; intros pre H; cbn [search_from pieces] in *.
  - now destruct (match_at env r false pre []).
  - destruct (match_at env r false pre (x :: suf)); [discriminate|].
    cbn [map]. now rewrite IH.
Qed.

Lemma flat_map_chars (f : mobj -> str) (s : str) :
  flat_map (fun p : N + mobj => match p with inl x => [x] | inr m => f m end)
    (map inl s) = s.
Proof. induction s as [|x s IH]; cbn; [reflexivity|now rewrite IH]. Qed.

Lemma sub_fn_no_match (r : regex) (f : mobj -> str) (s : str) :
  search env r s = false -> sub_fn env r f s = s.
Proof.
  intros H. unfold sub_fn. rewrite pieces_no_match by exact H.
  apply flat_map_chars.
Qed.

Lemma fold_rules_no_match (ps : list (regex * list titem)) (line : str) :
  existsb (fun pr => search env (fst pr) line) ps = false ->
  fold_left (fun l pr => sub env (fst pr) (snd pr) l) ps line = line.
Proof.
  induction ps as [|pr ps IH]; cbn [existsb fold_left]; [reflexivity|].
  intros H. apply orb_false_iff in H as [H1 H2].
  unfold sub at 2. rewrite sub_fn_no_match by exact H1. now apply IH.
Qed.

Lemma rewrite_rules_no_markdown (line : str) :
  line_has_markdown env line = false -> rewrite_rules env line = rstrip line.
Proof.
  unfold line_has_markdown. intros H.
  apply orb_false_iff in H as [H Hs]. apply orb_false_iff in H as [H Hp].
  apply orb_false_iff in H as [_ Ht].
  unfold rewrite_rules. rewrite sub_fn_no_match by exact Ht.
  rewrite fold_rules_no_match by exact Hp.
  unfold sub. now rewrite sub_fn_no_match by exact Hs.
Qed.

Lemma _convert_tables_no_match (markdown : str) (self : SlackMarkdownConverter) :
  search env table_pattern markdown = false ->
  _convert_tables env markdown self = (inr markdown, self).
Proof.
  intros H. unfold _convert_tables. rewrite pieces_no_match by exact H.
  assert (Hm : forall s, mapM (fun p : N + mobj => match p with
                                  | inl x => ret [x]
                                  | inr m => convert_table env m
                                  end) (map inl s) self
                         = (inr (map (fun x => [x]) s), self)).
  { induction s as [|x s IH]; [reflexivity|].
    cbn [map]. rewrite mapM_cons. cbn [ret]. now rewrite IH. }
  unfold bind. rewrite Hm. unfold ret. f_equal. f_equal.
  clear. induction markdown as [|x s IH]; cbn; [reflexivity|now rewrite IH].
Qed.

Lemma mapM_no_markdown (lines : list str) (self : SlackMarkdownConverter) :
  in_code_block self = false ->
  forallb (fun l => negb (line_has_markdown env l)) lines = true ->
  mapM (_convert_line env) lines self =
  (inr (map (fun l => if startswith l placeholder_prefix && endswith l pct2
                      then l else rstrip l) lines), self).
Proof.
  intros Hout. induction lines as [|l lines IH]; cbn [forallb map]; [reflexivity|].
  intros H. apply andb_true_iff in H as [Hl Hrest]. apply negb_true_iff in Hl.
  rewrite mapM_cons.
  assert (Hf : fence_tag env l = None).
  { unfold line_has_markdown in Hl. rewrite re_match_fence in Hl.
    now destruct (fence_tag env l). }
  rewrite (_convert_line_plain env l self Hf), Hout, (IH Hrest).
  now rewrite (rewrite_rules_no_markdown l Hl).
Qed.
End NoMatch.

(** Characters of the results of the string operations come from their
    arguments. *)
Section Chars.
Variable P : N -> Prop.

Lemma Forall_lstrip_by (p : N -> bool) (s : str) :
  Forall P s -> Forall P (lstrip_by p s).
Proof.
  induction 1 as [|x s Hx Hs IH]; cbn; [constructor|].
  destruct (p x); [exact IH|now constructor].
Qed.

Lemma Forall_rstrip_by (p : N -> bool) (s : str) :
  Forall P s -> Forall P (rstrip_by p s).
Proof.
  induction 1 as [|x s Hx Hs IH]; cbn; [constructor|].
  destruct (rstrip_by p s); [destruct (p x); repeat constructor; assumption|].
  now constructor.
Qed.

Lemma Forall_strip_by (p : N -> bool) (s : str) :
  Forall P s -> Forall P (strip_by p s).
Proof. intros H. now apply Forall_rstrip_by, Forall_lstrip_by. Qed.

Lemma Forall_split (sep : N) (s : str) :
  Forall P s -> Forall (Forall P) (split sep s).
Proof.
  induction 1 as [|x s Hx Hs IH]; cbn; [repeat constructor|].
  destruct (x =? sep); [now repeat constructor|].
  destruct (split sep s) as [|l ls]; [repeat constructor; assumption|].
  inversion IH; subst. constructor; [now constructor|assumption].
Qed.

Lemma Forall_join (sep : str) (parts : list str) :
  Forall P sep -> Forall (Forall P) parts -> Forall P (join sep parts).
Proof.
  intros Hsep. induction 1 as [|p ps Hp Hps IH]; cbn; [constructor|].
  destruct ps as [|q ps]; [assumption|].
  apply Forall_app. split; [assumption|]. apply Forall_app. now split.
Qed.
End Chars.

Lemma rstrip_by_last (p : N -> bool) (a : str) (x : N) :
  p x = false -> rstrip_by p (a ++ [x]) = a ++ [x].
Proof.
  intros Hx. induction a as [|y a IH]; cbn; [now rewrite Hx|].
  rewrite IH. now destruct a.
Qed.

Lemma endswith_true (s p : str) :
  endswith s p = true -> exists rest, s = rest ++ p.
Proof.
  unfold endswith. intros H. apply startswith_true in H as [r Hr].
  exists (rev r). rewrite <- (rev_involutive s), Hr, rev_app_distr.
  now rewrite rev_involutive.
Qed.

Lemma rstrip_placeholder_shape (line : str) :
  endswith line pct2 = true -> rstrip line = line.
Proof.
  intros H. apply endswith_true in H as [rest ->].
  change pct2 with ([37] ++ [37]). rewrite app_assoc.
  now apply rstrip_by_last.
Qed.

Lemma existsb_false_Forall (p : N -> bool) (s : str) :
  existsb p s = false <-> Forall (fun c => p c = false) s.
Proof.
  induction s as [|x s IH]; cbn; [split; [constructor|reflexivity]|].
  rewrite orb_false_iff, IH. split.
  - intros [? ?]. now constructor.
  - now inversion 1.
Qed.

(* ------------------------------------------------------------------ *)
(** *** The engine is sound for [matches] *)

Section Soundness.
Variable env : PyEnv.

Lemma rep_greedy_sound (cs : cset) :
  sound_for (fun _ l _ => forallb (cmatch env cs) l = true) (rep_greedy env cs).
Proof.
  intros k pre suf. revert pre.
  induction suf as [|x suf IH]; intros pre c res H; cbn [rep_greedy] in H.
  - now exists [], [], c.
  - destruct (cmatch env cs x) eqn:Hx; [|now exists [], (x :: suf), c].
    destruct (rep_greedy env cs k (x :: pre) suf c) as [r|] eqn:Hr.
    + injection H as <-. apply IH in Hr as (l & suf' & c' & -> & Hl & Hk).
      exists (x :: l), suf', c'. repeat split.
      * cbn. now rewrite Hx.
      * cbn [rev]. now rewrite <- app_assoc.
    + now exists [], (x :: suf), c.
Qed.

Lemma rep_lazy_sound (cs : cset) :
  sound_for (fun _ l _ => forallb (cmatch env cs) l = true) (rep_lazy env cs).
Proof.
  intros k pre suf. revert pre.
  induction suf as [|x suf IH]; intros pre c res H; cbn [rep_lazy] in H.
  - destruct (k pre [] c) eqn:Hk; [|discriminate]. injection H as <-.
    now exists [], [], c.
  - destruct (k pre (x :: suf) c) eqn:Hk;
      [injection H as <-; now exists [], (x :: suf), c|].
    destruct (cmatch env cs x) eqn:Hx; [|discriminate].
    apply IH in H as (l & suf' & c' & -> & Hl & Hk').
    exists (x :: l), suf', c'. repeat split.
    + cbn. now rewrite Hx.
    + cbn [rev]. now rewrite <- app_assoc.
Qed.

Theorem run_sound (r : regex) : sound_for (matches env r) (run env r).
Proof.
  induction r as [|cs|a IHa b IHb|a IHa b IHb|n a IHa|g cs|a IHa|ml|ml|cs|cs];
    intros k pre suf c res H; cbn [run] in H; cbn [matches].
  - now exists [], suf, c.
  - destruct suf as [|x suf]; [discriminate|].
    destruct (cmatch env cs x) eqn:Hx; [|discriminate].
    exists [x], suf, c. repeat split; [now exists x|exact H].
  - apply IHa in H as (l1 & s1 & c1 & -> & Ha & H).
    apply IHb in H as (l2 & s2 & c2 & -> & Hb & H).
    exists (l1 ++ l2), s2, c2. repeat split.
    + now rewrite app_assoc.
    + now exists l1, l2.
    + now rewrite rev_app_distr, <- app_assoc.
  - destruct (run env a k pre suf c) as [r|] eqn:Hr.
    + injection H as <-. apply IHa in Hr as (l & s & c' & ? & ? & ?).
      exists l, s, c'. auto.
    + apply IHb in H as (l & s & c' & ? & ? & ?). exists l, s, c'. auto.
  - apply IHa in H as (l & s & c' & ? & ? & ?). eexists l, s, _. eauto.
  - destruct g; [apply rep_greedy_sound in H|apply rep_lazy_sound in H]; exact H.
  - revert H. generalize (length suf) at 1. intros fuel. revert pre suf c.
    induction fuel as [|fuel IH]; intros pre suf c H; cbn [star_loop] in H.
    + exists [], suf, c. repeat split; [constructor|exact H].
    + match type of H with
      | match ?m with _ => _ end = _ => destruct m as [r|] eqn:Hr
      end.
      * injection H as <-. apply IHa in Hr as (l1 & s1 & c1 & -> & Ha & Hr).
        destruct (Nat.ltb (length s1) (length (l1 ++ s1))); [|discriminate].
        apply IH in Hr as (l2 & s2 & c2 & -> & Hs & Hk).
        exists (l1 ++ l2), s2, c2. repeat split.
        -- now rewrite app_assoc.
        -- now constructor.
        -- now rewrite rev_app_distr, <- app_assoc.
      * exists [], suf, c. repeat split; [constructor|exact H].
  - destruct (bol ml pre) eqn:Hb; [|discriminate]. now exists [], suf, c.
  - destruct (eol ml suf) eqn:Hb; [|discriminate]. now exists [], suf, c.
  - destruct pre as [|x pre]; [now exists [], suf, c|].
    destruct (cmatch env cs x) eqn:Hx; [discriminate|]. now exists [], suf, c.
  - destruct suf as [|x suf]; [now exists [], [], c|].
    destruct (cmatch env cs x) eqn:Hx; [discriminate|]. now exists [], (x :: suf), c.
Qed.

Lemma rep_greedy_respects (cs : cset) : respects (rep_greedy env cs).
Proof.
  intros k1 k2 Hk pre suf. revert pre.
  induction suf as [|x suf IH]; intros pre c; cbn [rep_greedy]; [apply Hk|].
  now rewrite IH, Hk.
Qed.

Lemma rep_lazy_respects (cs : cset) : respects (rep_lazy env cs).
Proof.
  intros k1 k2 Hk pre suf. revert pre.
  induction suf as [|x suf IH]; intros pre c; cbn [rep_lazy]; rewrite Hk; [reflexivity|].
  now rewrite IH.
Qed.

Lemma star_loop_respects (body : cont -> cont) :
  respects body -> forall fuel, respects (fun k => star_loop body k fuel).
Proof.
  intros Hb fuel. induction fuel as [|fuel IH]; intros k1 k2 Hk pre suf c;
    cbn [star_loop]; [apply Hk|].
  rewrite Hk. erewrite Hb; [reflexivity|].
  intros p s c'. cbv beta. destruct (Nat.ltb _ _); [|reflexivity]. now apply IH.
Qed.

Theorem run_respects (r : regex) : respects (run env r).
Proof.
  induction r as [|cs|a IHa b IHb|a IHa b IHb|n a IHa|g cs|a IHa|ml|ml|cs|cs];
    intros k1 k2 Hk pre suf c; cbn [run]; try (now rewrite Hk).
  - destruct suf as [|x suf]; [reflexivity|]. now rewrite Hk.
  - apply IHa. intros p s c'. now apply IHb.
  - now rewrite (IHa k1 k2 Hk), (IHb k1 k2 Hk).
  - apply IHa. intros p s c'. apply Hk.
  - destruct g; [now apply rep_greedy_respects|now apply rep_lazy_respects].
  - now apply (star_loop_respects (run env a) IHa (length suf)).
Qed.

(** The counter of a repetition never cuts it short: any count of
    rounds that is at least the number of characters left gives the
    same result. *)
Lemma star_loop_fuel (body : cont -> cont) (k : cont) :
  respects body -> sound_for (fun _ _ _ => True) body ->
  forall n m pre suf c,
    (length suf <= n)%nat -> (length suf <= m)%nat ->
    star_loop body k n pre suf c = star_loop body k m pre suf c.
Proof.
  intros Hr Hs.
  assert (Hend : forall fuel pre c, star_loop body k fuel pre [] c = k pre [] c).
  { intros [|fuel] pre c; cbn [star_loop]; [reflexivity|].
    destruct (body _ pre [] c) as [res|] eqn:E; [|reflexivity].
    apply Hs in E as (l & s & c' & _ & _ & E). cbv beta in E.
    now destruct (Nat.ltb (length s) (length (@nil N))) eqn:El. }
  induction n as [|n IH]; intros m pre suf c Hn Hm.
  - destruct suf; [|cbn in Hn; lia]. now rewrite !Hend.
  - destruct m as [|m]; [destruct suf; [now rewrite !Hend|cbn in Hm; lia]|].
    cbn [star_loop]. erewrite Hr; [reflexivity|].
    intros p s c'. cbv beta.
    destruct (Nat.ltb (length s) (length suf)) eqn:El; [|reflexivity].
    apply Nat.ltb_lt in El. apply IH; lia.
Qed.

Corollary run_star_fuel (a : regex) (k : cont) (extra : nat) (pre suf : str) (c : caps) :
  run env (Star a) k pre suf c = star_loop (run env a) k (length suf + extra) pre suf c.
Proof.
  cbn [run]. apply star_loop_fuel; [apply run_respects| |lia|lia].
  intros k' pre' suf' c' res H. apply run_sound in H as (l & s & c'' & ? & _ & ?).
  now exists l, s, c''.
Qed.

(** For [match_at]: the matched text is a prefix of what was left of
    the subject, and the pattern matches it there. *)
Corollary match_at_sound (r : regex) (adv : bool) (pre suf t : str) (c : caps) :
  match_at env r adv pre suf = Some (t, c) ->
  exists suf', suf = t ++ suf' /\ matches env r pre t suf'.
Proof.
  unfold match_at. intros H. apply run_sound in H as (l & suf' & c' & -> & Hm & H).
  destruct (adv && _); [discriminate|]. injection H as <- <-.
  rewrite consumed_app. now exists suf'.
Qed.
End Soundness.

Lemma ends_sound (env : PyEnv) (r : regex) :
  forall ok pre l suf',
    ends ok r = true ->
    (ok = true -> eol true (l ++ suf') = true) ->
    matches env r pre l suf' -> eol true suf' = true.
Proof.
  induction r as [|cs|a IHa b IHb|a IHa b IHb|n a IHa|g cs|a IHa|ml|ml|cs|cs];
    intros ok pre l suf' He Hok Hm; cbn [ends matches] in *; try discriminate.
  - subst l. auto.
  - destruct Hm as (l1 & l2 & -> & Ha & Hb).
    apply (IHb (ends ok a) (rev l1 ++ pre) l2 suf' He); [|exact Hb].
    intros Hoka. apply (IHa ok pre l1 (l2 ++ suf') Hoka); [|exact Ha].
    intros Hk. rewrite app_assoc. auto.
  - eauto.
  - apply andb_true_iff in He as [-> He]. specialize (Hok eq_refl).
    induction Hm as [pre suf'|pre l1 l2 suf' H1 _ IH]; [exact Hok|].
    apply IH. apply (IHa false pre l1 (l2 ++ suf') He); [discriminate|exact H1].
  - destruct Hm as [-> _]. auto.
  - destruct ml; [|discriminate]. now destruct Hm.
  - destruct Hm as [-> _]. auto.
  - destruct Hm as [-> _]. auto.
Qed.

(** A table block starts at the start of a line with a bar and ends at
    the end of a line. *)
Lemma table_match_shape (env : PyEnv) (adv : bool) (pre suf t : str) (c : caps) :
  match_at env table_pattern adv pre suf = Some (t, c) ->
  bol true pre = true /\
  exists t' suf', t = bar :: t' /\ suf = t ++ suf' /\ eol true suf' = true.
Proof.
  intros H. apply match_at_sound in H as (suf' & -> & Hm).
  assert (He : eol true suf' = true).
  { apply (ends_sound env table_pattern false pre t suf'); [reflexivity|discriminate|exact Hm]. }
  change table_pattern with (Seq (Bol true) (Seq (Chr (Lit bar)) table_tail)) in Hm.
  cbn [matches] in Hm.
  destruct Hm as (l1 & l2 & -> & [-> Hb] & l3 & l4 & -> & (x & -> & Hx) & _).
  cbn in Hx. apply N.eqb_eq in Hx. subst x.
  split; [exact Hb|]. now exists l4, suf'.
Qed.

Lemma table_no_match_at_newline (env : PyEnv) (adv : bool) (pre suf : str) :
  match_at env table_pattern adv pre (NL :: suf) = None.
Proof.
  destruct (match_at env table_pattern adv pre (NL :: suf)) as [[t c]|] eqn:H;
    [|reflexivity].
  apply table_match_shape in H as (_ & t' & suf' & -> & H & _). discriminate H.
Qed.

Lemma table_no_match_at_end (env : PyEnv) (adv : bool) (pre : str) :
  match_at env table_pattern adv pre [] = None.
Proof.
  destruct (match_at env table_pattern adv pre []) as [[t c]|] eqn:H; [|reflexivity].
  apply table_match_shape in H as (_ & t' & suf' & -> & H & _). discriminate H.
Qed.

(* ------------------------------------------------------------------ *)
(** *** Where the characters of a substitution come from *)

Section Provenance.
Variable env : PyEnv.
Variable P : N -> Prop.

Lemma rep_greedy_carries (cs : cset) : carries P (rep_greedy env cs).
Proof.
  intros Q k pre suf. revert pre.
  induction suf as [|x suf IH]; intros pre c res Hp Hs Hc Hk H; cbn [rep_greedy] in H.
  - eauto.
  - destruct (cmatch env cs x); [|eauto].
    destruct (rep_greedy env cs k (x :: pre) suf c) as [r|] eqn:Hr; [|eauto].
    injection H as <-. inversion Hs; subst.
    apply (IH (x :: pre) c r); auto.
Qed.

Lemma rep_lazy_carries (cs : cset) : carries P (rep_lazy env cs).
Proof.
  intros Q k pre suf. revert pre.
  induction suf as [|x suf IH]; intros pre c res Hp Hs Hc Hk H; cbn [rep_lazy] in H.
  - destruct (k pre [] c) eqn:E; [|discriminate]. injection H as <-. eauto.
  - destruct (k pre (x :: suf) c) eqn:E; [injection H as <-; eauto|].
    destruct (cmatch env cs x); [|discriminate].
    inversion Hs; subst. apply (IH (x :: pre) c res); auto.
Qed.

Lemma Forall_consumed (pre p : str) : Forall P p -> Forall P (consumed pre p).
Proof.
  intros H. unfold consumed. apply Forall_rev.
  rewrite <- (firstn_skipn (length p - length pre) p) in H.
  now apply Forall_app in H.
Qed.

Theorem run_carries (r : regex) : carries P (run env r).
Proof.
  induction r as [|cs|a IHa b IHb|a IHa b IHb|n a IHa|g cs|a IHa|ml|ml|cs|cs];
    intros Q k pre suf c res Hp Hs Hc Hk H; cbn [run] in H.
  - eauto.
  - destruct suf as [|x suf]; [discriminate|].
    destruct (cmatch env cs x); [|discriminate].
    inversion Hs; subst. eauto.
  - refine (IHa Q _ pre suf c res Hp Hs Hc _ H).
    intros p s c' res' Hp' Hs' Hc' H'. apply (IHb Q k p s c' res'); auto.
  - destruct (run env a k pre suf c) as [r|] eqn:Hr.
    + injection H as <-. apply (IHa Q k pre suf c r); auto.
    + apply (IHb Q k pre suf c res); auto.
  - refine (IHa Q _ pre suf c res Hp Hs Hc _ H).
    intros p s c' res' Hp' Hs' Hc' H'. apply (Hk _ _ _ _ Hp' Hs') in H'; [exact H'|].
    constructor; [now apply Forall_consumed|exact Hc'].
  - destruct g;
      [exact (rep_greedy_carries cs Q k pre suf c res Hp Hs Hc Hk H)
      |exact (rep_lazy_carries cs Q k pre suf c res Hp Hs Hc Hk H)].
  - revert H. generalize (length suf) at 1. intros fuel.
    revert pre suf c res Hp Hs Hc.
    induction fuel as [|fuel IH]; intros pre suf c res Hp Hs Hc H; cbn [star_loop] in H;
      [eauto|].
    match type of H with
    | match ?m with _ => _ end = _ => destruct m as [r|] eqn:Hr
    end; [|eauto].
    injection H as <-.
    refine (IHa Q _ pre suf c r Hp Hs Hc _ Hr).
    intros p s c' res' Hp' Hs' Hc' H'.
    destruct (Nat.ltb (length s) (length suf)); [|discriminate].
    apply (IH p s c' res'); auto.
  - destruct (bol ml pre); [eauto|discriminate].
  - destruct (eol ml suf); [eauto|discriminate].
  - destruct pre as [|x pre]; [eauto|]. destruct (cmatch env cs x); [discriminate|eauto].
  - destruct suf as [|x suf]; [eauto|]. destruct (cmatch env cs x); [discriminate|eauto].
Qed.

Lemma match_at_chars (r : regex) (adv : bool) (pre suf : str) (m : mobj) :
  Forall P pre -> Forall P suf -> match_at env r adv pre suf = Some m -> mobjP P m.
Proof.
  intros Hp Hs H. unfold match_at in H.
  refine (run_carries r (mobjP P) _ pre suf [] m Hp Hs (Forall_nil _) _ H).
  intros p s c' res' Hp' _ Hc' H'. cbv beta in H'.
  destruct (adv && _); [discriminate|]. injection H' as <-.
  split; [now apply Forall_consumed|exact Hc'].
Qed.

Lemma pieces_chars (r : regex) (suf : str) :
  forall skip pre, Forall P pre -> Forall P suf ->
                   Forall (pieceP P) (pieces env r skip pre suf).
Proof.
  induction suf as [|y suf IH]; intros skip pre Hp Hs.
  - destruct skip; cbn [pieces]; [|constructor].
    destruct (match_at env r false pre []) as [[[|x t] c]|] eqn:Hm; [| |constructor].
    + apply match_at_chars in Hm; auto. constructor; [exact Hm|].
      destruct (match_at env r true pre []) as [[t c']|] eqn:Hm'; [|constructor].
      apply match_at_chars in Hm'; auto.
    + apply match_at_chars in Hm; auto.
  - inversion Hs as [|? ? Hy Hsuf]; subst.
    assert (Hp' : Forall P (y :: pre)) by now constructor.
    destruct skip; cbn [pieces]; [|now apply IH].
    destruct (match_at env r false pre (y :: suf)) as [[[|x t] c]|] eqn:Hm.
    + apply match_at_chars in Hm; auto. constructor; [exact Hm|].
      destruct (match_at env r true pre (y :: suf)) as [[t c']|] eqn:Hm'.
      * apply match_at_chars in Hm'; auto.
      * constructor; [exact Hy|now apply IH].
    + apply match_at_chars in Hm; auto.
    + constructor; [exact Hy|now apply IH].
Qed.

Lemma sub_fn_chars (r : regex) (f : mobj -> str) (s : str) :
  (forall m, mobjP P m -> Forall P (f m)) ->
  Forall P s -> Forall P (sub_fn env r f s).
Proof.
  intros Hf Hs. unfold sub_fn.
  pose proof (pieces_chars r s 0 [] (Forall_nil _) Hs) as H.
  induction H as [|pc pcs Hpc _ IH]; cbn [flat_map]; [constructor|].
  apply Forall_app. split; [|exact IH].
  destruct pc as [x|m]; [now repeat constructor|now apply Hf].
Qed.

Lemma group_chars (n : nat) (c : caps) : capsP P c -> Forall P (group n c).
Proof.
  induction 1 as [|[m s] c Hs _ IH]; cbn [group]; [constructor|].
  destruct (Nat.eqb m n); [exact Hs|exact IH].
Qed.

Lemma sub_chars (r : regex) (t : list titem) (s : str) :
  Forall (titemP P) t -> Forall P s -> Forall P (sub env r t s).
Proof.
  intros Ht. apply sub_fn_chars. intros m [_ Hc]. unfold expand.
  induction Ht as [|i t Hi _ IH]; cbn [flat_map]; [constructor|].
  apply Forall_app. split; [|exact IH].
  destruct i; [exact Hi|now apply group_chars].
Qed.
End Provenance.

(* ------------------------------------------------------------------ *)
(** *** Texts without percent signs, surrogates and triple asterisks *)

Lemma Forall_clean (s : str) : Forall clean s <-> forallb cleanb s = true.
Proof. unfold clean. now rewrite forallb_forall, Forall_forall. Qed.

Lemma clean_no_percent (s : str) : Forall clean s -> ~ In 37 s.
Proof.
  intros H Hin. rewrite Forall_forall in H. specialize (H _ Hin). discriminate H.
Qed.

Lemma clean_no_surrogate (s : str) : Forall clean s -> existsb is_surrogate s = false.
Proof.
  intros H. apply existsb_false_Forall. eapply Forall_impl; [|exact H].
  intros c Hc. unfold clean, cleanb in Hc. apply andb_true_iff in Hc as [_ Hc].
  now apply negb_true_iff in Hc.
Qed.

Lemma triple_needs_stars (env : PyEnv) (adv : bool) (pre suf : str) (m : mobj) :
  match_at env triple_pattern adv pre suf = Some m ->
  startswith suf (lit "***") = true.
Proof.
  destruct m as [t c]. intros H. apply match_at_sound in H as (suf' & -> & Hm).
  change triple_pattern with
    (Seq (NotBehind (Lit star_ch))
       (Seq (Seq (Chr (Lit star_ch)) (Seq (Chr (Lit star_ch)) (Chr (Lit star_ch))))
          (seqs [Grp 1 (plus false (NoneOf [star_ch; NL])); text "***";
                 NotAhead (Lit star_ch)]))) in Hm.
  cbn [matches] in Hm.
  destruct Hm as (l1 & l2 & -> & [-> _] & l3 & l4 & -> & Hs & _).
  destruct Hs as (a & b & -> & (x & -> & Hx) & a' & b' & -> & (y & -> & Hy) & (z & -> & Hz)).
  cbn in Hx, Hy, Hz. apply N.eqb_eq in Hx, Hy, Hz. subst. reflexivity.
Qed.

Lemma search_triple_none (env : PyEnv) (suf pre : str) :
  has3 suf = false -> search_from env triple_pattern pre suf = false.
Proof.
  revert pre. induction suf as [|x suf IH]; intros pre H; cbn [search_from].
  - destruct (match_at env triple_pattern false pre []) eqn:Hm; [|reflexivity].
    apply triple_needs_stars in Hm. discriminate Hm.
  - cbn [has3] in H. apply orb_false_iff in H as [H1 H2].
    destruct (match_at env triple_pattern false pre (x :: suf)) eqn:Hm; [|now apply IH].
    apply triple_needs_stars in Hm. congruence.
Qed.

Lemma template_clean_sound (t : list titem) :
  template_clean t = true -> Forall (titemP clean) t.
Proof.
  unfold template_clean. rewrite forallb_forall, Forall_forall.
  intros H i Hi. specialize (H i Hi). destruct i; [now apply Forall_clean|exact I].
Qed.

Lemma fold_rules_clean (env : PyEnv) (ps : list (regex * list titem)) (line : str) :
  forallb (fun pr => template_clean (snd pr)) ps = true ->
  Forall clean line ->
  Forall clean (fold_left (fun l pr => sub env (fst pr) (snd pr) l) ps line).
Proof.
  revert line. induction ps as [|pr ps IH]; intros line Hps Hl; cbn [fold_left]; [exact Hl|].
  cbn [forallb] in Hps. apply andb_true_iff in Hps as [Hpr Hps].
  apply IH; [exact Hps|].
  apply sub_chars; [now apply template_clean_sound|exact Hl].
Qed.

(** Outside a code block, a line with no percent sign and no triple
    asterisk comes out of the rules with no percent sign: no sentinel is
    put in, and no template holds one. *)
Lemma rewrite_rules_clean (env : PyEnv) (line : str) :
  Forall clean line -> has3 line = false -> Forall clean (rewrite_rules env line).
Proof.
  intros Hc H3. unfold rewrite_rules.
  rewrite sub_fn_no_match by now apply search_triple_none.
  apply Forall_rstrip_by. apply sub_chars; [now apply template_clean_sound|].
  apply fold_rules_clean; [reflexivity|exact Hc].
Qed.

(** [_convert_line] never raises and touches nothing but the flag; a
    clean line stays clean, a line of the placeholder's shape stays as
    it is. *)
Lemma _convert_line_result (env : PyEnv) (line : str) (self : SlackMarkdownConverter) :
  exists out b,
    _convert_line env line self = (inr out, with_flag self b) /\
    (Forall clean line -> has3 line = false -> Forall clean out) /\
    (placeholder_shape line = true -> out = line).
Proof.
  destruct (fence_tag env line) as [tag|] eqn:Hf.
  - rewrite (_convert_line_fence env line tag self Hf).
    eexists _, _. split; [reflexivity|]. split.
    + intros Hc _. apply fence_tag_some in Hf as [_ Hline].
      assert (Ht : Forall clean (backticks ++ tag)).
      { destruct Hline as [-> | ->]; [exact Hc|].
        rewrite app_assoc in Hc. now apply Forall_app in Hc. }
      destruct (_ && _); [exact Ht|]. now apply Forall_app in Ht.
    + intros Hs. unfold fence_tag in Hf.
      destruct (startswith line backticks) eqn:Hb; [|discriminate].
      apply fence_not_placeholder in Hb. unfold placeholder_shape in Hs.
      now rewrite Hb in Hs.
  - rewrite (_convert_line_plain env line self Hf).
    exists (if placeholder_shape line then line
            else if in_code_block self then line else rewrite_rules env line),
           (in_code_block self).
    split; [now destruct self|]. split.
    + intros Hc H3. destruct (placeholder_shape line); [exact Hc|].
      destruct (in_code_block self); [exact Hc|now apply rewrite_rules_clean].
    + now intros ->.
Qed.

(** The lines of a document after the table pass: placeholders of [K]
    and clean lines.  They come out as placeholders of [K] and clean
    lines, and the table of replacements is untouched. *)
Lemma mapM_lines_result (env : PyEnv) (K : list str) (lines : list str) :
  Forall (fun k => placeholder_shape k = true) K ->
  Forall (fun l => In l K \/ (Forall clean l /\ has3 l = false)) lines ->
  forall self,
  exists outs b,
    mapM (_convert_line env) lines self = (inr outs, with_flag self b) /\
    Forall (fun o => In o K \/ Forall clean o) outs.
Proof.
  intros HK. induction 1 as [|l lines Hl _ IH]; intros self.
  - exists [], (in_code_block self). split; [now destruct self|constructor].
  - rewrite mapM_cons.
    destruct (_convert_line_result env l self) as (out & b & -> & Hclean & Hshape).
    destruct (IH (with_flag self b)) as (outs & b' & -> & Houts).
    exists (out :: outs), b'. split; [reflexivity|].
    constructor; [|exact Houts].
    destruct Hl as [Hin|[Hc H3]]; [left|right; auto].
    rewrite Forall_forall in HK. rewrite (Hshape (HK _ Hin)). exact Hin.
Qed.

(* ------------------------------------------------------------------ *)
(** *** Placeholder restoration *)

Lemma startswith_length (s p : str) : startswith s p = true -> (length p <= length s)%nat.
Proof.
  intros H. apply startswith_true in H as [rest ->]. rewrite length_app. lia.
Qed.

Lemma startswith_app_sep (sep : N) (p l rest : str) :
  ~ In sep p -> startswith (l ++ sep :: rest) p = startswith l p.
Proof.
  revert l. induction p as [|a p IH]; intros l Hn; [reflexivity|].
  assert (Ha : a <> sep) by (intros ->; apply Hn; now left).
  destruct l as [|c l]; cbn [app startswith].
  - destruct (N.eqb_spec a sep); [contradiction|reflexivity].
  - rewrite IH; [reflexivity|]. intros H; apply Hn; now right.
Qed.

(** Replacing a text that has no newline works line by line. *)
Lemma replace_from_line (old new rest : str) :
  old <> [] -> ~ In NL old ->
  forall l skip, (skip <= length l)%nat ->
    replace_from old new skip (l ++ NL :: rest) =
    replace_from old new skip l ++ NL :: replace_from old new 0 rest.
Proof.
  intros Hne Hnl. induction l as [|c l IH]; intros skip Hskip.
  - assert (skip = 0%nat) by (cbn in Hskip; lia). subst skip.
    cbn [app replace_from].
    destruct old as [|a old]; [congruence|]. cbn [startswith].
    destruct (N.eqb_spec a NL) as [->|_]; [elim Hnl; now left|reflexivity].
  - destruct skip as [|k]; cbn [app replace_from].
    + change (c :: l ++ NL :: rest) with ((c :: l) ++ NL :: rest).
      rewrite startswith_app_sep by exact Hnl.
      destruct (startswith (c :: l) old) eqn:Hs.
      * apply startswith_length in Hs. cbn [length] in Hs.
        rewrite IH by lia. now rewrite app_assoc.
      * rewrite IH by lia. reflexivity.
    + apply IH. cbn in Hskip. lia.
Qed.

Lemma replace_from_join (old new : str) (chunks : list str) :
  old <> [] -> ~ In NL old ->
  replace_from old new 0 (join [NL] chunks) =
  join [NL] (map (replace_from old new 0) chunks).
Proof.
  intros Hne Hnl. induction chunks as [|ch chunks IH]; [reflexivity|].
  destruct chunks as [|ch2 chunks]; [reflexivity|].
  change (join [NL] (ch :: ch2 :: chunks)) with (ch ++ NL :: join [NL] (ch2 :: chunks)).
  rewrite replace_from_line by (auto; lia). rewrite IH. reflexivity.
Qed.

(** A text the old string does not occur in is left as it is. *)
Lemma replace_from_absent (old new s : str) :
  (forall a b, s <> a ++ old ++ b) -> replace_from old new 0 s = s.
Proof.
  induction s as [|c s IH]; intros Hno; [reflexivity|].
  cbn [replace_from].
  destruct (startswith (c :: s) old) eqn:Hs.
  - apply startswith_true in Hs as [rest Hs]. now elim (Hno [] rest).
  - rewrite IH; [reflexivity|]. intros a b ->. now elim (Hno (c :: a) b).
Qed.

Lemma placeholder_is_token (env : PyEnv) (t : str) : is_token (placeholder_of env t).
Proof. exists (str_of_int (py_hash env t)). split; [reflexivity|apply str_of_int_digits]. Qed.

Lemma percents_token (k : str) : is_token k -> percents k = 4%nat.
Proof.
  intros (d & -> & Hd). unfold percents. rewrite !count_occ_app.
  assert (H0 : count_occ N.eq_dec d 37 = 0%nat).
  { apply count_occ_not_In. now apply sign_or_digit_not. }
  rewrite H0. reflexivity.
Qed.

Lemma percents_rev (s : str) : percents (rev s) = percents s.
Proof.
  unfold percents. induction s as [|x s IH]; [reflexivity|].
  cbn [rev]. rewrite count_occ_app, IH. cbn.
  destruct (N.eq_dec x 37); lia.
Qed.

Lemma percents_zero_nil_head (a rest : str) :
  percents a = 0%nat -> hd_error (a ++ rest) = Some 37 -> a = [].
Proof.
  destruct a as [|x a]; [reflexivity|]. cbn. intros Hc [= ->].
  unfold percents in Hc. cbn in Hc. destruct (N.eq_dec 37 37); [discriminate|congruence].
Qed.

(** A token occurs in a token only as the whole of it. *)
Lemma token_in_token (p q a b : str) :
  is_token p -> is_token q -> q = a ++ p ++ b -> q = p.
Proof.
  intros Hp Hq Heq.
  pose proof (percents_token p Hp) as Np. pose proof (percents_token q Hq) as Nq.
  rewrite Heq in Nq. unfold percents in *. rewrite !count_occ_app in Nq.
  assert (Ha : percents a = 0%nat) by (unfold percents; lia).
  assert (Hb : percents b = 0%nat) by (unfold percents; lia).
  assert (a = []).
  { apply (percents_zero_nil_head a (p ++ b) Ha). rewrite <- Heq.
    destruct Hq as (d & -> & _). reflexivity. }
  subst a. cbn [app] in Heq.
  assert (rev b = []).
  { apply (percents_zero_nil_head (rev b) (rev p)).
    - now rewrite percents_rev.
    - rewrite <- rev_app_distr, <- Heq. destruct Hq as (d & -> & _).
      now rewrite !rev_app_distr. }
  assert (b = []) by (now rewrite <- (rev_involutive b), H).
  subst b. now rewrite app_nil_r in Heq.
Qed.

Lemma token_head (k : str) : is_token k -> exists k', k = 37 :: k'.
Proof. intros (d & -> & _). now eexists. Qed.

Lemma token_no_newline (k : str) : is_token k -> ~ In NL k.
Proof.
  intros (d & -> & Hd). rewrite !in_app_iff. intros [H|[H|H]].
  - revert H. vm_compute. intuition discriminate.
  - revert H. now apply sign_or_digit_not.
  - revert H. vm_compute. intuition discriminate.
Qed.

Lemma token_shape (k : str) : is_token k -> placeholder_shape k = true.
Proof.
  intros (d & -> & _). unfold placeholder_shape.
  rewrite startswith_app, app_assoc, endswith_app. reflexivity.
Qed.

Lemma replace_chunk (p v ch : str) (K : list str) :
  is_token p -> Forall clean v -> Forall is_token K ->
  In ch (p :: K) \/ Forall clean ch ->
  In (replace_from p v 0 ch) K \/ Forall clean (replace_from p v 0 ch).
Proof.
  intros Hp Hv HK Hch.
  destruct (token_head p Hp) as [p' Hp'].
  destruct (list_eq_dec N.eq_dec ch p) as [->|Hne].
  - right. rewrite <- (app_nil_r p) at 2.
    rewrite replace_from_hit by (rewrite Hp'; discriminate).
    now rewrite app_nil_r.
  - destruct Hch as [[Heq|Hin]|Hc]; [congruence| |].
    + left. rewrite replace_from_absent; [exact Hin|].
      intros a b Heq. rewrite Forall_forall in HK.
      now apply (token_in_token p ch a b Hp (HK _ Hin)) in Heq.
    + right. rewrite Hp'. rewrite <- (app_nil_r ch) at 1.
      rewrite replace_from_miss by now apply clean_no_percent.
      now rewrite app_nil_r.
Qed.

Lemma replace_all_clean (d : dict) :
  dict_ok d ->
  forall chunks,
    Forall (fun ch => In ch (map fst d) \/ Forall clean ch) chunks ->
    Forall clean (replace_all d (join [NL] chunks)).
Proof.
  induction 1 as [|[p v] d [Hp Hv] Hd IH]; intros chunks Hch; cbn [replace_all].
  - apply Forall_join; [now repeat constructor|].
    eapply Forall_impl; [|exact Hch]. cbn. intros ch [[]|H]. exact H.
  - cbn [fst snd] in *. destruct (token_head p Hp) as [p' Hp'].
    assert (Hrep : replace p v (join [NL] chunks)
                   = join [NL] (map (replace_from p v 0) chunks)).
    { rewrite <- replace_from_join; [now rewrite Hp'| |now apply token_no_newline].
      rewrite Hp'. discriminate. }
    rewrite Hrep. apply IH. apply Forall_map.
    eapply Forall_impl; [|exact Hch]. cbn [map fst].
    intros ch Hc. apply replace_chunk; auto.
    apply Forall_map. eapply Forall_impl; [|exact Hd]. now intros kv [? _].
Qed.

(* ------------------------------------------------------------------ *)
(** *** The table pass *)

Lemma split_nonempty (sep : N) (s : str) : exists l ls, split sep s = l :: ls.
Proof.
  induction s as [|c s (l & ls & IH)]; cbn; [now eexists _, _|].
  destruct (c =? sep); [now eexists _, _|]. rewrite IH. now eexists _, _.
Qed.

Lemma split_app_lines (sep : N) (a b : str) :
  split sep (a ++ sep :: b) = split sep a ++ split sep b.
Proof.
  induction a as [|c a IH]; cbn [app split]; [now rewrite N.eqb_refl|].
  rewrite IH. destruct (c =? sep); [reflexivity|].
  destruct (split_nonempty sep a) as (l & ls & ->). reflexivity.
Qed.

Lemma split_first_prefix (sep : N) (s l : str) (ls : list str) :
  split sep s = l :: ls -> exists rest, s = l ++ rest.
Proof.
  revert l ls. induction s as [|c s IH]; intros l ls; cbn [split].
  - intros [= <- <-]. now exists [].
  - destruct (c =? sep); [intros [= <- <-]; now exists (c :: s)|].
    destruct (split_nonempty sep s) as (l' & ls' & E). rewrite E.
    intros [= <- <-]. destruct (IH _ _ E) as [rest ->]. now exists rest.
Qed.

Lemma startswith_weaken (a b p : str) :
  startswith a p = true -> startswith (a ++ b) p = true.
Proof.
  intros H. apply startswith_true in H as [rest ->].
  rewrite <- app_assoc. apply startswith_app.
Qed.

Lemma has3_suffix (a b : str) : has3 (a ++ b) = false -> has3 b = false.
Proof.
  induction a as [|x a IH]; [auto|]. cbn [app has3]. intros H.
  apply orb_false_iff in H as [_ H]. auto.
Qed.

Lemma has3_prefix (a b : str) : has3 (a ++ b) = false -> has3 a = false.
Proof.
  induction a as [|x a IH]; [reflexivity|]. cbn [app has3]. intros H.
  apply orb_false_iff in H as [H1 H2]. rewrite (IH H2), orb_false_r.
  destruct (startswith (x :: a) (lit "***")) eqn:E; [|reflexivity].
  apply (startswith_weaken _ b) in E. cbn [app] in E. congruence.
Qed.

Lemma has3_split (s : str) :
  has3 s = false -> Forall (fun l => has3 l = false) (split NL s).
Proof.
  induction s as [|c s IH]; intros H; cbn [split]; [now repeat constructor|].
  pose proof H as H'. cbn [has3] in H'. apply orb_false_iff in H' as [_ Hs].
  specialize (IH Hs).
  destruct (c =? NL); [now constructor|].
  destruct (split_nonempty NL s) as (l & ls & E). rewrite E in *.
  inversion IH; subst. constructor; [|assumption].
  destruct (split_first_prefix _ _ _ _ E) as [rest ->].
  change (c :: l ++ rest) with ((c :: l) ++ rest) in H. now apply has3_prefix in H.
Qed.

Lemma lstrip_by_suffix (p : N -> bool) (s : str) : exists a, s = a ++ lstrip_by p s.
Proof.
  induction s as [|c s [a IH]]; cbn; [now exists []|].
  destruct (p c); [|now exists []]. exists (c :: a). cbn. now rewrite <- IH.
Qed.

Lemma rstrip_by_prefix (p : N -> bool) (s : str) : exists b, s = rstrip_by p s ++ b.
Proof.
  induction s as [|c s [b IH]]; cbn; [now exists []|].
  destruct (rstrip_by p s) as [|y r] eqn:E.
  - destruct (p c); [now exists (c :: s)|]. exists s. reflexivity.
  - exists b. cbn [app]. f_equal. exact IH.
Qed.

Lemma has3_strip (s : str) : has3 s = false -> has3 (strip s) = false.
Proof.
  intros H. unfold strip, strip_by.
  destruct (lstrip_by_suffix isspace s) as [a Ha]. rewrite Ha in H.
  apply has3_suffix in H.
  destruct (rstrip_by_prefix isspace (lstrip_by isspace s)) as [b Hb].
  rewrite Hb in H. now apply has3_prefix in H.
Qed.

Lemma dict_set_ok (d : dict) (k v : str) :
  dict_ok d -> is_token k -> Forall clean v -> dict_ok (dict_set d k v).
Proof.
  intros Hd Hk Hv. induction Hd as [|[k' v'] d [Hk' Hv'] Hd' IH]; cbn [dict_set].
  - now repeat constructor.
  - destruct (str_eqb k' k).
    + constructor; [now split|exact Hd'].
    + constructor; [now split|exact IH].
Qed.

Lemma dict_set_keeps (d : dict) (k v k0 : str) :
  In k0 (map fst d) -> In k0 (map fst (dict_set d k v)).
Proof.
  induction d as [|[k' v'] d IH]; cbn [dict_set map fst]; [intros []|].
  destruct (str_eqb k' k); cbn [map fst]; intros [->|H]; cbn; auto.
Qed.

Lemma dict_set_has (d : dict) (k v : str) : In k (map fst (dict_set d k v)).
Proof.
  induction d as [|[k' v'] d IH]; cbn [dict_set map fst]; [now left|].
  unfold str_eqb. destruct (list_eq_dec N.eq_dec k' k) as [->|_]; cbn; auto.
Qed.

Lemma Forall_nth_error {A} (Q : A -> Prop) (l : list A) (i : nat) (a : A) :
  Forall Q l -> nth_error l i = Some a -> Q a.
Proof.
  intros H E. apply nth_error_In in E. rewrite Forall_forall in H. auto.
Qed.

Lemma Forall_skipn' {A} (Q : A -> Prop) (n : nat) (l : list A) :
  Forall Q l -> Forall Q (skipn n l).
Proof.
  intros H. rewrite <- (firstn_skipn n l) in H. now apply Forall_app in H.
Qed.

Lemma Forall_cells (line : str) :
  Forall clean line ->
  Forall (Forall clean) (map strip (split bar (strip_chars [bar] line))).
Proof.
  intros H. apply Forall_map.
  eapply Forall_impl; [|apply Forall_split, Forall_strip_by, H].
  intros cell Hc. now apply Forall_strip_by.
Qed.

(** [convert_table] either raises, leaving the object alone, or records
    under the table's token a text made of characters of the table,
    bars, blanks and asterisks. *)
Lemma convert_table_result (env : PyEnv) (m : mobj) (self : SlackMarkdownConverter) :
  (exists e, convert_table env m self = (inl e, self)) \/
  (exists rendered,
     convert_table env m self =
       (inr (placeholder_of env (fst m)),
        {| encoding := encoding self; in_code_block := in_code_block self;
           table_replacements :=
             dict_set (table_replacements self) (placeholder_of env (fst m)) rendered |})
     /\ (Forall clean (fst m) -> Forall clean rendered)).
Proof.
  unfold convert_table, index.
  set (table_lines := split NL (strip (fst m))).
  destruct (nth_error table_lines 0) as [header_line|] eqn:E0;
    [|left; now exists IndexError].
  destruct (nth_error table_lines 1) as [separator_line|] eqn:E1;
    [|left; now exists IndexError].
  right. eexists. split; [reflexivity|].
  intros Hc.
  assert (Hlines : Forall (Forall clean) table_lines)
    by (apply Forall_split, Forall_strip_by, Hc).
  assert (Hsep : Forall clean (lit " | ")) by now apply Forall_clean.
  apply Forall_join; [now apply Forall_clean|]. constructor.
  - apply Forall_join; [exact Hsep|]. apply Forall_map.
    eapply Forall_impl; [|apply Forall_cells, (Forall_nth_error _ _ _ _ Hlines E0)].
    intros h Hh. apply Forall_app. split; [now apply Forall_clean|].
    apply Forall_app. split; [exact Hh|now apply Forall_clean].
  - apply Forall_map. apply Forall_map.
    assert (Hdata : Forall (Forall clean)
                      (if Nat.ltb 2 (length table_lines) then skipn 2 table_lines else []))
      by (destruct (Nat.ltb 2 _); [now apply Forall_skipn'|constructor]).
    eapply Forall_impl; [|exact Hdata].
    intros line Hl. apply Forall_join; [exact Hsep|]. now apply Forall_cells.
Qed.

Lemma pieces_skip (env : PyEnv) (r : regex) (t pre suf' : str) :
  pieces env r (length t) pre (t ++ suf') = pieces env r 0 (rev t ++ pre) suf'.
Proof.
  revert pre. induction t as [|x t IH]; intros pre; [reflexivity|].
  cbn [length app pieces rev]. rewrite IH. now rewrite <- app_assoc.
Qed.

Lemma eol_cases (suf : str) :
  eol true suf = true -> suf = [] \/ exists suf', suf = NL :: suf'.
Proof.
  destruct suf as [|z suf]; [now left|]. cbn. intros H.
  apply andb_true_iff in H as [H _]. apply N.eqb_eq in H. subst. right. now eexists.
Qed.

(** The lines of the text after the table pass: each is the token of a
    recorded table or a line of the text before the pass.  The statement
    is about the scan from any position: there the first line of the
    output is a token (and the position starts a line) or the rest of
    the current line.  *)
Lemma tables_pass_lines (env : PyEnv) (n : nat) :
  forall suf, (length suf <= n)%nat -> Forall clean suf ->
  forall pre self parts self',
    mapM (table_callback env) (pieces env table_pattern 0 pre suf) self
      = (inr parts, self') ->
    dict_ok (table_replacements self) ->
    encoding self' = encoding self /\
    dict_ok (table_replacements self') /\
    incl (keys self) (keys self') /\
    exists l0 ls m0 ms,
      split NL (concat parts) = l0 :: ls /\
      split NL suf = m0 :: ms /\
      ((In l0 (keys self') /\ bol true pre = true) \/ l0 = m0) /\
      Forall (fun l => In l (keys self') \/ In l ms) ls.
Proof.
  assert (Hnil : forall pre self parts self',
             mapM (table_callback env) (pieces env table_pattern 0 pre []) self
               = (inr parts, self') ->
             parts = [] /\ self' = self).
  { intros pre self parts self' Hm. cbn [pieces] in Hm.
    rewrite table_no_match_at_end in Hm. cbn in Hm. now injection Hm as <- <-. }
  induction n as [|n IH]; intros suf Hlen Hclean pre self parts self' Hm Hd.
  - destruct suf; [|cbn in Hlen; lia].
    apply Hnil in Hm as [-> ->]. repeat split; auto using incl_refl.
    exists [], [], [], []. repeat split; auto.
  - destruct suf as [|y suf1].
    { apply Hnil in Hm as [-> ->]. repeat split; auto using incl_refl.
      exists [], [], [], []. repeat split; auto. }
    cbn [length] in Hlen. inversion Hclean as [|? ? Hy Hclean1]; subst.
    cbn [pieces] in Hm.
    destruct (match_at env table_pattern false pre (y :: suf1)) as [[[|x t] c]|] eqn:Hmatch.
    + apply table_match_shape in Hmatch as (_ & t' & suf' & Ht & _). discriminate Ht.
    + apply table_match_shape in Hmatch as (Hbol & t' & suf' & Ht & Hsuf & Heol).
      injection Ht as -> ->. injection Hsuf as -> ->.
      rewrite pieces_skip, mapM_cons in Hm. cbn [table_callback] in Hm.
      assert (Hct : Forall clean (bar :: t')).
      { change (bar :: t' ++ suf') with ((bar :: t') ++ suf') in Hclean.
        now apply Forall_app in Hclean. }
      assert (Hcs : Forall clean suf') by now apply Forall_app in Hclean1.
      destruct (convert_table_result env (bar :: t', c) self)
        as [[e He]|(rendered & He & Hr)]; rewrite He in Hm; [discriminate|].
      cbn [fst] in *. specialize (Hr Hct).
      set (tok := placeholder_of env (bar :: t')) in *.
      set (self1 := {| encoding := encoding self; in_code_block := in_code_block self;
                       table_replacements :=
                         dict_set (table_replacements self) tok rendered |}) in *.
      assert (Hd1 : dict_ok (table_replacements self1))
        by (apply dict_set_ok; [exact Hd|apply placeholder_is_token|exact Hr]).
      assert (Hk1 : incl (keys self) (keys self1))
        by (intros k Hk; now apply dict_set_keeps).
      assert (Htok1 : In tok (keys self1)) by apply dict_set_has.
      destruct (split_nonempty NL (bar :: t')) as (a0 & a1 & Ea).
      destruct (eol_cases suf' Heol) as [->|[suf'' ->]].
      * destruct (mapM _ _ self1) as [[e|parts2] self2] eqn:Hrest; [discriminate|].
        injection Hm as <- <-. apply Hnil in Hrest as [-> ->].
        repeat split; auto.
        exists tok, [], a0, a1. cbn [concat]. rewrite !app_nil_r.
        repeat split; auto.
        apply split_no_sep, placeholder_no_newline.
      * cbn [pieces] in Hm. rewrite table_no_match_at_newline, mapM_cons in Hm.
        cbn [table_callback ret] in Hm.
        destruct (mapM _ _ self1) as [[e|parts3] self3] eqn:Hrest; [discriminate|].
        injection Hm as <- <-.
        apply IH in Hrest; auto.
        2:{ rewrite length_app in Hlen. cbn [length] in Hlen. lia. }
        2:{ now inversion Hcs. }
        destruct Hrest as (Henc & Hd3 & Hk3 & l0 & ls & m0 & ms & E1 & E2 & Hfirst & Hrest).
        repeat split; auto.
        { intros k Hk. auto. }
        exists tok, (l0 :: ls), a0, (a1 ++ m0 :: ms).
        repeat split.
        -- cbn [concat]. change ([NL] ++ concat parts3) with (NL :: concat parts3).
           rewrite split_app_sep by apply placeholder_no_newline. now rewrite E1.
        -- change (bar :: t' ++ NL :: suf'') with ((bar :: t') ++ NL :: suf'').
           now rewrite split_app_lines, Ea, E2.
        -- left. split; [apply Hk3, Htok1|exact Hbol].
        -- constructor.
           ++ destruct Hfirst as [[Hin _]| ->]; [now left|].
              right. apply in_or_app. right. now left.
           ++ eapply Forall_impl; [|exact Hrest]. cbn. intros l [Hl|Hl]; [now left|].
              right. apply in_or_app. right. now right.
    + rewrite mapM_cons in Hm. cbn [table_callback ret] in Hm.
      destruct (mapM _ _ self) as [[e|parts1] self1] eqn:Hrest; [discriminate|].
      injection Hm as <- <-.
      apply IH in Hrest; auto; [|lia].
      destruct Hrest as (Henc & Hd1 & Hk1 & l0 & ls & m0 & ms & E1 & E2 & Hfirst & Hrest).
      repeat split; auto.
      cbn [concat app split]. rewrite E1, E2.
      destruct (N.eqb_spec y NL) as [->|Hne].
      * exists [], (l0 :: ls), [], (m0 :: ms). repeat split; auto.
        constructor.
        -- destruct Hfirst as [[Hin _]| ->]; [now left|right; now left].
        -- eapply Forall_impl; [|exact Hrest]. cbn. intros l [Hl|Hl]; auto.
      * exists (y :: l0), ls, (y :: m0), ms. repeat split; auto.
        destruct Hfirst as [[_ Hb]| ->]; [|now right].
        cbn in Hb. destruct (N.eqb_spec y NL); [contradiction|discriminate].
Qed.

(* ------------------------------------------------------------------ *)
(** *** No token left behind *)

Lemma occurs_percent (p s : str) : In 37 p -> occurs p s -> In 37 s.
Proof.
  intros Hp (a & b & ->). rewrite !in_app_iff. auto.
Qed.

(** Of the lines [_convert_line] is given: an opening
    fence with its tag, then lines that are not fences, then a closing
    fence with any tag come out as the opening fence with its tag, the
    lines in between unchanged (whatever they look like, trailing blanks
    included), and a bare closing fence; the flag is set in between and
    clear again after. *)
Lemma fenced_block_lines (env : PyEnv) (tag tag' : str) (body : list str)
    (self : SlackMarkdownConverter) :
  in_code_block self = false ->
  forallb (isword env) tag = true ->
  forallb (isword env) tag' = true ->
  Forall (fun l => re_match env fence_pattern l = None) body ->
  mapM (_convert_line env) ((backticks ++ tag) :: body ++ [backticks ++ tag']) self =
    (inr ((backticks ++ tag) :: body ++ [backticks]), self) /\
  after (_convert_line env (backticks ++ tag) self) = toggled self /\
  (forall l, re_match env fence_pattern l = None ->
     _convert_line env l (toggled self) = (inr l, toggled self)).
Proof.
  intros Hout Ht Ht' Hbody.
  assert (Hopen := _convert_line_fence env _ tag self (fence_tag_whole env tag Ht)).
  assert (Hclose := _convert_line_fence env _ tag' (toggled self)
                      (fence_tag_whole env tag' Ht')).
  assert (Hinside : in_code_block (toggled self) = true)
    by (unfold toggled; cbn; now rewrite Hout).
  repeat split.
  - rewrite mapM_cons, Hopen, (mapM_inside_block env body _ _ Hinside Hbody).
    rewrite mapM_cons, Hclose. cbn [mapM ret].
    rewrite Hinside, Hout. cbn [negb andb].
    assert (Hself : toggled (toggled self) = self).
    { destruct self as [e b d]. unfold toggled. cbn. now rewrite negb_involutive. }
    rewrite Hself. f_equal. f_equal. f_equal.
    destruct tag; reflexivity.
  - now rewrite Hopen.
  - intros l Hl. rewrite re_match_fence in Hl.
    assert (Hf : fence_tag env l = None) by now destruct (fence_tag env l).
    rewrite (_convert_line_plain env l _ Hf), Hinside.
    now destruct (startswith l placeholder_prefix && endswith l pct2).
Qed.


(* ------------------------------------------------------------------ *)
(** *** A fenced block in a text without tables *)

Lemma split_join (sep : N) (lines : list str) :
  lines <> [] -> Forall (fun l => ~ In sep l) lines ->
  split sep (join [sep] lines) = lines.
Proof.
  intros Hne H. revert Hne.
  induction H as [|l lines Hl Hrest IH]; intros Hne; [now elim Hne|].
  destruct lines as [|l2 lines]; [now apply split_no_sep|].
  change (join [sep] (l :: l2 :: lines)) with (l ++ sep :: join [sep] (l2 :: lines)).
  rewrite split_app_sep by exact Hl. now rewrite IH.
Qed.

Lemma mapM_app {A B} (f : A -> M B) (l1 l2 : list A) (self : SlackMarkdownConverter) :
  mapM f (l1 ++ l2) self =
  match mapM f l1 self with
  | (inr o1, self1) =>
      match mapM f l2 self1 with
      | (inr o2, self2) => (inr (o1 ++ o2), self2)
      | (inl e, self2) => (inl e, self2)
      end
  | (inl e, self1) => (inl e, self1)
  end.
Proof.
  revert self. induction l1 as [|a l1 IH]; intros self; cbn [app].
  - cbn [mapM ret]. now destruct (mapM f l2 self) as [[e|o2] self2].
  - rewrite !mapM_cons. destruct (f a self) as [[e|b] self1]; [reflexivity|].
    rewrite IH. destruct (mapM f l1 self1) as [[e|o1] self2]; [reflexivity|].
    now destruct (mapM f l2 self2) as [[e|o2] self3].
Qed.

(** The rules keep a line within any set of characters that holds the
    line, the sentinels and the texts of the templates. *)
Lemma rewrite_rules_chars (env : PyEnv) (p : N -> bool) (line : str) :
  forallb p (triple_start ++ triple_end ++ lit "*_") = true ->
  forallb (fun pr => forallb (fun i => match i with
                                       | TLit t => forallb p t
                                       | TGrp _ => true
                                       end) (snd pr)) patterns = true ->
  Forall (fun c => p c = true) line ->
  Forall (fun c => p c = true) (rewrite_rules env line).
Proof.
  intros Hs Hp Hl. unfold rewrite_rules.
  set (P := fun c => p c = true) in *.
  assert (Hconst : Forall P (triple_start ++ triple_end ++ lit "*_"))
    by (apply Forall_forall; now apply forallb_forall).
  apply Forall_app in Hconst as [Hstart Hconst].
  apply Forall_app in Hconst as [Hend Hmarks].
  assert (Htpl : forall t, forallb (fun i => match i with
                                             | TLit t => forallb p t
                                             | TGrp _ => true
                                             end) t = true -> Forall (titemP P) t).
  { intros t Ht. apply Forall_forall. intros i Hi.
    rewrite forallb_forall in Ht. specialize (Ht i Hi). destruct i; [|exact I].
    apply Forall_forall. now apply forallb_forall. }
  apply Forall_rstrip_by. apply sub_chars.
  { inversion Hmarks as [|? ? Hstar Hm']; subst. inversion Hm'; subst.
    repeat constructor; assumption. }
  assert (Hfold : forall ps l, forallb (fun pr => forallb (fun i => match i with
                                       | TLit t => forallb p t
                                       | TGrp _ => true
                                       end) (snd pr)) ps = true ->
                               Forall P l ->
                               Forall P (fold_left (fun l pr => sub env (fst pr) (snd pr) l) ps l)).
  { induction ps as [|pr ps IH]; intros l Hps Hl'; cbn [fold_left]; [exact Hl'|].
    cbn [forallb] in Hps. apply andb_true_iff in Hps as [Hpr Hps].
    apply IH; [exact Hps|]. apply sub_chars; [now apply Htpl|exact Hl']. }
  apply Hfold; [exact Hp|].
  apply sub_fn_chars; [|exact Hl].
  intros m [_ Hc]. apply Forall_app. split; [exact Hstart|].
  apply Forall_app. split; [now apply group_chars|exact Hend].
Qed.

(** [_convert_line] on any lines: no exception, one line out for each
    line in, and no surrogate out of lines without one. *)
Lemma mapM_lines_total (env : PyEnv) (lines : list str) :
  forall self,
  exists outs b,
    mapM (_convert_line env) lines self = (inr outs, with_flag self b) /\
    length outs = length lines /\
    (Forall (Forall (fun c => is_surrogate c = false)) lines ->
     Forall (Forall (fun c => is_surrogate c = false)) outs).
Proof.
  induction lines as [|l lines IH]; intros self.
  - exists [], (in_code_block self). split; [now destruct self|]. now split.
  - rewrite mapM_cons.
    assert (Hl : exists out b,
               _convert_line env l self = (inr out, with_flag self b) /\
               (Forall (fun c => is_surrogate c = false) l ->
                Forall (fun c => is_surrogate c = false) out)).
    { destruct (fence_tag env l) as [tag|] eqn:Hf.
      - rewrite (_convert_line_fence env l tag self Hf).
        eexists _, _. split; [reflexivity|]. intros Hc.
        apply fence_tag_some in Hf as [_ Hline].
        assert (Ht : Forall (fun c => is_surrogate c = false) (backticks ++ tag)).
        { destruct Hline as [-> | ->]; [exact Hc|].
          rewrite app_assoc in Hc. now apply Forall_app in Hc. }
        destruct (_ && _); [exact Ht|]. now apply Forall_app in Ht.
      - rewrite (_convert_line_plain env l self Hf).
        eexists _, (in_code_block self). split; [now destruct self|]. intros Hc.
        destruct (_ && _); [exact Hc|]. destruct (in_code_block self); [exact Hc|].
        eapply Forall_impl;
          [|apply (rewrite_rules_chars env (fun c => negb (is_surrogate c)));
            [reflexivity|reflexivity|]].
        + intros c Hc'. now apply negb_true_iff.
        + eapply Forall_impl; [|exact Hc]. intros c Hc'. now apply negb_true_iff. }
    destruct Hl as (out & b & -> & Hout).
    destruct (IH (with_flag self b)) as (outs & b' & -> & Hlen & Houts).
    exists (out :: outs), b'. split; [reflexivity|]. split; [cbn; now rewrite Hlen|].
    intros Hall. inversion Hall; subst. constructor; auto.
Qed.

Lemma in_join (sep : str) (lines : list str) (l : str) (c : N) :
  In l lines -> In c l -> In c (join sep lines).
Proof.
  induction lines as [|l1 lines IH]; [intros []|].
  intros [->|Hin] Hc; destruct lines as [|l2 lines]; cbn [join].
  - exact Hc.
  - apply in_or_app. now left.
  - destruct Hin.
  - apply in_or_app. right. apply in_or_app. right. now apply IH.
Qed.

(** Lines that are not fences, on an object outside a code block or
    inside one: the object is unchanged. *)
Lemma mapM_no_fence (env : PyEnv) (lines : list str) (self : SlackMarkdownConverter) :
  Forall (fun l => re_match env fence_pattern l = None) lines ->
  mapM (_convert_line env) lines self =
  (inr (map (fun l => if placeholder_shape l then l
                      else if in_code_block self then l else rewrite_rules env l) lines),
   self).
Proof.
  induction 1 as [|l lines Hl _ IH]; [reflexivity|].
  rewrite mapM_cons. rewrite re_match_fence in Hl.
  assert (Hf : fence_tag env l = None) by now destruct (fence_tag env l).
  now rewrite (_convert_line_plain env l self Hf), IH.
Qed.

Lemma word_no_newline (env : PyEnv) (tag : str) :
  forallb (isword env) tag = true -> ~ In NL (backticks ++ tag).
Proof.
  intros Ht Hin. apply in_app_or in Hin as [Hin|Hin].
  - revert Hin. vm_compute. intuition discriminate.
  - rewrite forallb_forall in Ht. now apply (isword_not_newline env NL (Ht _ Hin)).
Qed.

(** A fenced block in a text without a table block, through [convert]. *)
Lemma convert_fenced_block (env : PyEnv) (s : str) (before body rest : list str)
    (tag tag' : str) :
  strip s = join [NL] (before ++ (backticks ++ tag) :: body ++ (backticks ++ tag') :: rest) ->
  Forall (fun l => ~ In NL l) (before ++ body ++ rest) ->
  Forall (fun l => re_match env fence_pattern l = None) (before ++ body) ->
  forallb (isword env) (tag ++ tag') = true ->
  search env table_pattern (strip s) = false ->
  existsb is_surrogate s = false ->
  exists before' rest',
    length before' = length before /\ length rest' = length rest /\
    returned (convert env s (__init__ Utf8)) =
      inr (join [NL] (before' ++ (backticks ++ tag) :: body ++ backticks :: rest')).
Proof.
  intros Hs Hnl Hnf Hw Htab Hsur.
  rewrite forallb_app in Hw. apply andb_true_iff in Hw as [Ht Ht'].
  apply Forall_app in Hnl as [Hnl1 Hnl]. apply Forall_app in Hnl as [Hnl2 Hnl3].
  apply Forall_app in Hnf as [Hnf1 Hnf2].
  set (opening := backticks ++ tag) in *. set (closing := backticks ++ tag') in *.
  set (lines := before ++ opening :: body ++ closing :: rest) in *.
  destruct s as [|c s].
  { exfalso. change (strip []) with (@nil N) in Hs.
    assert (Hin : In 96 (join [NL] lines)).
    { apply (in_join _ lines opening); [|now left].
      unfold lines. apply in_or_app. right. now left. }
    now rewrite <- Hs in Hin. }
  assert (Ht0 : (set_table_replacements [] ;;; _convert_tables env (strip (c :: s)))
                  (__init__ Utf8) = (inr (strip (c :: s)), __init__ Utf8)).
  { unfold bind, set_table_replacements. cbn [__init__ encoding in_code_block].
    now rewrite _convert_tables_no_match. }
  rewrite (convert_after_tables env c s _ _ _ Ht0), Hs.
  assert (Hlines : Forall (fun l => ~ In NL l) lines).
  { unfold lines. apply Forall_app. split; [exact Hnl1|].
    constructor; [now apply (word_no_newline env)|].
    apply Forall_app. split; [exact Hnl2|].
    constructor; [now apply (word_no_newline env)|exact Hnl3]. }
  rewrite split_join; [|unfold lines; now destruct before|exact Hlines].
  (* the lines, by parts *)
  destruct (mapM_lines_total env rest (__init__ Utf8)) as (rest' & b & Hrest & Hlen & _).
  assert (Hrun : mapM (_convert_line env) lines (__init__ Utf8) =
                 (inr (map (fun l => if placeholder_shape l then l
                                     else rewrite_rules env l) before
                       ++ (opening :: body ++ [backticks]) ++ rest'),
                  with_flag (__init__ Utf8) b)).
  { unfold lines.
    change (opening :: body ++ closing :: rest)
      with ((opening :: body) ++ closing :: rest).
    replace ((opening :: body) ++ closing :: rest)
      with ((opening :: body ++ [closing]) ++ rest)
      by (cbn [app]; now rewrite <- app_assoc).
    rewrite mapM_app, (mapM_no_fence env before _ Hnf1).
    change (in_code_block (__init__ Utf8)) with false. cbv iota.
    rewrite mapM_app.
    destruct (fenced_block_lines env tag tag' body (__init__ Utf8) eq_refl Ht Ht' Hnf2)
      as [Hblock _].
    fold opening closing in Hblock. rewrite Hblock.
    now rewrite Hrest. }
  (* no surrogate comes in *)
  destruct (mapM_lines_total env lines (__init__ Utf8)) as (outs & b0 & Hall & _ & Hok).
  rewrite Hrun in Hall. injection Hall as <- _.
  rewrite Hrun. cbn [with_flag __init__ encoding table_replacements replace_all].
  assert (Hclean : existsb is_surrogate
                     (join [NL] (map (fun l => if placeholder_shape l then l
                                               else rewrite_rules env l) before
                                 ++ (opening :: body ++ [backticks]) ++ rest')) = false).
  { apply existsb_false_Forall. apply Forall_join; [now repeat constructor|].
    apply Hok. rewrite <- (split_join NL lines); [|unfold lines; now destruct before|exact Hlines].
    rewrite <- Hs. apply Forall_split, Forall_strip_by.
    now apply existsb_false_Forall. }
  unfold encode_decode. rewrite Hclean.
  eexists _, rest'. split; [apply length_map|]. split; [exact Hlen|].
  unfold returned. cbn [fst]. do 2 f_equal. f_equal.
  cbn [app]. now rewrite <- app_assoc.
Qed.

(* ------------------------------------------------------------------ *)
(** *** The examples of the specification *)

(** The lines of a text hold no newline. *)
Lemma split_lines_no_sep (sep : N) (s : str) :
  Forall (fun l => ~ In sep l) (split sep s).
Proof.
  induction s as [|c s IH]; cbn [split]; [repeat constructor; intros []|].
  destruct (N.eqb_spec c sep) as [->|Hne]; [constructor; [intros []|exact IH]|].
  destruct (split sep s) as [|l ls]; [repeat constructor; intros [H|[]]; congruence|].
  inversion IH; subst. constructor; [|assumption].
  intros [H|H]; [congruence|contradiction].
Qed.

(** Empty input, headings, task items, a link and a rule, whatever the
    interpreter. *)
Lemma convert_examples (env : PyEnv) :
  returned (convert env [] (__init__ Utf8)) = inr [] /\
  returned (convert env (lit "# Title") (__init__ Utf8)) = inr (lit "*Title*") /\
  returned (convert env (lit "### Sub") (__init__ Utf8)) = inr (lit "*Sub*") /\
  returned (convert env (lit "## Two") (__init__ Utf8)) = inr (lit "*Two*") /\
  returned (convert env (lit "- [ ] todo") (__init__ Utf8))
    = inr ([bullet; 32; box_open; 32] ++ lit "todo") /\
  returned (convert env (lit "- [x] done") (__init__ Utf8))
    = inr ([bullet; 32; box_checked; 32] ++ lit "done") /\
  returned (convert env (lit "[text](http://x)") (__init__ Utf8))
    = inr (lit "<http://x|text>") /\
  returned (convert env (lit "---") (__init__ Utf8)) = inr (repeat hline 10).
Proof. repeat split; vm_compute; reflexivity. Qed.

(** An unmatched fence leaves the rest of the text as it is, and a
    table of a header and a separator alone renders as the bold header. *)
Lemma convert_edge_cases (env : PyEnv) :
  returned (convert env (backticks ++ [NL] ++ lit "# kept" ++ [NL] ++ lit "**kept**")
              (__init__ Utf8))
    = inr (backticks ++ [NL] ++ lit "# kept" ++ [NL] ++ lit "**kept**") /\
  (set_table_replacements [] ;;;
   _convert_tables env (lit "| A | B |" ++ [NL] ++ lit "|---|---|")) (__init__ Utf8)
    = (inr (placeholder_of env (lit "| A | B |" ++ [NL] ++ lit "|---|---|") ++ []),
       {| encoding := Utf8; in_code_block := false;
          table_replacements :=
            [(placeholder_of env (lit "| A | B |" ++ [NL] ++ lit "|---|---|"),
              lit "*A* | *B*")] |}).
Proof. split; vm_compute; reflexivity. Qed.

(* ================================================================== *)
(** ** The claims *)

(** C1. For every input string and every converter object, [convert]
    returns a string: whatever is raised by table extraction, the line
    rules, placeholder restoration or re-encoding is caught inside. *)
Theorem convert_returns_string (env : PyEnv) (self : SlackMarkdownConverter)
    (markdown : str) :
  exists out, returned (convert env markdown self) = inr out.
Proof.
  unfold convert, returned.
  destruct markdown as [|c s]; [now exists []|].
  unfold try_returning.
  destruct (bind _ _ self) as [[e|markdown2] self1]; [now eexists|].
  destruct (bind _ _ self1) as [[e|out] self2]; now eexists.
Qed.

(** C2 on the code: when re-encoding fails, [convert] returns what the
    variable [markdown] holds by then: the input stripped, with each
    table replaced by its placeholder token; not the string it was
    called with. *)
Theorem handler_returns_rebound_markdown (env : PyEnv) :
  returned (convert env ([32] ++ lit "x" ++ [55296]) (__init__ Utf8))
    = inr (lit "x" ++ [55296]) /\
  returned (convert env table_with_surrogate (__init__ Utf8))
    = inr (placeholder_of env table_with_surrogate) /\
  returned (convert env (lit " ---") (__init__ AsciiCodec)) = inr (lit "---") /\
  rewrite_rules env (lit "---") = repeat hline 10.
Proof.
  split; [vm_compute; reflexivity|]. split; [|split; vm_compute; reflexivity].
  change table_with_surrogate with (124 :: tl table_with_surrogate) at 1.
  unfold __init__.
  rewrite (convert_single_table env 124 (tl table_with_surrogate) table_with_surrogate
             (lit "*A*" ++ [NL; 55296]) Utf8 false []); [reflexivity|].
  apply _convert_tables_surrogate.
Qed.

(** C3 on the code: [convert] resets [table_replacements] and leaves
    [in_code_block] as the previous call left it.  After a call whose
    text has an unmatched fence, the same object returns a heading
    untouched, where a new object makes it bold. *)
Theorem code_block_flag_persists (env : PyEnv) :
  let self1 := after (convert env backticks (__init__ Utf8)) in
  in_code_block self1 = true /\
  table_replacements self1 = [] /\
  returned (convert env (lit "# Title") self1) = inr (lit "# Title") /\
  returned (convert env (lit "# Title") (__init__ Utf8)) = inr (lit "*Title*").
Proof. repeat split; vm_compute; reflexivity. Qed.

(** C4 and C8 rest on the line-by-line account of the table pass and on
    the automata that follow the sentinels through the rules: they are
    stated at the end, under "The claims on fenced blocks and on
    placeholders". *)

(** C5. The table of three rows converts to the bold header row and the
    plain data row, joined by a newline, with the placeholder substituted
    back: whatever the interpreter's hash and the code-block flag. *)
Theorem convert_table_example_exact (env : PyEnv) (b : bool) (d : dict) :
  returned (convert env table_example
              {| encoding := Utf8; in_code_block := b; table_replacements := d |})
  = inr table_example_rendered.
Proof.
  change table_example with (124 :: tl table_example) at 1.
  rewrite (convert_single_table env 124 (tl table_example) table_example
             table_example_rendered Utf8 b d); [reflexivity|].
  apply _convert_tables_example.
Qed.

(** C6. Emphasis: bold, italic, triple emphasis through the sentinel
    wrapper, and italic nested in bold. *)
Theorem convert_emphasis (env : PyEnv) :
  returned (convert env (lit "**bold**") (__init__ Utf8)) = inr (lit "*bold*") /\
  returned (convert env (lit "*italic*") (__init__ Utf8)) = inr (lit "_italic_") /\
  returned (convert env (lit "***both***") (__init__ Utf8)) = inr (lit "*_both_*") /\
  returned (convert env (lit "**bold *and* italic**") (__init__ Utf8))
    = inr (lit "*bold _and_ italic*") /\
  sub_fn env triple_pattern (fun m => triple_start ++ group 1 (snd m) ++ triple_end)
    (lit "***both***") = lit "%%BOLDITALIC_START%%both%%BOLDITALIC_END%%" /\
  fold_left (fun l pr => sub env (fst pr) (snd pr) l) patterns
    (lit "%%BOLDITALIC_START%%both%%BOLDITALIC_END%%")
    = lit "%%BOLDITALIC_START%%both%%BOLDITALIC_END%%" /\
  sub env sentinel_pattern [TLit (lit "*_"); TGrp 1; TLit (lit "_*")]
    (lit "%%BOLDITALIC_START%%both%%BOLDITALIC_END%%") = lit "*_both_*".
Proof.
  repeat split; vm_compute; reflexivity.
Qed.

(** C7, as it holds. On a converter outside a code block, for a text
    with no markdown in it that UTF-8 can encode, [convert] returns the
    stripped text with the trailing whitespace of each of its lines
    removed. *)
Theorem convert_plain_text (env : PyEnv) (self : SlackMarkdownConverter) (s : str) :
  in_code_block self = false ->
  encoding self = Utf8 ->
  existsb is_surrogate s = false ->
  no_markdown env s = true ->
  returned (convert env s self) = inr (join [NL] (map rstrip (split NL (strip s)))).
Proof.
  intros Hout Henc Hsur Hno.
  destruct s as [|c s]; [reflexivity|].
  unfold no_markdown in Hno. apply andb_true_iff in Hno as [Htab Hlines].
  apply negb_true_iff in Htab.
  assert (Ht : (set_table_replacements [] ;;; _convert_tables env (strip (c :: s))) self
               = (inr (strip (c :: s)),
                  {| encoding := encoding self; in_code_block := in_code_block self;
                     table_replacements := [] |})).
  { unfold bind, set_table_replacements. now rewrite _convert_tables_no_match. }
  rewrite (convert_after_tables env c s _ _ _ Ht).
  rewrite (mapM_no_markdown env _ _ (Hout : in_code_block {| in_code_block := _ |} = false)
             Hlines).
  cbn [table_replacements encoding replace_all]. rewrite Henc.
  assert (Hmap : map (fun l => if startswith l placeholder_prefix && endswith l pct2
                               then l else rstrip l) (split NL (strip (c :: s)))
                 = map rstrip (split NL (strip (c :: s)))).
  { apply map_ext. intros l.
    destruct (startswith l placeholder_prefix); [|reflexivity].
    destruct (endswith l pct2) eqn:He; [|reflexivity].
    cbn. now rewrite rstrip_placeholder_shape. }
  rewrite Hmap. unfold encode_decode.
  assert (Hok : existsb is_surrogate (join [NL] (map rstrip (split NL (strip (c :: s)))))
                = false).
  { apply existsb_false_Forall. apply Forall_join; [repeat constructor|].
    apply Forall_map. apply existsb_false_Forall in Hsur.
    eapply Forall_impl; [|apply Forall_split, Forall_strip_by, Hsur].
    intros l Hl. now apply Forall_rstrip_by. }
  now rewrite Hok.
Qed.

Lemma convert_plain_text_witness :
  let s := lit "  two words  " ++ [NL] ++ lit "100% plain " ++ [NL] in
  returned (convert env0 s (__init__ Utf8))
  = inr (join [NL] (map rstrip (split NL (strip s)))).
Proof.
  intros s. apply (convert_plain_text env0 (__init__ Utf8) s); reflexivity.
Defined.

(** C7, as stated, fails on a line that ends in a blank before a
    newline: nothing in the text is markdown, and the result is not the
    stripped text. *)
Lemma plain_text_is_not_only_stripped :
  let s := lit "a " ++ [NL] ++ lit "b" in
  (forall env, no_markdown env s = true) /\
  (forall env, returned (convert env s (__init__ Utf8)) = inr (lit "a" ++ [NL] ++ lit "b")) /\
  strip s = lit "a " ++ [NL] ++ lit "b" /\
  lit "a" ++ [NL] ++ lit "b" <> strip s.
Proof.
  cbv zeta. repeat split; try (intros env; vm_compute; reflexivity).
  vm_compute. discriminate.
Qed.

(** C9. A line (no newline in it) that is not exactly three backticks
    followed by word characters is not a fence: the pattern does not
    match, the object, with its code-block flag, is left as it was, and
    the line is treated as any other line, by the rewrite rules when
    outside a code block. *)
Theorem fence_requires_whole_line (env : PyEnv) (line : str)
    (self : SlackMarkdownConverter) :
  ~ In NL line ->
  (forall tag, forallb (isword env) tag = true -> line <> backticks ++ tag) ->
  re_match env fence_pattern line = None /\
  after (_convert_line env line self) = self /\
  returned (_convert_line env line self) =
    inr (if startswith line placeholder_prefix && endswith line pct2 then line
         else if in_code_block self then line else rewrite_rules env line).
Proof.
  intros Hnl Hshape. pose proof (fence_tag_none env line Hnl Hshape) as Hf.
  rewrite re_match_fence, Hf, (_convert_line_plain env line self Hf).
  repeat split.
Qed.

(** Trailing whitespace after the backticks: no toggle, and outside a
    code block the rules run (here they strip the trailing blank). *)
Lemma fence_requires_whole_line_witness :
  let line := lit "``` " in
  let self := __init__ Utf8 in
  re_match env0 fence_pattern line = None /\
  after (_convert_line env0 line self) = self /\
  returned (_convert_line env0 line self) =
    inr (if startswith line placeholder_prefix && endswith line pct2 then line
         else if in_code_block self then line else rewrite_rules env0 line).
Proof.
  intros line self. apply (fence_requires_whole_line env0 line self).
  - vm_compute. intuition discriminate.
  - intros tag Hw Heq. apply (backticks_tag_inv tag [32]) in Heq. subst tag.
    discriminate Hw.
Defined.

(** Leading whitespace and a tag with a character outside [\w]: neither
    line toggles the flag; both go through the rules. *)
Lemma fence_other_shapes (env : PyEnv) :
  _convert_line env (lit " ```") (__init__ Utf8) = (inr (lit " ```"), __init__ Utf8) /\
  _convert_line env (lit "```c++") (__init__ Utf8) = (inr (lit "```c++"), __init__ Utf8) /\
  _convert_line env (lit "``` ") (__init__ Utf8) = (inr (lit "```"), __init__ Utf8) /\
  _convert_line env (lit "```py") (__init__ Utf8) =
    (inr (lit "```py"), toggled (__init__ Utf8)).
Proof. repeat split; vm_compute; reflexivity. Qed.

(** C10. A line that starts with the placeholder prefix and ends with
    two percent signs is returned unchanged, and the object with it:
    with the code-block flag set or not, and whether or not the line is
    a key of [table_replacements]. *)
Theorem placeholder_shape_passthrough (env : PyEnv) (line : str)
    (self : SlackMarkdownConverter) :
  startswith line placeholder_prefix = true ->
  endswith line pct2 = true ->
  returned (_convert_line env line self) = inr line /\
  after (_convert_line env line self) = self.
Proof.
  intros H1 H2. now rewrite (_convert_line_shape env line self H1 H2).
Qed.

Lemma placeholder_shape_passthrough_witness :
  let line := lit "%%TABLE_PLACEHOLDER_# not a key%%" in
  let self := {| encoding := Utf8; in_code_block := true; table_replacements := [] |} in
  returned (_convert_line env0 line self) = inr line /\
  after (_convert_line env0 line self) = self.
Proof.
  intros line self.
  apply (placeholder_shape_passthrough env0 line self); reflexivity.
Defined.

(* ================================================================== *)
(** ** More on the converter *)

(* ------------------------------------------------------------------ *)
(** *** Blank input *)

Lemma lstrip_by_all (p : N -> bool) (s : str) : forallb p s = true -> lstrip_by p s = [].
Proof.
  induction s as [|c s IH]; [reflexivity|]. cbn [forallb lstrip_by].
  intros H. apply andb_true_iff in H as [-> H]. auto.
Qed.

Lemma strip_blank (s : str) : forallb isspace s = true -> strip s = [].
Proof. intros H. unfold strip, strip_by. now rewrite lstrip_by_all. Qed.

(** The table pass, then the lines, of the empty text. *)
Lemma convert_stages_empty (env : PyEnv) (self : SlackMarkdownConverter) :
  (set_table_replacements [] ;;; _convert_tables env []) self =
    (inr [], {| encoding := encoding self; in_code_block := in_code_block self;
                table_replacements := [] |}) /\
  forall self', mapM (_convert_line env) (split NL []) self' = (inr [[]], self').
Proof.
  split; [reflexivity|]. intros self'.
  change (split NL []) with [@nil N]. rewrite mapM_cons.
  rewrite (_convert_line_plain env [] self' eq_refl).
  change (startswith [] placeholder_prefix && endswith [] pct2) with false. cbv iota.
  change (rewrite_rules env []) with (@nil N).
  now destruct (in_code_block self').
Qed.

(** X1. A text of whitespace alone (the empty text included) is
    converted to the empty string, whatever the state of the object and
    whatever its encoding, even one that no codec is known for. *)
Theorem convert_blank (env : PyEnv) (self : SlackMarkdownConverter) (s : str) :
  forallb isspace s = true -> returned (convert env s self) = inr [].
Proof.
  intros Hs. destruct s as [|c s]; [reflexivity|].
  destruct (convert_stages_empty env self) as [Ht Hl].
  rewrite <- (strip_blank _ Hs) in Ht.
  rewrite (convert_after_tables env c s _ _ _ Ht), (strip_blank _ Hs), Hl.
  cbn [table_replacements encoding replace_all join].
  now destruct (encoding self).
Qed.

Lemma convert_blank_witness :
  returned (convert env0 ([32; 9; NL; 32])
              {| encoding := UnknownCodec; in_code_block := true;
                 table_replacements := [(lit "k", lit "v")] |}) = inr [].
Proof. apply convert_blank. reflexivity. Defined.

(* ------------------------------------------------------------------ *)
(** *** The table pass raises nothing *)

Lemma rstrip_by_keep (p : N -> bool) (a b : str) (x : N) :
  p x = false -> rstrip_by p (a ++ x :: b) = a ++ x :: rstrip_by p b.
Proof.
  intros Hx. induction a as [|c a IH]; cbn [app rstrip_by].
  - destruct (rstrip_by p b); [now rewrite Hx|reflexivity].
  - rewrite IH. now destruct a.
Qed.

(** What the scan hands to the callback are matches of the pattern. *)
Lemma pieces_matched (env : PyEnv) (r : regex) (Q : mobj -> Prop) :
  (forall adv pre suf m, match_at env r adv pre suf = Some m -> Q m) ->
  forall suf skip pre,
    Forall (fun pc => match pc with inl _ => True | inr m => Q m end)
           (pieces env r skip pre suf).
Proof.
  intros HQ. induction suf as [|y suf IH]; intros skip pre.
  - destruct skip; cbn [pieces]; [|constructor].
    destruct (match_at env r false pre []) as [[[|x t] c]|] eqn:Hm; [| |constructor].
    + constructor; [exact (HQ _ _ _ _ Hm)|].
      destruct (match_at env r true pre []) as [[t c']|] eqn:Hm'; [|constructor].
      constructor; [exact (HQ _ _ _ _ Hm')|constructor].
    + constructor; [exact (HQ _ _ _ _ Hm)|constructor].
  - destruct skip; cbn [pieces]; [|now apply IH].
    destruct (match_at env r false pre (y :: suf)) as [[[|x t] c]|] eqn:Hm.
    + constructor; [exact (HQ _ _ _ _ Hm)|].
      destruct (match_at env r true pre (y :: suf)) as [[t c']|] eqn:Hm'.
      * constructor; [exact (HQ _ _ _ _ Hm')|apply IH].
      * constructor; [exact I|apply IH].
    + constructor; [exact (HQ _ _ _ _ Hm)|apply IH].
    + constructor; [exact I|apply IH].
Qed.

(** A table block holds a newline between two bars. *)
Lemma table_match_bars (env : PyEnv) (adv : bool) (pre suf t : str) (c : caps) :
  match_at env table_pattern adv pre suf = Some (t, c) ->
  exists a b, t = bar :: a ++ NL :: bar :: b.
Proof.
  intros H. apply match_at_sound in H as (suf' & -> & Hm).
  change table_pattern with (Seq (Bol true) (Seq (Chr (Lit bar)) table_tail)) in Hm.
  cbn [matches table_tail] in Hm.
  destruct Hm as (l1 & l2 & -> & [-> _] & l3 & l4 & -> & (x & -> & Hx)
                  & l5 & l6 & -> & _ & l7 & l8 & -> & _ & l9 & l10 & -> & _
                  & l11 & l12 & -> & [-> _] & l13 & l14 & -> & (y & -> & Hy)
                  & l15 & l16 & -> & [-> _] & l17 & l18 & -> & (z & -> & Hz) & _).
  cbn [cmatch] in Hx, Hy, Hz.
  apply N.eqb_eq in Hx, Hy, Hz. subst x y z.
  exists (l5 ++ l7 ++ l9), l18. cbn [app]. now rewrite <- !app_assoc.
Qed.

(** So the stripped block has two lines at least: a header line and a
    separator line. *)
Lemma table_match_lines (env : PyEnv) (adv : bool) (pre suf : str) (m : mobj) :
  match_at env table_pattern adv pre suf = Some m ->
  exists l0 l1 ls, split NL (strip (fst m)) = l0 :: l1 :: ls.
Proof.
  destruct m as [t c]. intros H.
  apply table_match_bars in H as (a & b & ->). cbn [fst].
  unfold strip, strip_by.
  change (lstrip_by isspace (bar :: a ++ NL :: bar :: b)) with (bar :: a ++ NL :: bar :: b).
  change (bar :: a ++ NL :: bar :: b) with ((bar :: a) ++ NL :: bar :: b).
  replace ((bar :: a) ++ NL :: bar :: b) with (((bar :: a) ++ [NL]) ++ bar :: b)
    by now rewrite <- app_assoc.
  rewrite (rstrip_by_keep isspace _ _ bar eq_refl), <- app_assoc.
  cbn [app]. change (bar :: a ++ NL :: bar :: rstrip_by isspace b)
    with ((bar :: a) ++ NL :: bar :: rstrip_by isspace b).
  rewrite split_app_lines.
  destruct (split_nonempty NL (bar :: a)) as (x & xs & ->).
  destruct (split_nonempty NL (bar :: rstrip_by isspace b)) as (y & ys & ->).
  destruct xs as [|x' xs]; cbn [app]; eauto.
Qed.

Lemma convert_table_two_lines (env : PyEnv) (m : mobj) (self : SlackMarkdownConverter) :
  (exists l0 l1 ls, split NL (strip (fst m)) = l0 :: l1 :: ls) ->
  exists rendered,
    convert_table env m self =
      (inr (placeholder_of env (fst m)),
       {| encoding := encoding self; in_code_block := in_code_block self;
          table_replacements :=
            dict_set (table_replacements self) (placeholder_of env (fst m)) rendered |}).
Proof.
  intros (l0 & l1 & ls & Hl).
  destruct (convert_table_result env m self) as [[e He]|[rendered [Hr _]]]; [|eauto].
  exfalso. revert He. unfold convert_table, index. rewrite Hl.
  cbn [nth_error]. unfold bind, ret, get, set_table_replacements. discriminate.
Qed.

Lemma tables_pass_total (env : PyEnv) (ps : list (N + mobj)) :
  Forall (fun pc => match pc with
                    | inl _ => True
                    | inr m => exists l0 l1 ls, split NL (strip (fst m)) = l0 :: l1 :: ls
                    end) ps ->
  forall self, exists parts self',
    mapM (table_callback env) ps self = (inr parts, self') /\
    encoding self' = encoding self /\ in_code_block self' = in_code_block self.
Proof.
  induction 1 as [|pc ps Hpc _ IH]; intros self.
  - exists [], self. now split.
  - rewrite mapM_cons. destruct pc as [x|m]; cbn [table_callback].
    + unfold ret at 1. destruct (IH self) as (parts & self' & -> & He & Hf).
      now exists ([x] :: parts), self'.
    + destruct (convert_table_two_lines env m self Hpc) as (rendered & ->).
      destruct (IH {| encoding := encoding self; in_code_block := in_code_block self;
                      table_replacements :=
                        dict_set (table_replacements self) (placeholder_of env (fst m))
                          rendered |}) as (parts & self' & -> & He & Hf).
      now exists (placeholder_of env (fst m) :: parts), self'.
Qed.

(** The table pass on any text. *)
Lemma tables_pass_returns (env : PyEnv) (markdown : str)
    (self : SlackMarkdownConverter) :
  exists out self',
    _convert_tables env markdown self = (inr out, self') /\
    encoding self' = encoding self /\ in_code_block self' = in_code_block self.
Proof.
  unfold _convert_tables.
  destruct (tables_pass_total env (pieces env table_pattern 0 [] markdown)
              (pieces_matched env table_pattern _ (table_match_lines env) _ _ _) self)
    as (parts & self' & Hm & He & Hf).
  exists (concat parts), self'. split; [|now split].
  unfold bind.
  match goal with
  | |- context [@mapM ?A ?B ?f ?l ?st] =>
      change (@mapM A B f l st)
        with (mapM (table_callback env) (pieces env table_pattern 0 [] markdown) self)
  end.
  now rewrite Hm.
Qed.

(** X2. The table pass raises nothing: every block the table pattern
    matches, wherever the scan finds it, has two lines at least once
    stripped (a header line and a separator line), so [table_lines[0]]
    and [table_lines[1]] are in range; on every text the pass returns a
    string and changes nothing of the object but [table_replacements]. *)
Theorem _convert_tables_total (env : PyEnv) :
  (forall adv pre suf m,
     match_at env table_pattern adv pre suf = Some m ->
     exists l0 l1 ls, split NL (strip (fst m)) = l0 :: l1 :: ls) /\
  (forall markdown self,
     exists out self',
       _convert_tables env markdown self = (inr out, self') /\
       encoding self' = encoding self /\ in_code_block self' = in_code_block self).
Proof. split; [apply table_match_lines|apply tables_pass_returns]. Qed.

Lemma _convert_tables_total_witness :
  (exists l0 l1 ls,
     split NL (strip (lit "|a|b|" ++ [NL] ++ lit "|-|-|" ++ [NL] ++ lit "|1|2|"))
     = l0 :: l1 :: ls) /\
  exists out self',
    _convert_tables env0 (lit "no table here") (__init__ Utf8) = (inr out, self') /\
    encoding self' = Utf8 /\ in_code_block self' = false.
Proof.
  destruct (_convert_tables_total env0) as [Hlines Hpass]. split.
  - apply (Hlines false [] (lit "|a|b|" ++ [NL] ++ lit "|-|-|" ++ [NL] ++ lit "|1|2|")
             (lit "|a|b|" ++ [NL] ++ lit "|-|-|" ++ [NL] ++ lit "|1|2|",
              [(2%nat, [NL] ++ lit "|1|2|"); (1%nat, lit "a|b")])).
    vm_compute. reflexivity.
  - apply (Hpass (lit "no table here") (__init__ Utf8)).
Defined.

(** X3. The handler of [convert] is reached from the codec alone: on
    every non-empty input the table pass and the line pass both end
    without an exception, and [convert] returns the text with its
    placeholders restored, or, exactly when encoding that text fails,
    the text as the table pass left it. *)
Theorem convert_fallback_is_codec (env : PyEnv) (self : SlackMarkdownConverter)
    (c : N) (s : str) :
  exists md2 self1 outs self2,
    (set_table_replacements [] ;;; _convert_tables env (strip (c :: s))) self
      = (inr md2, self1) /\
    mapM (_convert_line env) (split NL md2) self1 = (inr outs, self2) /\
    encoding self2 = encoding self /\
    returned (convert env (c :: s) self) =
      inr (match encode_decode (encoding self)
                   (replace_all (table_replacements self2) (join [NL] outs)) with
           | inr r => r
           | inl _ => md2
           end).
Proof.
  destruct (tables_pass_returns env (strip (c :: s))
              {| encoding := encoding self; in_code_block := in_code_block self;
                 table_replacements := [] |}) as (md2 & self1 & Ht & He & _).
  destruct (mapM_lines_total env (split NL md2) self1) as (outs & b & Hl & _).
  exists md2, self1, outs, (with_flag self1 b).
  assert (Ht' : (set_table_replacements [] ;;; _convert_tables env (strip (c :: s))) self
                = (inr md2, self1)) by exact Ht.
  split; [exact Ht'|]. split; [exact Hl|]. split; [exact He|].
  rewrite (convert_after_tables env c s _ _ _ Ht'), Hl.
  cbn [with_flag encoding table_replacements]. cbn [encoding] in He. rewrite He.
  now destruct (encode_decode _ _).
Qed.

(* ------------------------------------------------------------------ *)
(** *** The code-block flag across a call *)

Lemma is_fence_tag (env : PyEnv) (l : str) :
  is_fence env l = match fence_tag env l with Some _ => true | None => false end.
Proof. unfold is_fence. rewrite re_match_fence. now destruct (fence_tag env l). Qed.

Lemma xorb_flip (b x : bool) : xorb (negb b) x = xorb b (negb x).
Proof. now destruct b, x. Qed.

(** The line pass flips the flag once for each fence line. *)
Lemma mapM_flag (env : PyEnv) (lines : list str) :
  forall self, exists outs,
    mapM (_convert_line env) lines self =
    (inr outs, with_flag self (xorb (in_code_block self)
                                 (Nat.odd (fence_count env lines)))).
Proof.
  induction lines as [|l lines IH]; intros self.
  - exists []. cbn. rewrite xorb_false_r. now destruct self.
  - rewrite mapM_cons. unfold fence_count. cbn [filter]. rewrite is_fence_tag.
    destruct (fence_tag env l) as [tag|] eqn:Hf.
    + rewrite (_convert_line_fence env l tag self Hf).
      destruct (IH (toggled self)) as (outs & ->). eexists. f_equal.
      cbn [length]. rewrite Nat.odd_succ, <- Nat.negb_odd.
      unfold with_flag, toggled, fence_count. cbn [encoding in_code_block table_replacements].
      now rewrite xorb_flip.
    + rewrite (_convert_line_plain env l self Hf).
      destruct (IH self) as (outs & ->). now eexists.
Qed.

(** X4. What a call leaves in the object: in a text without a table
    block, [convert] flips [in_code_block] once for each fence line of
    the stripped text, so the flag after the call is the flag before
    it when the fences pair up and its negation when one is left
    open; [encoding] is never changed. *)
Theorem convert_flag_parity (env : PyEnv) (self : SlackMarkdownConverter) (s : str) :
  search env table_pattern (strip s) = false ->
  in_code_block (after (convert env s self)) =
    xorb (in_code_block self) (Nat.odd (fence_count env (split NL (strip s)))) /\
  encoding (after (convert env s self)) = encoding self.
Proof.
  intros Htab. destruct s as [|c s].
  { cbn. now rewrite xorb_false_r. }
  assert (Ht : (set_table_replacements [] ;;; _convert_tables env (strip (c :: s))) self
               = (inr (strip (c :: s)),
                  {| encoding := encoding self; in_code_block := in_code_block self;
                     table_replacements := [] |})).
  { unfold bind, set_table_replacements. now rewrite _convert_tables_no_match. }
  rewrite (convert_after_tables env c s _ _ _ Ht).
  destruct (mapM_flag env (split NL (strip (c :: s)))
              {| encoding := encoding self; in_code_block := in_code_block self;
                 table_replacements := [] |}) as (outs & ->).
  cbn [with_flag encoding in_code_block table_replacements].
  now destruct (encode_decode _ _).
Qed.

Lemma convert_flag_parity_witness :
  let s := backticks ++ lit "py" ++ [NL] ++ lit "x = 1" in
  let self := __init__ Utf8 in
  in_code_block (after (convert env0 s self)) =
    xorb (in_code_block self) (Nat.odd (fence_count env0 (split NL (strip s)))) /\
  encoding (after (convert env0 s self)) = encoding self.
Proof. intros s self. apply (convert_flag_parity env0 self s). reflexivity. Defined.

(* ------------------------------------------------------------------ *)
(** *** Text met inside a code block *)

Lemma join_cons (sep p q : str) (ps : list str) :
  join sep (p :: q :: ps) = p ++ sep ++ join sep (q :: ps).
Proof. reflexivity. Qed.

Lemma join_split (sep : N) (s : str) : join [sep] (split sep s) = s.
Proof.
  induction s as [|c s IH]; [reflexivity|]. cbn [split].
  destruct (split_nonempty sep s) as (l & ls & Hs). rewrite Hs in *.
  destruct (N.eqb_spec c sep) as [->|Hne].
  - now rewrite join_cons, IH.
  - destruct ls as [|l' ls]; [cbn [join] in *; now rewrite IH|].
    rewrite join_cons in *. now rewrite <- IH.
Qed.

Lemma fence_count_zero (env : PyEnv) (lines : list str) :
  fence_count env lines = 0%nat ->
  Forall (fun l => re_match env fence_pattern l = None) lines.
Proof.
  unfold fence_count. induction lines as [|l lines IH]; [constructor|].
  cbn [filter]. unfold is_fence at 1.
  destruct (re_match env fence_pattern l) eqn:E; [discriminate|].
  intros H. constructor; auto.
Qed.

Lemma map_inside_block (lines : list str) :
  map (fun l : str => if placeholder_shape l then l else l) lines = lines.
Proof.
  rewrite <- (map_id lines) at 2. apply map_ext. intros l. now destruct (placeholder_shape l).
Qed.

(** X5. An object left inside a code block by an earlier call treats
    the next text as code: a text without a fence line and without a
    table block is returned stripped and otherwise untouched, no rule
    applied and no trailing whitespace removed, and the object stays
    inside the block. *)
Theorem convert_in_stale_block (env : PyEnv) (self : SlackMarkdownConverter) (s : str) :
  in_code_block self = true ->
  encoding self = Utf8 ->
  existsb is_surrogate s = false ->
  search env table_pattern (strip s) = false ->
  fence_count env (split NL (strip s)) = 0%nat ->
  returned (convert env s self) = inr (strip s) /\
  in_code_block (after (convert env s self)) = true.
Proof.
  intros Hin Henc Hsur Htab Hf. destruct s as [|c s]; [now split|].
  assert (Ht : (set_table_replacements [] ;;; _convert_tables env (strip (c :: s))) self
               = (inr (strip (c :: s)),
                  {| encoding := encoding self; in_code_block := in_code_block self;
                     table_replacements := [] |})).
  { unfold bind, set_table_replacements. now rewrite _convert_tables_no_match. }
  rewrite (convert_after_tables env c s _ _ _ Ht).
  rewrite (mapM_no_fence env _ _ (fence_count_zero env _ Hf)).
  cbn [in_code_block encoding table_replacements replace_all]. rewrite Hin, Henc.
  rewrite map_inside_block, join_split. unfold encode_decode.
  assert (Hok : existsb is_surrogate (strip (c :: s)) = false).
  { apply existsb_false_Forall, Forall_strip_by. now apply existsb_false_Forall. }
  rewrite Hok. now split.
Qed.

Lemma convert_in_stale_block_witness :
  let s := lit " # Title  " ++ [NL] ++ lit "**bold** " ++ [NL] ++ lit "- item" in
  let self := after (convert env0 backticks (__init__ Utf8)) in
  returned (convert env0 s self) = inr (strip s) /\
  in_code_block (after (convert env0 s self)) = true.
Proof.
  intros s self. apply (convert_in_stale_block env0 self s); reflexivity.
Defined.

(** X6. A fence that is never closed: in a text without a table
    block, the lines before the opening fence are converted one for
    one, the fence line keeps its tag, every line after it is returned
    as it is, and the object is left inside the code block. *)
Theorem convert_unclosed_fence (env : PyEnv) (s : str) (before rest : list str)
    (tag : str) :
  strip s = join [NL] (before ++ (backticks ++ tag) :: rest) ->
  Forall (fun l => ~ In NL l) (before ++ rest) ->
  Forall (fun l => re_match env fence_pattern l = None) (before ++ rest) ->
  forallb (isword env) tag = true ->
  search env table_pattern (strip s) = false ->
  existsb is_surrogate s = false ->
  exists before',
    length before' = length before /\
    returned (convert env s (__init__ Utf8)) =
      inr (join [NL] (before' ++ (backticks ++ tag) :: rest)) /\
    in_code_block (after (convert env s (__init__ Utf8))) = true.
Proof.
  intros Hs Hnl Hnf Ht Htab Hsur.
  apply Forall_app in Hnl as [Hnl1 Hnl2]. apply Forall_app in Hnf as [Hnf1 Hnf2].
  set (opening := backticks ++ tag) in *.
  set (lines := before ++ opening :: rest) in *.
  destruct s as [|c s].
  { exfalso. change (strip []) with (@nil N) in Hs.
    assert (Hin : In 96 (join [NL] lines)).
    { apply (in_join _ lines opening); [|now left].
      unfold lines. apply in_or_app. right. now left. }
    now rewrite <- Hs in Hin. }
  assert (Ht0 : (set_table_replacements [] ;;; _convert_tables env (strip (c :: s)))
                  (__init__ Utf8) = (inr (strip (c :: s)), __init__ Utf8)).
  { unfold bind, set_table_replacements. cbn [__init__ encoding in_code_block].
    now rewrite _convert_tables_no_match. }
  rewrite (convert_after_tables env c s _ _ _ Ht0), Hs.
  assert (Hlines : Forall (fun l => ~ In NL l) lines).
  { unfold lines. apply Forall_app. split; [exact Hnl1|].
    constructor; [now apply (word_no_newline env)|exact Hnl2]. }
  rewrite split_join; [|unfold lines; now destruct before|exact Hlines].
  assert (Hrun : mapM (_convert_line env) lines (__init__ Utf8) =
                 (inr (map (fun l => if placeholder_shape l then l
                                     else rewrite_rules env l) before
                       ++ opening :: rest),
                  toggled (__init__ Utf8))).
  { unfold lines. rewrite mapM_app, (mapM_no_fence env before _ Hnf1).
    change (in_code_block (__init__ Utf8)) with false. cbv iota.
    rewrite mapM_cons.
    rewrite (_convert_line_fence env opening tag _ (fence_tag_whole env tag Ht)).
    rewrite (mapM_no_fence env rest _ Hnf2).
    change (in_code_block (toggled (__init__ Utf8))) with true. cbv iota.
    rewrite map_inside_block.
    change (in_code_block (__init__ Utf8)) with false. cbn [negb andb].
    destruct tag as [|x tag]; [|reflexivity].
    unfold opening. now rewrite app_nil_r. }
  destruct (mapM_lines_total env lines (__init__ Utf8)) as (outs & b0 & Hall & _ & Hok).
  rewrite Hrun in Hall. injection Hall as <- _.
  rewrite Hrun. cbn [toggled __init__ encoding table_replacements replace_all in_code_block].
  assert (Hclean : existsb is_surrogate
                     (join [NL] (map (fun l => if placeholder_shape l then l
                                               else rewrite_rules env l) before
                                 ++ opening :: rest)) = false).
  { apply existsb_false_Forall. apply Forall_join; [now repeat constructor|].
    apply Hok. rewrite <- (split_join NL lines); [|unfold lines; now destruct before|exact Hlines].
    rewrite <- Hs. apply Forall_split, Forall_strip_by.
    now apply existsb_false_Forall. }
  unfold encode_decode. rewrite Hclean.
  eexists. split; [apply length_map|]. now split.
Qed.

Lemma convert_unclosed_fence_witness :
  let before := [lit "intro **b**"] in
  let rest := [lit "# not a heading  "; lit "- [ ] **x**"] in
  let s := join [NL] (before ++ (backticks ++ lit "py") :: rest) in
  exists before',
    length before' = length before /\
    returned (convert env0 s (__init__ Utf8)) =
      inr (join [NL] (before' ++ (backticks ++ lit "py") :: rest)) /\
    in_code_block (after (convert env0 s (__init__ Utf8))) = true.
Proof.
  intros before rest s.
  apply (convert_unclosed_fence env0 s before rest (lit "py")); try reflexivity.
  - repeat constructor; vm_compute; intuition discriminate.
  - repeat constructor.
Defined.

(* ------------------------------------------------------------------ *)
(** *** Lines stay lines *)

Lemma not_newline_iff (l : str) :
  ~ In NL l <-> Forall (fun c => negb (c =? NL) = true) l.
Proof.
  rewrite Forall_forall. split.
  - intros H c Hc. apply negb_true_iff, N.eqb_neq. now intros ->.
  - intros H Hin. specialize (H _ Hin). now rewrite N.eqb_refl in H.
Qed.

(** [_convert_line] writes no newline into a line that has none. *)
Lemma mapM_lines_no_newline (env : PyEnv) (lines : list str) :
  Forall (fun l => ~ In NL l) lines ->
  forall self, exists outs b,
    mapM (_convert_line env) lines self = (inr outs, with_flag self b) /\
    length outs = length lines /\
    Forall (fun l => ~ In NL l) outs.
Proof.
  induction 1 as [|l lines Hl _ IH]; intros self.
  - exists [], (in_code_block self). split; [now destruct self|]. now split.
  - rewrite mapM_cons.
    assert (Hout : exists out b,
               _convert_line env l self = (inr out, with_flag self b) /\ ~ In NL out).
    { destruct (fence_tag env l) as [tag|] eqn:Hf.
      - rewrite (_convert_line_fence env l tag self Hf).
        eexists _, _. split; [reflexivity|].
        apply fence_tag_some in Hf as [Hw _].
        destruct (_ && _); [now apply (word_no_newline env)|].
        vm_compute. intuition discriminate.
      - rewrite (_convert_line_plain env l self Hf).
        eexists _, (in_code_block self). split; [now destruct self|].
        destruct (_ && _); [exact Hl|]. destruct (in_code_block self); [exact Hl|].
        apply not_newline_iff.
        apply (rewrite_rules_chars env (fun c => negb (c =? NL))); [reflexivity..|].
        now apply not_newline_iff. }
    destruct Hout as (out & b & -> & Hout).
    destruct (IH (with_flag self b)) as (outs & b' & -> & Hlen & Houts).
    exists (out :: outs), b'. split; [reflexivity|]. split; [cbn; now rewrite Hlen|].
    now constructor.
Qed.

(** X7. Outside tables the converter works line by line: for a text
    without a table block that UTF-8 can encode, the result has as
    many lines as the stripped input, whatever the state of the object;
    no rule joins two lines or breaks one. *)
Theorem convert_keeps_lines (env : PyEnv) (self : SlackMarkdownConverter) (s : str) :
  encoding self = Utf8 ->
  existsb is_surrogate s = false ->
  search env table_pattern (strip s) = false ->
  exists out,
    returned (convert env s self) = inr out /\
    length (split NL out) = length (split NL (strip s)).
Proof.
  intros Henc Hsur Htab. destruct s as [|c s]; [now exists []|].
  assert (Ht : (set_table_replacements [] ;;; _convert_tables env (strip (c :: s))) self
               = (inr (strip (c :: s)),
                  {| encoding := encoding self; in_code_block := in_code_block self;
                     table_replacements := [] |})).
  { unfold bind, set_table_replacements. now rewrite _convert_tables_no_match. }
  rewrite (convert_after_tables env c s _ _ _ Ht).
  set (self1 := {| encoding := encoding self; in_code_block := in_code_block self;
                   table_replacements := [] |}).
  destruct (mapM_lines_no_newline env _ (split_lines_no_sep NL (strip (c :: s))) self1)
    as (outs & b & Hrun & Hlen & Hnl).
  destruct (mapM_lines_total env (split NL (strip (c :: s))) self1)
    as (outs' & b' & Hrun' & _ & Hok).
  rewrite Hrun in Hrun'. injection Hrun' as <- _. rewrite Hrun.
  cbn [with_flag self1 encoding table_replacements replace_all]. rewrite Henc.
  assert (Hclean : existsb is_surrogate (join [NL] outs) = false).
  { apply existsb_false_Forall. apply Forall_join; [now repeat constructor|].
    apply Hok. apply Forall_split, Forall_strip_by. now apply existsb_false_Forall. }
  unfold encode_decode. rewrite Hclean. eexists. split; [reflexivity|].
  rewrite split_join; [exact Hlen| |exact Hnl].
  destruct (split_nonempty NL (strip (c :: s))) as (l & ls & E). rewrite E in Hlen.
  now destruct outs.
Qed.

Lemma convert_keeps_lines_witness :
  let s := lit "# Title" ++ [NL] ++ [NL] ++ lit "- [x] done " ++ [NL] ++ lit "[a](b)" in
  exists out,
    returned (convert env0 s (__init__ Utf8)) = inr out /\
    length (split NL out) = length (split NL (strip s)).
Proof. intros s. apply (convert_keeps_lines env0 (__init__ Utf8) s); reflexivity. Defined.

(* ------------------------------------------------------------------ *)
(** *** A pattern needs its literal characters *)

Section Needs.
Variable env : PyEnv.
Variable p : N -> bool.

Lemma count_in_app (a b : str) : count_in p (a ++ b) = (count_in p a + count_in p b)%nat.
Proof. unfold count_in. now rewrite filter_app, length_app. Qed.

Lemma count_in_cons_le (x : N) (s : str) : (count_in p s <= count_in p (x :: s))%nat.
Proof. unfold count_in. cbn [filter]. destruct (p x); cbn [length]; lia. Qed.

Lemma count_in_zero (s : str) : Forall (fun c => p c = false) s -> count_in p s = 0%nat.
Proof.
  unfold count_in. induction 1 as [|c s Hc _ IH]; [reflexivity|].
  cbn [filter]. now rewrite Hc.
Qed.

(** Every match of a pattern holds [min_in p r] characters of [p]. *)
Lemma min_in_sound (r : regex) :
  forall pre l suf', matches env r pre l suf' -> (min_in p r <= count_in p l)%nat.
Proof.
  induction r as [|cs|a IHa b IHb|a IHa b IHb|n a IHa|g cs|a IHa|ml|ml|cs|cs];
    intros pre l suf' Hm; cbn [min_in matches] in *; try lia.
  - destruct Hm as (x & -> & Hx).
    destruct (cset_within p cs) eqn:Hw; [|lia].
    assert (Hp : p x = true).
    { destruct cs; try discriminate; cbn [cset_within cmatch] in *.
      - apply N.eqb_eq in Hx. now subst.
      - apply existsb_exists in Hx as (y & Hy & Hxy). apply N.eqb_eq in Hxy. subst y.
        rewrite forallb_forall in Hw. auto. }
    unfold count_in. cbn [filter]. now rewrite Hp.
  - destruct Hm as (l1 & l2 & -> & Ha & Hb). rewrite count_in_app.
    specialize (IHa _ _ _ Ha). specialize (IHb _ _ _ Hb). lia.
  - destruct Hm as [Ha|Hb]; [specialize (IHa _ _ _ Ha)|specialize (IHb _ _ _ Hb)]; lia.
  - eauto.
Qed.

(** A text with fewer of them holds no match. *)
Lemma match_at_needs (r : regex) (adv : bool) (pre suf : str) :
  (count_in p suf < min_in p r)%nat -> match_at env r adv pre suf = None.
Proof.
  intros H. destruct (match_at env r adv pre suf) as [[t c]|] eqn:Hm; [|reflexivity].
  apply match_at_sound in Hm as (suf' & -> & Hm). apply min_in_sound in Hm.
  rewrite count_in_app in H. lia.
Qed.

Lemma search_from_needs (r : regex) (suf : str) :
  forall pre, (count_in p suf < min_in p r)%nat -> search_from env r pre suf = false.
Proof.
  induction suf as [|x suf IH]; intros pre H; cbn [search_from];
    rewrite (match_at_needs r false pre _ H); [reflexivity|].
  apply IH. pose proof (count_in_cons_le x suf). lia.
Qed.

Lemma search_needs (r : regex) (s : str) :
  (count_in p s < min_in p r)%nat -> search env r s = false.
Proof. apply search_from_needs. Qed.

Lemma sub_needs (r : regex) (t : list titem) (s : str) :
  (count_in p s < min_in p r)%nat -> sub env r t s = s.
Proof. intros H. apply sub_fn_no_match. now apply search_needs. Qed.
End Needs.

(* ------------------------------------------------------------------ *)
(** *** Text without markers *)

Lemma plain_count (s : str) : forallb plainb s = true -> count_in is_marker s = 0%nat.
Proof.
  intros H. apply count_in_zero, Forall_forall. intros c Hc.
  rewrite forallb_forall in H. specialize (H c Hc). unfold plainb in H.
  apply andb_true_iff in H as [H _]. now apply negb_true_iff.
Qed.

Lemma plainb_Forall (s : str) :
  forallb plainb s = true <-> Forall (fun c => plainb c = true) s.
Proof. rewrite forallb_forall, Forall_forall. reflexivity. Qed.

(** Every pattern of the converter holds a marker. *)
Lemma patterns_need_markers :
  forallb (fun r => Nat.leb 1 (min_in is_marker r))
          (table_pattern :: fence_pattern :: triple_pattern :: sentinel_pattern
           :: map fst patterns) = true.
Proof. reflexivity. Qed.

Lemma plain_line_no_markdown (env : PyEnv) (l : str) :
  forallb plainb l = true -> line_has_markdown env l = false.
Proof.
  intros H. apply plain_count in H.
  assert (Hr : forall r, In r (table_pattern :: fence_pattern :: triple_pattern
                               :: sentinel_pattern :: map fst patterns) ->
                         (count_in is_marker l < min_in is_marker r)%nat).
  { intros r Hin. pose proof patterns_need_markers as Hall.
    rewrite forallb_forall in Hall. specialize (Hall r Hin).
    apply Nat.leb_le in Hall. lia. }
  unfold line_has_markdown, re_match.
  rewrite (match_at_needs env is_marker fence_pattern false [] l)
    by (apply Hr; cbn; tauto).
  rewrite (search_needs env is_marker triple_pattern l) by (apply Hr; cbn; tauto).
  rewrite (search_needs env is_marker sentinel_pattern l) by (apply Hr; cbn; tauto).
  cbn [orb]. rewrite orb_false_r.
  apply not_true_is_false. intros Hex.
  apply existsb_exists in Hex as (pr & Hin & Hs).
  rewrite (search_needs env is_marker (fst pr) l) in Hs; [discriminate|].
  apply Hr. do 4 right. now apply in_map.
Qed.

Lemma plain_no_markdown (env : PyEnv) (s : str) :
  forallb plainb s = true -> no_markdown env s = true.
Proof.
  intros H. unfold no_markdown.
  assert (Hs : forallb plainb (strip s) = true).
  { apply plainb_Forall, Forall_strip_by. now apply plainb_Forall. }
  apply andb_true_iff. split.
  - apply negb_true_iff. apply (search_needs env is_marker).
    rewrite (plain_count _ Hs). cbn. lia.
  - apply forallb_forall. intros l Hl. apply negb_true_iff, plain_line_no_markdown.
    apply plainb_Forall.
    assert (Hall : Forall (Forall (fun c => plainb c = true)) (split NL (strip s)))
      by (apply Forall_split; now apply plainb_Forall).
    rewrite Forall_forall in Hall. auto.
Qed.

(** A text without markdown, on an object outside a code block. *)
Lemma convert_no_markdown (env : PyEnv) (self : SlackMarkdownConverter) (s : str) :
  in_code_block self = false ->
  encoding self = Utf8 ->
  existsb is_surrogate s = false ->
  no_markdown env s = true ->
  convert env s self =
    (inr (tidy s),
     match s with
     | [] => self
     | _ => {| encoding := Utf8; in_code_block := false; table_replacements := [] |}
     end).
Proof.
  intros Hout Henc Hsur Hno.
  destruct s as [|c s]; [reflexivity|].
  unfold no_markdown in Hno. apply andb_true_iff in Hno as [Htab Hlines].
  apply negb_true_iff in Htab.
  assert (Ht : (set_table_replacements [] ;;; _convert_tables env (strip (c :: s))) self
               = (inr (strip (c :: s)),
                  {| encoding := encoding self; in_code_block := in_code_block self;
                     table_replacements := [] |})).
  { unfold bind, set_table_replacements. now rewrite _convert_tables_no_match. }
  rewrite (convert_after_tables env c s _ _ _ Ht).
  rewrite (mapM_no_markdown env _ _ (Hout : in_code_block {| in_code_block := _ |} = false)
             Hlines).
  cbn [table_replacements encoding replace_all]. rewrite Henc, Hout.
  assert (Hmap : map (fun l => if startswith l placeholder_prefix && endswith l pct2
                               then l else rstrip l) (split NL (strip (c :: s)))
                 = map rstrip (split NL (strip (c :: s)))).
  { apply map_ext. intros l.
    destruct (startswith l placeholder_prefix); [|reflexivity].
    destruct (endswith l pct2) eqn:He; [|reflexivity].
    cbn. now rewrite rstrip_placeholder_shape. }
  rewrite Hmap. unfold encode_decode. fold (tidy (c :: s)).
  assert (Hok : existsb is_surrogate (tidy (c :: s)) = false).
  { apply existsb_false_Forall. apply Forall_join; [repeat constructor|].
    apply Forall_map. apply existsb_false_Forall in Hsur.
    eapply Forall_impl; [|apply Forall_split, Forall_strip_by, Hsur].
    intros l Hl. now apply Forall_rstrip_by. }
  now rewrite Hok.
Qed.

Lemma plain_no_surrogate (s : str) :
  forallb plainb s = true -> existsb is_surrogate s = false.
Proof.
  intros H. apply existsb_false_Forall, Forall_forall. intros c Hc.
  rewrite forallb_forall in H. specialize (H c Hc). unfold plainb in H.
  apply andb_true_iff in H as [_ H]. now apply negb_true_iff.
Qed.

(** X8. A text written without any of the characters
    "-.!*#~_[`>%|" (and that UTF-8 can encode) holds no markdown for
    the converter, whatever the interpreter's Unicode tables: outside a
    code block [convert] returns it stripped, with the trailing
    whitespace of each line removed, and nothing else changed. *)
Theorem convert_plain_chars (env : PyEnv) (self : SlackMarkdownConverter) (s : str) :
  in_code_block self = false ->
  encoding self = Utf8 ->
  forallb plainb s = true ->
  no_markdown env s = true /\
  returned (convert env s self) = inr (tidy s).
Proof.
  intros Hout Henc Hp. split; [now apply plain_no_markdown|].
  rewrite (convert_no_markdown env self s Hout Henc (plain_no_surrogate _ Hp)
             (plain_no_markdown env s Hp)).
  reflexivity.
Qed.

Lemma convert_plain_chars_witness :
  let s := lit "  Hello, world  " ++ [NL] ++ lit "second line? yes: (1 + 2) = 3 " ++ [NL] in
  no_markdown env0 s = true /\
  returned (convert env0 s (__init__ Utf8)) = inr (tidy s).
Proof. intros s. apply (convert_plain_chars env0 (__init__ Utf8) s); reflexivity. Defined.

(* ------------------------------------------------------------------ *)
(** *** Converting twice *)

Lemma rstrip_by_app_keep (p : N -> bool) (a b : str) :
  rstrip_by p b <> [] -> rstrip_by p (a ++ b) = a ++ rstrip_by p b.
Proof.
  intros Hb. induction a as [|c a IH]; [reflexivity|].
  cbn [app rstrip_by]. rewrite IH.
  destruct (a ++ rstrip_by p b) eqn:E; [|reflexivity].
  apply app_eq_nil in E as [_ E]. contradiction.
Qed.

Lemma rstrip_by_app_drop (p : N -> bool) (a b : str) :
  rstrip_by p b = [] -> rstrip_by p (a ++ b) = rstrip_by p a.
Proof.
  intros Hb. induction a as [|c a IH]; [exact Hb|].
  cbn [app rstrip_by]. now rewrite IH.
Qed.

Lemma rstrip_by_idem (p : N -> bool) (s : str) :
  rstrip_by p (rstrip_by p s) = rstrip_by p s.
Proof.
  induction s as [|c s IH]; [reflexivity|]. cbn [rstrip_by].
  destruct (rstrip_by p s) as [|x r] eqn:E.
  - destruct (p c) eqn:Hc; [reflexivity|]. cbn [rstrip_by]. now rewrite Hc.
  - change (rstrip_by p (c :: x :: r))
      with (match rstrip_by p (x :: r) with [] => if p c then [] else [c] | r' => c :: r' end).
    now rewrite IH.
Qed.

Lemma rstrip_by_length (p : N -> bool) (s : str) :
  (length (rstrip_by p s) <= length s)%nat.
Proof.
  destruct (rstrip_by_prefix p s) as [b Hb]. rewrite Hb at 2. rewrite length_app. lia.
Qed.

Lemma rstrip_by_head (p : N -> bool) (x : N) (l : str) :
  p x = false -> rstrip_by p (x :: l) = x :: rstrip_by p l.
Proof. intros Hx. apply (rstrip_by_keep p [] l x Hx). Qed.

Lemma lstrip_by_head_false (p : N -> bool) (s : str) (x : N) (s' : str) :
  lstrip_by p s = x :: s' -> p x = false.
Proof.
  induction s as [|c s IH]; [discriminate|]. cbn [lstrip_by].
  destruct (p c) eqn:Hc; [exact IH|]. intros H. injection H as <- _. exact Hc.
Qed.

(** A stripped text is empty or starts with a character that is not
    whitespace, and stripping it on the right again changes nothing. *)
Lemma strip_by_shape (p : N -> bool) (s : str) :
  rstrip_by p (strip_by p s) = strip_by p s /\
  match strip_by p s with [] => True | x :: _ => p x = false end.
Proof.
  unfold strip_by. split; [apply rstrip_by_idem|].
  destruct (rstrip_by p (lstrip_by p s)) as [|x t] eqn:E; [exact I|].
  destruct (rstrip_by_prefix p (lstrip_by p s)) as [b Hb]. rewrite E in Hb.
  now apply (lstrip_by_head_false p s x (t ++ b)).
Qed.

(** Removing the trailing whitespace of each line of a text that ends
    in none leaves a text that ends in none. *)
Lemma rstrip_lines (lines : list str) :
  join [NL] lines <> [] ->
  rstrip (join [NL] lines) = join [NL] lines ->
  join [NL] (map rstrip lines) <> [] /\
  rstrip (join [NL] (map rstrip lines)) = join [NL] (map rstrip lines).
Proof.
  induction lines as [|l lines IH]; [intros H; now elim H|].
  destruct lines as [|l' lines].
  - cbn [join map]. intros Hne Hr. rewrite Hr. split; [exact Hne|exact Hr].
  - rewrite join_cons. cbn [map]. rewrite join_cons. intros _ Hr.
    set (J := join [NL] (l' :: lines)) in *.
    assert (HJ : J <> [] /\ rstrip J = J).
    { unfold rstrip in *. destruct (rstrip_by isspace J) as [|y r] eqn:E.
      - exfalso. rewrite (rstrip_by_app_drop isspace l ([NL] ++ J)) in Hr.
        + pose proof (rstrip_by_length isspace l) as Hlen. rewrite Hr in Hlen.
          rewrite !length_app in Hlen. cbn [length] in Hlen. lia.
        + cbn [app rstrip_by]. now rewrite E.
      - rewrite (rstrip_by_app_keep isspace l ([NL] ++ J)) in Hr.
        + apply app_inv_head in Hr. cbn [app rstrip_by] in Hr. rewrite E in Hr.
          injection Hr as Hr. split; [|exact Hr]. rewrite <- Hr. discriminate.
        + cbn [app rstrip_by]. now rewrite E. }
    destruct HJ as [HJ1 HJ2]. destruct (IH HJ1 HJ2) as [IH1 IH2].
    cbn [map] in IH1, IH2. set (J' := join [NL] (rstrip l' :: map rstrip lines)) in *.
    split; [intros H; apply app_eq_nil in H as [_ H]; discriminate H|].
    unfold rstrip in *.
    assert (Hk : rstrip_by isspace ([NL] ++ J') = [NL] ++ J').
    { rewrite rstrip_by_app_keep; rewrite IH2; [reflexivity|exact IH1]. }
    rewrite rstrip_by_app_keep; rewrite Hk; [reflexivity|discriminate].
Qed.

Lemma strip_tidy (s : str) : strip (tidy s) = tidy s.
Proof.
  unfold tidy. destruct (strip_by_shape isspace s) as [Hr Hh].
  fold (strip s) in Hr, Hh. fold rstrip in Hr.
  destruct (strip s) as [|x t] eqn:E; [reflexivity|].
  assert (Hx : (x =? NL) = false).
  { destruct (N.eqb_spec x NL) as [->|]; [discriminate Hh|reflexivity]. }
  destruct (rstrip_lines (split NL (x :: t))) as [_ Ht].
  { rewrite join_split. discriminate. }
  { now rewrite join_split. }
  unfold strip, strip_by. fold rstrip.
  assert (Hl : lstrip_by isspace (join [NL] (map rstrip (split NL (x :: t))))
               = join [NL] (map rstrip (split NL (x :: t)))).
  { cbn [split]. rewrite Hx.
    destruct (split_nonempty NL t) as (l & ls & ->). cbn [map].
    change (rstrip (x :: l)) with (rstrip_by isspace (x :: l)).
    rewrite (rstrip_by_head isspace x l Hh).
    destruct ls as [|l' ls]; [cbn [map join lstrip_by]; now rewrite Hh|].
    cbn [map]. rewrite join_cons. cbn [app lstrip_by]. now rewrite Hh. }
  now rewrite Hl.
Qed.

Lemma tidy_idem (s : str) : tidy (tidy s) = tidy s.
Proof.
  unfold tidy at 1. rewrite strip_tidy. unfold tidy.
  rewrite split_join.
  - rewrite map_map. f_equal. apply map_ext. intros l. apply rstrip_by_idem.
  - destruct (split_nonempty NL (strip s)) as (l & ls & ->). discriminate.
  - apply Forall_map. eapply Forall_impl; [|apply (split_lines_no_sep NL)].
    intros l Hl Hin. apply Hl.
    destruct (rstrip_by_prefix isspace l) as [b Hb]. rewrite Hb.
    apply in_or_app. now left.
Qed.

Lemma tidy_plain (s : str) : forallb plainb s = true -> forallb plainb (tidy s) = true.
Proof.
  intros H. apply plainb_Forall. apply plainb_Forall in H. unfold tidy.
  apply Forall_join; [now repeat constructor|]. apply Forall_map.
  eapply Forall_impl; [|apply Forall_split, Forall_strip_by, H].
  intros l Hl. now apply Forall_rstrip_by.
Qed.

(** X9. On text without markers the conversion is idempotent: what
    [convert] returns for it is returned unchanged when it is given to
    [convert] again, on the same object or on a new one. *)
Theorem convert_plain_idempotent (env : PyEnv) (self : SlackMarkdownConverter) (s : str) :
  in_code_block self = false ->
  encoding self = Utf8 ->
  forallb plainb s = true ->
  exists out,
    returned (convert env s self) = inr out /\
    returned (convert env out (after (convert env s self))) = inr out /\
    returned (convert env out (__init__ Utf8)) = inr out.
Proof.
  intros Hout Henc Hp. exists (tidy s).
  rewrite (convert_no_markdown env self s Hout Henc (plain_no_surrogate _ Hp)
             (plain_no_markdown env s Hp)).
  pose proof (tidy_plain s Hp) as Hp'.
  split; [reflexivity|]. unfold after, returned. cbn [fst snd]. split.
  - rewrite (convert_no_markdown env _ (tidy s)); [now rewrite tidy_idem| | |
      exact (plain_no_surrogate _ Hp')|exact (plain_no_markdown env _ Hp')];
      now destruct s.
  - rewrite (convert_no_markdown env (__init__ Utf8) (tidy s) eq_refl eq_refl
               (plain_no_surrogate _ Hp') (plain_no_markdown env _ Hp')).
    now rewrite tidy_idem.
Qed.

Lemma convert_plain_idempotent_witness :
  let s := lit "  Hello, world  " ++ [NL] ++ lit " second line " ++ [NL] in
  exists out,
    returned (convert env0 s (__init__ Utf8)) = inr out /\
    returned (convert env0 out (after (convert env0 s (__init__ Utf8)))) = inr out /\
    returned (convert env0 out (__init__ Utf8)) = inr out.
Proof.
  intros s. apply (convert_plain_idempotent env0 (__init__ Utf8) s); reflexivity.
Defined.

(* ------------------------------------------------------------------ *)
(** *** Headings *)

Lemma consumed_nil (p : str) : consumed [] p = rev p.
Proof. unfold consumed. cbn [length]. now rewrite Nat.sub_0_r, firstn_all. Qed.

Lemma take_while_no_newline (env : PyEnv) (t : str) :
  ~ In NL t ->
  take_while (cmatch env Dot) t = t /\ drop_while (cmatch env Dot) t = [].
Proof.
  intros Hnl. rewrite <- (app_nil_r t) at 1 3. apply take_while_forallb; [|exact I].
  apply forallb_forall. intros c Hc. cbn [cmatch]. apply negb_true_iff, N.eqb_neq.
  now intros ->.
Qed.

(** A greedy [(.+)$] runs to the end of a line. *)
Lemma greedy_dot_to_eol (env : PyEnv) (pre0 pre t : str) :
  ~ In NL t ->
  rep_greedy env Dot
    (fun (p s : str) (c' : caps) =>
       if eol true s then Some (consumed [] p, (1%nat, consumed pre0 p) :: c') else None)
    pre t []
  = Some (rev pre ++ t, [(1%nat, consumed pre0 (rev t ++ pre))]).
Proof.
  intros Hnl. rewrite rep_greedy_maximal.
  - destruct (take_while_no_newline env t Hnl) as [-> ->]. cbn [eol].
    now rewrite consumed_nil, rev_app_distr, rev_involutive.
  - intros p x s c Hx. cbn [cmatch] in Hx. apply negb_true_iff in Hx.
    cbn [eol]. now rewrite Hx.
Qed.

Lemma match_at_heading (env : PyEnv) (n : nat) (x : N) (t : str) :
  (1 <= n <= 6)%nat -> ~ In NL (x :: t) ->
  match_at env (fst (heading n)) false [] (heading_line n (x :: t))
  = Some (heading_line n (x :: t), [(1%nat, x :: t)]).
Proof.
  intros Hn Hnl.
  assert (Hx : (x =? NL) = false).
  { apply N.eqb_neq. intros ->. apply Hnl. now left. }
  assert (Ht : ~ In NL t) by (intros H; apply Hnl; now right).
  destruct n as [|[|[|[|[|[|[|n]]]]]]]; try lia;
    unfold match_at, heading, heading_line; cbn [fst repeat app];
    cbn -[rep_greedy N.eqb consumed NL];
    rewrite !N.eqb_refl, Hx; cbn [negb];
    rewrite (greedy_dot_to_eol env _ _ t Ht); cbn [rev app];
    do 2 f_equal;
    match goal with
    | |- context [consumed ?pre0 (rev t ++ x :: ?pre0)] =>
        change (rev t ++ x :: pre0) with (rev t ++ [x] ++ pre0);
        rewrite app_assoc; change (rev t ++ [x]) with (rev (x :: t));
        now rewrite consumed_app
    end.
Qed.

Lemma match_at_heading_end (env : PyEnv) (n : nat) (adv : bool) (pre : str) :
  (1 <= n <= 6)%nat -> match_at env (fst (heading n)) adv pre [] = None.
Proof.
  intros Hn. apply (match_at_needs env (N.eqb 35)).
  destruct n as [|[|[|[|[|[|[|n]]]]]]]; try lia; cbn; lia.
Qed.

Lemma sub_heading (env : PyEnv) (n : nat) (t : str) :
  (1 <= n <= 6)%nat -> t <> [] -> ~ In NL t ->
  sub env (fst (heading n)) (snd (heading n)) (heading_line n t) = [42] ++ t ++ [42].
Proof.
  intros Hn Hne Hnl. destruct t as [|x t]; [now elim Hne|].
  unfold sub, sub_fn. 
  assert (Hs : exists h rest, heading_line n (x :: t) = h :: rest).
  { destruct n; [lia|]. now eexists _, _. }
  destruct Hs as (h & rest & Hs).
  pose proof (match_at_heading env n x t Hn Hnl) as Hm. rewrite Hs in *.
  cbn [pieces]. rewrite Hm.
  replace (pieces env (fst (heading n)) (length rest) [h] rest)
    with (pieces env (fst (heading n)) (length rest) [h] (rest ++ []))
    by now rewrite app_nil_r.
  rewrite pieces_skip.
  assert (He : pieces env (fst (heading n)) 0 (rev rest ++ [h]) [] = []).
  { cbn [pieces]. now rewrite !match_at_heading_end. }
  rewrite He. cbn. now rewrite app_nil_r.
Qed.

Lemma skipped_sound (env : PyEnv) (cnt : N -> nat) (cnt3 : nat) (r : regex)
    (t : list titem) (line : str) :
  (forall m, In m markers -> (count_in (N.eqb m) line <= cnt m)%nat) ->
  (count_in is_rule_char line <= cnt3)%nat ->
  skipped cnt cnt3 r = true ->
  search env r line = false.
Proof.
  intros Hc H3 Hs. unfold skipped in Hs. apply orb_true_iff in Hs as [Hs|Hs].
  - apply existsb_exists in Hs as (m & Hm & Hlt). apply Nat.ltb_lt in Hlt.
    apply (search_needs env (N.eqb m)). specialize (Hc m Hm). lia.
  - apply Nat.ltb_lt in Hs. apply (search_needs env is_rule_char). lia.
Qed.

Lemma fold_rules_skip (env : PyEnv) (cnt : N -> nat) (cnt3 : nat)
    (ps : list (regex * list titem)) (line : str) :
  (forall m, In m markers -> (count_in (N.eqb m) line <= cnt m)%nat) ->
  (count_in is_rule_char line <= cnt3)%nat ->
  forallb (fun pr => skipped cnt cnt3 (fst pr)) ps = true ->
  fold_left (fun l pr => sub env (fst pr) (snd pr) l) ps line = line.
Proof.
  intros Hc H3 Hall. apply fold_rules_no_match.
  apply not_true_is_false. intros Hex.
  apply existsb_exists in Hex as (pr & Hin & Hs).
  rewrite forallb_forall in Hall.
  rewrite (skipped_sound env cnt cnt3 (fst pr) (snd pr) line Hc H3 (Hall pr Hin)) in Hs.
  discriminate.
Qed.

Lemma count_in_repeat (p : N -> bool) (c : N) (n : nat) :
  count_in p (repeat c n) = if p c then n else 0%nat.
Proof.
  unfold count_in. induction n as [|n IH]; [now destruct (p c)|].
  cbn [repeat filter]. destruct (p c); cbn [length]; now rewrite ?IH.
Qed.

Lemma plain_count_marker (m : N) (t : str) :
  In m markers -> forallb plainb t = true -> count_in (N.eqb m) t = 0%nat.
Proof.
  intros Hm Ht. apply count_in_zero, Forall_forall. intros c Hc.
  rewrite forallb_forall in Ht. specialize (Ht c Hc). unfold plainb in Ht.
  apply andb_true_iff in Ht as [Ht _]. apply negb_true_iff in Ht.
  destruct (N.eqb_spec m c) as [->|]; [|reflexivity].
  unfold is_marker in Ht. rewrite <- Ht. symmetry. apply existsb_exists.
  exists c. split; [exact Hm|apply N.eqb_refl].
Qed.

Lemma plain_count_rule (t : str) :
  forallb plainb t = true -> count_in is_rule_char t = 0%nat.
Proof.
  intros Ht. apply count_in_zero, Forall_forall. intros c Hc.
  rewrite forallb_forall in Ht. specialize (Ht c Hc). unfold plainb in Ht.
  apply andb_true_iff in Ht as [Ht _]. apply negb_true_iff in Ht.
  unfold is_marker, markers in Ht. unfold is_rule_char.
  cbn [lit list_ascii_of_string map existsb] in *.
  repeat (apply orb_false_iff in Ht as [? Ht]).
  repeat (apply orb_false_iff; split); auto.
Qed.

Lemma heading_line_counts (n : nat) (t : str) :
  forallb plainb t = true ->
  (forall m, In m markers ->
     (count_in (N.eqb m) (heading_line n t) <= if N.eqb m 35 then n else 0)%nat) /\
  (count_in is_rule_char (heading_line n t) <= 0)%nat.
Proof.
  intros Ht. unfold heading_line. split.
  - intros m Hm. rewrite !count_in_app, count_in_repeat, (plain_count_marker m t Hm Ht).
    assert (H32 : count_in (N.eqb m) [32] = 0%nat).
    { unfold count_in. cbn [filter]. destruct (N.eqb_spec m 32) as [->|]; [|reflexivity].
      exfalso. revert Hm. vm_compute. intuition discriminate. }
    rewrite H32. destruct (N.eqb m 35); lia.
  - rewrite !count_in_app, count_in_repeat, (plain_count_rule t Ht). cbn. lia.
Qed.

Lemma bold_line_counts (t : str) :
  forallb plainb t = true ->
  (forall m, In m markers ->
     (count_in (N.eqb m) ([42%N] ++ t ++ [42%N]) <= if N.eqb m 42 then 2 else 0)%nat) /\
  (count_in is_rule_char ([42%N] ++ t ++ [42%N]) <= 2)%nat.
Proof.
  intros Ht. split.
  - intros m Hm. rewrite !count_in_app, (plain_count_marker m t Hm Ht).
    unfold count_in. cbn [filter]. destruct (N.eqb m 42); cbn; lia.
  - rewrite !count_in_app, (plain_count_rule t Ht). cbn. lia.
Qed.

(** The rules on a heading line with a plain title. *)
Lemma rewrite_rules_heading (env : PyEnv) (n : nat) (t : str) :
  (1 <= n <= 6)%nat -> t <> [] -> ~ In NL t -> forallb plainb t = true ->
  rewrite_rules env (heading_line n t) = rstrip ([42] ++ t ++ [42]).
Proof.
  intros Hn Hne Hnl Ht.
  destruct (heading_line_counts n t Ht) as [Hc1 Hr1].
  destruct (bold_line_counts t Ht) as [Hc2 Hr2].
  unfold rewrite_rules.
  rewrite (sub_fn_no_match env triple_pattern).
  2:{ apply (search_needs env (N.eqb 42)).
      specialize (Hc1 42). cbn [N.eqb Pos.eqb] in Hc1.
      assert (In 42 markers) by (vm_compute; tauto). specialize (Hc1 H). cbn; lia. }
  assert (Hsplit : patterns = firstn (12 - n) patterns ++ heading n :: skipn (13 - n) patterns).
  { destruct n as [|[|[|[|[|[|[|n]]]]]]]; try lia; reflexivity. }
  rewrite Hsplit, fold_left_app. cbn [fold_left].
  rewrite (fold_rules_skip env (fun m => if N.eqb m 35 then n else 0%nat) 0 _ _ Hc1 Hr1).
  2:{ destruct n as [|[|[|[|[|[|[|n]]]]]]]; try lia; reflexivity. }
  rewrite (sub_heading env n t Hn Hne Hnl).
  rewrite (fold_rules_skip env (fun m => if N.eqb m 42 then 2%nat else 0%nat) 2 _ _ Hc2 Hr2).
  2:{ destruct n as [|[|[|[|[|[|[|n]]]]]]]; try lia; reflexivity. }
  rewrite (sub_needs env (N.eqb 37)); [reflexivity|].
  assert (H37 : In 37 markers) by (vm_compute; tauto).
  specialize (Hc2 37 H37). change (N.eqb 37 42) with false in Hc2. cbv iota in Hc2.
  change (min_in (N.eqb 37) sentinel_pattern) with 8%nat. lia.
Qed.

(** X10. Headings of every level: a line of one to six number signs,
    a blank and a title without markers is converted to the title
    between two asterisks, the level dropped, by the rule of its own
    level alone (the rules of deeper levels do not match it, and no
    later rule touches the result). *)
Theorem convert_heading (env : PyEnv) (self : SlackMarkdownConverter)
    (level : nat) (title : str) :
  in_code_block self = false ->
  encoding self = Utf8 ->
  (1 <= level <= 6)%nat ->
  title <> [] ->
  forallb plainb title = true ->
  ~ In NL title ->
  rstrip title = title ->
  returned (convert env (heading_line level title) self) = inr (lit "*" ++ title ++ lit "*").
Proof.
  intros Hout Henc Hn Hne Hp Hnl Hr.
  destruct (heading_line_counts level title Hp) as [Hc _].
  assert (Hhd : exists rest, heading_line level title = 35 :: rest).
  { destruct level; [lia|]. now eexists. }
  destruct Hhd as [rest Hs].
  assert (Hstrip : strip (heading_line level title) = heading_line level title).
  { unfold strip, strip_by. rewrite Hs. cbn [lstrip_by]. 
    change (isspace 35) with false. cbv iota. rewrite <- Hs.
    unfold heading_line. unfold rstrip in Hr.
    assert (H1 : rstrip_by isspace ([32] ++ title) = [32] ++ title).
    { rewrite rstrip_by_app_keep; rewrite Hr; [reflexivity|exact Hne]. }
    rewrite rstrip_by_app_keep; rewrite H1; [reflexivity|discriminate]. }
  assert (Htab : search env table_pattern (heading_line level title) = false).
  { apply (search_needs env (N.eqb 124)).
    assert (H124 : In 124 markers) by (vm_compute; tauto).
    specialize (Hc 124 H124). change (N.eqb 124 35) with false in Hc. cbv iota in Hc.
    change (min_in (N.eqb 124) table_pattern) with 4%nat. lia. }
  assert (Hnl' : ~ In NL (heading_line level title)).
  { unfold heading_line. intros Hin. apply in_app_or in Hin as [Hin|Hin].
    - apply repeat_spec in Hin. discriminate.
    - destruct Hin as [Hin|Hin]; [discriminate|contradiction]. }
  rewrite Hs in *.
  assert (Ht : (set_table_replacements [] ;;; _convert_tables env (strip (35 :: rest))) self
               = (inr (35 :: rest),
                  {| encoding := encoding self; in_code_block := in_code_block self;
                     table_replacements := [] |})).
  { unfold bind, set_table_replacements. rewrite Hstrip. now rewrite _convert_tables_no_match. }
  rewrite (convert_after_tables env 35 rest _ _ _ Ht).
  rewrite (split_no_sep NL _ Hnl'), mapM_cons.
  rewrite (_convert_line_plain env (35 :: rest) _ eq_refl).
  change (startswith (35 :: rest) placeholder_prefix) with false.
  cbn [andb in_code_block mapM ret]. rewrite Hout. rewrite <- Hs.
  rewrite (rewrite_rules_heading env level title Hn Hne Hnl Hp).
  replace ([42] ++ title ++ [42]) with (([42] ++ title) ++ [42]) by now rewrite <- app_assoc.
  unfold rstrip at 1. rewrite (rstrip_by_last isspace _ 42 eq_refl).
  cbn [join table_replacements encoding replace_all]. rewrite Henc.
  unfold encode_decode.
  assert (Hok : existsb is_surrogate (([42] ++ title) ++ [42]) = false).
  { rewrite !existsb_app, (plain_no_surrogate _ Hp). reflexivity. }
  rewrite Hok. unfold returned. cbn [fst]. now rewrite <- app_assoc.
Qed.

Lemma convert_heading_witness :
  returned (convert env0 (heading_line 3 (lit "Release notes, part 2")) (__init__ Utf8))
  = inr (lit "*" ++ lit "Release notes, part 2" ++ lit "*").
Proof.
  apply (convert_heading env0 (__init__ Utf8) 3 (lit "Release notes, part 2"));
    try reflexivity; try lia; try discriminate.
  vm_compute. intuition discriminate.
Defined.

(* ------------------------------------------------------------------ *)
(** *** A document that is one table *)

Lemma join_more_lines (l : str) (ls : list str) :
  join [NL] (l :: ls) = l ++ more_lines ls.
Proof.
  revert l. induction ls as [|l' ls IH]; intros l; [cbn; now rewrite app_nil_r|].
  rewrite join_cons, IH. reflexivity.
Qed.

(** A greedy repetition gives back its last character when what
    follows fails at the end and succeeds one character earlier. *)
Lemma rep_greedy_last (env : PyEnv) (cs : cset) (k : cont) (Q : str * caps -> Prop)
    (a : str) (x : N) (rest : str) :
  forallb (cmatch env cs) (a ++ [x]) = true ->
  match rest with y :: _ => cmatch env cs y = false | [] => True end ->
  forall pre c,
    k (rev (a ++ [x]) ++ pre) rest c = None ->
    (exists res, k (rev a ++ pre) (x :: rest) c = Some res /\ Q res) ->
    exists res, rep_greedy env cs k pre (a ++ x :: rest) c = Some res /\ Q res.
Proof.
  induction a as [|y a IH]; intros Hall Hrest pre c Hend Hok.
  - cbn [app rep_greedy]. cbn [app forallb] in Hall. apply andb_true_iff in Hall as [Hx _].
    rewrite Hx. cbn [app rev] in Hend, Hok.
    assert (Hin : rep_greedy env cs k (x :: pre) rest c = None).
    { destruct rest as [|y rest]; [exact Hend|]. cbn [rep_greedy]. now rewrite Hrest. }
    now rewrite Hin.
  - cbn [app rep_greedy]. cbn [app forallb] in Hall. apply andb_true_iff in Hall as [Hy Hall].
    rewrite Hy.
    destruct (IH Hall Hrest (y :: pre) c) as (res & -> & HQ).
    + cbn [app rev] in Hend. now rewrite <- !app_assoc in Hend.
    + cbn [rev] in Hok. now rewrite <- app_assoc in Hok.
    + now exists res.
Qed.

(** [\s*$] before the end of the text, or before a newline that a
    character other than whitespace follows, consumes nothing. *)
Lemma rep_greedy_space_eol (env : PyEnv) (K : cont) (pre rest : str) (c : caps) :
  rest = [] \/ (exists y r, rest = NL :: y :: r /\ isspace y = false) ->
  rep_greedy env Space (fun p s c' => if eol true s then K p s c' else None) pre rest c
  = K pre rest c.
Proof.
  intros [->|(y & r & -> & Hy)]; [reflexivity|].
  assert (Hne : (y =? NL) = false).
  { destruct (N.eqb_spec y NL) as [->|]; [discriminate Hy|reflexivity]. }
  cbn [rep_greedy cmatch]. change (isspace NL) with true. cbv iota.
  rewrite Hy. cbn [eol]. rewrite Hne. reflexivity.
Qed.

(** The rest of a line between bars, once its opening bar and first
    character are passed: the greedy body runs to the end of the line,
    gives back the closing bar, and the line ends there. *)
Lemma greedy_bar_line (env : PyEnv) (cs : cset) (K : cont) (g : str -> caps -> caps)
    (Q : str * caps -> Prop) (mid rest pre : str) (c : caps) :
  forallb (cmatch env cs) (mid ++ [bar]) = true ->
  cmatch env cs NL = false ->
  rest = [] \/ (exists y r, rest = NL :: y :: r /\ isspace y = false) ->
  (exists res, K (bar :: rev mid ++ pre) rest (g (rev mid ++ pre) c) = Some res /\ Q res) ->
  exists res,
    rep_greedy env cs
      (fun p s c' =>
         run env (Chr (Lit bar))
           (fun p s c => rep_greedy env Space
                           (fun p s c => if eol true s then K p s c else None) p s c)
           p s (g p c'))
      pre (mid ++ bar :: rest) c = Some res /\ Q res.
Proof.
  intros Hall Hnl Hrest HK.
  apply rep_greedy_last; [exact Hall| | |].
  - destruct Hrest as [->|(y & r & -> & _)]; [exact I|exact Hnl].
  - destruct Hrest as [->|(y & r & -> & _)]; reflexivity.
  - cbn [run cmatch]. rewrite N.eqb_refl. now rewrite rep_greedy_space_eol.
Qed.

Lemma more_lines_shape (env : PyEnv) (cs : cset) (rows : list str) :
  Forall (bar_line env cs) rows ->
  more_lines rows = [] \/
  (exists y r, more_lines rows = NL :: y :: r /\ isspace y = false).
Proof.
  intros H. destruct H as [|l rows (m0 & mid & -> & _) _]; [now left|].
  right. cbn [more_lines flat_map app]. now eexists _, _.
Qed.

(** The repeated group takes every data row. *)
Lemma star_rows (env : PyEnv) (rows : list str) :
  Forall (bar_line env Dot) rows ->
  forall fuel pre c,
    (length (more_lines rows) <= fuel)%nat ->
    exists res,
      star_loop (run env row_pattern) (fun p _ c' => Some (consumed [] p, c'))
        fuel pre (more_lines rows) c = Some res /\
      fst res = rev pre ++ more_lines rows.
Proof.
  induction 1 as [|l rows Hl Hrows IH]; intros fuel pre c Hfuel.
  - cbn [more_lines flat_map]. rewrite app_nil_r.
    destruct fuel; cbn [star_loop]; eexists; (split; [reflexivity|apply consumed_nil]).
  - pose proof (more_lines_shape env Dot rows Hrows) as Hshape.
    destruct Hl as (m0 & mid & -> & Hall).
    cbn [forallb] in Hall. apply andb_true_iff in Hall as [Hm0 Hall].
    change (more_lines ((bar :: m0 :: mid ++ [bar]) :: rows))
      with (NL :: bar :: m0 :: (mid ++ [bar]) ++ more_lines rows) in *.
    rewrite <- app_assoc in *. cbn [app] in *.
    destruct fuel as [|fuel]; [cbn [length] in Hfuel; lia|].
    cbn [star_loop].
    set (suf := NL :: bar :: m0 :: mid ++ bar :: more_lines rows) in *.
    set (k' := fun (p s : str) (c' : caps) =>
                 if Nat.ltb (length s) (length suf)
                 then star_loop (run env row_pattern)
                        (fun p0 _ c'0 => Some (consumed [] p0, c'0)) fuel p s c'
                 else None).
    assert (Hbody : exists res,
               run env row_pattern k' pre suf c = Some res /\ fst res = rev pre ++ suf).
    { unfold row_pattern, suf. cbn [run seqs text lit list_ascii_of_string map plus
                                     N_of_ascii cmatch bol andb].
      change (N_of_ascii "|") with bar.
      rewrite !N.eqb_refl. cbn [andb]. cbn [cmatch] in Hm0. rewrite Hm0.
      apply (greedy_bar_line env Dot
               (fun p s c' => k' p s ((2%nat, consumed pre p) :: c'))
               (fun _ c' => c')); [exact Hall|reflexivity|exact Hshape|].
      unfold k'.
      assert (Hlt : Nat.ltb (length (more_lines rows)) (length suf) = true).
      { apply Nat.ltb_lt. unfold suf. cbn [length]. rewrite length_app. cbn [length]. lia. }
      rewrite Hlt.
      destruct (IH fuel (bar :: rev mid ++ [m0; bar; NL] ++ pre)
                  ((2%nat, consumed pre (bar :: rev mid ++ [m0; bar; NL] ++ pre)) :: c))
        as (res & Hres & Hfst).
      { unfold suf in Hfuel. cbn [length] in Hfuel. rewrite length_app in Hfuel.
        cbn [length] in Hfuel. lia. }
      exists res. split; [exact Hres|]. rewrite Hfst. unfold suf.
      cbn [rev app]. rewrite !rev_app_distr, rev_involutive. cbn [rev app].
      now rewrite <- !app_assoc. }
    destruct Hbody as (res & -> & Hfst). now exists res.
Qed.

Lemma table_pattern_rows :
  table_pattern =
  Seq (Bol true)
    (Seq (Chr (Lit bar))
      (Seq (Grp 1 (Seq (Chr Dot) (Rep true Dot)))
        (Seq (Chr (Lit bar))
          (Seq (Rep true Space)
            (Seq (Eol true)
              (Seq (Chr (Lit NL))
                (Seq (Bol true)
                  (Seq (Chr (Lit bar))
                    (Seq (Seq (Chr (OneOf (lit "-:| "))) (Rep true (OneOf (lit "-:| "))))
                      (Seq (Chr (Lit bar))
                        (Seq (Rep true Space)
                          (Seq (Eol true) (Star row_pattern))))))))))))).
Proof. reflexivity. Qed.

(** A header line, a separator line and data rows, each between bars
    and without trailing blanks: the table pattern matches the whole
    block. *)
Lemma match_at_table (env : PyEnv) (header separator : str) (rows : list str) :
  bar_line env Dot header ->
  bar_line env (OneOf (lit "-:| ")) separator ->
  Forall (bar_line env Dot) rows ->
  exists c,
    match_at env table_pattern false [] (join [NL] (header :: separator :: rows))
    = Some (join [NL] (header :: separator :: rows), c).
Proof.
  intros (h0 & hmid & -> & Hh) (s0 & smid & -> & Hs) Hrows.
  pose proof (more_lines_shape env Dot rows Hrows) as Hshape.
  cbn [forallb] in Hh, Hs.
  apply andb_true_iff in Hh as [Hh0 Hh]. apply andb_true_iff in Hs as [Hs0 Hs].
  rewrite !join_more_lines.
  change (more_lines ((bar :: s0 :: smid ++ [bar]) :: rows))
    with (NL :: bar :: s0 :: (smid ++ [bar]) ++ more_lines rows).
  cbn [app]. rewrite <- !app_assoc. cbn [app].
  set (T := bar :: h0 :: hmid ++ bar :: NL :: bar :: s0 :: smid ++ bar :: more_lines rows).
  assert (H : exists res,
             run env table_pattern (fun p _ c => Some (consumed [] p, c)) [] T []
             = Some res /\ fst res = T).
  { rewrite table_pattern_rows. unfold T.
    cbn [run bol cmatch]. rewrite N.eqb_refl.
    cbn [cmatch] in Hh0. rewrite Hh0.
    refine (greedy_bar_line env Dot _ (fun p c' => (1%nat, consumed [bar] p) :: c')
              _ hmid _ _ _ Hh eq_refl _ _).
    { right. now eexists _, _. }
    cbn [eol run cmatch bol andb]. rewrite !N.eqb_refl. cbn [andb].
    cbn [cmatch] in Hs0. rewrite Hs0.
    refine (greedy_bar_line env (OneOf (lit "-:| ")) _ (fun _ c' => c')
              _ smid _ _ _ Hs eq_refl Hshape _).
    cbn [run].
    destruct (star_rows env rows Hrows (length (more_lines rows))
                (bar :: rev smid ++ s0 :: bar :: NL :: bar :: rev hmid ++ [h0; bar])
                [(1%nat, consumed [bar] (rev hmid ++ [h0; bar]))] (Nat.le_refl _))
      as (res & Hres & Hfst).
    exists res. split; [exact Hres|]. rewrite Hfst.
    cbn [rev app]. rewrite !rev_app_distr. cbn [rev app].
    rewrite !rev_app_distr, !rev_involutive. cbn [rev app].
    now rewrite <- !app_assoc. }
  destruct H as ([t c] & Hrun & Hfst). cbn [fst] in Hfst. subst t.
  exists c. unfold match_at. exact Hrun.
Qed.

Lemma str_eqb_eq (a b : str) : str_eqb a b = true <-> a = b.
Proof. unfold str_eqb. destruct (list_eq_dec N.eq_dec a b); split; congruence. Qed.

Lemma cellb_spec (c : str) :
  cellb c = true ->
  ~ In bar c /\ ~ In NL c /\ existsb is_surrogate c = false /\ strip c = c.
Proof.
  unfold cellb. intros H. apply andb_true_iff in H as [H Hs].
  apply negb_true_iff in H. apply str_eqb_eq in Hs.
  assert (Hall : forall x, In x c -> (x =? bar) = false /\ (x =? NL) = false
                                     /\ is_surrogate x = false).
  { intros x Hx. rewrite existsb_false_Forall, Forall_forall in H.
    specialize (H x Hx). apply orb_false_iff in H as [H H3].
    apply orb_false_iff in H as [H1 H2]. auto. }
  repeat split; [| | |exact Hs].
  - intros Hin. destruct (Hall _ Hin) as [Hb _]. now rewrite N.eqb_refl in Hb.
  - intros Hin. destruct (Hall _ Hin) as (_ & Hn & _). now rewrite N.eqb_refl in Hn.
  - apply existsb_false_Forall, Forall_forall. intros x Hx. now destruct (Hall x Hx) as (_ & _ & ?).
Qed.

Lemma strip_pad (c : str) : strip c = c -> strip (pad c) = c.
Proof.
  intros Hc. destruct (strip_by_shape isspace c) as [Hr Hh]. fold (strip c) in Hr, Hh.
  rewrite Hc in Hr, Hh. unfold pad, strip, strip_by. cbn [app lstrip_by].
  change (isspace 32) with true. cbv iota.
  destruct c as [|x c]; [reflexivity|].
  cbn [app lstrip_by]. rewrite Hh.
  change (x :: c ++ [32]) with ((x :: c) ++ [32]).
  rewrite rstrip_by_app_drop; [exact Hr|reflexivity].
Qed.

Lemma join_pad_ends (cells : list str) :
  cells <> [] ->
  exists inner, join [bar] (map pad cells) = [32] ++ inner ++ [32].
Proof.
  induction cells as [|c cells IH]; [intros H; now elim H|]. intros _.
  destruct cells as [|c' cells].
  - exists c. reflexivity.
  - destruct IH as [inner Hi]; [discriminate|].
    cbn [map] in *. rewrite join_cons, Hi.
    exists (c ++ [32] ++ [bar] ++ [32] ++ inner). unfold pad.
    now rewrite <- !app_assoc.
Qed.

Lemma strip_bars_row (cells : list str) :
  cells <> [] ->
  strip_chars [bar] (table_row cells) = join [bar] (map pad cells).
Proof.
  intros Hne.
  change (table_row cells) with ([bar] ++ join [bar] (map pad cells) ++ [bar]).
  destruct (join_pad_ends cells Hne) as [inner ->].
  unfold strip_chars, strip_by. cbn [app lstrip_by existsb].
  change (bar =? bar) with true. change (32 =? bar) with false. cbn [orb]. cbv iota.
  change (32 :: (inner ++ [32]) ++ [bar]) with (((32 :: inner) ++ [32]) ++ [bar]).
  rewrite rstrip_by_app_drop; [|reflexivity].
  now rewrite rstrip_by_last.
Qed.

(** Reading the cells back from a row written with [table_row]. *)
Lemma cells_of_row (cells : list str) :
  cells <> [] -> forallb cellb cells = true -> cells_of (table_row cells) = cells.
Proof.
  intros Hne Hc. unfold cells_of. rewrite (strip_bars_row cells Hne).
  rewrite forallb_forall in Hc.
  rewrite split_join.
  - rewrite map_map. rewrite <- (map_id cells) at 2. apply map_ext_in.
    intros c Hin. apply strip_pad. now apply cellb_spec, Hc.
  - now destruct cells.
  - apply Forall_map, Forall_forall. intros c Hin.
    destruct (cellb_spec c (Hc c Hin)) as (Hb & _). unfold pad.
    intros H. apply in_app_or in H as [H|H]; [destruct H as [H|[]]; discriminate H|].
    apply in_app_or in H as [H|H]; [contradiction|].
    destruct H as [H|[]]; discriminate H.
Qed.

Lemma table_row_no_newline (cells : list str) :
  forallb cellb cells = true -> ~ In NL (table_row cells).
Proof.
  intros Hc. rewrite forallb_forall in Hc. apply not_newline_iff.
  unfold table_row. apply Forall_app. split; [now repeat constructor|].
  apply Forall_app. split; [|now repeat constructor].
  apply Forall_join; [now repeat constructor|]. apply Forall_map, Forall_forall.
  intros c Hin. destruct (cellb_spec c (Hc c Hin)) as (_ & Hn & _).
  apply Forall_app. split; [now repeat constructor|].
  apply Forall_app. split; [now apply not_newline_iff|now repeat constructor].
Qed.

Lemma no_newline_dot (env : PyEnv) (l : str) :
  ~ In NL l -> forallb (cmatch env Dot) l = true.
Proof.
  intros H. apply forallb_forall. intros x Hx. cbn [cmatch].
  apply negb_true_iff, N.eqb_neq. now intros ->.
Qed.

Lemma table_row_bar_line (env : PyEnv) (cells : list str) :
  cells <> [] -> forallb cellb cells = true -> bar_line env Dot (table_row cells).
Proof.
  intros Hne Hc. pose proof (table_row_no_newline cells Hc) as Hnl.
  revert Hnl. change (table_row cells) with ([bar] ++ join [bar] (map pad cells) ++ [bar]).
  destruct (join_pad_ends cells Hne) as [inner ->]. intros Hnl.
  exists 32, (inner ++ [32]). split; [reflexivity|].
  apply no_newline_dot. intros Hin. apply Hnl. right. exact Hin.
Qed.

Lemma separator_bar_line (env : PyEnv) (inner : str) :
  inner <> [] ->
  forallb (fun x => existsb (N.eqb x) (lit "-:| ")) inner = true ->
  bar_line env (OneOf (lit "-:| ")) (separator_line inner).
Proof.
  intros Hne Hi. destruct inner as [|s0 smid]; [now elim Hne|].
  exists s0, smid. split; [reflexivity|].
  change (s0 :: smid ++ [bar]) with ((s0 :: smid) ++ [bar]).
  rewrite forallb_app.
  change (forallb (cmatch env (OneOf (lit "-:| "))) (s0 :: smid))
    with (forallb (fun x => existsb (N.eqb x) (lit "-:| ")) (s0 :: smid)).
  now rewrite Hi.
Qed.

Lemma separator_no_newline (inner : str) :
  forallb (fun x => existsb (N.eqb x) (lit "-:| ")) inner = true ->
  ~ In NL (separator_line inner).
Proof.
  intros Hi Hin. unfold separator_line in Hin.
  apply in_app_or in Hin as [[H|[]]|Hin]; [discriminate H|].
  apply in_app_or in Hin as [Hin|[H|[]]]; [|discriminate H].
  rewrite forallb_forall in Hi. specialize (Hi _ Hin). discriminate Hi.
Qed.

Lemma join_ends_bar (lines : list str) :
  lines <> [] ->
  Forall (fun l => exists a, l = a ++ [bar]) lines ->
  exists a, join [NL] lines = a ++ [bar].
Proof.
  induction lines as [|l lines IH]; [intros H; now elim H|]. intros _ Hall.
  inversion Hall as [|? ? [a Ha] Hrest]; subst.
  destruct lines as [|l' lines]; [now exists a|].
  destruct IH as [a' Ha']; [discriminate|exact Hrest|].
  rewrite join_cons, Ha'. exists ((a ++ [bar]) ++ [NL] ++ a'). now rewrite <- !app_assoc.
Qed.

Section Table.
Variable env : PyEnv.
Variables (headers : list str) (inner : str) (rows : list (list str)).
Hypothesis Hh : headers <> [].
Hypothesis Hhc : forallb cellb headers = true.
Hypothesis Hi : inner <> [].
Hypothesis Hic : forallb (fun x => existsb (N.eqb x) (lit "-:| ")) inner = true.
Hypothesis Hr : forallb (fun r => negb (Nat.eqb (length r) 0) && forallb cellb r) rows = true.

Lemma table_rows_ok (r : list str) : In r rows -> r <> [] /\ forallb cellb r = true.
Proof.
  intros Hin. rewrite forallb_forall in Hr. specialize (Hr r Hin).
  apply andb_true_iff in Hr as [Hn Hc]. split; [|exact Hc].
  intros ->. discriminate Hn.
Qed.

Lemma table_lines_no_newline :
  Forall (fun l => ~ In NL l)
         (table_row headers :: separator_line inner :: map table_row rows).
Proof.
  constructor; [now apply table_row_no_newline|].
  constructor; [now apply separator_no_newline|].
  apply Forall_map, Forall_forall. intros r Hin.
  apply table_row_no_newline. now apply table_rows_ok.
Qed.

Lemma table_text_strip : strip (table_text headers inner rows) = table_text headers inner rows.
Proof.
  unfold table_text.
  destruct (join_ends_bar (table_row headers :: separator_line inner :: map table_row rows))
    as [a Ha]; [discriminate| |].
  { constructor; [unfold table_row; eexists; now rewrite app_assoc|].
    constructor; [unfold separator_line; eexists; now rewrite app_assoc|].
    apply Forall_map, Forall_forall. intros r _.
    unfold table_row. eexists. now rewrite app_assoc. }
  unfold strip, strip_by.
  assert (Hl : lstrip_by isspace
                 (join [NL] (table_row headers :: separator_line inner :: map table_row rows))
               = join [NL] (table_row headers :: separator_line inner :: map table_row rows))
    by now rewrite join_cons.
  rewrite Hl, Ha. now apply rstrip_by_last.
Qed.

Lemma table_text_pieces :
  exists c,
    pieces env table_pattern 0 [] (table_text headers inner rows)
    = [inr (table_text headers inner rows, c)].
Proof.
  destruct (match_at_table env (table_row headers) (separator_line inner)
              (map table_row rows)) as [c Hm].
  - now apply table_row_bar_line.
  - now apply separator_bar_line.
  - apply Forall_map, Forall_forall. intros r Hin.
    apply table_row_bar_line; now apply table_rows_ok.
  - exists c. fold (table_text headers inner rows) in Hm.
    assert (Hs : exists t, table_text headers inner rows = bar :: t)
      by (unfold table_text; rewrite join_cons; now eexists).
    destruct Hs as [t Hs]. rewrite Hs in *. cbn [pieces]. rewrite Hm.
    replace (pieces env table_pattern (length t) [bar] t)
      with (pieces env table_pattern (length t) [bar] (t ++ []))
      by now rewrite app_nil_r.
    rewrite pieces_skip. cbn [pieces]. now rewrite table_no_match_at_end.
Qed.

(** [convert_table] on a match whose text, once stripped, is the table. *)
Lemma convert_table_text (original_table : str) (c : caps)
    (self : SlackMarkdownConverter) :
  strip original_table = table_text headers inner rows ->
  convert_table env (original_table, c) self =
  (inr (placeholder_of env original_table),
   {| encoding := encoding self; in_code_block := in_code_block self;
      table_replacements :=
        dict_set (table_replacements self) (placeholder_of env original_table)
          (table_rendered headers rows) |}).
Proof.
  intros Hstrip.
  assert (Hsplit : split NL (table_text headers inner rows)
                   = table_row headers :: separator_line inner :: map table_row rows).
  { unfold table_text. apply split_join; [discriminate|exact table_lines_no_newline]. }
  unfold convert_table, index. cbn [fst]. rewrite Hstrip, Hsplit.
  cbn [nth_error]. unfold bind, ret, get, set_table_replacements.
  fold (placeholder_of env original_table).
  do 3 f_equal.
  assert (Hdata : (if Nat.ltb 2 (length (table_row headers :: separator_line inner
                                           :: map table_row rows))
                   then skipn 2 (table_row headers :: separator_line inner
                                   :: map table_row rows)
                   else []) = map table_row rows).
  { cbn [length skipn]. destruct (map table_row rows); reflexivity. }
  rewrite Hdata. fold (cells_of (table_row headers)).
  rewrite (cells_of_row headers Hh Hhc). unfold table_rendered. do 3 f_equal.
  rewrite map_map. rewrite <- (map_id rows) at 2. apply map_ext_in. intros r Hin.
  fold (cells_of (table_row r)). apply cells_of_row; now apply table_rows_ok.
Qed.
End Table.

Lemma table_rendered_encodable (headers : list str) (rows : list (list str)) :
  forallb cellb headers = true ->
  forallb (fun r => negb (Nat.eqb (length r) 0) && forallb cellb r) rows = true ->
  existsb is_surrogate (table_rendered headers rows) = false.
Proof.
  intros Hh Hr. apply existsb_false_Forall. unfold table_rendered.
  assert (Hcell : forall c, cellb c = true -> Forall (fun x => is_surrogate x = false) c).
  { intros c Hc. apply existsb_false_Forall. now apply cellb_spec. }
  rewrite forallb_forall in Hh, Hr.
  apply Forall_join; [now repeat constructor|]. constructor.
  - apply Forall_join; [now repeat constructor|]. apply Forall_map, Forall_forall.
    intros h Hin. apply Forall_app. split; [now repeat constructor|].
    apply Forall_app. split; [now apply Hcell, Hh|now repeat constructor].
  - apply Forall_map, Forall_forall. intros r Hin.
    specialize (Hr r Hin). apply andb_true_iff in Hr as [_ Hr].
    rewrite forallb_forall in Hr.
    apply Forall_join; [now repeat constructor|]. apply Forall_forall.
    intros c Hc. now apply Hcell, Hr.
Qed.

(** X11. A document that is one table, written with a blank on both
    sides of every cell: the header cells come out bold and joined by
    " | ", the separator line is dropped, every data row comes out with
    its cells joined by " | ", short rows not padded, and the cells are
    copied as they are, whatever markdown they hold; the placeholder the
    table went through is not seen. *)
Theorem convert_table_document (env : PyEnv) (headers : list str) (inner : str)
    (rows : list (list str)) (b : bool) (d : dict) :
  headers <> [] ->
  forallb cellb headers = true ->
  inner <> [] ->
  forallb (fun x => existsb (N.eqb x) (lit "-:| ")) inner = true ->
  forallb (fun r => negb (Nat.eqb (length r) 0) && forallb cellb r) rows = true ->
  returned (convert env (table_text headers inner rows)
              {| encoding := Utf8; in_code_block := b; table_replacements := d |})
  = inr (table_rendered headers rows).
Proof.
  intros Hh Hhc Hi Hic Hr.
  destruct (table_text_pieces env headers inner rows Hh Hhc Hi Hic Hr) as [c Hp].
  assert (Hs : exists t, table_text headers inner rows = bar :: t)
    by (unfold table_text; rewrite join_cons; now eexists).
  destruct Hs as [t Hs].
  assert (Hstage :
    (set_table_replacements [] ;;; _convert_tables env (strip (bar :: t)))
      {| encoding := Utf8; in_code_block := b; table_replacements := d |}
    = (inr (placeholder_of env (table_text headers inner rows)),
       {| encoding := Utf8; in_code_block := b;
          table_replacements := [(placeholder_of env (table_text headers inner rows),
                                  table_rendered headers rows)] |})).
  { rewrite <- Hs, (table_text_strip headers inner rows).
    unfold bind at 1. unfold set_table_replacements.
    cbn [encoding in_code_block]. unfold _convert_tables. rewrite Hp.
    unfold bind at 1. rewrite mapM_cons. cbv beta iota.
    rewrite (convert_table_text env headers inner rows Hh Hhc Hic Hr _ _ _
               (table_text_strip headers inner rows)).
    unfold mapM, ret.
    cbn [concat encoding in_code_block table_replacements dict_set].
    now rewrite app_nil_r. }
  rewrite Hs at 1.
  rewrite (convert_single_table env bar t _ _ Utf8 b d Hstage).
  unfold encode_decode. now rewrite table_rendered_encodable.
Qed.

Lemma convert_table_document_witness :
  returned (convert env0
              (table_text [lit "Name"; lit "**Role**"] (lit "---|:-:")
                 [[lit "Ann"; lit "dev"]; [lit "Bob"]; [[]; lit "a - b"; lit "x"]])
              {| encoding := Utf8; in_code_block := true; table_replacements := [] |})
  = inr (table_rendered [lit "Name"; lit "**Role**"]
           [[lit "Ann"; lit "dev"]; [lit "Bob"]; [[]; lit "a - b"; lit "x"]]).
Proof. apply convert_table_document; try reflexivity; discriminate. Defined.

(* ------------------------------------------------------------------ *)
(** *** List items *)

(** The scan at a non-empty match: the match, then the scan of the
    text after it. *)
Lemma pieces_match (env : PyEnv) (r : regex) (pre : str) (x : N) (t : str) (c : caps)
    (suf' : str) :
  match_at env r false pre ((x :: t) ++ suf') = Some (x :: t, c) ->
  pieces env r 0 pre ((x :: t) ++ suf') =
  inr (x :: t, c) :: pieces env r 0 (rev (x :: t) ++ pre) suf'.
Proof.
  intros H. cbn [app pieces] in *. rewrite H, pieces_skip.
  cbn [rev]. now rewrite <- app_assoc.
Qed.

(** A greedy repetition before a continuation that accepts the end of
    the text runs to the end. *)
Lemma rep_greedy_to_end (env : PyEnv) (cs : cset) (k : cont) (t : str) :
  forallb (cmatch env cs) t = true ->
  forall pre c res,
    k (rev t ++ pre) [] c = Some res -> rep_greedy env cs k pre t c = Some res.
Proof.
  induction t as [|x t IH]; intros Hall pre c res Hk; [exact Hk|].
  cbn [forallb] in Hall. apply andb_true_iff in Hall as [Hx Hall].
  cbn [rep_greedy]. rewrite Hx.
  rewrite (IH Hall (x :: pre) c res); [reflexivity|].
  cbn [rev] in Hk. now rewrite <- app_assoc in Hk.
Qed.

Lemma marker_not_space (c : N) : is_marker c = true -> isspace c = false.
Proof.
  unfold is_marker, markers. cbn [lit list_ascii_of_string map existsb].
  intros H. repeat (apply orb_true_iff in H as [H|H];
                    [apply N.eqb_eq in H; subst c; reflexivity|]).
  discriminate H.
Qed.

Lemma space_count_marker (m : N) (indent : str) :
  In m markers -> forallb isspace indent = true -> count_in (N.eqb m) indent = 0%nat.
Proof.
  intros Hm Hi. apply count_in_zero, Forall_forall. intros c Hc.
  rewrite forallb_forall in Hi. specialize (Hi c Hc).
  destruct (N.eqb_spec m c) as [->|]; [|reflexivity].
  assert (Hmk : is_marker c = true).
  { unfold is_marker. apply existsb_exists. exists c. split; [exact Hm|apply N.eqb_refl]. }
  apply marker_not_space in Hmk. congruence.
Qed.

Lemma space_count_rule (indent : str) :
  forallb isspace indent = true -> count_in is_rule_char indent = 0%nat.
Proof.
  intros Hi. apply count_in_zero, Forall_forall. intros c Hc.
  rewrite forallb_forall in Hi. specialize (Hi c Hc).
  destruct (is_rule_char c) eqn:E; [|reflexivity].
  assert (Hmk : is_marker c = true).
  { unfold is_rule_char in E. cbn [lit list_ascii_of_string map existsb] in E.
    repeat (apply orb_true_iff in E as [E|E];
            [apply N.eqb_eq in E; subst c; reflexivity|]).
    discriminate E. }
  apply marker_not_space in Hmk. congruence.
Qed.

(** The counts of markers in a line made of an indentation, some
    literal text and a plain text. *)
Lemma item_line_counts (indent mark t : str) :
  forallb isspace indent = true ->
  forallb plainb t = true ->
  (forall m, In m markers ->
     count_in (N.eqb m) (indent ++ mark ++ t) = count_in (N.eqb m) mark) /\
  count_in is_rule_char (indent ++ mark ++ t) = count_in is_rule_char mark.
Proof.
  intros Hi Ht. split.
  - intros m Hm. rewrite !count_in_app, (space_count_marker m indent Hm Hi),
      (plain_count_marker m t Hm Ht). lia.
  - rewrite !count_in_app, (space_count_rule indent Hi), (plain_count_rule t Ht). lia.
Qed.

Lemma match_at_bullet (env : PyEnv) (indent : str) (x : N) (t : str) :
  forallb isspace indent = true -> ~ In NL (x :: t) ->
  match_at env (seqs [Bol true; Grp 1 (Rep true Space); text "- "; Grp 2 (plus true Dot)])
    false [] (indent ++ lit "- " ++ x :: t)
  = Some (indent ++ lit "- " ++ x :: t, [(2%nat, x :: t); (1%nat, indent)]).
Proof.
  intros Hi Hnl.
  assert (Hx : (x =? NL) = false).
  { apply N.eqb_neq. intros ->. apply Hnl. now left. }
  assert (Ht : forallb (cmatch env Dot) t = true).
  { apply no_newline_dot. intros H. apply Hnl. now right. }
  unfold match_at.
  cbn [seqs text lit list_ascii_of_string map run plus bol].
  change (N_of_ascii "-") with 45. change (N_of_ascii " ") with 32.
  rewrite rep_greedy_maximal.
  2:{ intros p y s c Hy. cbn [cmatch] in *.
      destruct (N.eqb_spec y 45) as [->|]; [discriminate Hy|reflexivity]. }
  destruct (take_while_forallb (cmatch env Space) indent (45 :: 32 :: x :: t) Hi eq_refl)
    as [Htw Hdw].
  cbn [app] in *. rewrite Htw, Hdw.
  cbn [cmatch]. rewrite !N.eqb_refl, Hx. cbn [negb andb].
  rewrite !app_nil_r.
  erewrite rep_greedy_to_end; [|exact Ht|reflexivity].
  rewrite !consumed_nil, rev_involutive.
  replace (rev t ++ x :: 32 :: 45 :: rev indent)
    with (rev (x :: t) ++ 32 :: 45 :: rev indent)
    by (cbn [rev]; now rewrite <- app_assoc).
  rewrite consumed_app. do 2 f_equal.
  rewrite rev_app_distr, rev_involutive.
  change (rev (32 :: 45 :: rev indent)) with ((rev (rev indent) ++ [45]) ++ [32]).
  now rewrite rev_involutive, <- !app_assoc.
Qed.

Lemma item_line_head (indent mark t : str) (m0 : N) (mark' : str) :
  forallb isspace indent = true -> mark = m0 :: mark' ->
  exists h rest, indent ++ mark ++ t = h :: rest /\ (isspace h = true \/ h = m0).
Proof.
  intros Hi ->. destruct indent as [|c indent].
  - exists m0, (mark' ++ t). split; [reflexivity|now right].
  - cbn [forallb] in Hi. apply andb_true_iff in Hi as [Hc _].
    exists c, (indent ++ (m0 :: mark') ++ t). split; [reflexivity|now left].
Qed.

Lemma startswith_head_false (h q : N) (rest p : str) :
  h <> q -> startswith (h :: rest) (q :: p) = false.
Proof.
  intros Hne. cbn [startswith].
  destruct (N.eqb_spec q h) as [->|]; [now elim Hne|reflexivity].
Qed.

(** A line that starts with whitespace, a hyphen or a digit is neither
    a fence nor of the shape of a placeholder. *)
Lemma item_line_plain (env : PyEnv) (line : str) (h : N) (rest : str)
    (self : SlackMarkdownConverter) :
  line = h :: rest -> h <> 96 -> h <> 37 ->
  in_code_block self = false ->
  _convert_line env line self = (inr (rewrite_rules env line), self).
Proof.
  intros -> H96 H37 Hout.
  assert (Hf : fence_tag env (h :: rest) = None).
  { unfold fence_tag. change backticks with (96 :: lit "``").
    now rewrite (startswith_head_false h 96 rest (lit "``") H96). }
  rewrite (_convert_line_plain env _ self Hf), Hout.
  change placeholder_prefix with (37 :: tl placeholder_prefix).
  now rewrite (startswith_head_false h 37 rest (tl placeholder_prefix) H37).
Qed.

Lemma sub_bullet (env : PyEnv) (indent t : str) :
  forallb isspace indent = true -> t <> [] -> ~ In NL t ->
  sub env (seqs [Bol true; Grp 1 (Rep true Space); text "- "; Grp 2 (plus true Dot)])
    [TGrp 1; TLit [bullet; 32]; TGrp 2] (indent ++ lit "- " ++ t)
  = indent ++ [bullet; 32] ++ t.
Proof.
  intros Hi Hne Hnl. destruct t as [|x t]; [now elim Hne|].
  pose proof (match_at_bullet env indent x t Hi Hnl) as Hm.
  destruct (item_line_head indent (lit "- ") (x :: t) 45 [32] Hi eq_refl)
    as (h & rest & Hl & _).
  rewrite Hl in *. unfold sub, sub_fn.
  rewrite <- (app_nil_r (h :: rest)) at 1.
  rewrite (pieces_match env _ [] h rest [(2%nat, x :: t); (1%nat, indent)] [])
    by (rewrite app_nil_r; exact Hm).
  cbn [pieces]. rewrite match_at_needs with (p := N.eqb 45) by (cbn; lia).
  cbn [flat_map expand snd group Nat.eqb app]. now rewrite !app_nil_r.
Qed.

Lemma _convert_line_item (env : PyEnv) (indent t : str)
    (self : SlackMarkdownConverter) :
  in_code_block self = false ->
  forallb isspace indent = true ->
  ~ In NL (indent ++ t) ->
  t <> [] ->
  forallb plainb t = true ->
  rstrip t = t ->
  _convert_line env (indent ++ lit "- " ++ t) self
  = (inr (indent ++ [bullet; 32] ++ t), self).
Proof.
  intros Hout Hi Hnl Hne Hp Hr.
  assert (Hnlt : ~ In NL t) by (intros H; apply Hnl, in_or_app; now right).
  destruct (item_line_head indent (lit "- ") t 45 [32] Hi eq_refl)
    as (h & rest & Hl & Hh).
  rewrite (item_line_plain env _ h rest self Hl); [| | |exact Hout];
    [|destruct Hh as [Hh| ->]; [intros ->|]; discriminate..].
  f_equal. f_equal.
  destruct (item_line_counts indent (lit "- ") t Hi Hp) as [Hc Hc3].
  destruct (item_line_counts indent [bullet; 32] t Hi Hp) as [Hd Hd3].
  assert (Hmark : forall m, In m markers ->
            (count_in (N.eqb m) (lit "- ") <= if N.eqb m 45 then 1 else 0)%nat).
  { intros m Hm. unfold markers in Hm. cbn [lit list_ascii_of_string map In] in Hm.
    repeat (destruct Hm as [<-|Hm]; [cbn; lia|]). destruct Hm. }
  assert (Hbul : forall m, In m markers ->
            (count_in (N.eqb m) [bullet; 32%N] <= 0)%nat).
  { intros m Hm. unfold markers in Hm. cbn [lit list_ascii_of_string map In] in Hm.
    repeat (destruct Hm as [<-|Hm]; [cbn; lia|]). destruct Hm. }
  unfold rewrite_rules.
  rewrite (sub_fn_no_match env triple_pattern).
  2:{ apply (search_needs env (N.eqb 42)).
      rewrite Hc by (vm_compute; tauto). cbn. lia. }
  change patterns
    with (firstn 2 patterns
          ++ (seqs [Bol true; Grp 1 (Rep true Space); text "- "; Grp 2 (plus true Dot)],
              [TGrp 1; TLit [bullet; 32]; TGrp 2]) :: skipn 3 patterns).
  rewrite fold_left_app. cbn [fold_left].
  rewrite (fold_rules_skip env (fun m => if N.eqb m 45 then 1%nat else 0%nat) 1
             (firstn 2 patterns) (indent ++ lit "- " ++ t)).
  2:{ intros m Hm. rewrite (Hc m Hm). now apply Hmark. }
  2:{ rewrite Hc3. cbn. lia. }
  2:{ reflexivity. }
  cbn [fst snd]. rewrite (sub_bullet env indent t Hi Hne Hnlt).
  rewrite (fold_rules_skip env (fun _ => 0%nat) 0
             (skipn 3 patterns) (indent ++ [bullet; 32] ++ t)).
  2:{ intros m Hm. rewrite (Hd m Hm). now apply Hbul. }
  2:{ rewrite Hd3. cbn. lia. }
  2:{ reflexivity. }
  rewrite (sub_needs env (N.eqb 37)).
  2:{ rewrite Hd by (vm_compute; tauto). cbn. lia. }
  unfold rstrip in *.
  assert (H1 : rstrip_by isspace ([bullet; 32] ++ t) = [bullet; 32] ++ t).
  { rewrite rstrip_by_app_keep; rewrite Hr; [reflexivity|exact Hne]. }
  rewrite rstrip_by_app_keep; rewrite H1; [reflexivity|discriminate].
Qed.

(** X12. Items of a bulleted list: outside a code block, a line made
    of an indentation, a hyphen, a blank and a text without markers
    comes out with the hyphen replaced by a bullet, the indentation and
    the text kept, and the object is not changed. *)
Theorem _convert_line_bullet (env : PyEnv) (indent t : str)
    (self : SlackMarkdownConverter) :
  in_code_block self = false ->
  forallb isspace indent = true ->
  ~ In NL (indent ++ t) ->
  t <> [] ->
  forallb plainb t = true ->
  rstrip t = t ->
  _convert_line env (indent ++ lit "- " ++ t) self
  = (inr (indent ++ [bullet; 32] ++ t), self).
Proof. exact (_convert_line_item env indent t self). Qed.

Lemma _convert_line_bullet_witness :
  _convert_line env0 (lit "  " ++ lit "- " ++ lit "buy milk, 2 l") (__init__ Utf8)
  = (inr (lit "  " ++ [bullet; 32] ++ lit "buy milk, 2 l"), __init__ Utf8).
Proof.
  apply _convert_line_bullet; try reflexivity; [|discriminate].
  vm_compute. intuition discriminate.
Defined.

(* ------------------------------------------------------------------ *)
(** *** Documents of simple lines *)

Lemma no_newline_existsb (t : str) : existsb (N.eqb NL) t = false <-> ~ In NL t.
Proof.
  split.
  - intros H Hin. assert (existsb (N.eqb NL) t = true); [|congruence].
    apply existsb_exists. exists NL. split; [exact Hin|apply N.eqb_refl].
  - intros H. apply not_true_is_false. intros He.
    apply existsb_exists in He as (x & Hx & E). apply N.eqb_eq in E. now subst.
Qed.

Lemma proseb_spec (t : str) : proseb t = true -> forallb plainb t = true /\ ~ In NL t.
Proof.
  unfold proseb. intros H. apply andb_true_iff in H as [Hp Hn].
  split; [exact Hp|]. now apply no_newline_existsb, negb_true_iff.
Qed.

Lemma titleb_spec (t : str) :
  titleb t = true -> t <> [] /\ forallb plainb t = true /\ ~ In NL t /\ rstrip t = t.
Proof.
  unfold titleb. intros H. apply andb_true_iff in H as [H Hr].
  apply andb_true_iff in H as [Hne Hp]. apply proseb_spec in Hp as [Hp Hn].
  apply str_eqb_eq in Hr. apply negb_true_iff in Hne.
  repeat split; auto. intros ->. discriminate Hne.
Qed.

Lemma plain_head (h : N) (t : str) :
  forallb plainb (h :: t) = true -> h <> 96 /\ h <> 37.
Proof.
  cbn [forallb]. intros H. apply andb_true_iff in H as [H _].
  unfold plainb in H. apply andb_true_iff in H as [H _]. apply negb_true_iff in H.
  split; intros ->; discriminate H.
Qed.

(** Each simple line through [_convert_line], outside a code block. *)
Lemma _convert_line_simple (env : PyEnv) (l : simple_line) (self : SlackMarkdownConverter) :
  simple_ok l = true -> in_code_block self = false ->
  _convert_line env (source_of l) self = (inr (rendered_of l), self).
Proof.
  intros Hok Hout. destruct l as [level title|indent item|words]; cbn [simple_ok] in Hok.
  - apply andb_true_iff in Hok as [Hok Ht]. apply andb_true_iff in Hok as [H1 H6].
    apply Nat.leb_le in H1, H6. apply titleb_spec in Ht as (Hne & Hp & Hn & Hr).
    cbn [source_of rendered_of].
    assert (Hs : exists rest, heading_line level title = 35 :: rest).
    { destruct level; [lia|]. now eexists. }
    destruct Hs as [rest Hs].
    rewrite (item_line_plain env _ 35 rest self Hs); [|discriminate..|exact Hout].
    rewrite (rewrite_rules_heading env level title (conj H1 H6) Hne Hn Hp).
    do 2 f_equal.
    replace ([42] ++ title ++ [42]) with (([42] ++ title) ++ [42])
      by now rewrite <- app_assoc.
    unfold rstrip. rewrite (rstrip_by_last isspace _ 42 eq_refl).
    now rewrite <- app_assoc.
  - apply andb_true_iff in Hok as [Hok Ht]. apply andb_true_iff in Hok as [Hi Hin].
    apply negb_true_iff, no_newline_existsb in Hin.
    apply titleb_spec in Ht as (Hne & Hp & Hn & Hr).
    cbn [source_of rendered_of]. apply _convert_line_item; auto.
    intros H. apply in_app_or in H as [H|H]; contradiction.
  - apply proseb_spec in Hok as [Hp Hn]. cbn [source_of rendered_of].
    destruct words as [|h t].
    + rewrite (_convert_line_plain env [] self eq_refl), Hout. reflexivity.
    + destruct (plain_head h t Hp) as [H96 H37].
      rewrite (item_line_plain env _ h t self eq_refl H96 H37 Hout).
      now rewrite (rewrite_rules_no_markdown env _ (plain_line_no_markdown env _ Hp)).
Qed.

Lemma mapM_simple (env : PyEnv) (doc : list simple_line) (self : SlackMarkdownConverter) :
  forallb simple_ok doc = true -> in_code_block self = false ->
  mapM (_convert_line env) (map source_of doc) self = (inr (map rendered_of doc), self).
Proof.
  intros Hok Hout. induction doc as [|l doc IH]; [reflexivity|].
  cbn [forallb] in Hok. apply andb_true_iff in Hok as [Hl Hok].
  cbn [map]. rewrite mapM_cons, (_convert_line_simple env l self Hl Hout).
  now rewrite (IH Hok).
Qed.

Lemma space_not_surrogate (c : N) : isspace c = true -> is_surrogate c = false.
Proof.
  intros H. unfold is_surrogate. apply andb_false_iff. left. apply N.leb_gt.
  unfold isspace in H.
  repeat (apply orb_true_iff in H as [H|H]);
    try (apply andb_true_iff in H as [_ H]; apply N.leb_le in H; lia);
    try (apply N.eqb_eq in H; lia).
Qed.

Lemma plain_chars (t : str) (c : N) :
  forallb plainb t = true -> In c t -> is_marker c = false /\ is_surrogate c = false.
Proof.
  intros Ht Hc. rewrite forallb_forall in Ht. specialize (Ht c Hc).
  unfold plainb in Ht. apply andb_true_iff in Ht as [H1 H2].
  split; now apply negb_true_iff.
Qed.

(** The characters of a simple line and of what it is converted to:
    no bar and no newline in the line, nothing UTF-8 refuses in the
    result. *)
Lemma simple_line_chars (l : simple_line) :
  simple_ok l = true ->
  ~ In bar (source_of l) /\ ~ In NL (source_of l) /\
  Forall (fun c => is_surrogate c = false) (rendered_of l).
Proof.
  intros Hok. destruct l as [level title|indent item|words]; cbn [simple_ok] in Hok;
    cbn [source_of rendered_of].
  - apply andb_true_iff in Hok as [_ Ht]. apply titleb_spec in Ht as (_ & Hp & Hn & _).
    repeat split.
    + unfold heading_line. intros H. apply in_app_or in H as [H|H].
      * apply repeat_spec in H. discriminate H.
      * destruct H as [H|H]; [discriminate H|].
        now destruct (plain_chars title bar Hp H) as [Hm _].
    + unfold heading_line. intros H. apply in_app_or in H as [H|H].
      * apply repeat_spec in H. discriminate H.
      * destruct H as [H|H]; [discriminate H|contradiction].
    + apply Forall_app. split; [now repeat constructor|].
      apply Forall_app. split; [|now repeat constructor].
      apply Forall_forall. intros c Hc. now apply (plain_chars title c Hp).
  - apply andb_true_iff in Hok as [Hok Ht]. apply andb_true_iff in Hok as [Hi Hin].
    apply negb_true_iff, no_newline_existsb in Hin.
    apply titleb_spec in Ht as (_ & Hp & Hn & _).
    rewrite forallb_forall in Hi. repeat split.
    + intros H. apply in_app_or in H as [H|H]; [specialize (Hi _ H); discriminate Hi|].
      destruct H as [H|[H|H]]; [discriminate H..|].
      now destruct (plain_chars item bar Hp H) as [Hm _].
    + intros H. apply in_app_or in H as [H|H]; [contradiction|].
      destruct H as [H|[H|H]]; [discriminate H..|contradiction].
    + apply Forall_app. split.
      * apply Forall_forall. intros c Hc. now apply space_not_surrogate, Hi.
      * apply Forall_app. split; [now repeat constructor|].
        apply Forall_forall. intros c Hc. now apply (plain_chars item c Hp).
  - apply proseb_spec in Hok as [Hp Hn]. repeat split; [|exact Hn|].
    + intros H. now destruct (plain_chars words bar Hp H) as [Hm _].
    + apply Forall_rstrip_by, Forall_forall. intros c Hc.
      now apply (plain_chars words c Hp).
Qed.

(** X13. A document of headings, bulleted items and lines of text
    without markers is converted line by line: every heading to its
    title between asterisks, every item to a bullet and its text with
    the indentation kept, every other line to itself without trailing
    whitespace, the lines in their order and one for one. *)
Theorem convert_simple_document (env : PyEnv) (self : SlackMarkdownConverter)
    (doc : list simple_line) :
  in_code_block self = false ->
  encoding self = Utf8 ->
  doc <> [] ->
  forallb simple_ok doc = true ->
  strip (join [NL] (map source_of doc)) = join [NL] (map source_of doc) ->
  returned (convert env (join [NL] (map source_of doc)) self)
  = inr (join [NL] (map rendered_of doc)).
Proof.
  intros Hout Henc Hne Hok Hstrip.
  assert (Hall : Forall (fun l => simple_ok l = true) doc)
    by (apply Forall_forall; now apply forallb_forall).
  assert (Hnl : Forall (fun l => ~ In NL l) (map source_of doc)).
  { apply Forall_map. eapply Forall_impl; [|exact Hall].
    intros l Hl. now apply simple_line_chars. }
  assert (Hlines : map source_of doc <> []) by now destruct doc.
  destruct (join [NL] (map source_of doc)) as [|c s] eqn:Hs.
  { (* the empty document: one empty line of text *)
    destruct doc as [|l [|l' doc]]; [now elim Hne| |].
    - cbn [map join] in *. destruct l as [level title|indent item|words];
        cbn [source_of rendered_of forallb simple_ok] in *.
      + apply andb_true_iff in Hok as [Hok _]. apply andb_true_iff in Hok as [Hok _].
        apply andb_true_iff in Hok as [H1 _]. apply Nat.leb_le in H1.
        destruct level; [lia|discriminate Hs].
      + apply app_eq_nil in Hs as [_ Hs]. discriminate Hs.
      + now subst words.
    - cbn [map] in Hs. rewrite join_cons in Hs.
      apply app_eq_nil in Hs as [_ Hs]. discriminate Hs. }
  assert (Htab : search env table_pattern (c :: s) = false).
  { apply (search_needs env (N.eqb bar)).
    rewrite count_in_zero; [cbn; lia|]. rewrite <- Hs.
    apply Forall_join; [now repeat constructor|]. apply Forall_map.
    eapply Forall_impl; [|exact Hall].
    intros l Hl. apply Forall_forall. intros x Hx.
    destruct (N.eqb_spec bar x) as [<-|]; [|reflexivity].
    now destruct (simple_line_chars l Hl) as [Hb _]. }
  assert (Ht : (set_table_replacements [] ;;; _convert_tables env (strip (c :: s))) self
               = (inr (c :: s),
                  {| encoding := encoding self; in_code_block := in_code_block self;
                     table_replacements := [] |})).
  { unfold bind, set_table_replacements. rewrite Hstrip.
    now rewrite _convert_tables_no_match. }
  rewrite (convert_after_tables env c s _ _ _ Ht), <- Hs.
  rewrite (split_join NL _ Hlines Hnl).
  rewrite (mapM_simple env doc _ Hok
             (Hout : in_code_block {| in_code_block := _ |} = false)).
  cbn [table_replacements encoding replace_all]. rewrite Henc.
  unfold encode_decode.
  assert (Hsur : existsb is_surrogate (join [NL] (map rendered_of doc)) = false).
  { apply existsb_false_Forall. apply Forall_join; [now repeat constructor|].
    apply Forall_map. eapply Forall_impl; [|exact Hall].
    intros l Hl. now apply simple_line_chars. }
  now rewrite Hsur.
Qed.

Lemma convert_simple_document_witness :
  let doc := [HeadingLine 2 (lit "Shopping"); ProseLine (lit "for the weekend  ");
              BulletLine [] (lit "milk, 2 l"); BulletLine (lit "  ") (lit "oat milk");
              ProseLine []; HeadingLine 4 (lit "Later")] in
  returned (convert env0 (join [NL] (map source_of doc)) (__init__ Utf8))
  = inr (join [NL] (map rendered_of doc)).
Proof.
  intros doc. apply (convert_simple_document env0 (__init__ Utf8) doc);
    try reflexivity. discriminate.
Defined.

(* ------------------------------------------------------------------ *)
(** *** Blank lines after a table *)

(** The last line of a block before blank lines and a text: the
    greedy [\s*] runs over the newlines and gives the last one back. *)
Lemma greedy_bar_line_tail (env : PyEnv) (cs : cset) (K : cont) (g : str -> caps -> caps)
    (Q : str * caps -> Prop) (mid : str) (n : nat) (w : N) (r pre : str) (c : caps) :
  forallb (cmatch env cs) (mid ++ [bar]) = true ->
  cmatch env cs NL = false ->
  isspace w = false ->
  (exists res, K (repeat NL n ++ bar :: rev mid ++ pre) (NL :: w :: r)
                 (g (rev mid ++ pre) c) = Some res /\ Q res) ->
  exists res,
    rep_greedy env cs
      (fun p s c' =>
         run env (Chr (Lit bar))
           (fun p s c => rep_greedy env Space
                           (fun p s c => if eol true s then K p s c else None) p s c)
           p s (g p c'))
      pre (mid ++ bar :: repeat NL (S n) ++ w :: r) c = Some res /\ Q res.
Proof.
  intros Hall Hnl Hw HK.
  assert (Hwn : (w =? NL) = false).
  { destruct (N.eqb_spec w NL) as [->|]; [discriminate Hw|reflexivity]. }
  apply rep_greedy_last; [exact Hall|exact Hnl|reflexivity|].
  cbn [run cmatch]. rewrite N.eqb_refl.
  change (repeat NL (S n)) with (NL :: repeat NL n). rewrite repeat_cons.
  rewrite <- app_assoc. cbn [app].
  apply rep_greedy_last.
  - rewrite forallb_app. cbn [forallb cmatch]. rewrite andb_true_r.
    apply forallb_forall. intros x Hx. apply repeat_spec in Hx. now subst.
  - exact Hw.
  - cbn [eol]. now rewrite Hwn.
  - cbn [eol]. rewrite N.eqb_refl. cbn [andb orb]. now rewrite rev_repeat.
Qed.

(** The repeated group stops before a line that does not start with a
    bar. *)
Lemma star_stops (env : PyEnv) (k : cont) (fuel : nat) (pre : str) (w : N) (r : str)
    (c : caps) :
  w <> bar ->
  star_loop (run env row_pattern) k fuel pre (NL :: w :: r) c = k pre (NL :: w :: r) c.
Proof.
  intros Hw. destruct fuel; [reflexivity|]. cbn [star_loop].
  assert (Hb : run env row_pattern
                 (fun p s c' =>
                    if Nat.ltb (length s) (length (NL :: w :: r))
                    then star_loop (run env row_pattern) k fuel p s c' else None)
                 pre (NL :: w :: r) c = None).
  { unfold row_pattern.
    cbn [run seqs text lit list_ascii_of_string map plus cmatch bol andb].
    change (N_of_ascii "|") with bar. rewrite !N.eqb_refl. cbn [andb].
    destruct (N.eqb_spec w bar) as [->|]; [now elim Hw|reflexivity]. }
  now rewrite Hb.
Qed.

Lemma more_lines_app (a b : list str) : more_lines (a ++ b) = more_lines a ++ more_lines b.
Proof. unfold more_lines. apply flat_map_app. Qed.

(** The data rows of a table before blank lines and a text. *)
Lemma star_rows_tail (env : PyEnv) (rows : list str) (last_row : str)
    (n : nat) (w : N) (r : str) :
  Forall (bar_line env Dot) rows -> bar_line env Dot last_row ->
  isspace w = false -> w <> bar ->
  forall fuel pre c,
    (length (more_lines (rows ++ [last_row]) ++ repeat NL (S n) ++ w :: r) <= fuel)%nat ->
    exists res,
      star_loop (run env row_pattern) (fun p _ c' => Some (consumed [] p, c'))
        fuel pre (more_lines (rows ++ [last_row]) ++ repeat NL (S n) ++ w :: r) c
      = Some res /\
      fst res = rev pre ++ more_lines (rows ++ [last_row]) ++ repeat NL n.
Proof.
  intros Hrows Hlast Hw Hwb.
  induction Hrows as [|l rows Hl Hrows IH]; intros fuel pre c Hfuel.
  - destruct Hlast as (m0 & mid & -> & Hall).
    cbn [forallb] in Hall. apply andb_true_iff in Hall as [Hm0 Hall].
    cbn [app more_lines flat_map] in *. rewrite !app_nil_r in *.
    rewrite <- !app_assoc in *. cbn [app] in *.
    destruct fuel as [|fuel]; [cbn [length] in Hfuel; lia|].
    cbn [star_loop].
    set (suf := NL :: bar :: m0 :: mid ++ bar :: repeat NL (S n) ++ w :: r) in *.
    set (k' := fun (p s : str) (c' : caps) =>
                 if Nat.ltb (length s) (length suf)
                 then star_loop (run env row_pattern)
                        (fun p0 _ c'0 => Some (consumed [] p0, c'0)) fuel p s c'
                 else None).
    assert (Hbody : exists res,
               run env row_pattern k' pre suf c = Some res /\
               fst res = rev pre ++ NL :: bar :: m0 :: mid ++ bar :: repeat NL n).
    { unfold row_pattern, suf.
      cbn [run seqs text lit list_ascii_of_string map plus cmatch bol andb].
      change (N_of_ascii "|") with bar.
      rewrite !N.eqb_refl. cbn [andb]. cbn [cmatch] in Hm0. rewrite Hm0.
      apply (greedy_bar_line_tail env Dot
               (fun p s c' => k' p s ((2%nat, consumed pre p) :: c'))
               (fun _ c' => c')); [exact Hall|reflexivity|exact Hw|].
      unfold k'.
      assert (Hlt : Nat.ltb (length (NL :: w :: r)) (length suf) = true).
      { apply Nat.ltb_lt. unfold suf. cbn [length]. rewrite length_app. cbn [length].
        rewrite length_app. cbn [length repeat]. lia. }
      rewrite Hlt, star_stops by exact Hwb.
      eexists. split; [reflexivity|]. cbn [fst].
      rewrite consumed_nil, rev_app_distr, rev_repeat. cbn [rev].
      rewrite !rev_app_distr, rev_involutive. cbn [rev app].
      now rewrite <- !app_assoc. }
    destruct Hbody as (res & -> & Hfst). now exists res.
  - assert (Hshape : exists y r',
              more_lines (rows ++ [last_row]) ++ repeat NL (S n) ++ w :: r = NL :: y :: r'
              /\ isspace y = false).
    { destruct rows as [|l' rows].
      - destruct Hlast as (m0 & mid & -> & _). cbn [app more_lines flat_map].
        now eexists _, _.
      - inversion Hrows as [|? ? (m0 & mid & -> & _) _]; subst.
        cbn [app more_lines flat_map]. now eexists _, _. }
    destruct Hl as (m0 & mid & -> & Hall).
    cbn [forallb] in Hall. apply andb_true_iff in Hall as [Hm0 Hall].
    set (rest := more_lines (rows ++ [last_row]) ++ repeat NL (S n) ++ w :: r) in *.
    change (more_lines (((bar :: m0 :: mid ++ [bar]) :: rows) ++ [last_row])
            ++ repeat NL (S n) ++ w :: r)
      with ((NL :: bar :: m0 :: (mid ++ [bar]) ++ more_lines (rows ++ [last_row]))
            ++ repeat NL (S n) ++ w :: r) in *.
    change (more_lines (((bar :: m0 :: mid ++ [bar]) :: rows) ++ [last_row]))
      with (NL :: bar :: m0 :: (mid ++ [bar]) ++ more_lines (rows ++ [last_row])).
    cbn [app] in *. rewrite <- !app_assoc in *. cbn [app] in *. fold rest in Hfuel |- *.
    destruct fuel as [|fuel]; [cbn [length] in Hfuel; lia|].
    cbn [star_loop].
    set (suf := NL :: bar :: m0 :: mid ++ bar :: rest) in *.
    set (k' := fun (p s : str) (c' : caps) =>
                 if Nat.ltb (length s) (length suf)
                 then star_loop (run env row_pattern)
                        (fun p0 _ c'0 => Some (consumed [] p0, c'0)) fuel p s c'
                 else None).
    assert (Hbody : exists res,
               run env row_pattern k' pre suf c = Some res /\
               fst res = rev pre ++ NL :: bar :: m0 :: mid ++ bar
                         :: more_lines (rows ++ [last_row]) ++ repeat NL n).
    { unfold row_pattern, suf.
      cbn [run seqs text lit list_ascii_of_string map plus cmatch bol andb].
      change (N_of_ascii "|") with bar.
      rewrite !N.eqb_refl. cbn [andb]. cbn [cmatch] in Hm0. rewrite Hm0.
      apply (greedy_bar_line env Dot
               (fun p s c' => k' p s ((2%nat, consumed pre p) :: c'))
               (fun _ c' => c')); [exact Hall|reflexivity|now right|].
      unfold k'.
      assert (Hlt : Nat.ltb (length rest) (length suf) = true).
      { apply Nat.ltb_lt. unfold suf. cbn [length]. rewrite length_app. cbn [length]. lia. }
      rewrite Hlt.
      destruct (IH fuel (bar :: rev mid ++ [m0; bar; NL] ++ pre)
                  ((2%nat, consumed pre (bar :: rev mid ++ [m0; bar; NL] ++ pre)) :: c))
        as (res & Hres & Hfst).
      { unfold suf in Hfuel. cbn [length] in Hfuel. rewrite length_app in Hfuel.
        cbn [length] in Hfuel. lia. }
      exists res. split; [exact Hres|]. rewrite Hfst.
      cbn [rev app]. rewrite !rev_app_distr, rev_involutive. cbn [rev app].
      now rewrite <- !app_assoc. }
    destruct Hbody as (res & -> & Hfst). now exists res.
Qed.

Lemma match_at_table_tail (env : PyEnv) (header separator : str) (rows : list str)
    (last_row : str) (n : nat) (w : N) (r : str) :
  bar_line env Dot header ->
  bar_line env (OneOf (lit "-:| ")) separator ->
  Forall (bar_line env Dot) rows -> bar_line env Dot last_row ->
  isspace w = false -> w <> bar ->
  exists c,
    match_at env table_pattern false []
      (join [NL] (header :: separator :: rows ++ [last_row]) ++ repeat NL (S n) ++ w :: r)
    = Some (join [NL] (header :: separator :: rows ++ [last_row]) ++ repeat NL n, c).
Proof.
  intros (h0 & hmid & -> & Hh) (s0 & smid & -> & Hs) Hrows Hlast Hw Hwb.
  cbn [forallb] in Hh, Hs.
  apply andb_true_iff in Hh as [Hh0 Hh]. apply andb_true_iff in Hs as [Hs0 Hs].
  rewrite !join_more_lines.
  set (rest := more_lines (rows ++ [last_row])).
  change (more_lines ((bar :: s0 :: smid ++ [bar]) :: rows ++ [last_row]))
    with (NL :: bar :: s0 :: (smid ++ [bar]) ++ rest).
  cbn [app]. rewrite <- !app_assoc. cbn [app]. rewrite <- !app_assoc. cbn [app].
  assert (Hshape : exists y r', rest ++ repeat NL (S n) ++ w :: r = NL :: y :: r'
                                /\ isspace y = false).
  { unfold rest. destruct rows as [|l' rows].
    - destruct Hlast as (m0 & mid & -> & _). cbn [app more_lines flat_map].
      now eexists _, _.
    - inversion Hrows as [|? ? (m0 & mid & -> & _) _]; subst.
      cbn [app more_lines flat_map]. now eexists _, _. }
  set (T := bar :: h0 :: hmid ++ bar :: NL :: bar :: s0 :: smid ++ bar
            :: rest ++ repeat NL (S n) ++ w :: r).
  assert (H : exists res,
             run env table_pattern (fun p _ c => Some (consumed [] p, c)) [] T []
             = Some res /\
             fst res = bar :: h0 :: hmid ++ bar :: NL :: bar :: s0 :: smid ++ bar
                       :: rest ++ repeat NL n).
  { rewrite table_pattern_rows. unfold T.
    cbn [run bol cmatch]. rewrite N.eqb_refl.
    cbn [cmatch] in Hh0. rewrite Hh0.
    refine (greedy_bar_line env Dot _ (fun p c' => (1%nat, consumed [bar] p) :: c')
              _ hmid _ _ _ Hh eq_refl _ _).
    { right. now eexists _, _. }
    cbn [eol run cmatch bol andb]. rewrite !N.eqb_refl. cbn [andb].
    cbn [cmatch] in Hs0. rewrite Hs0.
    refine (greedy_bar_line env (OneOf (lit "-:| ")) _ (fun _ c' => c')
              _ smid _ _ _ Hs eq_refl (or_intror Hshape) _).
    cbn [run].
    destruct (star_rows_tail env rows last_row n w r Hrows Hlast Hw Hwb
                (length (rest ++ repeat NL (S n) ++ w :: r))
                (bar :: rev smid ++ s0 :: bar :: NL :: bar :: rev hmid ++ [h0; bar])
                [(1%nat, consumed [bar] (rev hmid ++ [h0; bar]))] (Nat.le_refl _))
      as (res & Hres & Hfst).
    exists res. split; [exact Hres|]. rewrite Hfst.
    cbn [rev app]. rewrite !rev_app_distr. cbn [rev app].
    rewrite !rev_app_distr, !rev_involutive. cbn [rev app].
    now rewrite <- !app_assoc. }
  destruct H as ([t c] & Hrun & Hfst). cbn [fst] in Hfst. subst t.
  exists c. unfold match_at. exact Hrun.
Qed.

Lemma rstrip_by_all (p : N -> bool) (s : str) : forallb p s = true -> rstrip_by p s = [].
Proof.
  induction s as [|x s IH]; [reflexivity|]. cbn [forallb rstrip_by].
  intros H. apply andb_true_iff in H as [Hx Hs]. now rewrite (IH Hs), Hx.
Qed.

(** A line of text without markers that ends in no blank comes out of
    [_convert_line] as it is, inside a code block or outside. *)
Lemma _convert_line_prose (env : PyEnv) (words : str) (self : SlackMarkdownConverter) :
  proseb words = true -> rstrip words = words ->
  _convert_line env words self = (inr words, self).
Proof.
  intros Hp Hr. apply proseb_spec in Hp as [Hp _].
  assert (Hf : fence_tag env words = None).
  { destruct words as [|h t]; [reflexivity|].
    destruct (plain_head h t Hp) as [H96 _]. unfold fence_tag.
    change backticks with (96 :: lit "``").
    now rewrite (startswith_head_false h 96 t (lit "``") H96). }
  rewrite (_convert_line_plain env words self Hf).
  destruct (_ && _); [reflexivity|]. destruct (in_code_block self); [reflexivity|].
  now rewrite (rewrite_rules_no_markdown env _ (plain_line_no_markdown env _ Hp)), Hr.
Qed.

Lemma mapM_table_chars (env : PyEnv) (s : str) (self : SlackMarkdownConverter) :
  mapM (table_callback env) (map inl s) self = (inr (map (fun x => [x]) s), self).
Proof.
  induction s as [|x s IH]; [reflexivity|].
  cbn [map]. rewrite mapM_cons. cbn [table_callback ret]. now rewrite IH.
Qed.

Lemma concat_singletons (s : str) : concat (map (fun x => [x]) s) = s.
Proof. induction s as [|x s IH]; cbn; [reflexivity|now rewrite IH]. Qed.

(** X14. Blank lines after a table are not kept: when a table with
    data rows is followed by one newline or more and then a line of
    text, the table block that is replaced runs up to the last of
    these newlines, and the text comes out on the line right after the
    rendered table, however many blank lines were between them. *)
Theorem convert_table_then_text (env : PyEnv) (headers : list str) (inner : str)
    (rows : list (list str)) (last_row : list str) (n : nat) (words : str) (d : dict) :
  headers <> [] ->
  forallb cellb headers = true ->
  inner <> [] ->
  forallb (fun x => existsb (N.eqb x) (lit "-:| ")) inner = true ->
  forallb (fun r => negb (Nat.eqb (length r) 0) && forallb cellb r)
          (rows ++ [last_row]) = true ->
  words <> [] ->
  proseb words = true ->
  strip words = words ->
  returned (convert env
              (table_text headers inner (rows ++ [last_row])
               ++ repeat NL (S n) ++ words)
              {| encoding := Utf8; in_code_block := false; table_replacements := d |})
  = inr (table_rendered headers (rows ++ [last_row]) ++ [NL] ++ words).
Proof.
  intros Hh Hhc Hi Hic Hr Hwne Hprose Hws.
  destruct (strip_by_shape isspace words) as [Hwr Hwh].
  fold (strip words) in Hwr, Hwh. rewrite Hws in Hwr, Hwh. fold (rstrip words) in Hwr.
  destruct words as [|w r]; [now elim Hwne|].
  destruct (proseb_spec _ Hprose) as [Hp Hnl].
  assert (Hwb : w <> bar).
  { intros ->. destruct (plain_chars (bar :: r) bar Hp) as [Hm _]; [now left|].
    discriminate Hm. }
  set (T := table_text headers inner (rows ++ [last_row])).
  (* the match *)
  destruct (match_at_table_tail env (table_row headers) (separator_line inner)
              (map table_row rows) (table_row last_row) n w r) as [c Hm].
  { now apply table_row_bar_line. }
  { now apply separator_bar_line. }
  { apply Forall_map, Forall_forall. intros x Hx.
    apply table_row_bar_line;
      apply (table_rows_ok (rows ++ [last_row]) Hr x); apply in_or_app; now left. }
  { apply table_row_bar_line;
      apply (table_rows_ok (rows ++ [last_row]) Hr last_row); apply in_or_app;
      right; now left. }
  { exact Hwh. }
  { exact Hwb. }
  change (map table_row rows ++ [table_row last_row])
    with (map table_row rows ++ map table_row [last_row]) in Hm.
  rewrite <- map_app in Hm. fold (table_text headers inner (rows ++ [last_row])) in Hm.
  fold T in Hm.
  assert (HT : exists t, T = bar :: t)
    by (unfold T, table_text; rewrite join_cons; now eexists).
  destruct HT as [t HT].
  assert (Hsplit : T ++ repeat NL (S n) ++ w :: r = (T ++ repeat NL n) ++ NL :: w :: r).
  { change (repeat NL (S n)) with (NL :: repeat NL n).
    rewrite repeat_cons, <- !app_assoc. reflexivity. }
  assert (Hstrip : strip (T ++ repeat NL (S n) ++ w :: r) = T ++ repeat NL (S n) ++ w :: r).
  { unfold strip, strip_by. rewrite HT. cbn [app lstrip_by].
    change (isspace bar) with false. cbv iota.
    change (bar :: t ++ repeat NL (S n) ++ w :: r)
      with ((bar :: t) ++ repeat NL (S n) ++ w :: r).
    assert (Hwr' : rstrip_by isspace (w :: r) = w :: r) by exact Hwr.
    rewrite app_assoc. rewrite rstrip_by_app_keep; rewrite Hwr'; [|discriminate].
    now rewrite <- app_assoc. }
  assert (Hcount : (count_in (N.eqb bar) (NL :: w :: r) < min_in (N.eqb bar) table_pattern)%nat).
  { change (NL :: w :: r) with ([NL] ++ w :: r). rewrite count_in_app.
    rewrite (plain_count_marker bar (w :: r)); [cbn; lia| |exact Hp].
    vm_compute. tauto. }
  assert (Hpieces : pieces env table_pattern 0 [] (T ++ repeat NL (S n) ++ w :: r)
                    = inr (T ++ repeat NL n, c) :: map inl (NL :: w :: r)).
  { rewrite Hsplit in *. rewrite HT in *. cbn [app] in Hm |- *.
    change (bar :: (t ++ repeat NL n) ++ NL :: w :: r)
      with ((bar :: t ++ repeat NL n) ++ NL :: w :: r) in Hm |- *.
    rewrite (pieces_match env table_pattern [] bar (t ++ repeat NL n) c _ Hm).
    f_equal. apply pieces_no_match. now apply (search_from_needs env (N.eqb bar)). }
  assert (HstripT : strip (T ++ repeat NL n) = T).
  { unfold strip, strip_by. rewrite HT. cbn [app lstrip_by].
    change (isspace bar) with false. cbv iota.
    change (bar :: t ++ repeat NL n) with ((bar :: t) ++ repeat NL n).
    rewrite rstrip_by_app_drop.
    - rewrite <- HT. pose proof (table_text_strip headers inner (rows ++ [last_row])) as Hs.
      fold T in Hs. unfold strip, strip_by in Hs. rewrite HT in Hs |- *.
      cbn [lstrip_by] in Hs. change (isspace bar) with false in Hs. exact Hs.
    - apply rstrip_by_all, forallb_forall. intros x Hx.
      apply repeat_spec in Hx. now subst. }
  set (p := placeholder_of env (T ++ repeat NL n)).
  set (rendered := table_rendered headers (rows ++ [last_row])).
  assert (Hstage :
    (set_table_replacements [] ;;;
     _convert_tables env (strip (bar :: t ++ repeat NL (S n) ++ w :: r)))
      {| encoding := Utf8; in_code_block := false; table_replacements := d |}
    = (inr (p ++ NL :: w :: r),
       {| encoding := Utf8; in_code_block := false;
          table_replacements := [(p, rendered)] |})).
  { change (bar :: t ++ repeat NL (S n) ++ w :: r)
      with ((bar :: t) ++ repeat NL (S n) ++ w :: r).
    rewrite <- HT, Hstrip.
    unfold bind at 1. unfold set_table_replacements.
    cbn [encoding in_code_block]. unfold _convert_tables. rewrite Hpieces.
    unfold bind at 1.
    match goal with
    | |- context [@mapM ?A ?B ?f ?l ?st] =>
        change (@mapM A B f l st) with (mapM (table_callback env) l st)
    end.
    rewrite mapM_cons. cbn [table_callback].
    rewrite (convert_table_text env headers inner (rows ++ [last_row]) Hh Hhc Hic Hr
               _ c _ HstripT).
    rewrite mapM_table_chars. unfold ret.
    cbn [concat encoding in_code_block table_replacements dict_set].
    now rewrite concat_singletons. }
  rewrite HT. cbn [app].
  rewrite (convert_after_tables env bar _ _ _ _ Hstage).
  rewrite (split_app_sep NL p (w :: r) (placeholder_no_newline env _)).
  rewrite (split_no_sep NL (w :: r) Hnl).
  rewrite !mapM_cons. unfold p at 1. rewrite _convert_line_placeholder.
  rewrite mapM_cons, (_convert_line_prose env (w :: r) _ Hprose Hwr).
  cbn [mapM ret join table_replacements encoding replace_all].
  fold p. change (p ++ [NL] ++ w :: r) with ([] ++ p ++ NL :: w :: r).
  unfold p at 1 2. rewrite replace_placeholder_between.
  - unfold encode_decode. cbn [app].
    assert (Hsur : existsb is_surrogate (rendered ++ NL :: w :: r) = false).
    { rewrite existsb_app. unfold rendered.
      rewrite (table_rendered_encodable headers (rows ++ [last_row]) Hhc Hr).
      cbn [existsb orb]. change (is_surrogate NL) with false. cbn [orb].
      apply (plain_no_surrogate _ Hp). }
    now rewrite Hsur.
  - intros [].
  - intros [H|H]; [discriminate H|].
    destruct (plain_chars (w :: r) 37 Hp H) as [Hmk _]. discriminate Hmk.
Qed.

Lemma convert_table_then_text_witness :
  returned (convert env0
              (table_text [lit "A"; lit "B"] (lit "---|---") ([] ++ [[lit "1"; lit "2"]])
               ++ repeat NL 3 ++ lit "After the table")
              {| encoding := Utf8; in_code_block := false; table_replacements := [] |})
  = inr (table_rendered [lit "A"; lit "B"] ([] ++ [[lit "1"; lit "2"]])
         ++ [NL] ++ lit "After the table").
Proof. apply convert_table_then_text; try reflexivity; discriminate. Defined.

(* ------------------------------------------------------------------ *)
(** *** Bold text inside a line *)

(** A scan passes over characters at which the pattern cannot start. *)
Section SkipChars.
Variable env : PyEnv.
Variable r : regex.
Variable ok : N -> bool.
Hypothesis Hstart : forall adv pre y s, ok y = false -> match_at env r adv pre (y :: s) = None.

Lemma search_from_chars (a rest : str) :
  forallb (fun y => negb (ok y)) a = true ->
  forall pre, search_from env r pre (a ++ rest) = search_from env r (rev a ++ pre) rest.
Proof.
  induction a as [|y a IH]; intros Ha pre; [reflexivity|].
  cbn [forallb] in Ha. apply andb_true_iff in Ha as [Hy Ha]. apply negb_true_iff in Hy.
  cbn [app search_from]. rewrite (Hstart false pre y _ Hy), (IH Ha).
  cbn [rev]. now rewrite <- app_assoc.
Qed.

Lemma pieces_chars_skip (a rest : str) :
  forallb (fun y => negb (ok y)) a = true ->
  forall pre, pieces env r 0 pre (a ++ rest) = map inl a ++ pieces env r 0 (rev a ++ pre) rest.
Proof.
  induction a as [|y a IH]; intros Ha pre; [reflexivity|].
  cbn [forallb] in Ha. apply andb_true_iff in Ha as [Hy Ha]. apply negb_true_iff in Hy.
  cbn [app pieces map]. rewrite (Hstart false pre y _ Hy), (IH Ha).
  cbn [rev]. now rewrite <- app_assoc.
Qed.
End SkipChars.

(** A lazy repetition passes over characters in front of which its
    continuation fails. *)
Lemma rep_lazy_skip (env : PyEnv) (cs : cset) (k : cont) (a rest : str) :
  forallb (cmatch env cs) a = true ->
  (forall p y s c, In y a -> k p (y :: s) c = None) ->
  forall pre c, rep_lazy env cs k pre (a ++ rest) c = rep_lazy env cs k (rev a ++ pre) rest c.
Proof.
  induction a as [|y a IH]; intros Hall Hk pre c; [reflexivity|].
  cbn [forallb] in Hall. apply andb_true_iff in Hall as [Hy Hall].
  cbn [app]. 
  replace (rep_lazy env cs k pre (y :: a ++ rest) c)
    with (rep_lazy env cs k (y :: pre) (a ++ rest) c).
  - rewrite IH; [|exact Hall|intros; apply Hk; now right].
    cbn [rev]. now rewrite <- app_assoc.
  - destruct (a ++ rest) eqn:E; cbn [rep_lazy]; rewrite (Hk pre y _ c (or_introl eq_refl)), Hy;
      reflexivity.
Qed.

Lemma rules_italic_bold :
  italic_rule =
    (seqs [NotBehind (Lit star_ch); text "*"; Grp 1 (plus false (NoneOf [star_ch; NL]));
           text "*"; NotAhead (Lit star_ch)],
     [TLit (lit "_"); TGrp 1; TLit (lit "_")]) /\
  bold_rule =
    (seqs [NotBehind (Lit star_ch); text "**"; Grp 1 (plus false Dot); text "**";
           NotAhead (Lit star_ch)],
     [TLit (lit "*"); TGrp 1; TLit (lit "*")]).
Proof. split; reflexivity. Qed.

(** Neither rule starts at a character that is not an asterisk. *)
Lemma star_rules_start (env : PyEnv) (adv : bool) (pre : str) (y : N) (s : str) :
  (y =? star_ch) = false ->
  match_at env (fst italic_rule) adv pre (y :: s) = None /\
  match_at env (fst bold_rule) adv pre (y :: s) = None.
Proof.
  intros Hy. destruct rules_italic_bold as [-> ->]. unfold match_at. cbn [fst].
  cbn [seqs text lit list_ascii_of_string map run plus cmatch].
  change (N_of_ascii "*") with star_ch. rewrite Hy.
  split; destruct pre as [|x pre]; try reflexivity; now destruct (x =? star_ch).
Qed.

Lemma star_rules_end (env : PyEnv) (adv : bool) (pre : str) :
  match_at env (fst italic_rule) adv pre [] = None /\
  match_at env (fst bold_rule) adv pre [] = None.
Proof.
  destruct rules_italic_bold as [-> ->]. unfold match_at. cbn [fst].
  cbn [seqs text lit list_ascii_of_string map run plus cmatch].
  split; destruct pre as [|x pre]; try reflexivity; now destruct (x =? star_ch).
Qed.

(** The rule for italic text does not start after an asterisk, nor at
    two asterisks in a row. *)
Lemma italic_not_at_pair (env : PyEnv) (adv : bool) (pre s : str) :
  match_at env (fst italic_rule) adv (star_ch :: pre) s = None /\
  match_at env (fst italic_rule) adv pre (star_ch :: star_ch :: s) = None.
Proof.
  destruct rules_italic_bold as [-> _]. unfold match_at. cbn [fst].
  cbn [seqs text lit list_ascii_of_string map run plus cmatch].
  change (N_of_ascii "*") with star_ch.
  split; [reflexivity|].
  destruct pre as [|x pre]; [reflexivity|]. destruct (x =? star_ch); reflexivity.
Qed.

Lemma search_italic_bold_line (env : PyEnv) (a x b : str) :
  forallb (fun y => negb (y =? star_ch)) (a ++ x ++ b) = true ->
  search env (fst italic_rule) (a ++ lit "**" ++ x ++ lit "**" ++ b) = false.
Proof.
  intros H. rewrite !forallb_app in H.
  apply andb_true_iff in H as [Ha H]. apply andb_true_iff in H as [Hx Hb].
  assert (Hstart : forall adv pre y s, (y =? star_ch) = false ->
                     match_at env (fst italic_rule) adv pre (y :: s) = None).
  { intros. now apply star_rules_start. }
  unfold search.
  rewrite (search_from_chars env _ (fun y => y =? star_ch) Hstart a _ Ha).
  change (lit "**" ++ x ++ lit "**" ++ b) with (star_ch :: star_ch :: x ++ lit "**" ++ b).
  cbn [search_from].
  rewrite (proj2 (italic_not_at_pair env false _ _)).
  rewrite (proj1 (italic_not_at_pair env false _ _)).
  rewrite (search_from_chars env _ (fun y => y =? star_ch) Hstart x _ Hx).
  change (lit "**" ++ b) with (star_ch :: star_ch :: b).
  cbn [search_from].
  rewrite (proj2 (italic_not_at_pair env false _ _)).
  rewrite (proj1 (italic_not_at_pair env false _ _)).
  rewrite <- (app_nil_r b).
  rewrite (search_from_chars env _ (fun y => y =? star_ch) Hstart b _ Hb).
  cbn [search_from]. now rewrite (proj1 (star_rules_end env false _)).
Qed.

Lemma head_not_star (l rest : str) :
  forallb (fun y => negb (y =? star_ch)) l = true ->
  match rest with y :: _ => (y =? star_ch) = false | [] => True end ->
  match l ++ rest with y :: _ => (y =? star_ch) = false | [] => True end.
Proof.
  destruct l as [|y l]; [auto|]. cbn [forallb app]. intros H _.
  apply andb_true_iff in H as [H _]. now apply negb_true_iff.
Qed.

Lemma consumed_bold (pre : str) (x0 : N) (x : str) :
  consumed pre (star_ch :: star_ch :: rev x ++ x0 :: star_ch :: star_ch :: pre)
  = star_ch :: star_ch :: x0 :: x ++ [star_ch; star_ch] /\
  consumed (star_ch :: star_ch :: pre) (rev x ++ x0 :: star_ch :: star_ch :: pre)
  = x0 :: x.
Proof.
  split.
  - replace (star_ch :: star_ch :: rev x ++ x0 :: star_ch :: star_ch :: pre)
      with (rev (star_ch :: star_ch :: x0 :: x ++ [star_ch; star_ch]) ++ pre).
    + apply consumed_app.
    + cbn [rev]. rewrite rev_app_distr. cbn [rev app]. now rewrite <- !app_assoc.
  - replace (rev x ++ x0 :: star_ch :: star_ch :: pre)
      with (rev (x0 :: x) ++ star_ch :: star_ch :: pre)
      by (cbn [rev]; now rewrite <- app_assoc).
    apply consumed_app.
Qed.

Lemma match_at_bold (env : PyEnv) (pre : str) (x0 : N) (x b : str) :
  match pre with y :: _ => (y =? star_ch) = false | [] => True end ->
  forallb (fun y => negb (y =? star_ch)) ((x0 :: x) ++ b) = true ->
  ~ In NL (x0 :: x) ->
  match_at env (fst bold_rule) false pre (lit "**" ++ (x0 :: x) ++ lit "**" ++ b)
  = Some (lit "**" ++ (x0 :: x) ++ lit "**", [(1%nat, x0 :: x)]).
Proof.
  intros Hpre Hsf Hnl. rewrite forallb_app in Hsf. apply andb_true_iff in Hsf as [Hx Hb].
  assert (Hdot : forallb (cmatch env Dot) (x0 :: x) = true) by now apply no_newline_dot.
  cbn [forallb] in Hdot, Hx.
  apply andb_true_iff in Hdot as [Hd0 Hdot]. apply andb_true_iff in Hx as [Hx0 Hx].
  destruct rules_italic_bold as [_ ->]. unfold match_at. cbn [fst].
  cbn [seqs text lit list_ascii_of_string map run plus].
  change (N_of_ascii "*") with star_ch.
  cbn [app cmatch].
  cbn [cmatch] in Hd0.
  assert (Hxs : forall y, In y x -> (y =? star_ch) = false).
  { intros y Hy. rewrite forallb_forall in Hx. specialize (Hx y Hy).
    now apply negb_true_iff. }
  assert (Hb0 : match b with y :: _ => (y =? star_ch) = false | [] => True end).
  { destruct b as [|y b]; [exact I|]. cbn [forallb] in Hb.
    apply andb_true_iff in Hb as [Hb _]. now apply negb_true_iff. }
  destruct pre as [|y pre]; [|cbn [cmatch] in *; rewrite Hpre];
    rewrite !N.eqb_refl, Hd0;
    (rewrite rep_lazy_skip; [|exact Hdot|intros p y' s c Hy; now rewrite (Hxs y' Hy)]);
    cbn [rep_lazy]; rewrite !N.eqb_refl;
    (destruct b as [|z b]; [|rewrite Hb0]); cbn [andb];
    match goal with
    | |- context [consumed ?PRE (star_ch :: star_ch :: rev x ++ _)] =>
        destruct (consumed_bold PRE x0 x) as [H1 H2];
        cbn [app] in H1, H2 |- *; now rewrite H1, H2
    end.
Qed.

Lemma sub_no_match (env : PyEnv) (r : regex) (t : list titem) (s : str) :
  search env r s = false -> sub env r t s = s.
Proof. apply sub_fn_no_match. Qed.

Lemma plain_starfree (t : str) :
  forallb plainb t = true -> forallb (fun y => negb (y =? star_ch)) t = true.
Proof.
  intros H. apply forallb_forall. intros y Hy.
  destruct (plain_chars t y H Hy) as [Hm _].
  apply negb_true_iff. destruct (N.eqb_spec y star_ch) as [->|]; [discriminate Hm|reflexivity].
Qed.

Lemma rev_head_not_star (a : str) :
  forallb (fun y => negb (y =? star_ch)) a = true ->
  match rev a ++ [] with y :: _ => (y =? star_ch) = false | [] => True end.
Proof.
  intros H. rewrite app_nil_r. destruct (rev a) as [|y l] eqn:E; [exact I|].
  rewrite forallb_forall in H. apply negb_true_iff, H, in_rev. rewrite E. now left.
Qed.

Lemma sub_bold (env : PyEnv) (a x b : str) :
  forallb (fun y => negb (y =? star_ch)) (a ++ x ++ b) = true ->
  x <> [] -> ~ In NL x ->
  sub env (fst bold_rule) (snd bold_rule) (a ++ lit "**" ++ x ++ lit "**" ++ b)
  = a ++ lit "*" ++ x ++ lit "*" ++ b.
Proof.
  intros H Hne Hnl. pose proof H as Hall. rewrite !forallb_app in H.
  apply andb_true_iff in H as [Ha H]. apply andb_true_iff in H as [Hx Hb].
  destruct x as [|x0 x]; [now elim Hne|].
  assert (Hstart : forall adv pre y s, (y =? star_ch) = false ->
                     match_at env (fst bold_rule) adv pre (y :: s) = None).
  { intros. now apply star_rules_start. }
  unfold sub, sub_fn.
  rewrite (pieces_chars_skip env _ (fun y => y =? star_ch) Hstart a _ Ha).
  pose proof (match_at_bold env (rev a ++ []) x0 x b (rev_head_not_star a Ha)) as Hm.
  rewrite forallb_app in Hm. rewrite Hx, Hb in Hm. specialize (Hm eq_refl Hnl).
  replace (lit "**" ++ (x0 :: x) ++ lit "**" ++ b)
    with ((star_ch :: star_ch :: (x0 :: x) ++ lit "**") ++ b) in *
    by (cbn [app lit list_ascii_of_string map]; now rewrite <- app_assoc).
  rewrite (pieces_match env _ _ star_ch (star_ch :: (x0 :: x) ++ lit "**")
             [(1%nat, x0 :: x)] b Hm).
  rewrite pieces_no_match.
  2:{ apply (search_from_needs env (N.eqb star_ch)).
      rewrite count_in_zero; [destruct rules_italic_bold as [_ ->]; cbn; lia|].
      apply Forall_forall. intros y Hy. rewrite forallb_forall in Hb.
      specialize (Hb y Hy). apply negb_true_iff in Hb.
      now rewrite N.eqb_sym. }
  rewrite flat_map_app, flat_map_chars. cbn [flat_map].
  rewrite flat_map_chars. destruct rules_italic_bold as [_ ->].
  cbn [snd expand flat_map group Nat.eqb]. now rewrite app_nil_r, <- !app_assoc.
Qed.

(** X15. Bold text inside a line: outside a code block, in a line
    whose only markers are the two pairs of asterisks around a text,
    the pairs are replaced by single asterisks and nothing else is
    changed but the trailing whitespace of the line; the rule for
    italic text, which comes first, does not match such a line. *)
Theorem _convert_line_bold (env : PyEnv) (before inner rest : str)
    (self : SlackMarkdownConverter) :
  in_code_block self = false ->
  forallb plainb (before ++ inner ++ rest) = true ->
  ~ In NL (before ++ inner ++ rest) ->
  inner <> [] ->
  _convert_line env (before ++ lit "**" ++ inner ++ lit "**" ++ rest) self
  = (inr (rstrip (before ++ lit "*" ++ inner ++ lit "*" ++ rest)), self).
Proof.
  intros Hout Hp Hnl Hne.
  pose proof (plain_starfree _ Hp) as Hsf.
  rewrite !forallb_app in Hp.
  apply andb_true_iff in Hp as [Hpa Hp]. apply andb_true_iff in Hp as [Hpi Hpr].
  assert (Hni : ~ In NL inner).
  { intros H. apply Hnl, in_or_app. right. apply in_or_app. now left. }
  set (line := before ++ lit "**" ++ inner ++ lit "**" ++ rest).
  set (line' := before ++ lit "*" ++ inner ++ lit "*" ++ rest).
  assert (Hhead : exists h t, line = h :: t /\ h <> 96 /\ h <> 37).
  { unfold line. destruct before as [|h t].
    - eexists _, _. split; [reflexivity|]. split; discriminate.
    - eexists _, _. split; [reflexivity|]. now apply (plain_head h t). }
  destruct Hhead as (h & t & Hl & H96 & H37).
  rewrite (item_line_plain env line h t self Hl H96 H37 Hout). do 2 f_equal.
  assert (Hc : forall m, In m markers ->
            (count_in (N.eqb m) line <= if N.eqb m 42 then 4 else 0)%nat).
  { intros m Hm. unfold line. rewrite !count_in_app.
    rewrite (plain_count_marker m before Hm Hpa), (plain_count_marker m inner Hm Hpi),
      (plain_count_marker m rest Hm Hpr).
    unfold count_in. cbn [lit list_ascii_of_string map filter].
    change (N_of_ascii "*") with 42. destruct (N.eqb m 42); cbn; lia. }
  assert (Hc3 : (count_in is_rule_char line <= 4)%nat).
  { unfold line. rewrite !count_in_app.
    rewrite (plain_count_rule before Hpa), (plain_count_rule inner Hpi),
      (plain_count_rule rest Hpr). cbn. lia. }
  assert (Hd : forall m, In m markers ->
            (count_in (N.eqb m) line' <= if N.eqb m 42 then 2 else 0)%nat).
  { intros m Hm. unfold line'. rewrite !count_in_app.
    rewrite (plain_count_marker m before Hm Hpa), (plain_count_marker m inner Hm Hpi),
      (plain_count_marker m rest Hm Hpr).
    unfold count_in. cbn [lit list_ascii_of_string map filter].
    change (N_of_ascii "*") with 42. destruct (N.eqb m 42); cbn; lia. }
  assert (Hd3 : (count_in is_rule_char line' <= 2)%nat).
  { unfold line'. rewrite !count_in_app.
    rewrite (plain_count_rule before Hpa), (plain_count_rule inner Hpi),
      (plain_count_rule rest Hpr). cbn. lia. }
  unfold rewrite_rules.
  rewrite (sub_fn_no_match env triple_pattern).
  2:{ apply (search_needs env (N.eqb 42)).
      assert (H42 : In 42 markers) by (vm_compute; tauto).
      specialize (Hc 42 H42). change (N.eqb 42 42) with true in Hc. cbv iota in Hc.
      change (min_in (N.eqb 42) triple_pattern) with 6%nat. lia. }
  change patterns
    with (firstn 5 patterns ++ italic_rule :: firstn 7 (skipn 6 patterns)
          ++ bold_rule :: skipn 14 patterns).
  rewrite fold_left_app. cbn [fold_left]. rewrite fold_left_app. cbn [fold_left].
  rewrite (fold_rules_skip env (fun m => if N.eqb m 42 then 4%nat else 0%nat) 4
             (firstn 5 patterns) line Hc Hc3 eq_refl).
  rewrite (sub_no_match env (fst italic_rule) (snd italic_rule) line)
    by (apply search_italic_bold_line; exact Hsf).
  rewrite (fold_rules_skip env (fun m => if N.eqb m 42 then 4%nat else 0%nat) 4
             (firstn 7 (skipn 6 patterns)) line Hc Hc3 eq_refl).
  unfold line at 1. rewrite (sub_bold env before inner rest Hsf Hne Hni). fold line'.
  rewrite (fold_rules_skip env (fun m => if N.eqb m 42 then 2%nat else 0%nat) 2
             (skipn 14 patterns) line' Hd Hd3 eq_refl).
  rewrite (sub_needs env (N.eqb 37)); [reflexivity|].
  assert (H37' : In 37 markers) by (vm_compute; tauto).
  specialize (Hd 37 H37'). change (N.eqb 37 42) with false in Hd. cbv iota in Hd.
  change (min_in (N.eqb 37) sentinel_pattern) with 8%nat. lia.
Qed.

Lemma _convert_line_bold_witness :
  _convert_line env0 (lit "this is " ++ lit "**" ++ lit "very" ++ lit "**" ++ lit " good ")
    (__init__ Utf8)
  = (inr (rstrip (lit "this is " ++ lit "*" ++ lit "very" ++ lit "*" ++ lit " good ")),
     __init__ Utf8).
Proof.
  apply _convert_line_bold; try reflexivity; [|discriminate].
  vm_compute. intuition discriminate.
Defined.

(* ================================================================== *)
(** ** The endpoint's steps *)

(* ------------------------------------------------------------------ *)
(** *** The answer in messages *)

Section Chunks.
Variable n : nat.
Hypothesis Hn : (0 < n)%nat.
Variable s : str.

Let slices (fuel start : nat) : list str :=
  map (fun i => slice s i (i + n)) (range_from fuel start (length s) n).

Lemma slice_step (start : nat) : slice s start (start + n) = firstn n (skipn start s).
Proof. unfold slice. f_equal. lia. Qed.

Lemma slices_concat (fuel : nat) :
  forall start, (length s - start <= fuel)%nat -> concat (slices fuel start) = skipn start s.
Proof.
  unfold slices. induction fuel as [|fuel IH]; intros start Hf; cbn [range_from map concat].
  - symmetry. apply skipn_all2. lia.
  - destruct (Nat.ltb_spec start (length s)) as [Hlt|Hge]; cbn [map concat].
    + rewrite IH by lia. rewrite slice_step, Nat.add_comm, <- skipn_skipn.
      apply firstn_skipn.
    + symmetry. apply skipn_all2. lia.
Qed.

Lemma slices_lengths (fuel : nat) :
  forall start, Forall (fun c => (1 <= length c <= n)%nat) (slices fuel start).
Proof.
  unfold slices. induction fuel as [|fuel IH]; intros start; cbn [range_from map];
    [constructor|].
  destruct (Nat.ltb_spec start (length s)) as [Hlt|Hge]; cbn [map]; [|constructor].
  constructor; [|apply IH].
  rewrite slice_step, length_firstn, length_skipn. lia.
Qed.

Lemma slices_full (fuel : nat) :
  forall start, Forall (fun c => length c = n) (removelast (slices fuel start)).
Proof.
  unfold slices. induction fuel as [|fuel IH]; intros start; cbn [range_from map];
    [constructor|].
  destruct (Nat.ltb_spec start (length s)) as [Hlt|Hge]; cbn [map]; [|constructor].
  specialize (IH (start + n)%nat).
  destruct fuel as [|fuel]; [constructor|]. cbn [range_from map] in *.
  destruct (Nat.ltb_spec (start + n) (length s)) as [Hlt'|Hge']; cbn [map] in *;
    [|constructor].
  cbn [removelast] in *. constructor; [|exact IH].
  rewrite slice_step, length_firstn, length_skipn. lia.
Qed.

Lemma slices_count (fuel : nat) :
  forall start, (length s - start <= fuel)%nat ->
    length (slices fuel start) = ((length s - start + (n - 1)) / n)%nat.
Proof.
  unfold slices. induction fuel as [|fuel IH]; intros start Hf; cbn [range_from map length].
  - replace (length s - start)%nat with 0%nat by lia. cbn [Nat.add].
    symmetry. apply Nat.div_small. lia.
  - destruct (Nat.ltb_spec start (length s)) as [Hlt|Hge]; cbn [map length].
    + rewrite IH by lia.
      destruct (Nat.le_gt_cases (start + n) (length s)) as [Hle|Hgt].
      * replace (length s - start + (n - 1))%nat
          with ((length s - (start + n) + (n - 1)) + 1 * n)%nat by lia.
        rewrite Nat.div_add by lia. lia.
      * replace (length s - (start + n))%nat with 0%nat by lia. cbn [Nat.add].
        rewrite (Nat.div_small (n - 1) n) by lia.
        apply (Nat.div_unique _ _ _ (length s - start - 1)); lia.
    + replace (length s - start)%nat with 0%nat by lia. cbn [Nat.add].
      symmetry. apply Nat.div_small. lia.
Qed.
End Chunks.

Lemma chunks_concat (converted_answer : str) :
  concat (chunks converted_answer) = converted_answer.
Proof.
  unfold chunks, chunks_of, range.
  now rewrite (slices_concat MAX_MSG_LEN (Nat.lt_0_succ _) converted_answer _ 0%nat) by lia.
Qed.

(** X16. The answer is cut into messages of [MAX_MSG_LEN] characters:
    put end to end the chunks give the converted answer back, none is
    empty and none is longer than 3000 characters, all but the last
    hold 3000 exactly, and there are as many as 3000 goes into the
    length, rounded up; an empty answer gives no chunk at all. *)
Theorem chunks_partition (converted_answer : str) :
  concat (chunks converted_answer) = converted_answer /\
  Forall (fun c => (1 <= length c <= MAX_MSG_LEN)%nat) (chunks converted_answer) /\
  Forall (fun c => length c = MAX_MSG_LEN) (removelast (chunks converted_answer)) /\
  length (chunks converted_answer)
    = ((length converted_answer + (MAX_MSG_LEN - 1)) / MAX_MSG_LEN)%nat.
Proof.
  assert (Hn : (0 < MAX_MSG_LEN)%nat) by apply Nat.lt_0_succ.
  unfold chunks, chunks_of, range. repeat split.
  - now rewrite (slices_concat MAX_MSG_LEN Hn converted_answer _ 0%nat) by lia.
  - apply (slices_lengths MAX_MSG_LEN Hn).
  - apply (slices_full MAX_MSG_LEN Hn).
  - rewrite (slices_count MAX_MSG_LEN Hn converted_answer _ 0%nat) by lia.
    now rewrite Nat.sub_0_r.
Qed.

Lemma enumerate_from_nth {A} (l : list A) :
  forall k i j x,
    nth_error (enumerate_from k l) i = Some (j, x) ->
    j = (k + i)%nat /\ nth_error l i = Some x.
Proof.
  induction l as [|a l IH]; intros k i j x H; [now destruct i|].
  destruct i as [|i]; cbn [enumerate_from nth_error] in *.
  - injection H as <- <-. split; [lia|reflexivity].
  - apply IH in H as [-> H]. split; [lia|exact H].
Qed.

Lemma map_snd_enumerate {A} (l : list A) : forall k, map snd (enumerate_from k l) = l.
Proof. induction l as [|a l IH]; intros k; cbn; [reflexivity|now rewrite IH]. Qed.

Lemma convert_returns (env : PyEnv) (self : SlackMarkdownConverter) (markdown : str) :
  exists out, returned (convert env markdown self) = inr out.
Proof.
  unfold convert, returned.
  destruct markdown as [|c s]; [now exists []|].
  unfold try_returning.
  destruct (bind _ _ self) as [[e|markdown2] self1]; [now eexists|].
  destruct (bind _ _ self1) as [[e|out] self2]; now eexists.
Qed.


(** X18. An answer that is missing, empty or made of whitespace alone
    is answered by no message at all: the converted text is empty and
    there is no chunk to post. *)
Theorem send_answer_blank (env : PyEnv) (first_reply_broadcast : bool)
    (history_len : nat) (answer : option str) :
  forallb isspace (get_default answer []) = true ->
  send_answer env first_reply_broadcast history_len answer = inr [].
Proof.
  intros H. unfold send_answer.
  destruct (get_default answer []) as [|c s]; [reflexivity|].
  destruct (convert_stages_empty env (__init__ Utf8)) as [Ht Hl].
  rewrite <- (strip_blank _ H) in Ht.
  now rewrite (convert_after_tables env c s _ _ _ Ht), (strip_blank _ H), Hl.
Qed.

Lemma send_answer_blank_witness :
  send_answer env0 true 1 (Some ([32; NL] ++ [9])) = inr [] /\
  send_answer env0 true 1 None = inr [].
Proof. split; apply send_answer_blank; reflexivity. Defined.

(* ------------------------------------------------------------------ *)
(** *** The mention at the front of a message *)

Lemma skipn_length_app {A} (a b : list A) : skipn (length a) (a ++ b) = b.
Proof. induction a as [|x a IH]; [reflexivity|exact IH]. Qed.

(** The first occurrence of the separator is where it is first met. *)
Lemma split_once_first (x : N) (sep a rest : str) :
  ~ In x a ->
  split_once (x :: sep) (a ++ (x :: sep) ++ rest) = Some (a, rest).
Proof.
  induction a as [|y a IH]; intros Hx.
  - cbn [app split_once]. change (x :: sep ++ rest) with ((x :: sep) ++ rest).
    now rewrite (startswith_app (x :: sep) rest), skipn_length_app.
  - cbn [app split_once].
    assert (Hne : (x =? y) = false).
    { apply N.eqb_neq. intros ->. apply Hx. now left. }
    cbn [startswith]. rewrite Hne. cbn [andb].
    change (a ++ x :: sep ++ rest) with (a ++ (x :: sep) ++ rest).
    rewrite IH; [reflexivity|]. intros Hin. apply Hx. now right.
Qed.

(** What is split off is a part of the text. *)
Lemma split_once_parts (sep s a b : str) :
  split_once sep s = Some (a, b) -> s = a ++ sep ++ b.
Proof.
  revert a b. induction s as [|c s IH]; intros a b; cbn [split_once].
  - destruct sep; [|discriminate]. intros H. now injection H as <- <-.
  - destruct (startswith (c :: s) sep) eqn:Hs.
    + intros H. injection H as <- <-. apply startswith_true in Hs as [rest Hs].
      rewrite Hs at 2. rewrite skipn_length_app. exact Hs.
    + destruct (split_once sep s) as [[a' b']|]; [|discriminate].
      intros H. injection H as <- <-. now rewrite (IH a' b' eq_refl).
Qed.

(** X19. The mention at the front of a message is removed with the
    blank after it: a message that starts with "<@", an id without
    ">", and "> " is handed on as the text after that, whatever the
    text holds (further mentions and "> " included). *)
Theorem strip_mention_removes (user_id rest : str) :
  ~ In 62 user_id ->
  strip_mention (lit "<@" ++ user_id ++ lit "> " ++ rest) = rest.
Proof.
  intros Hid. unfold strip_mention.
  change (startswith (lit "<@" ++ user_id ++ lit "> " ++ rest) (lit "<@")) with true.
  cbv iota. rewrite app_assoc.
  change (lit "> ") with (62 :: [32]).
  rewrite split_once_first; [reflexivity|].
  intros Hin. apply in_app_or in Hin as [Hin|Hin]; [|contradiction].
  revert Hin. vm_compute. intuition discriminate.
Qed.

Lemma strip_mention_removes_witness :
  strip_mention (lit "<@" ++ lit "U02ABC" ++ lit "> " ++ lit "ask <@U9> about a > b")
  = lit "ask <@U9> about a > b".
Proof. apply strip_mention_removes. vm_compute. intuition discriminate. Defined.

(** No occurrence of the separator starts before the place of the cut. *)
Lemma split_once_leftmost (sep s a b : str) :
  split_once sep s = Some (a, b) ->
  forall a' b', s = a' ++ sep ++ b' -> (length a <= length a')%nat.
Proof.
  revert a b. induction s as [|c s IH]; intros a b; cbn [split_once].
  - destruct sep; [|discriminate]. intros H. injection H as <- <-. cbn. lia.
  - destruct (startswith (c :: s) sep) eqn:Hs.
    + intros H. injection H as <- <-. cbn. lia.
    + destruct (split_once sep s) as [[a0 b0]|] eqn:E; [|discriminate].
      intros H. injection H as <- <-. intros a' b' Heq.
      destruct a' as [|x a'].
      * cbn [app] in Heq. rewrite Heq, startswith_app in Hs. discriminate.
      * cbn [app] in Heq. injection Heq as _ Heq. cbn [length].
        specialize (IH a0 b0 eq_refl a' b' Heq). lia.
Qed.

(** [None] is given for a text the separator does not occur in. *)
Lemma split_once_absent (sep s : str) :
  split_once sep s = None -> ~ occurs sep s.
Proof.
  induction s as [|c s IH]; cbn [split_once].
  - destruct sep; [discriminate|]. intros _ (a & b & H). now destruct a.
  - destruct (startswith (c :: s) sep) eqn:Hs; [discriminate|].
    destruct (split_once sep s) as [[a0 b0]|] eqn:E; [discriminate|].
    intros _ (a & b & Heq). destruct a as [|x a].
    + cbn [app] in Heq. rewrite Heq, startswith_app in Hs. discriminate.
    + cbn [app] in Heq. injection Heq as _ Heq. apply IH; [reflexivity|].
      now exists a, b.
Qed.

(** X20. What removing the mention does to any message.  When the
    message starts with "<@" and holds a "> ", the text handed on is
    what follows the first "> ": the message is some text, "> " and
    the text handed on, and no "> " starts earlier in the message.  In
    every other case the message is handed on as it is. *)
Theorem strip_mention_suffix (message : str) :
  (startswith message (lit "<@") = true /\
   exists before,
     message = before ++ lit "> " ++ strip_mention message /\
     forall before' rest',
       message = before' ++ lit "> " ++ rest' -> (length before <= length before')%nat)
  \/
  ((startswith message (lit "<@") = false \/ ~ occurs (lit "> ") message) /\
   strip_mention message = message).
Proof.
  unfold strip_mention.
  destruct (startswith message (lit "<@")) eqn:Hs; [|right; split; [now left|reflexivity]].
  destruct (split_once (lit "> ") message) as [[a b]|] eqn:E.
  - left. split; [reflexivity|]. exists a. split.
    + now apply split_once_parts.
    + exact (split_once_leftmost _ _ _ _ E).
  - right. split; [right; now apply split_once_absent|reflexivity].
Qed.

Lemma strip_mention_suffix_witness :
  exists before,
    lit "<@U1> a > b" = before ++ lit "> " ++ strip_mention (lit "<@U1> a > b") /\
    forall before' rest',
      lit "<@U1> a > b" = before' ++ lit "> " ++ rest' ->
      (length before <= length before')%nat.
Proof.
  destruct (strip_mention_suffix (lit "<@U1> a > b")) as [[_ H]|[_ H]]; [exact H|].
  vm_compute in H. discriminate H.
Defined.

(* ------------------------------------------------------------------ *)
(** *** The users of a thread *)

Lemma existsb_str_eqb (x : str) (l : list str) :
  existsb (str_eqb x) l = true <-> In x l.
Proof.
  rewrite existsb_exists. split.
  - intros (y & Hy & He). apply str_eqb_eq in He. now subst.
  - intros H. exists x. split; [exact H|now apply str_eqb_eq].
Qed.

Lemma append_new_spec (l : list str) (x : str) :
  NoDup l ->
  NoDup (append_new l x) /\ incl l (append_new l x) /\ In x (append_new l x).
Proof.
  intros Hl. unfold append_new.
  destruct (existsb (str_eqb x) l) eqn:E.
  - apply existsb_str_eqb in E. repeat split; [exact Hl|apply incl_refl|exact E].
  - assert (Hx : ~ In x l).
    { intros Hin. apply existsb_str_eqb in Hin. congruence. }
    repeat split.
    + apply NoDup_app; [exact Hl|repeat constructor; intros []|].
      intros y Hy [<-|[]]. contradiction.
    + now apply incl_appl.
    + apply in_or_app. right. now left.
Qed.

Lemma fold_append_new_spec (xs : list str) :
  forall l, NoDup l ->
    NoDup (fold_left append_new xs l) /\
    incl l (fold_left append_new xs l) /\
    incl xs (fold_left append_new xs l).
Proof.
  induction xs as [|x xs IH]; intros l Hl; cbn [fold_left].
  - repeat split; [exact Hl|apply incl_refl|intros y []].
  - destruct (append_new_spec l x Hl) as (Hn & Hi & Hx).
    destruct (IH _ Hn) as (Hn' & Hi' & Hxs).
    repeat split; [exact Hn'|eapply incl_tran; eassumption|].
    intros y [<-|Hy]; auto.
Qed.

Lemma user_id_step_spec (env : PyEnv) (l : list str) (msg : slack_message) :
  NoDup l ->
  NoDup (user_id_step env l msg) /\
  incl l (user_id_step env l msg) /\
  (forall u, msg_user msg = Some u -> u <> unknown -> In u (user_id_step env l msg)) /\
  (forall content, msg_text msg = Some content ->
                   incl (findall env mention_pattern content) (user_id_step env l msg)).
Proof.
  intros Hl. unfold user_id_step.
  set (user_id := get_default (msg_user msg) unknown).
  set (content := get_default (msg_text msg) []).
  set (l1 := if negb (str_eqb user_id unknown) then append_new l user_id else l).
  assert (H1 : NoDup l1 /\ incl l l1 /\
               (forall u, msg_user msg = Some u -> u <> unknown -> In u l1)).
  { unfold l1. destruct (str_eqb user_id unknown) eqn:E; cbn [negb].
    - apply str_eqb_eq in E. repeat split; [exact Hl|apply incl_refl|].
      intros u Hu Hne. unfold user_id in E. rewrite Hu in E. cbn [get_default] in E. contradiction.
    - destruct (append_new_spec l user_id Hl) as (Hn & Hi & Hx).
      repeat split; [exact Hn|exact Hi|].
      intros u Hu _.
      assert (Eu : user_id = u) by (unfold user_id; now rewrite Hu).
      now rewrite <- Eu. }
  destruct H1 as (Hn1 & Hi1 & Hu1).
  destruct (str_eqb content []) eqn:E; cbn [negb].
  - apply str_eqb_eq in E. repeat split; [exact Hn1|exact Hi1|exact Hu1|].
    intros c Hc. unfold content in E. rewrite Hc in E. cbn [get_default] in E. subst c.
    intros y [].
  - destruct (fold_append_new_spec (findall env mention_pattern content) l1 Hn1)
      as (Hn & Hi & Hf).
    repeat split; [exact Hn|eapply incl_tran; eassumption| |].
    + intros u Hu Hne. apply Hi. now apply Hu1.
    + intros c Hc.
      assert (Ec : content = c) by (unfold content; now rewrite Hc).
      now rewrite <- Ec.
Qed.

(** The list of users of a thread: no id twice, every author, every
    id that [findall] returns for a text. *)
Lemma collect_user_ids_facts (env : PyEnv) (messages : list slack_message) :
  NoDup (collect_user_ids env messages) /\
  (forall msg u, In msg messages -> msg_user msg = Some u -> u <> unknown ->
                 In u (collect_user_ids env messages)) /\
  (forall msg content u, In msg messages -> msg_text msg = Some content ->
                         In u (findall env mention_pattern content) ->
                         In u (collect_user_ids env messages)).
Proof.
  unfold collect_user_ids.
  assert (H : forall msgs l, NoDup l ->
            NoDup (fold_left (user_id_step env) msgs l) /\
            incl l (fold_left (user_id_step env) msgs l) /\
            (forall msg u, In msg msgs -> msg_user msg = Some u -> u <> unknown ->
                           In u (fold_left (user_id_step env) msgs l)) /\
            (forall msg content u, In msg msgs -> msg_text msg = Some content ->
                                   In u (findall env mention_pattern content) ->
                                   In u (fold_left (user_id_step env) msgs l))).
  { induction msgs as [|m msgs IH]; intros l Hl; cbn [fold_left].
    - repeat split; [exact Hl|apply incl_refl|intros ? ? []|intros ? ? ? []].
    - destruct (user_id_step_spec env l m Hl) as (Hn & Hi & Hu & Hc).
      destruct (IH _ Hn) as (Hn' & Hi' & Hu' & Hc').
      repeat split; [exact Hn'|eapply incl_tran; eassumption| |].
      + intros msg u [<-|Hin] Hmu Hne; [apply Hi'; now apply Hu|eauto].
      + intros msg content u [<-|Hin] Hmt Hf; [apply Hi'; now apply (Hc content)|eauto]. }
  destruct (H messages [] (NoDup_nil _)) as (Hn & _ & Hu & Hc). auto.
Qed.

(* ------------------------------------------------------------------ *)
(** *** Mentions *)

Lemma tag_patterns :
  mention_pattern = tag_pattern (NoneOf (lit ">")) /\
  id_pattern = tag_pattern (OneOf alnum_chars).
Proof. split; reflexivity. Qed.

Lemma length_app_neq {A} (a pre : list A) :
  a <> [] -> Nat.eqb (length (a ++ pre)) (length pre) = false.
Proof.
  intros Ha. apply Nat.eqb_neq. rewrite length_app.
  destruct a; [now elim Ha|]. cbn [length]. lia.
Qed.

Lemma match_at_tag (env : PyEnv) (cs : cset) (adv : bool) (pre suf : str) :
  cmatch env cs 62 = false ->
  match_at env (tag_pattern cs) adv pre suf =
  match suf with
  | 60 :: 64 :: r =>
      match take_while (cmatch env cs) r, drop_while (cmatch env cs) r with
      | x :: w, 62 :: _ => Some (mention (x :: w), [(1%nat, x :: w)])
      | _, _ => None
      end
  | _ => None
  end.
Proof.
  intros Hcs. unfold match_at, tag_pattern.
  cbn [seqs text lit list_ascii_of_string map run plus cmatch].
  change (N_of_ascii "<") with 60. change (N_of_ascii "@") with 64.
  change (N_of_ascii ">") with 62.
  destruct suf as [|x0 suf]; [reflexivity|].
  destruct (N.eqb_spec x0 60) as [->|Hne].
  2:{ destruct x0 as [|p]; [reflexivity|].
      repeat (destruct p as [p|p|]; try reflexivity; try (now elim Hne)). }
  destruct suf as [|x1 r]; [reflexivity|].
  destruct (N.eqb_spec x1 64) as [->|Hne].
  2:{ destruct x1 as [|p]; [reflexivity|].
      repeat (destruct p as [p|p|]; try reflexivity; try (now elim Hne)). }
  destruct r as [|y r]; [reflexivity|]. cbn [take_while drop_while].
  destruct (cmatch env cs y) eqn:Hy.
  2:{ reflexivity. }
  rewrite rep_greedy_maximal.
  2:{ intros p x s c Hx. destruct (N.eqb_spec x 62) as [->|]; [congruence|reflexivity]. }
  destruct (drop_while (cmatch env cs) r) as [|z rest] eqn:Hd; [reflexivity|].
  destruct (N.eqb_spec z 62) as [->|Hne].
  2:{ destruct z as [|p]; [reflexivity|].
      repeat (destruct p as [p|p|]; try reflexivity; try (now elim Hne)). }
  set (w := take_while (cmatch env cs) r).
  replace (62 :: rev w ++ y :: 64 :: 60 :: pre)
    with (rev (60 :: 64 :: (y :: w) ++ [62]) ++ pre).
  2:{ cbn [rev app]. rewrite !rev_app_distr. cbn [rev app]. now rewrite <- !app_assoc. }
  rewrite length_app_neq by (cbn [rev]; now destruct (rev _ ++ _)).
  rewrite andb_false_r, consumed_app.
  replace (rev w ++ y :: 64 :: 60 :: pre) with (rev (y :: w) ++ 64 :: 60 :: pre)
    by (cbn [rev]; now rewrite <- app_assoc).
  now rewrite consumed_app.
Qed.

Lemma tag_head_none {A} (x : N) (s : str) (f : str -> option A) :
  x <> 60 ->
  match x :: s with
  | 60 :: 64 :: r => f r
  | _ => None
  end = None.
Proof.
  intros Hne. destruct x as [|p]; [reflexivity|].
  repeat (destruct p as [p|p|]; try reflexivity; try (now elim Hne)).
Qed.

Section Tags.
Variable env : PyEnv.
Variable cs : cset.
Hypothesis Hcs : cmatch env cs 62 = false.

(** A match of a mention pattern does not depend on what is before
    it, and is never empty. *)
Lemma match_at_tag_pre (adv : bool) (pre suf : str) :
  match_at env (tag_pattern cs) adv pre suf = match_at env (tag_pattern cs) false [] suf.
Proof. now rewrite !match_at_tag. Qed.

Lemma match_at_tag_nonempty (adv : bool) (pre suf : str) (c : caps) :
  match_at env (tag_pattern cs) adv pre suf <> Some ([], c).
Proof.
  rewrite match_at_tag by exact Hcs.
  destruct suf as [|x0 [|x1 r]]; try discriminate.
  - destruct x0 as [|p]; [discriminate|].
    repeat (destruct p as [p|p|]; try discriminate).
  - destruct x0 as [|p]; [discriminate|].
    repeat (destruct p as [p|p|]; try discriminate).
    destruct x1 as [|p]; [discriminate|].
    repeat (destruct p as [p|p|]; try discriminate).
    destruct (take_while (cmatch env cs) r); [discriminate|].
    destruct (drop_while (cmatch env cs) r) as [|z rest]; [discriminate|].
    destruct z as [|p]; [discriminate|].
    repeat (destruct p as [p|p|]; try discriminate).
Qed.

Lemma pieces_tag_pre (suf : str) :
  forall skip pre,
    pieces env (tag_pattern cs) skip pre suf = pieces env (tag_pattern cs) skip [] suf.
Proof.
  induction suf as [|y suf IH]; intros skip pre.
  - destruct skip; [|reflexivity]. cbn [pieces].
    rewrite (match_at_tag_pre false pre), (match_at_tag_pre true pre),
      (match_at_tag_pre true []).
    reflexivity.
  - destruct skip as [|k]; cbn [pieces].
    + rewrite (match_at_tag_pre false pre).
      destruct (match_at env (tag_pattern cs) false [] (y :: suf)) as [[[|x t] c]|] eqn:E.
      * now elim (match_at_tag_nonempty false [] (y :: suf) c).
      * now rewrite (IH _ (y :: pre)), (IH _ [y]).
      * now rewrite (IH _ (y :: pre)), (IH _ [y]).
    + now rewrite (IH _ (y :: pre)), (IH _ [y]).
Qed.

(** The scan of a text up to its first mention and through it. *)
Lemma pieces_tag_text (a w b : str) :
  ~ In 60 a -> w <> [] -> forallb (cmatch env cs) w = true ->
  pieces env (tag_pattern cs) 0 [] (a ++ mention w ++ b) =
  map inl a ++ inr (mention w, [(1%nat, w)]) :: pieces env (tag_pattern cs) 0 [] b.
Proof.
  intros Ha Hw Hall. induction a as [|x a IH].
  - cbn [app map]. destruct w as [|x w]; [now elim Hw|].
    unfold mention. rewrite <- !app_assoc.
    change (lit "<@" ++ (x :: w) ++ lit ">" ++ b) with (60 :: 64 :: (x :: w) ++ 62 :: b).
    replace (60 :: 64 :: (x :: w) ++ 62 :: b) with ((60 :: 64 :: (x :: w) ++ [62]) ++ b)
      by (cbn [app]; now rewrite <- app_assoc).
    rewrite (pieces_match env _ [] 60 (64 :: (x :: w) ++ [62]) [(1%nat, x :: w)]).
    + now rewrite pieces_tag_pre.
    + rewrite (match_at_tag env cs _ _ _ Hcs).
      change ((60 :: 64 :: (x :: w) ++ [62]) ++ b)
        with (60 :: 64 :: ((x :: w) ++ [62]) ++ b).
      rewrite <- app_assoc. change ([62] ++ b) with (62 :: b). cbv beta iota zeta.
      now destruct (take_while_forallb (cmatch env cs) (x :: w) (62 :: b) Hall Hcs)
        as [-> ->].
  - cbn [app map pieces]. rewrite (match_at_tag env cs _ _ _ Hcs).
    rewrite tag_head_none by (intros ->; apply Ha; now left).
    rewrite pieces_tag_pre, IH; [reflexivity|]. intros Hin. apply Ha. now right.
Qed.
End Tags.

(** The rest of a text without "<" holds no mention. *)
Lemma pieces_tag_plain (env : PyEnv) (cs : cset) (a : str) :
  cmatch env cs 62 = false -> ~ In 60 a ->
  pieces env (tag_pattern cs) 0 [] a = map inl a.
Proof.
  intros Hcs Ha. induction a as [|x a IH].
  - cbn [pieces map]. now rewrite match_at_tag.
  - cbn [map pieces]. rewrite (match_at_tag env cs _ _ _ Hcs).
    rewrite tag_head_none by (intros ->; apply Ha; now left).
    rewrite pieces_tag_pre by exact Hcs.
    rewrite IH; [reflexivity|]. intros Hin. apply Ha. now right.
Qed.

Lemma alnum_not_gt (env : PyEnv) : cmatch env (OneOf alnum_chars) 62 = false.
Proof. reflexivity. Qed.

Lemma sub_fn_app_chars (f : mobj -> str) (a : str) (rest : list (N + mobj)) :
  flat_map (fun p : N + mobj => match p with inl x => [x] | inr m => f m end)
    (map inl a ++ rest)
  = a ++ flat_map (fun p : N + mobj => match p with inl x => [x] | inr m => f m end) rest.
Proof. rewrite flat_map_app. now rewrite flat_map_chars. Qed.

(** X21. Ids replaced by names: in a text, a mention <@id> of letters
    and digits with no "<" before it is replaced by "@" and the name
    the map gives for the id, and is left as it is when the map does
    not know the id; the text before it is not touched, and the rest
    of the text is treated the same way.  A text without "<" is not
    changed at all. *)
Theorem replace_ids_mention (env : PyEnv) (user_display_name_map : dict)
    (before user_id rest : str) :
  ~ In 60 before ->
  user_id <> [] ->
  forallb (fun c => existsb (N.eqb c) alnum_chars) user_id = true ->
  replace_ids env user_display_name_map (before ++ mention user_id ++ rest) =
    before
    ++ match dict_get user_display_name_map user_id with
       | Some name => lit "@" ++ name
       | None => mention user_id
       end
    ++ replace_ids env user_display_name_map rest /\
  replace_ids env user_display_name_map before = before.
Proof.
  intros Hb Hne Hid. unfold replace_ids, sub_fn.
  destruct tag_patterns as [_ ->]. split.
  - rewrite (pieces_tag_text env _ (alnum_not_gt env) before user_id rest Hb Hne Hid).
    rewrite sub_fn_app_chars. cbn [flat_map]. unfold replace_id_with_name at 1.
    cbn [snd fst group Nat.eqb]. reflexivity.
  - rewrite (pieces_tag_plain env _ before (alnum_not_gt env) Hb).
    apply flat_map_chars.
Qed.

Lemma replace_ids_mention_witness :
  let names := [(lit "U1", lit "Ann Lee (ann)")] in
  replace_ids env0 names (lit "ask " ++ mention (lit "U1") ++ lit " or <@U2>!") =
    lit "ask "
    ++ match dict_get names (lit "U1") with
       | Some name => lit "@" ++ name
       | None => mention (lit "U1")
       end
    ++ replace_ids env0 names (lit " or <@U2>!") /\
  replace_ids env0 names (lit "ask ") = lit "ask ".
Proof.
  intros names. apply (replace_ids_mention env0 names (lit "ask ") (lit "U1"));
    try reflexivity; [|discriminate].
  vm_compute. intuition discriminate.
Defined.

Lemma flat_map_inl_nil {X} (g : mobj -> list X) (a : str) :
  flat_map (fun p : N + mobj => match p with inl _ => [] | inr m => g m end)
    (map inl a) = [].
Proof. induction a as [|x a IH]; [reflexivity|exact IH]. Qed.

(** Mentions found in a text. *)
Lemma findall_mention (env : PyEnv) (before user_id rest : str) :
  ~ In 60 before -> user_id <> [] -> ~ In 62 user_id ->
  findall env mention_pattern (before ++ mention user_id ++ rest)
  = user_id :: findall env mention_pattern rest.
Proof.
  intros Hb Hne Hid. unfold findall. destruct tag_patterns as [-> _].
  rewrite (pieces_tag_text env (NoneOf (lit ">")) eq_refl before user_id rest Hb Hne).
  - rewrite flat_map_app, flat_map_inl_nil. reflexivity.
  - apply forallb_forall. intros x Hx. cbn [cmatch lit list_ascii_of_string map existsb].
    change (N_of_ascii ">") with 62. rewrite orb_false_r.
    apply negb_true_iff, N.eqb_neq. now intros ->.
Qed.

(* ------------------------------------------------------------------ *)
(** *** A substitution that puts every match back *)

(** After an empty match the matcher must advance: what it finds then
    is not empty. *)
Lemma match_at_advance (env : PyEnv) (r : regex) (pre suf t : str) (c : caps) :
  match_at env r true pre suf = Some (t, c) -> t <> [].
Proof.
  unfold match_at. intros H.
  apply (run_sound env r) in H as (l & suf' & c' & -> & _ & H).
  cbn [andb] in H.
  destruct (Nat.eqb (length (rev l ++ pre)) (length pre)) eqn:E; [discriminate|].
  injection H as <- _. rewrite consumed_app. intros ->.
  cbn [rev app] in E. now rewrite Nat.eqb_refl in E.
Qed.

(** The pieces of a scan, with each match as its own text, are the
    subject. *)
Lemma pieces_rebuild (env : PyEnv) (r : regex) (suf : str) :
  forall skip pre,
    flat_map (fun p : N + mobj => match p with inl x => [x] | inr m => fst m end)
      (pieces env r skip pre suf) = skipn skip suf.
Proof.
  induction suf as [|y suf IH]; intros skip pre.
  - destruct skip; [|reflexivity]. cbn [pieces skipn].
    destruct (match_at env r false pre []) as [[[|x t] c]|] eqn:Hm; [| |reflexivity].
    + cbn [flat_map fst app].
      destruct (match_at env r true pre []) as [[t c']|] eqn:Hm'; [|reflexivity].
      apply match_at_sound in Hm' as (suf' & Hs & _).
      symmetry in Hs. apply app_eq_nil in Hs as [-> _]. reflexivity.
    + apply match_at_sound in Hm as (suf' & Hs & _). discriminate Hs.
  - destruct skip as [|k]; cbn [pieces skipn]; [|apply IH].
    destruct (match_at env r false pre (y :: suf)) as [[[|x t] c]|] eqn:Hm.
    + cbn [flat_map fst app].
      destruct (match_at env r true pre (y :: suf)) as [[t c']|] eqn:Hm'.
      * pose proof (match_at_advance env r pre _ t c' Hm') as Hne.
        apply match_at_sound in Hm' as (suf' & Hs & _).
        destruct t as [|x t]; [now elim Hne|]. injection Hs as -> ->.
        cbn [flat_map fst length Nat.sub]. rewrite Nat.sub_0_r, IH.
        cbn [app]. f_equal. now rewrite skipn_length_app.
      * cbn [flat_map]. now rewrite IH.
    + apply match_at_sound in Hm as (suf' & Hs & _). injection Hs as -> ->.
      cbn [flat_map fst]. rewrite IH. cbn [app]. f_equal.
      now rewrite skipn_length_app.
    + cbn [flat_map]. now rewrite IH.
Qed.

(** X22. With no name known (the lookups of the users failed, or the
    thread has no user), replacing ids by names changes no text,
    whatever mentions it holds. *)
Theorem replace_ids_no_names (env : PyEnv) (content : str) :
  replace_ids env [] content = content.
Proof.
  unfold replace_ids, sub_fn.
  rewrite <- (pieces_rebuild env id_pattern content 0 []) at 2.
  apply flat_map_ext. now intros [x|m].
Qed.

(** X23. The list of users gathered from a thread holds no id twice,
    holds the author of every message that has one (the "unknown" put
    for a message without author is not taken for an id), and holds
    the id of a mention <@id> in the text of a message when no "<"
    comes before the mention. *)
Theorem collect_user_ids_spec (env : PyEnv) (messages : list slack_message) :
  NoDup (collect_user_ids env messages) /\
  (forall msg u, In msg messages -> msg_user msg = Some u -> u <> unknown ->
                 In u (collect_user_ids env messages)) /\
  (forall msg before user_id rest,
     In msg messages ->
     msg_text msg = Some (before ++ mention user_id ++ rest) ->
     ~ In 60 before -> user_id <> [] -> ~ In 62 user_id ->
     In user_id (collect_user_ids env messages)).
Proof.
  destruct (collect_user_ids_facts env messages) as (Hn & Hu & Hf).
  split; [exact Hn|]. split; [exact Hu|].
  intros msg before user_id rest Hin Ht Hb Hne Hid.
  apply (Hf msg _ user_id Hin Ht).
  rewrite (findall_mention env before user_id rest Hb Hne Hid). now left.
Qed.

Lemma collect_user_ids_spec_witness :
  In (lit "U1")
     (collect_user_ids env0
        [{| msg_bot_id := None; msg_user := Some (lit "U1");
            msg_text := Some (lit "ask " ++ mention (lit "U2") ++ lit " please") |}]) /\
  In (lit "U2")
     (collect_user_ids env0
        [{| msg_bot_id := None; msg_user := Some (lit "U1");
            msg_text := Some (lit "ask " ++ mention (lit "U2") ++ lit " please") |}]).
Proof.
  destruct (collect_user_ids_spec env0
              [{| msg_bot_id := None; msg_user := Some (lit "U1");
                  msg_text := Some (lit "ask " ++ mention (lit "U2") ++ lit " please") |}])
    as (_ & Hauthor & Hmention).
  split.
  - apply (Hauthor _ (lit "U1") (or_introl eq_refl) eq_refl). discriminate.
  - apply (Hmention _ (lit "ask ") (lit "U2") (lit " please") (or_introl eq_refl) eq_refl).
    + vm_compute. intuition discriminate.
    + discriminate.
    + vm_compute. intuition discriminate.
Defined.

(* ------------------------------------------------------------------ *)
(** *** The key of a conversation *)

Lemma app_sep_inj (x : N) (a a' b b' : str) :
  ~ In x a -> ~ In x a' -> a ++ x :: b = a' ++ x :: b' -> a = a' /\ b = b'.
Proof.
  revert a'. induction a as [|y a IH]; intros a' Ha Ha' H.
  - destruct a' as [|y' a']; [now injection H|].
    injection H as -> _. elim Ha'. now left.
  - destruct a' as [|y' a'].
    + injection H as -> _. elim Ha. now left.
    + injection H as -> H. destruct (IH a') as [-> ->]; auto.
      * intros Hin. apply Ha. now right.
      * intros Hin. apply Ha'. now right.
Qed.

(** X24. The key under which the conversation of a thread is stored
    tells threads apart as long as channel ids hold no hyphen: two
    threads with the same key are in the same channel and
    have the same timestamp.  With a hyphen in a channel id two
    different threads can share a key. *)
Theorem key_to_check_injective (channel thread_ts channel' thread_ts' : str) :
  (~ In 45 channel -> ~ In 45 channel' ->
   key_to_check channel thread_ts = key_to_check channel' thread_ts' ->
   channel = channel' /\ thread_ts = thread_ts') /\
  key_to_check (lit "a-b") (lit "1") = key_to_check (lit "a") (lit "b-1").
Proof.
  split; [|reflexivity]. intros Hc Hc' H. unfold key_to_check in H.
  apply app_inv_head in H. now apply (app_sep_inj 45).
Qed.

Lemma key_to_check_injective_witness :
  lit "C024BE91L" = lit "C024BE91L" /\ lit "1700000000.000100" = lit "1700000000.000100".
Proof.
  apply (proj1 (key_to_check_injective (lit "C024BE91L") (lit "1700000000.000100")
                  (lit "C024BE91L") (lit "1700000000.000100"))).
  - vm_compute. intuition discriminate.
  - vm_compute. intuition discriminate.
  - reflexivity.
Defined.

(* ================================================================== *)
(** ** The passes of [convert], line by line

    Groups in a match, automata that read a text while a substitution
    rewrites it, the table pass as a relation on lines, and the
    sentinels of the triple emphasis through the ordered rules. *)

(* ------------------------------------------------------------------ *)
(** *** The engine is sound for [gmatches] *)

Section GroupSoundness.
Variable env : PyEnv.

Lemma rep_greedy_gsound (cs : cset) (k : cont) :
  forall suf pre c res,
    rep_greedy env cs k pre suf c = Some res ->
    exists l suf', suf = l ++ suf' /\ forallb (cmatch env cs) l = true
                   /\ k (rev l ++ pre) suf' c = Some res.
Proof.
  induction suf as [|x suf IH]; intros pre c res H; cbn [rep_greedy] in H.
  - now exists [], [].
  - destruct (cmatch env cs x) eqn:Hx; [|now exists [], (x :: suf)].
    destruct (rep_greedy env cs k (x :: pre) suf c) as [r|] eqn:Hr.
    + injection H as <-. apply IH in Hr as (l & suf' & -> & Hl & Hk).
      exists (x :: l), suf'. repeat split.
      * cbn. now rewrite Hx.
      * cbn [rev]. now rewrite <- app_assoc.
    + now exists [], (x :: suf).
Qed.

Lemma rep_lazy_gsound (cs : cset) (k : cont) :
  forall suf pre c res,
    rep_lazy env cs k pre suf c = Some res ->
    exists l suf', suf = l ++ suf' /\ forallb (cmatch env cs) l = true
                   /\ k (rev l ++ pre) suf' c = Some res.
Proof.
  induction suf as [|x suf IH]; intros pre c res H; cbn [rep_lazy] in H.
  - destruct (k pre [] c) eqn:Hk; [|discriminate]. injection H as <-.
    now exists [], [].
  - destruct (k pre (x :: suf) c) eqn:Hk;
      [injection H as <-; now exists [], (x :: suf)|].
    destruct (cmatch env cs x) eqn:Hx; [|discriminate].
    apply IH in H as (l & suf' & -> & Hl & Hk').
    exists (x :: l), suf'. repeat split.
    + cbn. now rewrite Hx.
    + cbn [rev]. now rewrite <- app_assoc.
Qed.

Theorem run_gsound (r : regex) :
  forall k pre suf c res,
    run env r k pre suf c = Some res ->
    exists l suf' c', suf = l ++ suf' /\ gmatches env r pre l suf' c c'
                      /\ k (rev l ++ pre) suf' c' = Some res.
Proof.
  induction r as [|cs|a IHa b IHb|a IHa b IHb|n a IHa|g cs|a IHa|ml|ml|cs|cs];
    intros k pre suf c res H; cbn [run] in H; cbn [gmatches].
  - now exists [], suf, c.
  - destruct suf as [|x suf]; [discriminate|].
    destruct (cmatch env cs x) eqn:Hx; [|discriminate].
    exists [x], suf, c. repeat split; [now exists x|exact H].
  - apply IHa in H as (l1 & s1 & c1 & -> & Ha & H).
    apply IHb in H as (l2 & s2 & c2 & -> & Hb & H).
    exists (l1 ++ l2), s2, c2. repeat split.
    + now rewrite app_assoc.
    + now exists l1, l2, c1.
    + now rewrite rev_app_distr, <- app_assoc.
  - destruct (run env a k pre suf c) as [r|] eqn:Hr.
    + injection H as <-. apply IHa in Hr as (l & s & c' & ? & ? & ?).
      exists l, s, c'. auto.
    + apply IHb in H as (l & s & c' & ? & ? & ?). exists l, s, c'. auto.
  - apply IHa in H as (l & s & c' & -> & Ha & H). cbv beta in H.
    rewrite consumed_app in H.
    exists l, s, ((n, l) :: c'). repeat split; [|exact H]. now exists c'.
  - destruct g; [apply rep_greedy_gsound in H|apply rep_lazy_gsound in H];
      destruct H as (l & s & -> & Hl & H); now exists l, s, c.
  - change (run env (Star a) k pre suf c = Some res) in H.
    apply run_sound in H as (l & s & c' & -> & Hm & H). now exists l, s, c'.
  - destruct (bol ml pre) eqn:Hb; [|discriminate]. now exists [], suf, c.
  - destruct (eol ml suf) eqn:Hb; [|discriminate]. now exists [], suf, c.
  - destruct pre as [|x pre]; [now exists [], suf, c|].
    destruct (cmatch env cs x) eqn:Hx; [discriminate|]. now exists [], suf, c.
  - destruct suf as [|x suf]; [now exists [], [], c|].
    destruct (cmatch env cs x) eqn:Hx; [discriminate|]. now exists [], (x :: suf), c.
Qed.

Corollary match_at_gsound (r : regex) (adv : bool) (pre suf t : str) (c : caps) :
  match_at env r adv pre suf = Some (t, c) ->
  exists suf', suf = t ++ suf' /\ gmatches env r pre t suf' [] c.
Proof.
  unfold match_at. intros H. apply run_gsound in H as (l & suf' & c' & -> & Hm & H).
  destruct (adv && _); [discriminate|]. injection H as <- <-.
  rewrite consumed_app. now exists suf'.
Qed.
End GroupSoundness.

(* ------------------------------------------------------------------ *)
(** *** Automata and substitution *)

Lemma arun_app {Q} (step : Q -> N -> option Q) (a b : str) (q : Q) :
  arun step q (a ++ b) =
  match arun step q a with Some q' => arun step q' b | None => None end.
Proof.
  revert q. induction a as [|x a IH]; intros q; cbn [app arun]; [reflexivity|].
  destruct (step q x); [apply IH|reflexivity].
Qed.

Lemma arun_app_inv {Q} (step : Q -> N -> option Q) (a b : str) (q qf : Q) :
  arun step q (a ++ b) = Some qf ->
  exists q', arun step q a = Some q' /\ arun step q' b = Some qf.
Proof.
  rewrite arun_app. destruct (arun step q a) as [q'|]; [|discriminate]. eauto.
Qed.

(** A substitution seen by two automata, one reading the subject and
    one the result, whose states are related by [rho]: when every
    replacement, and every character left alone, takes related states to
    related states, the result is read to a state related to the one the
    subject is read to.  The replacements are looked at where the scan
    finds them: with the rest of the subject still accepted ([F] holds
    of the last state). *)
Section Simulation.
Variable env : PyEnv.
Variables Q1 Q2 : Type.
Variable step1 : Q1 -> N -> option Q1.
Variable step2 : Q2 -> N -> option Q2.
Variable rho : Q1 -> Q2 -> Prop.
Variable F : Q1 -> Prop.
Variable r : regex.
Variable f : mobj -> str.

Hypothesis never_empty :
  forall adv pre suf c, match_at env r adv pre suf <> Some ([], c).

Hypothesis on_match :
  forall adv pre m c suf' q1 q2 qf,
    rho q1 q2 -> arun step1 q1 (m ++ suf') = Some qf -> F qf ->
    match_at env r adv pre (m ++ suf') = Some (m, c) ->
    exists q1' q2', arun step1 q1 m = Some q1' /\ arun step2 q2 (f (m, c)) = Some q2'
                    /\ rho q1' q2'.

Hypothesis on_char :
  forall pre x suf q1 q2 qf,
    rho q1 q2 -> arun step1 q1 (x :: suf) = Some qf -> F qf ->
    match_at env r false pre (x :: suf) = None ->
    exists q1' q2', step1 q1 x = Some q1' /\ step2 q2 x = Some q2' /\ rho q1' q2'.

Lemma pieces_sim (n : nat) :
  forall suf, (length suf <= n)%nat ->
  forall pre q1 q2 qf,
    rho q1 q2 -> arun step1 q1 suf = Some qf -> F qf ->
    exists qf2, arun step2 q2 (render f (pieces env r 0 pre suf)) = Some qf2 /\ rho qf qf2.
Proof.
  induction n as [|n IH]; intros suf Hlen pre q1 q2 qf Hrho Hrun HF.
  - destruct suf; [|cbn in Hlen; lia]. cbn [pieces].
    destruct (match_at env r false pre []) as [[[|x t] c]|] eqn:Hm.
    + now apply never_empty in Hm.
    + apply match_at_sound in Hm as (suf' & Hs & _). discriminate.
    + cbn in Hrun. injection Hrun as <-. now exists q2.
  - destruct suf as [|y suf1].
    { cbn [pieces].
      destruct (match_at env r false pre []) as [[[|x t] c]|] eqn:Hm.
      + now apply never_empty in Hm.
      + apply match_at_sound in Hm as (suf' & Hs & _). discriminate.
      + cbn in Hrun. injection Hrun as <-. now exists q2. }
    destruct (match_at env r false pre (y :: suf1)) as [[[|x t] c]|] eqn:Hm.
    + now apply never_empty in Hm.
    + pose proof Hm as Hs. apply match_at_sound in Hs as (suf' & Hs & _).
      rewrite Hs in Hm, Hrun, Hlen |- *. clear y suf1 Hs.
      rewrite (pieces_match env r pre x t c suf') by exact Hm.
      destruct (on_match _ _ _ _ _ _ _ _ Hrho Hrun HF Hm) as (q1' & q2' & H1 & H2 & Hr').
      rewrite arun_app, H1 in Hrun.
      destruct (IH suf') with (pre := rev (x :: t) ++ pre) (q1 := q1') (q2 := q2') (qf := qf)
        as (qf2 & Hq & Hrf); auto.
      { cbn [length app] in Hlen. rewrite length_app in Hlen. lia. }
      exists qf2. split; [|exact Hrf].
      unfold render in *. cbn [flat_map]. now rewrite arun_app, H2.
    + cbn [pieces]. rewrite Hm.
      destruct (on_char _ _ _ _ _ _ Hrho Hrun HF Hm) as (q1' & q2' & H1 & H2 & Hr').
      cbn [arun] in Hrun. rewrite H1 in Hrun.
      destruct (IH suf1) with (pre := y :: pre) (q1 := q1') (q2 := q2') (qf := qf)
        as (qf2 & Hq & Hrf); auto.
      { cbn [length] in Hlen. lia. }
      exists qf2. split; [|exact Hrf].
      unfold render in *. cbn [flat_map app arun]. now rewrite H2.
Qed.

Theorem sub_fn_sim (s : str) (q1 : Q1) (q2 : Q2) (qf : Q1) :
  rho q1 q2 -> arun step1 q1 s = Some qf -> F qf ->
  exists qf2, arun step2 q2 (sub_fn env r f s) = Some qf2 /\ rho qf qf2.
Proof. intros. now apply (pieces_sim (length s) s (le_n _) [] q1 q2 qf). Qed.
End Simulation.

(* ------------------------------------------------------------------ *)
(** *** The table pass, line by line *)

Lemma convert_table_rendered (env : PyEnv) (m : mobj) (self : SlackMarkdownConverter) :
  (exists l0 l1 ls, split NL (strip (fst m)) = l0 :: l1 :: ls) ->
  convert_table env m self =
    (inr (placeholder_of env (fst m)),
     {| encoding := encoding self; in_code_block := in_code_block self;
        table_replacements :=
          dict_set (table_replacements self) (placeholder_of env (fst m))
            (render_table (fst m)) |}).
Proof.
  intros (l0 & l1 & ls & Hl). unfold convert_table, index, render_table.
  rewrite Hl. reflexivity.
Qed.

(** Inside a line no table block starts. *)
Lemma table_scan_inside (env : PyEnv) (X : str) (l : str) :
  ~ In NL l ->
  forall pre y, y <> NL ->
    pieces env table_pattern 0 (y :: pre) (l ++ X) =
    map inl l ++ pieces env table_pattern 0 (rev l ++ y :: pre) X.
Proof.
  induction l as [|z l IH]; intros Hnl pre y Hy; [reflexivity|].
  cbn [app pieces map].
  destruct (match_at env table_pattern false (y :: pre) (z :: l ++ X)) as [[t c]|] eqn:Hm.
  - apply table_match_shape in Hm as (Hb & _). cbn in Hb.
    apply N.eqb_neq in Hy. now rewrite Hy in Hb.
  - rewrite (IH (fun H => Hnl (or_intror H)) (y :: pre) z).
    + cbn [rev]. now rewrite <- app_assoc.
    + intros ->. apply Hnl. now left.
Qed.

Lemma table_scan_line (env : PyEnv) (X : str) (l pre : str) :
  ~ In NL l ->
  match_at env table_pattern false pre (l ++ X) = None ->
  pieces env table_pattern 0 pre (l ++ X) =
  map inl l ++ pieces env table_pattern 0 (rev l ++ pre) X.
Proof.
  intros Hnl Hm. destruct l as [|y l]; [reflexivity|].
  cbn [app pieces map]. cbn [app] in Hm. rewrite Hm.
  rewrite table_scan_inside.
  - cbn [rev]. now rewrite <- app_assoc.
  - intros H. apply Hnl. now right.
  - intros ->. apply Hnl. now left.
Qed.

Lemma mapM_table_chars_any (env : PyEnv) (a : str) (ps : list (N + mobj))
    (self : SlackMarkdownConverter) :
  mapM (table_callback env) (map inl a ++ ps) self =
  match mapM (table_callback env) ps self with
  | (inr parts, self') => (inr (map (fun x => [x]) a ++ parts), self')
  | (inl e, self') => (inl e, self')
  end.
Proof.
  induction a as [|x a IH]; cbn [map app].
  - now destruct (mapM (table_callback env) ps self) as [[e|parts] self'].
  - rewrite mapM_cons. cbn [table_callback]. unfold ret at 1. rewrite IH.
    now destruct (mapM (table_callback env) ps self) as [[e|parts] self'].
Qed.

Lemma join_nonempty_cons (l : str) (ls : list str) :
  ls <> [] -> join [NL] (l :: ls) = l ++ NL :: join [NL] ls.
Proof. destruct ls; [congruence|reflexivity]. Qed.

(** The lines a table block is made of. *)
Lemma table_block_lines (l : str) (ls : list str) (m suf' : str) :
  Forall (fun l : str => ~ In NL l) (l :: ls) ->
  join [NL] (l :: ls) = m ++ suf' ->
  eol true suf' = true ->
  let g := split NL m in
  join [NL] g = m /\ g <> [] /\
  ((suf' = [] /\ l :: ls = g) \/
   exists ls2, ls2 <> [] /\ suf' = NL :: join [NL] ls2 /\ l :: ls = g ++ ls2).
Proof.
  intros Hnl Heq Heol g. split; [apply join_split|]. split.
  { unfold g. destruct (split_nonempty NL m) as (a & b & ->). discriminate. }
  destruct (eol_cases suf' Heol) as [->|[suf'' ->]].
  - left. split; [reflexivity|]. rewrite app_nil_r in Heq. subst m.
    unfold g. symmetry. apply split_join; [discriminate|exact Hnl].
  - right. exists (split NL suf''). split.
    { destruct (split_nonempty NL suf'') as (a & b & ->). discriminate. }
    split; [now rewrite join_split|].
    unfold g. rewrite <- split_app_lines, <- Heq. symmetry.
    apply split_join; [discriminate|exact Hnl].
Qed.

Lemma recorded_weaken (env : PyEnv) (a b c : str) (kv : str * str) :
  recorded env b kv -> recorded env (a ++ b ++ c) kv.
Proof.
  intros (t & (x & y & ->) & ->). exists t. split; [|reflexivity].
  exists (a ++ x), (y ++ c). now rewrite <- !app_assoc.
Qed.

Lemma dict_set_entries (d : dict) (k v : str) (kv : str * str) :
  In kv (dict_set d k v) -> In kv d \/ kv = (k, v).
Proof.
  induction d as [|[k' v'] d IH]; cbn [dict_set].
  - intros [<-|[]]. now right.
  - destruct (str_eqb k' k) eqn:E.
    + apply str_eqb_eq in E. subst k'. intros [<-|H]; [now right|left; now right].
    + intros [<-|H]; [left; now left|]. destruct (IH H); [left; now right|now right].
Qed.

(** The pass over the lines of a text, from the start of a line. *)
Lemma tables_scan (env : PyEnv) (n : nat) :
  forall lines : list str, (length lines <= n)%nat -> lines <> [] ->
  Forall (fun l : str => ~ In NL l) lines ->
  forall pre self, bol true pre = true ->
  exists parts outl self',
    mapM (table_callback env) (pieces env table_pattern 0 pre (join [NL] lines)) self
      = (inr parts, self') /\
    concat parts = join [NL] outl /\ outl <> [] /\
    collapsed env pre lines outl /\
    encoding self' = encoding self /\ in_code_block self' = in_code_block self /\
    Forall (fun kv => In kv (table_replacements self) \/ recorded env (join [NL] lines) kv)
           (table_replacements self') /\
    incl (keys self) (keys self') /\
    Forall (fun o : str => In o lines \/ In o (keys self')) outl.
Proof.
  induction n as [|n IH]; intros lines Hlen Hne Hnl pre self Hbol.
  { destruct lines; [congruence|cbn in Hlen; lia]. }
  destruct lines as [|l ls]; [congruence|]. clear Hne.
  destruct (match_at env table_pattern false pre (join [NL] (l :: ls)))
    as [[m c]|] eqn:Hm.
  - (* a table block starts here *)
    pose proof Hm as Hshape.
    apply table_match_shape in Hshape as (_ & t' & suf' & Ht & Hsuf & Heol).
    destruct (table_block_lines l ls m suf' Hnl Hsuf Heol) as (Hj & Hg & Hcase).
    set (g := split NL m) in *.
    assert (Hlines : exists l0 l1 ls0, split NL (strip (fst (m, c))) = l0 :: l1 :: ls0)
      by exact (table_match_lines env false pre _ (m, c) Hm).
    pose proof (convert_table_rendered env (m, c) self Hlines) as Hct.
    cbn [fst] in Hct.
    set (tok := placeholder_of env m) in *.
    set (self1 := {| encoding := encoding self; in_code_block := in_code_block self;
                     table_replacements :=
                       dict_set (table_replacements self) tok (render_table m) |}) in *.
    assert (Hk1 : incl (keys self) (keys self1))
      by (intros k Hk; now apply dict_set_keeps).
    assert (Htok1 : In tok (keys self1)) by apply dict_set_has.
    rewrite Hsuf in Hm |- *. rewrite Ht in Hm |- *.
    rewrite (pieces_match env table_pattern pre bar t' c suf' Hm), mapM_cons.
    rewrite <- Ht in *.
    change (table_callback env (inr (m, c)) self) with (convert_table env (m, c) self).
    rewrite Hct.
    assert (Hrec1 : Forall (fun kv => In kv (table_replacements self)
                                      \/ recorded env (m ++ suf') kv)
                           (table_replacements self1)).
    { apply Forall_forall. intros kv Hin. cbn [self1 table_replacements] in Hin.
      apply dict_set_entries in Hin as [Hin| ->]; [now left|right].
      exists m. split; [|reflexivity]. now exists [], suf'. }
    destruct Hcase as [[-> Hall]|(ls2 & Hne2 & -> & Hall)].
    + cbn [pieces]. rewrite table_no_match_at_end. cbn [mapM ret].
      exists [tok], [tok], self1.
      repeat split; auto; try discriminate.
      * cbn. now rewrite app_nil_r.
      * rewrite Hall. unfold tok. rewrite <- Hj. rewrite <- (app_nil_r g) at 1.
        apply (col_table env pre g [] [] c Hg); [|constructor].
        rewrite app_nil_r, Hj. now rewrite app_nil_r in Hm.
    + cbn [pieces]. rewrite table_no_match_at_newline, mapM_cons.
      cbn [table_callback]. unfold ret at 1.
      assert (Hlen2 : (length ls2 <= n)%nat).
      { assert (E : length (l :: ls) = length (g ++ ls2)) by now rewrite Hall.
        rewrite length_app in E. cbn [length] in E, Hlen.
        destruct g; [congruence|cbn [length] in E; lia]. }
      assert (Hnl2 : Forall (fun l => ~ In NL l) ls2).
      { rewrite Hall in Hnl. now apply Forall_app in Hnl. }
      destruct (IH ls2 Hlen2 Hne2 Hnl2 (NL :: rev m ++ pre) self1 eq_refl)
        as (parts & outl & self' & Hrun & Hcat & Hout & Hcol & He & Hf & Hrec & Hk & Hin).
      rewrite Hrun.
      exists (tok :: [NL] :: parts), (tok :: outl), self'.
      repeat split; auto; try discriminate.
      * cbn [concat]. rewrite Hcat. rewrite join_nonempty_cons by exact Hout.
        reflexivity.
      * rewrite Hall. unfold tok. rewrite <- Hj at 1.
        apply (col_table env pre g ls2 outl c Hg); [|now rewrite Hj].
        rewrite Hj, <- Hall, Hsuf. exact Hm.
      * apply Forall_forall. intros kv Hkv. rewrite Forall_forall in Hrec, Hrec1.
        destruct (Hrec kv Hkv) as [H1|H2].
        -- apply Hrec1 in H1. exact H1.
        -- right. apply (recorded_weaken env (m ++ [NL]) _ []) in H2.
           now rewrite app_nil_r, <- app_assoc in H2.
      * intros k Hkk. auto.
      * constructor; [right; apply Hk, Htok1|].
        eapply Forall_impl; [|exact Hin]. cbn. intros o [Ho|Ho]; [left|now right].
        pose proof (in_or_app g ls2 o (or_intror Ho)) as Hi.
        rewrite <- Hall in Hi. exact Hi.
  - (* the line is kept *)
    assert (Hl : ~ In NL l) by now inversion Hnl.
    destruct ls as [|l2 ls].
    + cbn [join] in *.
      assert (Hm' : match_at env table_pattern false pre (l ++ []) = None)
        by now rewrite app_nil_r.
      replace (pieces env table_pattern 0 pre l)
        with (pieces env table_pattern 0 pre (l ++ [])) by now rewrite app_nil_r.
      rewrite (table_scan_line env [] l pre Hl Hm').
      cbn [pieces]. rewrite table_no_match_at_end, app_nil_r.
      rewrite <- (app_nil_r (map inl l)), mapM_table_chars_any. cbn [mapM ret].
      exists (map (fun x => [x]) l ++ []), [l], self.
      repeat split; auto using incl_refl; try discriminate.
      * now rewrite app_nil_r, concat_singletons.
      * apply col_keep; [exact Hm|constructor].
      * apply Forall_forall. intros kv Hkv. now left.
      * constructor; [left; now left|constructor].
    + rewrite join_nonempty_cons in Hm |- * by discriminate.
      rewrite (table_scan_line env _ l pre Hl Hm).
      cbn [pieces]. rewrite table_no_match_at_newline.
      assert (Hnl2 : Forall (fun l => ~ In NL l) (l2 :: ls)) by now inversion Hnl.
      destruct (IH (l2 :: ls)) with (pre := NL :: rev l ++ pre) (self := self)
        as (parts & outl & self' & Hrun & Hcat & Hout & Hcol & He & Hf & Hrec & Hk & Hin);
        auto; try discriminate.
      { cbn [length] in *. lia. }
      change (inl NL :: pieces env table_pattern 0 (NL :: rev l ++ pre) (join [NL] (l2 :: ls)))
        with (map inl [NL] ++ pieces env table_pattern 0 (NL :: rev l ++ pre)
                                (join [NL] (l2 :: ls))).
      rewrite app_assoc, <- map_app, mapM_table_chars_any, Hrun.
      exists (map (fun x => [x]) (l ++ [NL]) ++ parts), (l :: outl), self'.
      repeat split; auto; try discriminate.
      * rewrite concat_app, concat_singletons, Hcat, <- app_assoc.
        now rewrite join_nonempty_cons by exact Hout.
      * apply col_keep; [now rewrite join_nonempty_cons by discriminate|exact Hcol].
      * apply Forall_forall. intros kv Hkv. rewrite Forall_forall in Hrec.
        destruct (Hrec kv Hkv) as [H1|H2]; [now left|right].
        apply (recorded_weaken env (l ++ [NL]) _ []) in H2.
        now rewrite app_nil_r, <- app_assoc in H2.
      * constructor; [left; now left|].
        eapply Forall_impl; [|exact Hin]. cbn. intros o [Ho|Ho]; [left; now right|now right].
Qed.

(* ------------------------------------------------------------------ *)
(** *** The lines of a table block *)

Lemma tl_dots (env : PyEnv) (l : str) :
  forallb (cmatch env Dot) l = true -> arun tl_step false l = Some false.
Proof.
  induction l as [|x l IH]; cbn [forallb arun]; [reflexivity|].
  intros H. apply andb_true_iff in H as [Hx H]. cbn [cmatch] in Hx.
  unfold tl_step at 1. cbn [andb]. apply negb_true_iff in Hx. rewrite Hx. auto.
Qed.

Lemma tl_seps (env : PyEnv) (l : str) :
  forallb (cmatch env (OneOf (lit "-:| "))) l = true -> arun tl_step false l = Some false.
Proof.
  induction l as [|x l IH]; cbn [forallb arun]; [reflexivity|].
  intros H. apply andb_true_iff in H as [Hx H].
  unfold tl_step at 1. cbn [andb].
  assert (E : (x =? NL) = false).
  { destruct (N.eqb_spec x NL) as [->|]; [discriminate Hx|reflexivity]. }
  rewrite E. auto.
Qed.

Lemma tl_spaces (l : str) :
  forallb isspace l = true -> forall q, exists q', arun tl_step q l = Some q'.
Proof.
  induction l as [|x l IH]; cbn [forallb arun]; intros H q; [now exists q|].
  apply andb_true_iff in H as [Hx H].
  unfold tl_step at 1. rewrite Hx, orb_true_r. cbn [negb]. rewrite andb_false_r.
  apply IH, H.
Qed.

Lemma tl_bar (q : bool) (s : str) : arun tl_step q (bar :: s) = arun tl_step false s.
Proof. cbn [arun]. unfold tl_step at 1. now destruct q. Qed.

Lemma tl_newline (q : bool) (s : str) : arun tl_step q (NL :: s) = arun tl_step true s.
Proof. cbn [arun]. unfold tl_step at 1. now destruct q. Qed.

(** One more row of the table. *)
Lemma tl_row (env : PyEnv) (pre l suf' : str) :
  matches env (Grp 2 (seqs [Chr (Lit NL); Bol true; text "|"; plus true Dot; text "|";
                           Rep true Space; Eol true])) pre l suf' ->
  forall q, exists q', arun tl_step q l = Some q'.
Proof.
  cbn [matches seqs text plus lit map list_ascii_of_string].
  intros (l1 & l2 & -> & (x & -> & Hx) & l3 & l4 & -> & [-> _]
          & l5 & l6 & -> & (y & -> & Hy) & l7 & l8 & -> & (l9 & l10 & -> & (z & -> & Hz) & Hd)
          & l11 & l12 & -> & (w & -> & Hw) & l13 & l14 & -> & Hs & [-> _]) q.
  cbn [cmatch] in Hx, Hy, Hw, Hs.
  apply N.eqb_eq in Hx, Hy, Hw. subst x y w.
  change (N_of_ascii "|") with bar.
  cbn [app]. rewrite tl_newline, tl_bar.
  change (z :: l10 ++ bar :: l13 ++ []) with ((z :: l10) ++ bar :: l13 ++ []).
  rewrite arun_app, (tl_dots env (z :: l10)), tl_bar, app_nil_r.
  - apply tl_spaces, Hs.
  - cbn [forallb]. apply andb_true_iff. split; [exact Hz|exact Hd].
Qed.

Lemma tl_rows (env : PyEnv) (a : regex) (pre l suf' : str) :
  (forall pre l suf', matches env a pre l suf' ->
                      forall q, exists q', arun tl_step q l = Some q') ->
  star_m (matches env a) pre l suf' ->
  forall q, exists q', arun tl_step q l = Some q'.
Proof.
  intros Ha. induction 1 as [pre suf'|pre l1 l2 suf' H1 _ IH]; intros q; [now exists q|].
  rewrite arun_app. destruct (Ha _ _ _ H1 q) as [q1 ->]. apply IH.
Qed.

(** In a table block every line but the first starts with a bar or a
    blank character. *)
Lemma table_match_accepted (env : PyEnv) (adv : bool) (pre suf t : str) (c : caps) :
  match_at env table_pattern adv pre suf = Some (t, c) ->
  exists q, arun tl_step false t = Some q.
Proof.
  intros H. apply match_at_sound in H as (suf' & -> & Hm).
  unfold table_pattern in Hm.
  cbn [matches seqs text plus lit map list_ascii_of_string] in Hm.
  destruct Hm as (l1 & l2 & -> & [-> _] & l3 & l4 & -> & (x & -> & Hx)
                  & l5 & l6 & -> & (l5a & l5b & -> & (x5 & -> & H5a) & H5b)
                  & l7 & l8 & -> & (y & -> & Hy)
                  & l9 & l10 & -> & Hs1 & l11 & l12 & -> & [-> _]
                  & l13 & l14 & -> & (z & -> & Hz) & l15 & l16 & -> & [-> _]
                  & l17 & l18 & -> & (w & -> & Hw)
                  & l19 & l20 & -> & (l19a & l19b & -> & (x19 & -> & H19a) & H19b)
                  & l21 & l22 & -> & (v & -> & Hv)
                  & l23 & l24 & -> & Hs2 & l25 & l26 & -> & [-> _] & Hstar).
  cbn [cmatch] in Hx, Hy, Hz, Hw, Hv, Hs1, Hs2.
  apply N.eqb_eq in Hx, Hy, Hz, Hw, Hv. subst x y z w v.
  change (N_of_ascii "|") with bar.
  cbn [app]. rewrite tl_bar.
  change (x5 :: l5b ++ bar :: l9 ++ NL :: bar :: x19 :: l19b ++ bar :: l23 ++ l26)
    with ((x5 :: l5b) ++ bar :: l9 ++ NL :: bar :: (x19 :: l19b) ++ bar :: l23 ++ l26).
  rewrite arun_app, (tl_dots env (x5 :: l5b)) by (cbn [forallb]; apply andb_true_iff; split; [exact H5a|exact H5b]).
  rewrite tl_bar, arun_app.
  destruct (tl_spaces l9 Hs1 false) as [q1 ->].
  rewrite tl_newline, tl_bar, arun_app.
  rewrite (tl_seps env (x19 :: l19b)) by (cbn [forallb]; apply andb_true_iff; split; [exact H19a|exact H19b]).
  rewrite tl_bar, arun_app.
  destruct (tl_spaces l23 Hs2 false) as [q2 ->].
  apply (tl_rows env _ _ l26 suf' (tl_row env) Hstar).
Qed.

Lemma tl_tableish (ls : list str) :
  forall q q', arun tl_step q (join [NL] ls) = Some q' ->
               Forall tableish (tl ls) /\ (q = true -> Forall tableish ls).
Proof.
  assert (Hhead : forall q l rest q', arun tl_step q (l ++ rest) = Some q' ->
                                      q = true -> tableish l).
  { intros q [|x l] rest q' H ->; [exact I|]. cbn [app arun] in H. cbn [tableish].
    unfold tl_step at 1 in H. cbn [andb] in H.
    destruct ((x =? bar) || isspace x) eqn:E; [|discriminate].
    apply orb_true_iff in E as [E|E]; [left; now apply N.eqb_eq|now right]. }
  induction ls as [|l ls IH]; intros q q' H; [split; constructor|].
  destruct ls as [|l2 ls].
  - cbn [join tl] in *. split; [constructor|]. intros Hq. constructor; [|constructor].
    apply (Hhead q l [] q'); [now rewrite app_nil_r|exact Hq].
  - rewrite join_cons in H. pose proof H as H0.
    apply arun_app_inv in H as (q1 & H1 & H2). cbn [app] in H2. rewrite tl_newline in H2.
    destruct (IH true q' H2) as [_ Hall]. specialize (Hall eq_refl).
    split; [exact Hall|]. intros Hq. constructor; [|exact Hall].
    exact (Hhead q l _ q' H0 Hq).
Qed.

(** The lines a table block takes are lines of a table. *)
Lemma table_block_tableish (env : PyEnv) (adv : bool) (pre suf : str) (g : list str)
    (c : caps) :
  match_at env table_pattern adv pre suf = Some (join [NL] g, c) ->
  Forall tableish g.
Proof.
  intros H. pose proof H as Hs.
  apply table_match_shape in Hs as (_ & t' & _ & Ht & _).
  apply table_match_accepted in H as [q Hq].
  destruct (tl_tableish g false q Hq) as [Htl _].
  destruct g as [|l g]; [constructor|]. constructor; [|exact Htl].
  destruct l as [|x l]; [exact I|]. left.
  destruct g; cbn in Ht; now injection Ht.
Qed.

(* ------------------------------------------------------------------ *)
(** *** What the table pass keeps *)

Lemma collapsed_length (env : PyEnv) (pre : str) (lines outl : list str) :
  collapsed env pre lines outl -> (length outl <= length lines)%nat.
Proof.
  induction 1 as [pre|pre l ls os _ _ IH|pre g ls os c Hg _ _ IH]; cbn [length]; try lia.
  rewrite length_app. destruct g; [congruence|cbn [length]; lia].
Qed.

Lemma search_from_app_false (env : PyEnv) (r : regex) (a b : str) :
  forall pre, search_from env r pre (a ++ b) = false ->
              search_from env r (rev a ++ pre) b = false.
Proof.
  induction a as [|x a IH]; intros pre H; [exact H|].
  cbn [app search_from] in H.
  destruct (match_at env r false pre (x :: a ++ b)); [discriminate|].
  apply IH in H. cbn [rev]. now rewrite <- app_assoc.
Qed.

Lemma search_from_here (env : PyEnv) (r : regex) (pre suf : str) :
  search_from env r pre suf = false -> match_at env r false pre suf = None.
Proof.
  destruct suf; cbn [search_from]; now destruct (match_at env r false pre _).
Qed.

Lemma collapsed_nil (env : PyEnv) (pre : str) (os : list str) :
  collapsed env pre [] os -> os = [].
Proof.
  inversion 1 as [|  |pre' g ls os' c Hg _ _ Heq]; [reflexivity|].
  destruct g; [congruence|discriminate].
Qed.

(** Without a table block the pass keeps every line. *)
Lemma collapsed_none (env : PyEnv) (pre : str) (lines outl : list str) :
  collapsed env pre lines outl ->
  search_from env table_pattern pre (join [NL] lines) = false -> outl = lines.
Proof.
  induction 1 as [pre|pre l ls os Hm Hc IH|pre g ls os c Hg Hm _ IH]; intros Hs;
    [reflexivity| |].
  - f_equal. destruct ls as [|l2 ls]; [now apply collapsed_nil in Hc|].
    apply IH. rewrite join_cons in Hs.
    change (l ++ [NL] ++ join [NL] (l2 :: ls)) with (l ++ NL :: join [NL] (l2 :: ls)) in Hs.
    replace (l ++ NL :: join [NL] (l2 :: ls)) with ((l ++ [NL]) ++ join [NL] (l2 :: ls)) in Hs
      by now rewrite <- app_assoc.
    apply search_from_app_false in Hs. now rewrite rev_app_distr in Hs.
  - apply search_from_here in Hs. congruence.
Qed.

(* ------------------------------------------------------------------ *)
(** *** A fenced block under the table pass *)

Lemma before_line_cons (pre l : str) (ls : list str) :
  before_line pre (l :: ls) = before_line (NL :: rev l ++ pre) ls.
Proof.
  unfold before_line. cbn [flat_map]. rewrite !rev_app_distr. cbn [rev app].
  now rewrite <- !app_assoc.
Qed.

Lemma before_line_block (pre : str) (g ls : list str) :
  g <> [] ->
  before_line pre (g ++ ls) = before_line (NL :: rev (join [NL] g) ++ pre) ls.
Proof.
  revert pre. induction g as [|l g IH]; intros pre Hg; [congruence|].
  cbn [app]. rewrite before_line_cons. destruct g as [|l2 g]; [reflexivity|].
  rewrite IH by discriminate. rewrite join_cons. f_equal.
  rewrite !rev_app_distr. cbn [rev app]. now rewrite <- !app_assoc.
Qed.

Lemma tableish_prefix (opening : str) (X : list str) (g : list str) :
  Forall tableish g -> ~ tableish opening ->
  forall ls before, g ++ ls = before ++ opening :: X ->
    exists before', before = g ++ before' /\ ls = before' ++ opening :: X.
Proof.
  intros Hg Ho. induction Hg as [|x g Hx _ IH]; intros ls before Heq.
  - now exists before.
  - destruct before as [|b before]; cbn [app] in Heq; injection Heq as -> Heq.
    + contradiction.
    + destruct (IH ls before Heq) as (before' & -> & ->). now exists before'.
Qed.

Lemma fence_not_tableish (env : PyEnv) (l : str) : is_fence env l = true -> ~ tableish l.
Proof.
  rewrite is_fence_tag. unfold fence_tag.
  destruct (startswith l backticks) eqn:E; [|discriminate]. intros _.
  apply startswith_true in E as [rest ->]. cbn. intros [H|H]; discriminate.
Qed.

Lemma tableish_no_fence (env : PyEnv) (g : list str) :
  Forall tableish g -> fence_count env g = 0%nat.
Proof.
  induction 1 as [|x g Hx _ IH]; [reflexivity|].
  unfold fence_count in *. cbn [filter].
  destruct (is_fence env x) eqn:E; [|exact IH].
  now apply fence_not_tableish in E.
Qed.

Lemma fence_count_app (env : PyEnv) (a b : list str) :
  fence_count env (a ++ b) = (fence_count env a + fence_count env b)%nat.
Proof. unfold fence_count. now rewrite filter_app, length_app. Qed.

Lemma fence_count_cons (env : PyEnv) (a : str) (b : list str) :
  fence_count env (a :: b) = (fence_count env [a] + fence_count env b)%nat.
Proof. apply (fence_count_app env [a] b). Qed.

Lemma placeholder_no_fence (env : PyEnv) (t : str) :
  is_fence env (placeholder_of env t) = false.
Proof. rewrite is_fence_tag. reflexivity. Qed.

Lemma collapsed_cons_inv (env : PyEnv) (pre l : str) (X os : list str) :
  collapsed env pre (l :: X) os ->
  (exists os', os = l :: os' /\
     match_at env table_pattern false pre (join [NL] (l :: X)) = None /\
     collapsed env (NL :: rev l ++ pre) X os') \/
  (exists g c, g <> [] /\ Forall tableish g /\ hd_error g = Some l /\
     match_at env table_pattern false pre (join [NL] (l :: X)) = Some (join [NL] g, c)).
Proof.
  intros H. remember (l :: X) as lines eqn:E.
  destruct H as [pre|pre l' ls os Hm Hrest|pre g ls os c Hg Hm Hrest].
  - discriminate.
  - injection E as -> ->. left. now exists os.
  - right. exists g, c. rewrite E in Hm |- *.
    split; [exact Hg|]. split; [exact (table_block_tableish env false pre _ g c Hm)|].
    split; [|exact Hm].
    destruct g; [congruence|]. cbn [app] in E. now injection E as ->.
Qed.

(** From the opening fence on: the lines of the block are kept when no
    table block starts at one of them. *)
Lemma collapsed_body (env : PyEnv) (closing : str) (rest : list str) :
  ~ tableish closing ->
  forall body pre os,
    collapsed env pre (body ++ closing :: rest) os ->
    (forall b1 l b2, body = b1 ++ l :: b2 ->
       match_at env table_pattern false (before_line pre b1)
                (join [NL] (l :: b2 ++ closing :: rest)) = None) ->
    exists r2, os = body ++ closing :: r2 /\ (length r2 <= length rest)%nat.
Proof.
  intros Hc. induction body as [|l body IH]; intros pre os Hcol Hno.
  - cbn [app] in *.
    apply collapsed_cons_inv in Hcol
      as [(os' & -> & Hm & Hrest)|(g & c & Hg & Ht & Hh & Hm)].
    + exists os'. split; [reflexivity|]. now apply collapsed_length in Hrest.
    + destruct g as [|x g]; [congruence|]. injection Hh as ->. now inversion Ht.
  - cbn [app] in *.
    apply collapsed_cons_inv in Hcol
      as [(os' & -> & Hm & Hrest)|(g & c & Hg & Ht & Hh & Hm)].
    + destruct (IH _ _ Hrest) as (r2 & -> & Hlen).
      * intros b1 l0 b2 ->. rewrite <- before_line_cons.
        now apply (Hno (l :: b1) l0 b2).
      * now exists r2.
    + pose proof (Hno [] l body eq_refl) as Hn. unfold before_line in Hn.
      cbn [flat_map rev app] in Hn. congruence.
Qed.

Lemma collapsed_block (env : PyEnv) (opening closing : str) (body rest : list str) :
  ~ tableish opening -> ~ tableish closing ->
  forall pre lines outl,
    collapsed env pre lines outl ->
    forall before,
      lines = before ++ opening :: body ++ closing :: rest ->
      (forall b1 l b2, body = b1 ++ l :: b2 ->
         match_at env table_pattern false (before_line pre (before ++ opening :: b1))
                  (join [NL] (l :: b2 ++ closing :: rest)) = None) ->
      exists b2 r2,
        outl = b2 ++ opening :: body ++ closing :: r2 /\
        (length b2 <= length before)%nat /\ (length r2 <= length rest)%nat /\
        fence_count env b2 = fence_count env before.
Proof.
  intros Ho Hc pre lines outl Hcol.
  induction Hcol as [pre|pre l ls os Hm Hrest IH|pre g ls os c Hg Hm Hrest IH];
    intros before Heq Hno.
  - now destruct before.
  - destruct before as [|b before]; cbn [app] in Heq; injection Heq as -> ->.
    + destruct (collapsed_body env closing rest Hc body _ _ Hrest) as (r2 & -> & Hlen).
      * intros b1 l0 b2 Hb. rewrite <- before_line_cons. now apply Hno.
      * exists [], r2. cbn [app length]. repeat split; auto.
    + destruct (IH before eq_refl) as (b2 & r2 & -> & Hl1 & Hl2 & Hf).
      * intros b1 l0 b2 Hb. rewrite <- before_line_cons. now apply (Hno b1 l0 b2).
      * exists (b :: b2), r2. cbn [app length]. repeat split; auto; [lia|].
        now rewrite (fence_count_cons env b b2), (fence_count_cons env b before), Hf.
  - pose proof (table_block_tableish env false pre _ g c Hm) as Hg'.
    destruct (tableish_prefix opening _ g Hg' Ho ls before Heq) as (before' & -> & ->).
    destruct (IH before' eq_refl) as (b2 & r2 & -> & Hl1 & Hl2 & Hf).
    + intros b1 l0 b2 Hb. rewrite <- (before_line_block pre g _ Hg).
      pose proof (Hno b1 l0 b2 Hb) as Hn. now rewrite <- app_assoc in Hn.
    + exists (placeholder_of env (join [NL] g) :: b2), r2. cbn [app length].
      repeat split; auto.
      * rewrite length_app. destruct g; [congruence|cbn [length]; lia].
      * rewrite fence_count_cons, fence_count_app, (tableish_no_fence env g Hg'), Hf.
        unfold fence_count at 1. cbn [filter]. now rewrite placeholder_no_fence.
Qed.

(* ------------------------------------------------------------------ *)
(** *** Placeholders restored, line by line *)

Lemma replace_token (k v s : str) : is_token k -> replace k v s = replace_from k v 0 s.
Proof. intros Hk. destruct (token_head k Hk) as [k' ->]. reflexivity. Qed.

Lemma replace_all_join (d : dict) :
  Forall is_token (map fst d) ->
  forall chunks,
    replace_all d (join [NL] chunks) = join [NL] (map (replace_all d) chunks).
Proof.
  induction d as [|[k v] d IH]; intros Hd chunks; cbn [replace_all].
  - now rewrite map_id.
  - cbn [map fst] in Hd. inversion Hd as [|? ? Hk Hd']; subst.
    rewrite replace_token by exact Hk.
    rewrite replace_from_join;
      [|destruct (token_head k Hk) as [k' ->]; discriminate|now apply token_no_newline].
    rewrite IH by exact Hd'. rewrite map_map. f_equal.
    apply map_ext. intros a. now rewrite replace_token.
Qed.

(** A text that holds no "%%TABLE_PLACEHOLDER_" holds no token. *)
Lemma replace_all_no_prefix (d : dict) (l : str) :
  Forall is_token (map fst d) ->
  ~ occurs placeholder_prefix l -> replace_all d l = l.
Proof.
  intros Hd Hl. induction d as [|[k v] d IH]; cbn [replace_all]; [reflexivity|].
  cbn [map fst] in Hd. inversion Hd as [|? ? Hk Hd']; subst.
  rewrite replace_token by exact Hk. rewrite replace_from_absent; [now apply IH|].
  intros a b ->. apply Hl. destruct Hk as (dg & -> & _).
  exists a, (dg ++ pct2 ++ b). now rewrite <- !app_assoc.
Qed.

Section ReplaceChars.
Variable P : N -> Prop.

Lemma Forall_replace_from (old new : str) :
  Forall P new -> forall s skip, Forall P s -> Forall P (replace_from old new skip s).
Proof.
  intros Hn. induction s as [|c s IH]; intros skip Hs; cbn [replace_from]; [constructor|].
  inversion Hs as [|? ? Hc Hs']; subst.
  destruct skip; [|now apply IH].
  destruct (startswith (c :: s) old).
  - apply Forall_app. split; [exact Hn|now apply IH].
  - constructor; [exact Hc|now apply IH].
Qed.

Lemma Forall_replace_all (d : dict) :
  Forall is_token (map fst d) -> Forall (fun kv => Forall P (snd kv)) d ->
  forall s, Forall P s -> Forall P (replace_all d s).
Proof.
  induction d as [|[k v] d IH]; intros Hk Hv s Hs; cbn [replace_all]; [exact Hs|].
  cbn [map fst] in Hk. inversion Hk; subst. inversion Hv; subst.
  apply IH; auto. rewrite replace_token by assumption.
  now apply Forall_replace_from.
Qed.

Hypothesis P_literals : Forall P (lit " |*" ++ [NL]).

Lemma Forall_render_table (t : str) : Forall P t -> Forall P (render_table t).
Proof.
  intros Ht. unfold render_table.
  assert (Hsp : P 32 /\ P bar /\ P 42 /\ P NL).
  { pose proof P_literals as HP. rewrite Forall_forall in HP.
    repeat split; apply HP; vm_compute; tauto. }
  destruct Hsp as (P32 & Pbar & P42 & PNL).
  assert (Hsep : Forall P (lit " | ")) by (repeat constructor; assumption).
  assert (Hlines : Forall (Forall P) (split NL (strip t)))
    by now apply Forall_split, Forall_strip_by.
  assert (Hcells : forall line, Forall P line ->
             Forall (Forall P) (map strip (split bar (strip_chars [bar] line)))).
  { intros line Hl. apply Forall_map.
    eapply Forall_impl; [|apply Forall_split, Forall_strip_by, Hl].
    intros cell Hc. now apply Forall_strip_by. }
  apply Forall_join; [now repeat constructor|]. constructor.
  - apply Forall_join; [exact Hsep|]. apply Forall_map.
    eapply Forall_impl; [|apply Hcells].
    + intros h Hh. apply Forall_app. split; [now repeat constructor|].
      apply Forall_app. split; [exact Hh|now repeat constructor].
    + destruct (split NL (strip t)) as [|l0 ls]; [constructor|]. now inversion Hlines.
  - apply Forall_map. apply Forall_map.
    assert (Hdata : Forall (Forall P)
              (if Nat.ltb 2 (length (split NL (strip t)))
               then skipn 2 (split NL (strip t)) else []))
      by (destruct (Nat.ltb 2 _); [now apply Forall_skipn'|constructor]).
    eapply Forall_impl; [|exact Hdata].
    intros line Hl. apply Forall_join; [exact Hsep|]. now apply Hcells.
Qed.

Lemma Forall_recorded (env : PyEnv) (text : str) (kv : str * str) :
  Forall P text -> recorded env text kv -> Forall P (snd kv).
Proof.
  intros Ht (t & (a & b & ->) & ->). cbn [snd]. apply Forall_render_table.
  apply Forall_app in Ht as [_ Ht]. now apply Forall_app in Ht as [Ht _].
Qed.
End ReplaceChars.

Lemma recorded_token (env : PyEnv) (text : str) (kv : str * str) :
  recorded env text kv -> is_token (fst kv).
Proof. intros (t & _ & ->). apply placeholder_is_token. Qed.

Lemma token_no_surrogate (k : str) : is_token k -> Forall (fun c => is_surrogate c = false) k.
Proof.
  intros (d & -> & Hd). apply Forall_app. split; [now repeat constructor|].
  apply Forall_app. split; [|now repeat constructor].
  rewrite forallb_forall in Hd. apply Forall_forall. intros c Hc. specialize (Hd c Hc).
  unfold sign_or_digit, ascii_isdigit in Hd. unfold is_surrogate.
  apply orb_true_iff in Hd as [Hd|Hd].
  - apply N.eqb_eq in Hd. now subst.
  - apply andb_true_iff in Hd as [_ Hd]. apply N.leb_le in Hd.
    apply andb_false_iff. left. apply N.leb_gt. lia.
Qed.

(* ------------------------------------------------------------------ *)
(** *** The table pass of [convert] *)

(** The first stage of [convert] on a text given by its lines. *)
Lemma tables_pass_scan (env : PyEnv) (lines : list str) (self : SlackMarkdownConverter) :
  lines <> [] -> Forall (fun l : str => ~ In NL l) lines ->
  exists outl self1,
    (set_table_replacements [] ;;; _convert_tables env (join [NL] lines)) self
      = (inr (join [NL] outl), self1) /\
    collapsed env [] lines outl /\ outl <> [] /\
    encoding self1 = encoding self /\ in_code_block self1 = in_code_block self /\
    Forall (recorded env (join [NL] lines)) (table_replacements self1) /\
    Forall (fun o : str => In o lines \/ In o (keys self1)) outl.
Proof.
  intros Hne Hnl.
  destruct (tables_scan env (length lines) lines (le_n _) Hne Hnl []
              {| encoding := encoding self; in_code_block := in_code_block self;
                 table_replacements := [] |} eq_refl)
    as (parts & outl & self1 & Hrun & Hcat & Hout & Hcol & He & Hf & Hrec & _ & Hin).
  exists outl, self1. cbn [encoding in_code_block table_replacements] in *.
  repeat split; auto.
  - unfold bind at 1, set_table_replacements, _convert_tables, bind.
    match goal with
    | |- context [@mapM ?A ?B ?f ?l ?st] =>
        change (@mapM A B f l st)
          with (mapM (table_callback env)
                  (pieces env table_pattern 0 [] (join [NL] lines))
                  {| encoding := encoding self; in_code_block := in_code_block self;
                     table_replacements := [] |})
    end.
    rewrite Hrun. unfold ret. now rewrite Hcat.
  - eapply Forall_impl; [|exact Hrec]. cbn. now intros kv [[]|H].
Qed.

Lemma recorded_keys (env : PyEnv) (text : str) (d : dict) :
  Forall (recorded env text) d -> Forall is_token (map fst d).
Proof.
  intros H. apply Forall_map. eapply Forall_impl; [|exact H].
  intros kv. apply recorded_token.
Qed.

Lemma recorded_values (env : PyEnv) (P : N -> Prop) (text : str) (d : dict) :
  Forall P (lit " |*" ++ [NL]) -> Forall P text ->
  Forall (recorded env text) d -> Forall (fun kv => Forall P (snd kv)) d.
Proof.
  intros HP Ht H. eapply Forall_impl; [|exact H].
  intros kv. now apply Forall_recorded.
Qed.

(* ------------------------------------------------------------------ *)
(** *** A fenced block in any text *)

Lemma firstn_length_app {A} (a b : list A) : firstn (length a) (a ++ b) = a.
Proof. induction a as [|x a IH]; cbn; [now destruct b|now rewrite IH]. Qed.

Lemma word_no_percent (env : PyEnv) (tag : str) :
  forallb (isword env) tag = true -> ~ In 37 (backticks ++ tag).
Proof.
  intros Ht Hin. apply in_app_or in Hin as [Hin|Hin].
  - revert Hin. vm_compute. intuition discriminate.
  - rewrite forallb_forall in Ht. specialize (Ht _ Hin). discriminate Ht.
Qed.

Lemma fence_line_not_tableish (tag : str) : ~ tableish (backticks ++ tag).
Proof. cbn. intros [H|H]; discriminate. Qed.

Lemma no_percent_no_prefix (l : str) : ~ In 37 l -> ~ occurs placeholder_prefix l.
Proof. intros Hl Ho. apply Hl. refine (occurs_percent _ _ _ Ho). now left. Qed.

Lemma convert_any_block (env : PyEnv) (self : SlackMarkdownConverter) (s : str)
    (before body rest : list str) (tag tag' : str) :
  encoding self = Utf8 ->
  existsb is_surrogate s = false ->
  strip s = join [NL] (before ++ (backticks ++ tag) :: body
                         ++ (backticks ++ tag') :: rest) ->
  Forall (fun l : str => ~ In NL l) (before ++ body ++ rest) ->
  forallb (isword env) (tag ++ tag') = true ->
  xorb (in_code_block self) (Nat.odd (fence_count env before)) = false ->
  Forall (fun l => re_match env fence_pattern l = None) body ->
  (forall i, (length before < i <= length before + length body)%nat ->
     table_starts env (before ++ (backticks ++ tag) :: body
                         ++ (backticks ++ tag') :: rest) i = false) ->
  (search env table_pattern (strip s) = false \/
   Forall (fun l => ~ occurs placeholder_prefix l) body) ->
  exists before' rest',
    returned (convert env s self) =
      inr (join [NL] (before' ++ (backticks ++ tag) :: body ++ backticks :: rest')) /\
    (length before' <= length before)%nat /\ (length rest' <= length rest)%nat /\
    (search env table_pattern (strip s) = false ->
     length before' = length before /\ length rest' = length rest).
Proof.
  intros Henc Hsur Hs Hnl Hw Hopen Hnf Htab Hpre.
  rewrite forallb_app in Hw. apply andb_true_iff in Hw as [Ht Ht'].
  apply Forall_app in Hnl as [Hnl1 Hnl]. apply Forall_app in Hnl as [Hnl2 Hnl3].
  set (opening := backticks ++ tag) in *. set (closing := backticks ++ tag') in *.
  set (lines := before ++ opening :: body ++ closing :: rest) in *.
  assert (Hlines : Forall (fun l : str => ~ In NL l) lines).
  { unfold lines. apply Forall_app. split; [exact Hnl1|].
    constructor; [now apply (word_no_newline env)|].
    apply Forall_app. split; [exact Hnl2|].
    constructor; [now apply (word_no_newline env)|exact Hnl3]. }
  assert (Hne : lines <> []) by (unfold lines; now destruct before).
  destruct s as [|c s].
  { exfalso. change (strip []) with (@nil N) in Hs.
    assert (Hin : In 96 (join [NL] lines)).
    { apply (in_join _ lines opening); [|now left].
      unfold lines. apply in_or_app. right. now left. }
    now rewrite <- Hs in Hin. }
  (* the table pass *)
  destruct (tables_pass_scan env lines self Hne Hlines)
    as (outl & self1 & Hpass & Hcol & Hout & He1 & Hf1 & Hrec & Hin).
  rewrite <- Hs in Hpass.
  rewrite (convert_after_tables env c s _ _ _ Hpass).
  assert (Hkeys : Forall is_token (keys self1)) by exact (recorded_keys env _ _ Hrec).
  destruct (collapsed_block env opening closing body rest
              (fence_line_not_tableish tag) (fence_line_not_tableish tag')
              [] lines outl Hcol before eq_refl)
    as (b2 & r2 & Houtl & Hl1 & Hl2 & Hfc).
  { intros b1 l b2 Hb.
    specialize (Htab (length (before ++ opening :: b1))).
    unfold table_starts in Htab.
    assert (Hsplit : lines = (before ++ opening :: b1) ++ l :: b2 ++ closing :: rest).
    { unfold lines. rewrite Hb. rewrite <- !app_assoc. reflexivity. }
    rewrite Hsplit, firstn_length_app, skipn_length_app in Htab.
    destruct (match_at env table_pattern false _ _); [|reflexivity].
    discriminate Htab. rewrite length_app, Hb. cbn [length]. rewrite length_app.
    cbn [length]. lia. }
  (* the lines after the pass *)
  assert (Hnlo : Forall (fun l : str => ~ In NL l) outl).
  { eapply Forall_impl; [|exact Hin]. cbn. intros o [Ho|Ho].
    - rewrite Forall_forall in Hlines. now apply Hlines.
    - rewrite Forall_forall in Hkeys. now apply token_no_newline, Hkeys. }
  rewrite (split_join NL outl Hout Hnlo).
  assert (Hsuro : Forall (Forall (fun c => is_surrogate c = false)) outl).
  { assert (Hsl : Forall (Forall (fun c => is_surrogate c = false)) lines).
    { rewrite <- (split_join NL lines Hne Hlines), <- Hs.
      apply Forall_split, Forall_strip_by. now apply existsb_false_Forall. }
    eapply Forall_impl; [|exact Hin]. cbn. intros o [Ho|Ho].
    - rewrite Forall_forall in Hsl. now apply Hsl.
    - rewrite Forall_forall in Hkeys. now apply token_no_surrogate, Hkeys. }
  (* the line pass, by parts *)
  destruct (mapM_lines_total env outl self1) as (outs & bf & Hall & _ & Hok).
  specialize (Hok Hsuro).
  destruct (mapM_lines_total env b2 self1) as (o1 & b1 & H1 & Hlen1 & _).
  destruct (mapM_flag env b2 self1) as (o1' & H1').
  rewrite H1 in H1'. injection H1' as <- Hb1.
  assert (Hst : in_code_block (with_flag self1 b1) = false).
  { rewrite Hb1. cbn [with_flag in_code_block]. now rewrite Hf1, Hfc. }
  destruct (fenced_block_lines env tag tag' body (with_flag self1 b1) Hst Ht Ht' Hnf)
    as [Hblock _].
  fold opening closing in Hblock.
  destruct (mapM_lines_total env r2 (with_flag self1 b1)) as (o3 & b3 & H3 & Hlen3 & _).
  assert (Hrun : mapM (_convert_line env) outl self1 =
                 (inr (o1 ++ (opening :: body ++ [backticks]) ++ o3),
                  with_flag (with_flag self1 b1) b3)).
  { rewrite Houtl.
    change (opening :: body ++ closing :: r2) with ((opening :: body) ++ closing :: r2).
    replace ((opening :: body) ++ closing :: r2)
      with ((opening :: body ++ [closing]) ++ r2)
      by (cbn [app]; now rewrite <- app_assoc).
    rewrite mapM_app, H1, mapM_app, Hblock. now rewrite H3. }
  rewrite Hrun in Hall. injection Hall as <- _.
  rewrite Hrun. cbn [with_flag encoding table_replacements].
  rewrite He1, Henc.
  (* nothing UTF-8 refuses *)
  assert (Hd : Forall (fun kv => Forall (fun c => is_surrogate c = false) (snd kv))
                      (table_replacements self1)).
  { apply (recorded_values env _ (join [NL] lines));
      [now repeat constructor| |exact Hrec].
    rewrite <- Hs. apply Forall_strip_by. now apply existsb_false_Forall. }
  assert (Hclean : existsb is_surrogate
                     (replace_all (table_replacements self1)
                        (join [NL] (o1 ++ (opening :: body ++ [backticks]) ++ o3))) = false).
  { apply existsb_false_Forall. apply Forall_replace_all; auto.
    apply Forall_join; [now repeat constructor|exact Hok]. }
  unfold encode_decode. rewrite Hclean.
  (* the placeholders restored *)
  rewrite (replace_all_join _ Hkeys), !map_app. cbn [map]. rewrite !map_app. cbn [map].
  assert (Hop : replace_all (table_replacements self1) opening = opening).
  { apply replace_all_no_prefix; [exact Hkeys|].
    now apply no_percent_no_prefix, (word_no_percent env). }
  assert (Hcl : replace_all (table_replacements self1) backticks = backticks).
  { apply replace_all_no_prefix; [exact Hkeys|].
    apply no_percent_no_prefix. vm_compute. intuition discriminate. }
  assert (Hbd : map (replace_all (table_replacements self1)) body = body).
  { rewrite <- (map_id body) at 2. apply map_ext_in. intros l Hl.
    destruct Hpre as [Hno|Hpre].
    - assert (Hd0 : table_replacements self1 = []).
      { unfold bind at 1, set_table_replacements in Hpass.
        rewrite (_convert_tables_no_match env _ _ Hno) in Hpass.
        now injection Hpass as _ <-. }
      now rewrite Hd0.
    - apply replace_all_no_prefix; [exact Hkeys|].
      rewrite Forall_forall in Hpre. now apply Hpre. }
  rewrite Hop, Hcl, Hbd.
  exists (map (replace_all (table_replacements self1)) o1),
         (map (replace_all (table_replacements self1)) o3).
  rewrite !length_map, Hlen1, Hlen3.
  split; [|split; [exact Hl1|split; [exact Hl2|]]].
  - unfold returned. cbn [fst]. do 2 f_equal. f_equal.
    cbn [app]. now rewrite <- app_assoc.
  - intros Hsearch. rewrite Hs in Hsearch.
    pose proof (collapsed_none env [] lines outl Hcol Hsearch) as E.
    rewrite Houtl in E. unfold lines in E. apply (f_equal (@length str)) in E.
    rewrite !length_app in E. cbn [length] in E. rewrite !length_app in E.
    cbn [length] in E. lia.
Qed.

(* ------------------------------------------------------------------ *)
(** *** Occurrences *)

Lemma occursb_spec (p s : str) : occursb p s = true <-> occurs p s.
Proof.
  induction s as [|c s IH]; cbn [occursb].
  - split.
    + intros H. apply startswith_true in H as [rest H]. exists [], rest. exact H.
    + intros (a & b & H). destruct a; [|discriminate]. cbn [app] in H.
      destruct p; [reflexivity|discriminate].
  - rewrite orb_true_iff, IH. split.
    + intros [H|(a & b & ->)].
      * apply startswith_true in H as [rest H]. now exists [], rest.
      * now exists (c :: a), b.
    + intros (a & b & H). destruct a as [|x a].
      * left. cbn [app] in H. rewrite H. apply startswith_app.
      * right. cbn [app] in H. injection H as _ ->. now exists a, b.
Qed.

Lemma occurs_factor (p a b c : str) : occurs p b -> occurs p (a ++ b ++ c).
Proof.
  intros (x & y & ->). exists (a ++ x), (y ++ c). now rewrite <- !app_assoc.
Qed.

(* ------------------------------------------------------------------ *)
(** *** The parts of a match *)

Section Parts.
Variable env : PyEnv.

Lemma gmatches_seqs_cons (r : regex) (rs : list regex) (pre l suf' : str) (c c' : caps) :
  gmatches env (seqs (r :: rs)) pre l suf' c c' ->
  exists l1 l2 c1, l = l1 ++ l2 /\ gmatches env r pre l1 (l2 ++ suf') c c1
                   /\ gmatches env (seqs rs) (rev l1 ++ pre) l2 suf' c1 c'.
Proof.
  destruct rs as [|r2 rs]; [|exact (fun H => H)].
  cbn [seqs]. intros H. exists l, [], c'. rewrite app_nil_r. cbn [app gmatches]. auto.
Qed.

Lemma gmatches_seqs_nil (pre l suf' : str) (c c' : caps) :
  gmatches env (seqs []) pre l suf' c c' -> l = [] /\ c' = c.
Proof. exact (fun H => H). Qed.

Lemma gmatches_lits (cs : str) (pre l suf' : str) (c c' : caps) :
  gmatches env (seqs (map (fun x => Chr (Lit x)) cs)) pre l suf' c c' -> l = cs /\ c' = c.
Proof.
  revert pre l c. induction cs as [|x cs IH]; intros pre l c H.
  - exact H.
  - cbn [map] in H. apply gmatches_seqs_cons in H as (l1 & l2 & c1 & -> & H1 & H2).
    cbn [gmatches cmatch] in H1. destruct H1 as [(y & -> & Hy) ->].
    apply N.eqb_eq in Hy. subst y. apply IH in H2 as [-> ->]. now split.
Qed.

Lemma gmatches_text (s : string) (pre l suf' : str) (c c' : caps) :
  gmatches env (text s) pre l suf' c c' -> l = lit s /\ c' = c.
Proof. apply gmatches_lits. Qed.

(** A pattern without groups leaves the groups as they are. *)
Lemma gmatches_no_groups (r : regex) :
  no_groups r = true ->
  forall pre l suf' c c', gmatches env r pre l suf' c c' ->
                          c' = c /\ matches env r pre l suf'.
Proof.
  induction r as [|cs|a IHa b IHb|a IHa b IHb|n a IHa|g cs|a IHa|ml|ml|cs|cs];
    cbn [no_groups gmatches matches]; intros Hn pre l suf' c c' H; try discriminate.
  - now destruct H.
  - now destruct H.
  - apply andb_true_iff in Hn as [Ha Hb].
    destruct H as (l1 & l2 & c1 & -> & H1 & H2).
    apply (IHa Ha) in H1 as [-> H1]. apply (IHb Hb) in H2 as [-> H2].
    split; [reflexivity|]. now exists l1, l2.
  - apply andb_true_iff in Hn as [Ha Hb]. destruct H as [H|H].
    + apply (IHa Ha) in H as [-> H]. auto.
    + apply (IHb Hb) in H as [-> H]. auto.
  - now destruct H.
  - now destruct H as (? & ? & ?).
  - now destruct H as (? & ? & ?).
  - now destruct H as (? & ? & ?).
  - now destruct H as (? & ? & ?).
Qed.

Lemma gmatches_group (n : nat) (a : regex) (pre l suf' : str) (c c' : caps) :
  no_groups a = true ->
  gmatches env (Grp n a) pre l suf' c c' ->
  c' = (n, l) :: c /\ matches env a pre l suf'.
Proof.
  intros Hn (c1 & H & ->). apply (gmatches_no_groups a Hn) in H as [-> H]. now split.
Qed.
End Parts.

Ltac gparts H :=
  repeat (apply gmatches_seqs_cons in H;
          let l1 := fresh "l" in let l2 := fresh "l" in let c1 := fresh "c" in
          let H1 := fresh "G" in
          destruct H as (l1 & l2 & c1 & -> & H1 & H));
  apply gmatches_seqs_nil in H; destruct H as [-> ->].

Ltac gelem G :=
  first [ apply gmatches_text in G; destruct G as [-> ->]
        | apply gmatches_group in G; [destruct G as [-> G]|reflexivity]
        | cbn [gmatches] in G; destruct G as (-> & ? & ->) ].

(* ------------------------------------------------------------------ *)
(** *** Texts without two percent signs in a row *)

Lemma rho_pp_refl (q : bool) : rho_pp q q.
Proof. now right. Qed.

Lemma pp_step_sim (q1 q2 q1' : bool) (x : N) :
  rho_pp q1 q2 -> pp_step q1 x = Some q1' ->
  exists q2', pp_step q2 x = Some q2' /\ rho_pp q1' q2'.
Proof.
  unfold rho_pp, pp_step. intros [->| ->] H.
  - destruct (x =? 37).
    + destruct q1; [discriminate|]. injection H as <-. exists true. auto.
    + injection H as <-. exists false. auto.
  - exists q1'. auto.
Qed.

Lemma sim_pp_refl (g : str) : sim_pp g g.
Proof.
  induction g as [|x g IH]; intros q1 q2 q1' Hr H; cbn [arun] in *.
  - injection H as <-. now exists q2.
  - destruct (pp_step q1 x) as [q|] eqn:E; [|discriminate].
    destruct (pp_step_sim _ _ _ _ Hr E) as (q2' & -> & Hr'). eauto.
Qed.

Lemma sim_pp_app (a a' b b' : str) :
  sim_pp a a' -> sim_pp b b' -> sim_pp (a ++ b) (a' ++ b').
Proof.
  intros Ha Hb q1 q2 q1' Hr H. apply arun_app_inv in H as (q & H1 & H2).
  destruct (Ha _ _ _ Hr H1) as (q2a & E1 & Hr1).
  destruct (Hb _ _ _ Hr1 H2) as (q2b & E2 & Hr2).
  exists q2b. split; [|exact Hr2]. now rewrite arun_app, E1.
Qed.

Lemma pp_fresh (t : str) (q : bool) :
  t <> [] -> ~ In 37 t -> arun pp_step q t = Some false.
Proof.
  revert q. induction t as [|x t IH]; intros q Hne Hn; [congruence|].
  cbn [arun]. unfold pp_step at 1.
  destruct (N.eqb_spec x 37) as [->|_]; [elim Hn; now left|].
  destruct t as [|y t]; [reflexivity|].
  apply IH; [discriminate|]. intros H. apply Hn. now right.
Qed.

(** Whatever is replaced, a text that is not empty and holds no percent
    sign does no harm. *)
Lemma sim_pp_fresh (m t : str) : t <> [] -> ~ In 37 t -> sim_pp m t.
Proof.
  intros Hne Hn q1 q2 q1' _ _. exists false. split; [now apply pp_fresh|now left].
Qed.

Ltac pp_fresh_tac := apply sim_pp_fresh; [discriminate|vm_compute; intuition discriminate].

Ltac pp_aligned :=
  repeat first [ apply sim_pp_refl
               | pp_fresh_tac
               | apply sim_pp_app; [first [apply sim_pp_refl|pp_fresh_tac]|] ].

Lemma sim_pp_link (l1 l2 : str) :
  sim_pp (lit "[" ++ l1 ++ lit "](" ++ l2 ++ lit ")")
         (lit "<" ++ l2 ++ lit "|" ++ l1 ++ lit ">").
Proof.
  assert (Hf : forall t q, t <> [] -> forallb (fun c => negb (c =? 37)) t = true ->
                           arun pp_step q t = Some false).
  { intros t q Hne Ht. apply pp_fresh; [exact Hne|].
    intros Hin. rewrite forallb_forall in Ht. now specialize (Ht _ Hin). }
  intros q1 q2 q1' _ H.
  rewrite arun_app, (Hf (lit "[")) in H by (discriminate || reflexivity).
  rewrite arun_app in H. destruct (arun pp_step false l1) as [s1|] eqn:E1; [|discriminate].
  rewrite arun_app, (Hf (lit "](")) in H by (discriminate || reflexivity).
  rewrite arun_app in H. destruct (arun pp_step false l2) as [s2|] eqn:E2; [|discriminate].
  rewrite (Hf (lit ")")) in H by (discriminate || reflexivity). injection H as <-.
  exists false. split; [|now left].
  rewrite arun_app, (Hf (lit "<")) by (discriminate || reflexivity).
  rewrite arun_app, E2, arun_app, (Hf (lit "|")) by (discriminate || reflexivity).
  rewrite arun_app, E1. apply Hf; (discriminate || reflexivity).
Qed.

Lemma patterns_pp (env : PyEnv) : Forall (rule_pp env) patterns.
Proof.
  unfold patterns, heading.
  repeat (apply Forall_cons || apply Forall_nil);
    intros adv pre suf m c H; apply match_at_gsound in H as (suf' & -> & H);
    cbn [fst snd] in *; gparts H;
    repeat match goal with G : gmatches _ _ _ _ _ _ _ |- _ => gelem G end;
    cbn [expand flat_map snd group Nat.eqb]; rewrite ?app_nil_r, ?app_nil_l;
    try solve [pp_aligned].
  - (* an unchecked box *)
    apply sim_pp_app; [apply sim_pp_refl|]. rewrite !app_assoc.
    apply sim_pp_app; [pp_fresh_tac|apply sim_pp_refl].
  - (* a checked box *)
    apply sim_pp_app; [apply sim_pp_refl|]. rewrite !app_assoc.
    apply sim_pp_app; [pp_fresh_tac|apply sim_pp_refl].
  - (* an image *)
    rewrite (app_assoc (lit "![")), (app_assoc (lit "![" ++ _)). pp_aligned.
  - rewrite app_assoc, <- (app_nil_r l2) at 1. pp_aligned.
  - rewrite app_assoc, <- (app_nil_r l2) at 1. pp_aligned.
  - rewrite app_assoc, <- (app_nil_r l2) at 1. pp_aligned.
  - rewrite app_assoc, <- (app_nil_r l2) at 1. pp_aligned.
  - rewrite app_assoc, <- (app_nil_r l2) at 1. pp_aligned.
  - rewrite app_assoc, <- (app_nil_r l2) at 1. pp_aligned.
  - (* a link *)
    apply sim_pp_link.
Qed.

(* ------------------------------------------------------------------ *)
(** *** Substitutions that bring no two percent signs together *)

Lemma match_never_empty (env : PyEnv) (r : regex) :
  has_literal r = true ->
  forall adv pre suf c, match_at env r adv pre suf <> Some ([], c).
Proof.
  intros Hr adv pre suf c H. apply Nat.leb_le in Hr.
  apply match_at_sound in H as (suf' & _ & Hm).
  apply (min_in_sound env (fun _ => true)) in Hm. cbn in Hm. lia.
Qed.

Lemma rho_pp_trans (q1 q2 q3 : bool) : rho_pp q1 q2 -> rho_pp q2 q3 -> rho_pp q1 q3.
Proof. unfold rho_pp. intros [->| ->] [->| ->]; auto. Qed.

Lemma sim_pp_trans (a b c : str) : sim_pp a b -> sim_pp b c -> sim_pp a c.
Proof.
  intros Hab Hbc q1 q2 q1' Hr H.
  destruct (Hab _ _ _ Hr H) as (q2' & H2 & Hr2).
  destruct (Hbc _ _ _ (rho_pp_refl q2) H2) as (q3 & H3 & Hr3).
  exists q3. split; [exact H3|]. now apply (rho_pp_trans _ q2').
Qed.

Lemma sub_fn_sim_pp (env : PyEnv) (r : regex) (f : mobj -> str) (s : str) :
  has_literal r = true ->
  (forall adv pre suf m c, match_at env r adv pre suf = Some (m, c) -> sim_pp m (f (m, c))) ->
  sim_pp s (sub_fn env r f s).
Proof.
  intros Hlit Hrule q1 q2 q1' Hr H.
  apply (sub_fn_sim env bool bool pp_step pp_step rho_pp (fun _ => True) r f
           (match_never_empty env r Hlit)) with (q1 := q1); auto.
  - intros adv pre m c suf' p1 p2 pf Hp Hrun _ Hm.
    apply arun_app_inv in Hrun as (p1' & Hrun & _).
    destruct (Hrule _ _ _ _ _ Hm _ _ _ Hp Hrun) as (p2' & H2 & Hr2).
    now exists p1', p2'.
  - intros pre x suf p1 p2 pf Hp Hrun _ _. cbn [arun] in Hrun.
    destruct (pp_step p1 x) as [p1'|] eqn:E; [|discriminate].
    destruct (pp_step_sim _ _ _ _ Hp E) as (p2' & H2 & Hr2). now exists p1', p2'.
Qed.

Lemma patterns_literal : forallb (fun pr => has_literal (fst pr)) patterns = true.
Proof. reflexivity. Qed.

Lemma fold_rules_pp (env : PyEnv) (ps : list (regex * list titem)) :
  forallb (fun pr => has_literal (fst pr)) ps = true ->
  Forall (rule_pp env) ps ->
  forall s, sim_pp s (fold_left (fun l pr => sub env (fst pr) (snd pr) l) ps s).
Proof.
  intros Hl Hp. induction Hp as [|pr ps Hpr _ IH]; intros s; cbn [fold_left].
  - apply sim_pp_refl.
  - cbn [forallb] in Hl. apply andb_true_iff in Hl as [Hl1 Hl2].
    apply (sim_pp_trans _ (sub env (fst pr) (snd pr) s)); [|now apply IH].
    now apply sub_fn_sim_pp.
Qed.

(** The sentinels are not met in such a text. *)
Lemma sentinel_sub_pp (env : PyEnv) (t : list titem) (s : str) :
  sim_pp s (sub env sentinel_pattern t s).
Proof.
  apply sub_fn_sim_pp; [reflexivity|].
  intros adv pre suf m c H. apply match_at_gsound in H as (suf' & -> & H).
  unfold sentinel_pattern in H. gparts H.
  repeat match goal with G : gmatches _ _ _ _ _ _ _ |- _ => gelem G end.
  intros q1 q2 q1' _ Hrun. exfalso. rewrite arun_app in Hrun.
  assert (Hd : arun pp_step q1 (lit "%%BOLDITALIC_START%%") = None) by now destruct q1.
  rewrite Hd in Hrun. discriminate.
Qed.

(* ------------------------------------------------------------------ *)
(** *** Two percent signs in a row, and the automaton *)

Lemma pp_dead (q : bool) (s : str) : arun pp_step q (37 :: 37 :: s) = None.
Proof. now destruct q. Qed.

Lemma pp_ok_no_pair (s : str) (q : bool) :
  arun pp_step q s <> None -> ~ occurs pct2 s.
Proof.
  intros H (a & b & ->). apply H. rewrite arun_app.
  destruct (arun pp_step q a); [apply pp_dead|reflexivity].
Qed.

Lemma no_pair_pp_ok (s : str) :
  ~ occurs pct2 s ->
  forall q, (q = true -> hd_error s <> Some 37) -> arun pp_step q s <> None.
Proof.
  induction s as [|x s IH]; intros Hn q Hq; [discriminate|].
  cbn [arun]. unfold pp_step at 1.
  assert (Hs : ~ occurs pct2 s).
  { intros (a & b & ->). apply Hn. now exists (x :: a), b. }
  destruct (N.eqb_spec x 37) as [->|Hx].
  - destruct q; [now elim (Hq eq_refl)|].
    apply IH; [exact Hs|]. intros _ Hh. apply Hn.
    destruct s as [|y s]; [discriminate|]. injection Hh as ->. now exists [], s.
  - apply IH; [exact Hs|discriminate].
Qed.

Lemma pp_ok_iff (s : str) : pp_ok s <-> ~ occurs pct2 s.
Proof.
  split; [apply pp_ok_no_pair|]. intros H. apply no_pair_pp_ok; [exact H|discriminate].
Qed.

Lemma sim_pp_ok (a b : str) : sim_pp a b -> pp_ok a -> pp_ok b.
Proof.
  unfold pp_ok. intros Hs Ha.
  destruct (arun pp_step false a) as [q|] eqn:E; [|congruence].
  destruct (Hs false false q (rho_pp_refl _) E) as (q' & -> & _). discriminate.
Qed.

Lemma pp_ok_prefix (a b : str) : pp_ok (a ++ b) -> pp_ok a.
Proof.
  unfold pp_ok. rewrite arun_app. now destruct (arun pp_step false a).
Qed.

(** A line without three asterisks in a row. *)
Lemma rewrite_rules_pp (env : PyEnv) (line : str) :
  has3 line = false -> pp_ok line -> pp_ok (rewrite_rules env line).
Proof.
  intros H3 Hok. unfold rewrite_rules.
  rewrite sub_fn_no_match by now apply search_triple_none.
  unfold rstrip.
  match goal with
  | |- pp_ok (rstrip_by isspace ?x) =>
      destruct (rstrip_by_prefix isspace x) as [b Hb];
      apply (pp_ok_prefix _ b); rewrite <- Hb
  end.
  refine (sim_pp_ok _ _ _ Hok).
  eapply sim_pp_trans; [|apply sentinel_sub_pp].
  apply fold_rules_pp; [exact patterns_literal|apply patterns_pp].
Qed.

(* ------------------------------------------------------------------ *)
(** *** The automaton of the sentinels *)

Lemma sw_step_text (ins p : bool) (c : N) :
  sw_step (sw_text ins p) c =
  if c =? NL then None
  else if c =? 37 then Some (if p then (ins, 2%nat, false) else sw_text ins true)
       else Some (sw_text ins false).
Proof. unfold sw_text, sw_step. destruct p, (c =? NL), (c =? 37); reflexivity. Qed.

(** Text without two percent signs in a row is read in the text states. *)
Lemma sw_reads_text (ins : bool) (u : str) :
  forall p p', arun pn_step p u = Some p' ->
               arun sw_step (sw_text ins p) u = Some (sw_text ins p').
Proof.
  induction u as [|x u IH]; intros p p' H; cbn [arun] in *.
  - now injection H as <-.
  - rewrite sw_step_text. unfold pn_step, pp_step in H.
    destruct (x =? NL); [discriminate|]. destruct (x =? 37).
    + destruct p; [discriminate|]. now apply IH.
    + now apply IH.
Qed.

Lemma sw_reads_token (ins p : bool) :
  arun sw_step (sw_text ins p) (sw_tok ins) = Some (sw_text (negb ins) false).
Proof. destruct ins, p; reflexivity. Qed.

Lemma sw_neutral (q q' : sw_state) (x : N) :
  sw_step q x = Some q' -> neutral x = true ->
  exists (ins p : bool), q = (ins, (if p then 1%nat else 0%nat), snd q) /\ q' = sw_text ins false.
Proof.
  destruct q as [[ins k] lead]. unfold neutral. intros H Hx.
  apply negb_true_iff in Hx.
  assert (Hin : forall y, In y (NL :: triple_start ++ triple_end) -> (x =? y) = false).
  { intros y Hy. destruct (x =? y) eqn:E; [|reflexivity].
    rewrite <- Hx. symmetry. apply existsb_exists. now exists y. }
  unfold sw_step in H. rewrite (Hin NL) in H by now left.
  rewrite (Hin 37) in H by (vm_compute; tauto).
  destruct k as [|[|k]].
  - injection H as <-. now exists ins, false.
  - injection H as <-. now exists ins, true.
  - exfalso. cbn [andb] in H.
    destruct (nth_error (sw_tok ins) (S (S k))) as [y|] eqn:E; [|discriminate].
    apply nth_error_In in E. rewrite Hin in H; [discriminate|].
    right. apply in_or_app. destruct ins; [now right|now left].
Qed.

Lemma sw_plain_run (ins : bool) (t : str) :
  forallb plainc t = true ->
  forall p, arun sw_step (sw_text ins p) t = Some (sw_text ins (p && match t with [] => true | _ => false end)).
Proof.
  induction t as [|x t IH]; intros Ht p; cbn [arun].
  - now rewrite andb_true_r.
  - cbn [forallb] in Ht. apply andb_true_iff in Ht as [Hx Ht].
    unfold plainc in Hx. apply andb_true_iff in Hx as [H1 H2].
    apply negb_true_iff in H1, H2. rewrite sw_step_text, H1, H2, (IH Ht).
    now rewrite andb_false_r.
Qed.

Lemma keeps_refl (g : str) : keeps g g.
Proof. now intros q q' H. Qed.

Lemma keeps_app (a a' b b' : str) : keeps a a' -> keeps b b' -> keeps (a ++ b) (a' ++ b').
Proof.
  intros Ha Hb q q' H. apply arun_app_inv in H as (q1 & H1 & H2).
  rewrite arun_app, (Ha _ _ H1). now apply Hb.
Qed.

(** A piece of text that the automaton can only read in text, and that
    ends away from a percent sign, may be replaced by any other such
    piece. *)
Lemma keeps_text (d t : str) :
  (forall q q', arun sw_step q d = Some q' ->
                exists (ins p : bool), q = (ins, (if p then 1%nat else 0%nat), snd q)
                              /\ q' = sw_text ins false) ->
  t <> [] -> forallb plainc t = true -> keeps d t.
Proof.
  intros Hd Hne Ht q q' H. destruct (Hd _ _ H) as (ins & p & Hq & ->).
  destruct q as [[i k] lead]. cbn [snd] in Hq. injection Hq as -> ->.
  destruct t as [|x t]; [congruence|]. cbn [arun].
  cbn [forallb] in Ht. apply andb_true_iff in Ht as [Hx Ht].
  unfold plainc in Hx. apply andb_true_iff in Hx as [H1 H2].
  apply negb_true_iff in H1, H2.
  assert (E : sw_step (ins, (if p then 1%nat else 0%nat), lead) x = Some (sw_text ins false)).
  { unfold sw_step. rewrite H1, H2. now destruct p. }
  rewrite E, (sw_plain_run ins t Ht). now rewrite andb_false_l.
Qed.

Lemma keeps_lit (x : N) (d t : str) :
  neutral x = true -> forallb plainc d = true ->
  t <> [] -> forallb plainc t = true -> keeps (x :: d) t.
Proof.
  intros Hx Hd. apply keeps_text. intros q q' H. cbn [arun] in H.
  destruct (sw_step q x) as [q1|] eqn:E; [|discriminate].
  destruct (sw_neutral _ _ _ E Hx) as (ins & p & Hq & ->).
  exists ins, p. split; [exact Hq|].
  rewrite (sw_plain_run ins d Hd) in H. rewrite andb_false_l in H. now injection H as <-.
Qed.

(** Two underscores in a row are in no sentinel. *)
Lemma keeps_underscores (d t : str) :
  forallb plainc d = true ->
  t <> [] -> forallb plainc t = true -> keeps (lit "__" ++ d) t.
Proof.
  intros Hd. apply keeps_text. intros q q' H.
  destruct q as [[ins k] lead]. cbn [snd].
  assert (Hk : (k <= 1)%nat).
  { destruct ins;
      do 21 (destruct k as [|k]; [try lia; exfalso; destruct lead; cbn in H; discriminate|]);
      exfalso; destruct lead; cbn in H; discriminate. }
  destruct k as [|[|k]]; [| |lia].
  - exists ins, false. split; [reflexivity|].
    change (ins, 0%nat, lead) with (ins, 0%nat, lead) in H.
    cbn [lit list_ascii_of_string map app arun] in H.
    change (sw_step (ins, 0%nat, lead) (N_of_ascii "_")) with (Some (sw_text ins false)) in H.
    cbn [arun] in H. rewrite sw_step_text in H. cbn in H.
    change (ins, 0%nat, false) with (sw_text ins false) in H.
    rewrite (sw_plain_run ins d Hd) in H. now injection H as <-.
  - exists ins, true. split; [reflexivity|].
    cbn [lit list_ascii_of_string map app arun] in H.
    change (sw_step (ins, 1%nat, lead) (N_of_ascii "_")) with (Some (sw_text ins false)) in H.
    cbn [arun] in H. rewrite sw_step_text in H. cbn in H.
    change (ins, 0%nat, false) with (sw_text ins false) in H.
    rewrite (sw_plain_run ins d Hd) in H. now injection H as <-.
Qed.

Lemma sw_no_newline (s : str) :
  forall q q', arun sw_step q s = Some q' -> ~ In NL s.
Proof.
  induction s as [|x s IH]; intros q q' H; [intros []|]. cbn [arun] in H.
  destruct (sw_step q x) as [q1|] eqn:E; [|discriminate].
  intros [->|Hin]; [|exact (IH _ _ H Hin)].
  destruct q as [[ins k] lead]. unfold sw_step in E. rewrite N.eqb_refl in E. discriminate.
Qed.

(* ------------------------------------------------------------------ *)
(** *** The rules on a line with sentinels *)

Lemma sub_keeps (env : PyEnv) (r : regex) (t : list titem) (L : str) :
  has_literal r = true -> rule_sw env (r, t) -> keeps L (sub env r t L).
Proof.
  intros Hlit Hrule q qf H.
  assert (Hs : exists qf2, arun sw_step q (sub env r t L) = Some qf2 /\ qf = qf2).
  { apply (sub_fn_sim env sw_state sw_state sw_step sw_step eq (fun _ => True) r (expand t)
             (match_never_empty env r Hlit)) with (q1 := q); auto.
    - intros adv pre m c suf' q1 q2 qf' <- Hrun _ Hm.
      apply arun_app_inv in Hrun as (q1' & Hrun & _).
      exists q1', q1'. repeat split; [exact Hrun|].
      exact (Hrule _ _ _ _ _ Hm _ _ Hrun).
    - intros pre x suf q1 q2 qf' <- Hrun _ _. cbn [arun] in Hrun.
      destruct (sw_step q1 x) as [q1'|] eqn:E; [|discriminate]. now exists q1', q1'. }
  now destruct Hs as (qf2 & -> & ->).
Qed.

Lemma matches_lits (env : PyEnv) (cs : str) (pre l suf' : str) :
  matches env (seqs (map (fun x => Chr (Lit x)) cs)) pre l suf' -> l = cs.
Proof.
  revert pre l. induction cs as [|x [|y cs] IH]; intros pre l H.
  - exact H.
  - destruct H as (z & -> & Hz). apply N.eqb_eq in Hz. now subst.
  - cbn [map seqs] in H. destruct H as (l1 & l2 & -> & (z & -> & Hz) & H2).
    apply N.eqb_eq in Hz. subst z. apply IH in H2. now subst.
Qed.

Ltac sw_lit_tac :=
  first [ apply keeps_lit; [reflexivity|reflexivity|discriminate|reflexivity]
        | apply keeps_underscores; [reflexivity|discriminate|reflexivity] ].

Ltac sw_aligned :=
  repeat first [ apply keeps_refl
               | sw_lit_tac
               | apply keeps_app; [first [apply keeps_refl|sw_lit_tac]|] ].

Lemma rules_keep (env : PyEnv) :
  Forall (fun pr => rule_sw env pr \/ (1 <= min_in (N.eqb 91) (fst pr))%nat
                    \/ exists n, (n <= 6)%nat /\ pr = heading n)
         patterns.
Proof.
  unfold patterns.
  repeat (apply Forall_cons || apply Forall_nil);
    try solve [right; left; cbn; lia];
    try solve [right; right; eexists; split; [|reflexivity]; lia];
    left; intros adv pre suf m c H; apply match_at_gsound in H as (suf' & -> & H);
    cbn [fst snd] in *; gparts H;
    repeat match goal with G : gmatches _ _ _ _ _ _ _ |- _ => gelem G end;
    cbn [expand flat_map snd group Nat.eqb]; rewrite ?app_nil_r, ?app_nil_l;
    try solve [sw_aligned].
  (* a rule *)
  match goal with G : matches _ _ _ _ _ |- _ =>
    destruct G as [G|[G|G]]; apply matches_lits in G; subst l1
  end.
  - apply keeps_lit; [reflexivity|reflexivity|discriminate|reflexivity].
  - apply keeps_lit; [reflexivity|reflexivity|discriminate|reflexivity].
  - apply (keeps_underscores (lit "_")); [reflexivity|discriminate|reflexivity].
Qed.

(* ------------------------------------------------------------------ *)
(** *** Headings

    On one line a heading rule replaces the whole line or nothing. *)

Lemma heading_at_start (env : PyEnv) (n : nat) (adv : bool) (y : N) (pre suf : str)
    (m : mobj) :
  match_at env (fst (heading n)) adv (y :: pre) suf = Some m -> y = NL.
Proof.
  destruct m as [m c]. intros H. apply match_at_gsound in H as (suf' & -> & H).
  unfold heading in H. cbn [fst] in H.
  apply gmatches_seqs_cons in H as (l1 & l2 & c1 & -> & G & _).
  cbn [gmatches bol] in G. destruct G as (_ & G & _).
  cbn [andb] in G. now apply N.eqb_eq in G.
Qed.

Lemma heading_search_false (env : PyEnv) (n : nat) (suf : str) :
  forall y pre, y <> NL -> ~ In NL suf ->
                search_from env (fst (heading n)) (y :: pre) suf = false.
Proof.
  induction suf as [|x suf IH]; intros y pre Hy Hs; cbn [search_from].
  - destruct (match_at env (fst (heading n)) false (y :: pre) []) eqn:E; [|reflexivity].
    now apply heading_at_start in E.
  - destruct (match_at env (fst (heading n)) false (y :: pre) (x :: suf)) eqn:E.
    + now apply heading_at_start in E.
    + apply IH; intros Hx; apply Hs; [left; now symmetry|now right].
Qed.

Lemma heading_whole_line (env : PyEnv) (n : nat) (L : str) :
  ~ In NL L ->
  sub env (fst (heading n)) (snd (heading n)) L = L \/
  exists g, L = (lit (String.concat "" (repeat "#"%string n)) ++ lit " ") ++ g /\
            sub env (fst (heading n)) (snd (heading n)) L = lit "*" ++ g ++ lit "*".
Proof.
  intros Hnl.
  destruct (match_at env (fst (heading n)) false [] L) as [[m c]|] eqn:Hm.
  - right. pose proof Hm as Hg. apply match_at_gsound in Hg as (suf' & E & Hg).
    unfold heading in Hg. cbn [fst] in Hg. gparts Hg.
    repeat match goal with G : gmatches _ _ _ _ _ _ _ |- _ => gelem G end.
    cbn [app] in H. rewrite ?app_nil_r in Hm, E. cbn [app] in Hm, E.
    assert (Hs : suf' = []).
    { destruct (eol_cases _ H) as [Hs|[s Hs]]; [exact Hs|].
      exfalso. apply Hnl. rewrite E, Hs. apply in_or_app. right. now left. }
    subst suf'. rewrite app_nil_r in E. exists l2. split.
    { rewrite E. now rewrite <- app_assoc. }
    destruct (lit (String.concat "" (repeat "#"%string n)) ++ lit " " ++ l2)
      as [|x t] eqn:Em.
    { apply app_eq_nil in Em as [_ Em]. discriminate Em. }
    unfold sub, sub_fn. rewrite E in Hm |- *.
    assert (Hm' : match_at env (fst (heading n)) false [] ((x :: t) ++ [])
                  = Some (x :: t, [(1%nat, l2)])) by (now rewrite app_nil_r).
    rewrite <- (app_nil_r (x :: t)), (pieces_match _ _ _ _ _ _ _ Hm').
    rewrite app_nil_r. cbn [flat_map pieces].
    destruct (rev (x :: t)) as [|y p] eqn:Er.
    { apply (f_equal (@length N)) in Er. rewrite length_rev in Er. discriminate Er. }
    assert (Hy : y <> NL).
    { intros ->. apply Hnl. rewrite E. apply in_rev. rewrite Er. now left. }
    destruct (match_at env (fst (heading n)) false (y :: p) []) as [[[|z u] c]|] eqn:E1;
      try (apply heading_at_start in E1; congruence).
    destruct (match_at env (fst (heading n)) true (y :: p) []) as [[u c']|] eqn:E2;
      try (apply heading_at_start in E2; congruence).
    cbn [flat_map]. unfold heading. cbn [expand snd flat_map group Nat.eqb].
    now rewrite !app_nil_r.
  - left. apply sub_fn_no_match. unfold search.
    destruct L as [|x L]; cbn [search_from]; rewrite Hm; [reflexivity|].
    apply heading_search_false; intros Hx; apply Hnl; [left; now symmetry|now right].
Qed.

Lemma heading_sw (env : PyEnv) (n : nat) (L : str) :
  (n <= 6)%nat -> sw_ok L -> sw_ok (sub env (fst (heading n)) (snd (heading n)) L).
Proof.
  intros Hn [p Hok].
  destruct (heading_whole_line env n L (sw_no_newline _ _ _ Hok)) as [->|(g & E & ->)];
    [now exists p|].
  rewrite E, arun_app in Hok.
  assert (Hh : forallb plainc (lit (String.concat "" (repeat "#"%string n)) ++ lit " ")
               = true).
  { do 7 (destruct n as [|n]; [reflexivity|]). lia. }
  rewrite (sw_plain_run false _ Hh) in Hok. rewrite andb_false_l in Hok.
  exists false. rewrite arun_app, (sw_plain_run false (lit "*") eq_refl).
  cbn [andb]. rewrite arun_app, Hok.
  rewrite (sw_plain_run false (lit "*") eq_refl). now rewrite andb_false_r.
Qed.

(* ------------------------------------------------------------------ *)
(** *** The ordered rules keep the sentinels in place

    on a line without opening square bracket: the rules for images,
    links and task lists find nothing to do. *)

Lemma no_bracket_count (L : str) : ~ In 91 L -> count_in (N.eqb 91) L = 0%nat.
Proof.
  intros H. apply count_in_zero, Forall_forall. intros c Hc.
  destruct (N.eqb_spec 91 c) as [<-|]; [contradiction|reflexivity].
Qed.

Lemma fold_rules_sw (env : PyEnv) (ps : list (regex * list titem)) :
  Forall (fun pr => rule_sw env pr \/ (1 <= min_in (N.eqb 91) (fst pr))%nat
                    \/ exists n, (n <= 6)%nat /\ pr = heading n) ps ->
  forallb (fun pr => has_literal (fst pr)) ps = true ->
  Forall (fun pr => Forall (titemP (fun c => c <> 91)) (snd pr)) ps ->
  forall L, sw_ok L -> ~ In 91 L ->
            sw_ok (fold_left (fun l pr => sub env (fst pr) (snd pr) l) ps L).
Proof.
  induction 1 as [|pr ps Hpr _ IH]; intros Hlit Ht L Hok Hb; cbn [fold_left]; [exact Hok|].
  cbn [forallb] in Hlit. apply andb_true_iff in Hlit as [Hl1 Hl2].
  inversion Ht as [|? ? Ht1 Ht2]; subst.
  apply IH; [exact Hl2|exact Ht2| |].
  - destruct Hpr as [Hk|[Hn|(n & Hn & ->)]].
    + destruct Hok as [p Hok]. exists p. apply sub_keeps; [exact Hl1| |exact Hok].
      now destruct pr.
    + rewrite (sub_needs env (N.eqb 91)); [exact Hok|].
      rewrite no_bracket_count by exact Hb. lia.
    + now apply heading_sw.
  - intros Hin.
    pose proof (sub_chars env (fun c => c <> 91) (fst pr) (snd pr) L Ht1) as Hc.
    assert (HL : Forall (fun c => c <> 91) L).
    { apply Forall_forall. intros c Hc' ->. exact (Hb Hc'). }
    specialize (Hc HL). rewrite Forall_forall in Hc. now apply (Hc 91 Hin).
Qed.

Lemma patterns_no_bracket :
  Forall (fun pr : regex * list titem => Forall (titemP (fun c => c <> 91)) (snd pr)) patterns.
Proof.
  unfold patterns, heading. repeat (apply Forall_cons || apply Forall_nil);
    cbn [snd]; repeat (apply Forall_cons || apply Forall_nil); cbn [titemP];
    try exact I; repeat (apply Forall_cons || apply Forall_nil); discriminate.
Qed.

(* ------------------------------------------------------------------ *)
(** *** The first step puts the sentinels in place *)

Lemma pn_stars (p : bool) : arun pn_step p (lit "***") = Some false.
Proof. now destruct p. Qed.

Lemma triple_sw (env : PyEnv) (L : str) (p : bool) :
  arun pn_step false L = Some p ->
  sw_ok (sub_fn env triple_pattern
           (fun m => triple_start ++ group 1 (snd m) ++ triple_end) L).
Proof.
  intros H.
  destruct (sub_fn_sim env bool sw_state pn_step sw_step
              (fun p q => q = sw_text false p) (fun _ => True) triple_pattern
              (fun m => triple_start ++ group 1 (snd m) ++ triple_end)
              (match_never_empty env triple_pattern eq_refl)) with
    (s := L) (q1 := false) (q2 := sw_text false false) (qf := p) as (qf & Hq & ->); auto.
  - intros adv pre m c suf' q1 q2 qf -> Hrun _ Hm.
    apply match_at_gsound in Hm as (suf'' & _ & Hm).
    unfold triple_pattern in Hm. gparts Hm.
    repeat match goal with G : gmatches _ _ _ _ _ _ _ |- _ => gelem G end.
    rewrite ?app_nil_r, ?app_nil_l in *.
    apply arun_app_inv in Hrun as (q1' & Hrun & _).
    rewrite arun_app, pn_stars in Hrun.
    apply arun_app_inv in Hrun as (pg & Hg & Hrun). rewrite pn_stars in Hrun.
    injection Hrun as <-. exists false, (sw_text false false). repeat split.
    + rewrite arun_app, pn_stars, arun_app, Hg. apply pn_stars.
    + cbn [snd group Nat.eqb].
      change triple_start with (sw_tok false). change triple_end with (sw_tok true).
      rewrite arun_app, (sw_reads_token false q1), arun_app. cbn [negb].
      rewrite (sw_reads_text true _ _ _ Hg). apply (sw_reads_token true).
  - intros pre x suf q1 q2 qf -> Hrun _ _. cbn [arun] in Hrun.
    destruct (pn_step q1 x) as [q1'|] eqn:E; [|discriminate].
    exists q1', (sw_text false q1'). repeat split.
    assert (E1 : arun pn_step q1 [x] = Some q1') by (cbn [arun]; now rewrite E).
    apply (sw_reads_text false) in E1. cbn [arun] in E1.
    now destruct (sw_step (sw_text false q1) x).
  - now exists p.
Qed.

(* ------------------------------------------------------------------ *)
(** *** What an accepted line is made of *)

Lemma sw_step_mid (ins : bool) (k : nat) (lead : bool) (c : N) :
  (2 <= k)%nat ->
  sw_step (ins, k, lead) c =
  if c =? NL then None
  else if (c =? 37) && Nat.eqb k 2
       then (if lead then None else Some (ins, 2%nat, true))
       else match nth_error (sw_tok ins) k with
            | Some x =>
                if c =? x
                then Some (if Nat.eqb (S k) (length (sw_tok ins))
                           then (negb ins, 0%nat, false) else (ins, S k, false))
                else None
            | None => None
            end.
Proof. destruct k as [|[|k]]; [lia|lia|reflexivity]. Qed.

Lemma skipn_nth {A} (l : list A) :
  forall k x, nth_error l k = Some x -> skipn k l = x :: skipn (S k) l.
Proof.
  induction l as [|y l IH]; intros [|k] x H; try discriminate.
  - now injection H as ->.
  - cbn [nth_error] in H. cbn [skipn]. now apply IH.
Qed.

Lemma sw_text_state (ins : bool) (k : nat) (lead i p : bool) :
  (ins, k, lead) = sw_text i p -> (k <= 1)%nat.
Proof. unfold sw_text. intros H. injection H as _ -> _. destruct p; lia. Qed.

(** From inside a sentinel the rest of it must follow. *)
Lemma sw_forced (ins : bool) (n : nat) :
  forall k s i p, (3 <= k)%nat -> (k + n = length (sw_tok ins))%nat ->
    arun sw_step (ins, k, false) s = Some (sw_text i p) ->
    exists rest, s = skipn k (sw_tok ins) ++ rest /\
                 arun sw_step (sw_text (negb ins) false) rest = Some (sw_text i p).
Proof.
  induction n as [|n IH]; intros k s i p Hk Hlen H.
  - exfalso. destruct s as [|c s]; cbn [arun] in H.
    + assert (H' : (ins, k, false) = sw_text i p) by congruence.
      apply sw_text_state in H'. lia.
    + rewrite sw_step_mid in H by lia.
      destruct (c =? NL); [discriminate|].
      replace (Nat.eqb k 2) with false in H by (symmetry; apply Nat.eqb_neq; lia).
      rewrite andb_false_r in H.
      assert (E : nth_error (sw_tok ins) k = None) by (apply nth_error_None; lia).
      rewrite E in H. discriminate.
  - destruct s as [|c s]; cbn [arun] in H.
    + assert (H' : (ins, k, false) = sw_text i p) by congruence.
      apply sw_text_state in H'. lia.
    + rewrite sw_step_mid in H by lia.
      destruct (c =? NL); [discriminate|].
      replace (Nat.eqb k 2) with false in H by (symmetry; apply Nat.eqb_neq; lia).
      rewrite andb_false_r in H.
      destruct (nth_error (sw_tok ins) k) as [x|] eqn:E; [|discriminate].
      destruct (N.eqb_spec c x) as [->|]; [|discriminate].
      rewrite (skipn_nth _ _ _ E).
      destruct (Nat.eqb_spec (S k) (length (sw_tok ins))) as [El|Hl].
      * exists s. split; [|exact H].
        rewrite El, skipn_all. reflexivity.
      * destruct (IH (S k) s i p) as (rest & -> & Hr); [lia|lia|exact H|].
        now exists rest.
Qed.

Lemma sw_tok_head (ins : bool) : sw_tok ins = 37 :: 37 :: skipn 2 (sw_tok ins).
Proof. now destruct ins. Qed.

Lemma sw_step_two (ins lead : bool) :
  sw_step (ins, 2%nat, lead) 37 = if lead then None else Some (ins, 2%nat, true).
Proof. now destruct lead. Qed.

Lemma sw_from_two (ins lead : bool) (s : str) (i p : bool) :
  arun sw_step (ins, 2%nat, lead) s = Some (sw_text i p) ->
  exists rest,
    (s = skipn 2 (sw_tok ins) ++ rest \/
     (lead = false /\ s = 37 :: skipn 2 (sw_tok ins) ++ rest)) /\
    arun sw_step (sw_text (negb ins) false) rest = Some (sw_text i p).
Proof.
  assert (Hb : forall l s, arun sw_step (ins, 2%nat, l) s = Some (sw_text i p) ->
               match s with
               | c :: s' => c <> 37 ->
                   exists rest, s = skipn 2 (sw_tok ins) ++ rest /\
                     arun sw_step (sw_text (negb ins) false) rest = Some (sw_text i p)
               | [] => False
               end).
  { intros l [|c s'] H; cbn [arun] in H.
    - assert (H' : (ins, 2%nat, l) = sw_text i p) by congruence.
      apply sw_text_state in H'. lia.
    - intros Hc. rewrite sw_step_mid in H by lia.
      destruct (c =? NL); [discriminate|].
      destruct (N.eqb_spec c 37) as [->|_]; [congruence|]. cbn [andb] in H.
      destruct (nth_error (sw_tok ins) 2) as [x|] eqn:E; [|discriminate].
      destruct (N.eqb_spec c x) as [->|]; [|discriminate].
      rewrite (skipn_nth _ _ _ E).
      replace (Nat.eqb 3 (length (sw_tok ins))) with false in H by now destruct ins.
      destruct (sw_forced ins (length (sw_tok ins) - 3) 3 s' i p) as (rest & -> & Hr);
        [lia|destruct ins; reflexivity|exact H|].
      now exists rest. }
  intros H. destruct s as [|c s]; [now apply Hb in H|].
  destruct (N.eqb_spec c 37) as [->|Hc].
  - cbn [arun] in H. rewrite sw_step_two in H. destruct lead; [discriminate|].
    pose proof (Hb true s H) as Hs. destruct s as [|c s]; [contradiction|].
    destruct (N.eqb_spec c 37) as [->|Hc].
    + exfalso. cbn [arun] in H. rewrite sw_step_two in H. discriminate.
    + destruct (Hs Hc) as (rest & E & Hr). exists rest. split; [right|exact Hr].
      split; [reflexivity|]. now rewrite E.
  - destruct (Hb lead _ H Hc) as (rest & E & Hr). exists rest. split; [now left|exact Hr].
Qed.

Lemma pn_step_false (c : N) (p : bool) :
  pn_step false c = Some p -> c <> NL /\ p = (c =? 37).
Proof.
  unfold pn_step, pp_step. destruct (N.eqb_spec c NL); [discriminate|].
  destruct (c =? 37); intros H; injection H as <-; auto.
Qed.

(** From text: text to the end, or text, the sentinel awaited and the
    rest. *)
Lemma sw_split (ins : bool) (n : nat) :
  forall s, (length s <= n)%nat ->
  forall i p, arun sw_step (sw_text ins false) s = Some (sw_text i p) ->
    (i = ins /\ arun pn_step false s = Some p) \/
    exists u rest pu,
      s = u ++ sw_tok ins ++ rest /\ arun pn_step false u = Some pu /\
      arun sw_step (sw_text (negb ins) false) rest = Some (sw_text i p).
Proof.
  induction n as [|n IH]; intros s Hlen i p H.
  { destruct s; [|cbn in Hlen; lia]. cbn [arun] in H. left.
    unfold sw_text in H. injection H as <- Hp. split; [reflexivity|].
    destruct p; [discriminate|reflexivity]. }
  destruct s as [|c s].
  { cbn [arun] in H. left. unfold sw_text in H. injection H as <- Hp.
    split; [reflexivity|]. destruct p; [discriminate|reflexivity]. }
  cbn [arun] in H. rewrite sw_step_text in H.
  destruct (N.eqb_spec c NL) as [|Hnl]; [discriminate|].
  assert (Hstep : forall c', c' <> NL -> c' <> 37 -> forall q, pn_step q c' = Some false).
  { intros c' H1 H2 q. unfold pn_step, pp_step.
    destruct (N.eqb_spec c' NL); [contradiction|].
    destruct (N.eqb_spec c' 37); [contradiction|reflexivity]. }
  destruct (N.eqb_spec c 37) as [->|Hc].
  - (* a percent sign *)
    destruct s as [|d s].
    { cbn [arun] in H. left. unfold sw_text in H. injection H as <- Hp.
      split; [reflexivity|]. destruct p; [reflexivity|discriminate]. }
    cbn [arun] in H. rewrite sw_step_text in H.
    destruct (N.eqb_spec d NL) as [|Hdn]; [discriminate|].
    destruct (N.eqb_spec d 37) as [->|Hd].
    + right. apply sw_from_two in H as (rest & [E|[_ E]] & Hr).
      * exists [], rest, false. rewrite sw_tok_head, E. now repeat split.
      * exists [37], rest, true. rewrite sw_tok_head, E. now repeat split.
    + destruct (IH s) with (i := i) (p := p) as [[-> Ht]|(u & rest & pu & -> & Hu & Hr)];
        [cbn [length] in Hlen; lia|exact H| |].
      * left. split; [reflexivity|]. cbn [arun].
        change (pn_step false 37) with (Some true). cbn iota.
        now rewrite (Hstep d Hdn Hd).
      * right. exists (37 :: d :: u), rest, pu. repeat split; [|exact Hr].
        cbn [arun]. change (pn_step false 37) with (Some true). cbn iota.
        now rewrite (Hstep d Hdn Hd).
  - destruct (IH s) with (i := i) (p := p) as [[-> Ht]|(u & rest & pu & -> & Hu & Hr)];
      [cbn [length] in Hlen; lia|exact H| |].
    + left. split; [reflexivity|]. cbn [arun]. now rewrite (Hstep c Hnl Hc).
    + right. exists (c :: u), rest, pu. repeat split; [|exact Hr].
      cbn [arun]. now rewrite (Hstep c Hnl Hc).
Qed.

Lemma sw_ok_cases (L : str) (p : bool) :
  arun sw_step (sw_text false false) L = Some (sw_text false p) ->
  arun pn_step false L = Some p \/
  exists u g rest pu pg,
    L = u ++ triple_start ++ g ++ triple_end ++ rest /\
    arun pn_step false u = Some pu /\ arun pn_step false g = Some pg /\
    arun sw_step (sw_text false false) rest = Some (sw_text false p).
Proof.
  intros H.
  destruct (sw_split false (length L) L (le_n _) false p H)
    as [[_ Ht]|(u & r1 & pu & -> & Hu & Hr)]; [now left|].
  right. cbn [negb] in Hr.
  destruct (sw_split true (length r1) r1 (le_n _) false p Hr)
    as [[Hi _]|(g & rest & pg & -> & Hg & Hr2)]; [discriminate|].
  exists u, g, rest, pu, pg. now repeat split.
Qed.

(* ------------------------------------------------------------------ *)
(** *** The last step resolves the sentinels *)

Lemma pn_pp (s : str) : forall p p', arun pn_step p s = Some p' -> arun pp_step p s = Some p'.
Proof.
  induction s as [|x s IH]; intros p p' H; [exact H|]. cbn [arun] in *.
  unfold pn_step in H. destruct (x =? NL); [discriminate|].
  destruct (pp_step p x); [now apply IH|discriminate].
Qed.

Lemma pn_of_pp (s : str) :
  ~ In NL s -> forall p, arun pp_step p s <> None -> arun pn_step p s <> None.
Proof.
  induction s as [|x s IH]; intros Hn p H; [discriminate|]. cbn [arun] in *.
  unfold pn_step. destruct (N.eqb_spec x NL) as [->|_]; [elim Hn; now left|].
  destruct (pp_step p x); [|congruence].
  apply IH; [|exact H]. intros Hin. apply Hn. now right.
Qed.

Lemma pn_from_false (s : str) (q p : bool) :
  arun pn_step q s = Some p -> arun pn_step false s <> None.
Proof.
  destruct s as [|x s]; [discriminate|]. cbn [arun]. unfold pn_step, pp_step.
  destruct (x =? NL); [discriminate|]. destruct (x =? 37).
  - destruct q; [discriminate|]. congruence.
  - congruence.
Qed.

Lemma pn_suffix (a v : str) :
  arun pn_step false (a ++ v) <> None -> arun pn_step false v <> None.
Proof.
  intros H. destruct (arun pn_step false (a ++ v)) as [p|] eqn:E; [|congruence].
  apply arun_app_inv in E as (q & _ & E). exact (pn_from_false _ _ _ E).
Qed.

Lemma pn_dot (env : PyEnv) (s : str) :
  forall q, arun pn_step q s <> None -> forallb (cmatch env Dot) s = true.
Proof.
  induction s as [|x s IH]; intros q H; [reflexivity|]. cbn [arun forallb cmatch] in *.
  unfold pn_step in H. destruct (x =? NL); [congruence|].
  destruct (pp_step q x) as [q'|]; [|congruence]. exact (IH _ H).
Qed.

(** No sentinel begins in a text without two percent signs in a row,
    even when a sentinel follows it. *)
Lemma no_token_here (v w : str) (ins : bool) :
  arun pn_step false v <> None -> v <> [] ->
  (w = [] \/ exists w', w = 37 :: 37 :: w') ->
  startswith (v ++ w) (sw_tok ins) = false.
Proof.
  intros Hv Hne Hw. destruct (startswith (v ++ w) (sw_tok ins)) eqn:E; [|reflexivity].
  exfalso. apply startswith_true in E as [r E].
  assert (Et : exists t, sw_tok ins = 37 :: 37 :: 66 :: t)
    by (destruct ins; eexists; reflexivity).
  destruct Et as [t Et]. rewrite Et in E.
  destruct v as [|a [|b v]]; [congruence| |].
  - cbn [app] in E. destruct Hw as [->|[w' ->]]; discriminate E.
  - cbn [app] in E. injection E as -> -> _. now apply Hv.
Qed.

Section SentinelScan.
Variable env : PyEnv.

Lemma run_lits (cs : str) (k : cont) :
  forall pre rest c,
    run env (seqs (map (fun x => Chr (Lit x)) cs)) k pre (cs ++ rest) c
    = k (rev cs ++ pre) rest c.
Proof.
  induction cs as [|x cs IH]; intros pre rest c; [reflexivity|].
  destruct cs as [|y cs].
  - cbn [map seqs run app cmatch rev]. now rewrite N.eqb_refl.
  - change (seqs (map (fun x => Chr (Lit x)) (x :: y :: cs)))
      with (Seq (Chr (Lit x)) (seqs (map (fun x => Chr (Lit x)) (y :: cs)))).
    cbn [run cmatch]. change ((x :: y :: cs) ++ rest) with (x :: (y :: cs) ++ rest).
    cbn iota. rewrite N.eqb_refl, IH. cbn [rev]. now rewrite <- !app_assoc.
Qed.

Lemma run_lits_fail (cs : str) (k : cont) :
  forall pre s c, startswith s cs = false ->
                  run env (seqs (map (fun x => Chr (Lit x)) cs)) k pre s c = None.
Proof.
  induction cs as [|x cs IH]; intros pre s c H; [discriminate|].
  destruct cs as [|y cs].
  - cbn [map seqs run cmatch]. destruct s as [|b s]; [reflexivity|].
    cbn [startswith] in H. rewrite andb_true_r, N.eqb_sym in H. now rewrite H.
  - change (seqs (map (fun x => Chr (Lit x)) (x :: y :: cs)))
      with (Seq (Chr (Lit x)) (seqs (map (fun x => Chr (Lit x)) (y :: cs)))).
    cbn [run cmatch]. destruct s as [|b s]; [reflexivity|].
    change (startswith (b :: s) (x :: y :: cs))
      with ((x =? b) && startswith s (y :: cs)) in H.
    rewrite N.eqb_sym in H. destruct (b =? x); [|reflexivity].
    now apply IH.
Qed.

Lemma sentinel_needs_start (adv : bool) (pre suf : str) (m : mobj) :
  match_at env sentinel_pattern adv pre suf = Some m ->
  startswith suf triple_start = true.
Proof.
  destruct m as [m c]. intros H. apply match_at_gsound in H as (suf' & -> & H).
  unfold sentinel_pattern in H. gparts H.
  repeat match goal with G : gmatches _ _ _ _ _ _ _ |- _ => gelem G end.
  rewrite <- app_assoc. apply startswith_app.
Qed.

Lemma sentinel_skip (u w : str) :
  arun pn_step false u <> None ->
  (w = [] \/ exists w', w = 37 :: 37 :: w') ->
  forall pre, pieces env sentinel_pattern 0 pre (u ++ w)
              = map inl u ++ pieces env sentinel_pattern 0 (rev u ++ pre) w.
Proof.
  induction u as [|y u IH]; intros Hu Hw pre; [reflexivity|].
  cbn [app pieces map].
  destruct (match_at env sentinel_pattern false pre (y :: u ++ w)) as [m|] eqn:E.
  { apply sentinel_needs_start in E.
    change (y :: u ++ w) with ((y :: u) ++ w) in E.
    change triple_start with (sw_tok false) in E.
    rewrite no_token_here in E; [discriminate|exact Hu|discriminate|exact Hw]. }
  rewrite IH; [|exact (pn_suffix [y] u Hu)|exact Hw].
  cbn [rev]. now rewrite <- app_assoc.
Qed.

Lemma rep_lazy_skip_at (cs : cset) (k : cont) (rest : str) :
  forall a,
    forallb (cmatch env cs) a = true ->
    (forall a1 y a2 p c, a = a1 ++ y :: a2 -> k p (y :: a2 ++ rest) c = None) ->
    forall pre c, rep_lazy env cs k pre (a ++ rest) c
                  = rep_lazy env cs k (rev a ++ pre) rest c.
Proof.
  induction a as [|y a IH]; intros Hall Hk pre c; [reflexivity|].
  cbn [forallb] in Hall. apply andb_true_iff in Hall as [Hy Hall].
  cbn [app rep_lazy]. rewrite (Hk [] y a pre c eq_refl), Hy.
  rewrite IH; [|exact Hall|].
  - cbn [rev]. now rewrite <- app_assoc.
  - intros a1 z a2 p c' E. apply (Hk (y :: a1)). now rewrite E.
Qed.

Lemma rep_lazy_here (cs : cset) (k : cont) (pre suf : str) (c : caps) (r : str * caps) :
  k pre suf c = Some r -> rep_lazy env cs k pre suf c = Some r.
Proof. intros H. destruct suf; cbn [rep_lazy]; now rewrite H. Qed.

Lemma sentinel_hit (g rest pre : str) (adv : bool) :
  arun pn_step false g <> None ->
  match_at env sentinel_pattern adv pre (triple_start ++ g ++ triple_end ++ rest)
  = Some (triple_start ++ g ++ triple_end, [(1%nat, g)]).
Proof.
  intros Hg. unfold match_at, sentinel_pattern.
  change (seqs [text "%%BOLDITALIC_START%%"; Grp 1 (Rep false Dot);
                text "%%BOLDITALIC_END%%"])
    with (Seq (text "%%BOLDITALIC_START%%")
              (Seq (Grp 1 (Rep false Dot)) (text "%%BOLDITALIC_END%%"))).
  cbn [run]. unfold text at 1.
  change (lit "%%BOLDITALIC_START%%") with triple_start.
  rewrite run_lits. cbn [run].
  rewrite rep_lazy_skip_at.
  - erewrite rep_lazy_here; [reflexivity|].
    unfold text. change (lit "%%BOLDITALIC_END%%") with triple_end.
    rewrite run_lits.
    replace (Nat.eqb (length (rev triple_end ++ rev g ++ rev triple_start ++ pre))
                     (length pre)) with false.
    + rewrite andb_false_r. f_equal. f_equal.
      * replace (rev triple_end ++ rev g ++ rev triple_start ++ pre)
          with (rev (triple_start ++ g ++ triple_end) ++ pre)
          by (rewrite !rev_app_distr, <- !app_assoc; reflexivity).
        apply consumed_app.
      * f_equal. f_equal. apply consumed_app.
    + symmetry. apply Nat.eqb_neq. rewrite !length_app, !length_rev.
      change (length triple_end) with 18%nat. lia.
  - exact (pn_dot env g false Hg).
  - intros a1 y a2 p c E. unfold text. apply run_lits_fail.
    change (lit "%%BOLDITALIC_END%%") with (sw_tok true).
    change (y :: a2 ++ triple_end ++ rest) with ((y :: a2) ++ triple_end ++ rest).
    apply no_token_here; [|discriminate|right; eexists; reflexivity].
    apply (pn_suffix a1). now rewrite <- E.
Qed.

Lemma render_inl (f : mobj -> str) (u : str) (ps : list (N + mobj)) :
  render f (map inl u ++ ps) = u ++ render f ps.
Proof.
  unfold render. induction u as [|x u IH]; [reflexivity|].
  cbn [map app flat_map]. now rewrite IH.
Qed.

Lemma render_inr (f : mobj -> str) (m : mobj) (ps : list (N + mobj)) :
  render f (inr m :: ps) = f m ++ render f ps.
Proof. reflexivity. Qed.

Lemma sentinel_scan (t : list titem) (n : nat) :
  t = [TLit (lit "*_"); TGrp 1; TLit (lit "_*")] ->
  forall L, (length L <= n)%nat ->
  forall p, arun sw_step (sw_text false false) L = Some (sw_text false p) ->
  forall pre, pp_ok (render (expand t) (pieces env sentinel_pattern 0 pre L)).
Proof.
  intros ->. induction n as [|n IH]; intros L Hlen p H pre.
  - destruct L; [|cbn in Hlen; lia]. cbn [pieces].
    destruct (match_at env sentinel_pattern false pre []) as [m|] eqn:E;
      [apply sentinel_needs_start in E; discriminate E|].
    discriminate.
  - destruct (sw_ok_cases L p H) as [Ht|(u & g & rest & pu & pg & -> & Hu & Hg & Hr)].
    + rewrite <- (app_nil_r L), sentinel_skip; [|congruence|now left].
      rewrite render_inl. cbn [pieces].
      destruct (match_at env sentinel_pattern false (rev L ++ pre) []) as [m|] eqn:E;
        [apply sentinel_needs_start in E; discriminate E|].
      cbn. rewrite app_nil_r. unfold pp_ok. now rewrite (pn_pp _ _ _ Ht).
    + rewrite sentinel_skip; [|congruence|right; eexists; reflexivity].
      rewrite render_inl.
      assert (Hg' : arun pn_step false g <> None) by congruence.
      assert (Hm := sentinel_hit g rest (rev u ++ pre) false Hg').
      assert (Ex : exists t, triple_start ++ g ++ triple_end = 37 :: t)
        by (eexists; reflexivity).
      destruct Ex as [t Et].
      replace (triple_start ++ g ++ triple_end ++ rest)
        with ((37 :: t) ++ rest) in Hm |- *
        by (rewrite <- Et, <- !app_assoc; reflexivity).
      rewrite Et in Hm. rewrite (pieces_match _ _ _ _ _ _ _ Hm).
      rewrite render_inr.
      unfold expand at 1. cbn [flat_map snd group Nat.eqb]. rewrite app_nil_r.
      assert (Hrest : pp_ok (render (expand [TLit (lit "*_"); TGrp 1; TLit (lit "_*")])
                               (pieces env sentinel_pattern 0
                                       (rev (37 :: t) ++ rev u ++ pre) rest))).
      { apply (IH rest) with (p := p); [|exact Hr].
        rewrite !length_app in Hlen. change (length triple_start) with 20%nat in Hlen. lia. }
      unfold pp_ok in *.
      rewrite arun_app, (pn_pp _ _ _ Hu).
      rewrite <- !app_assoc.
      rewrite arun_app, (pp_fresh (lit "*_")) by (discriminate || (vm_compute; intuition discriminate)).
      rewrite arun_app, (pn_pp _ _ _ Hg).
      rewrite arun_app, (pp_fresh (lit "_*")) by (discriminate || (vm_compute; intuition discriminate)).
      exact Hrest.
Qed.

Lemma sentinel_pp (L : str) :
  sw_ok L -> pp_ok (sub env sentinel_pattern [TLit (lit "*_"); TGrp 1; TLit (lit "_*")] L).
Proof.
  intros [p H]. exact (sentinel_scan _ (length L) eq_refl L (le_n _) p H []).
Qed.
End SentinelScan.

(* ------------------------------------------------------------------ *)
(** *** A line through the rules *)

Lemma triple_no_bracket (env : PyEnv) (L : str) :
  ~ In 91 L ->
  ~ In 91 (sub_fn env triple_pattern
             (fun m => triple_start ++ group 1 (snd m) ++ triple_end) L).
Proof.
  intros Hb Hin.
  assert (HL : Forall (fun c => c <> 91) L).
  { apply Forall_forall. intros c Hc ->. exact (Hb Hc). }
  assert (Hc : Forall (fun c => c <> 91)
                 (sub_fn env triple_pattern
                    (fun m => triple_start ++ group 1 (snd m) ++ triple_end) L)).
  2: { rewrite Forall_forall in Hc. now apply (Hc 91 Hin). }
  apply sub_fn_chars; [|exact HL].
  intros m [_ Hm]. apply Forall_app. split.
  { apply Forall_forall. intros c Hc' ->. vm_compute in Hc'. intuition discriminate. }
  apply Forall_app. split; [now apply group_chars|].
  apply Forall_forall. intros c Hc' ->. vm_compute in Hc'. intuition discriminate.
Qed.

(** A line with triple asterisks and without opening square bracket. *)
Lemma rewrite_rules_sw (env : PyEnv) (line : str) :
  ~ In 91 line -> ~ In NL line -> pp_ok line -> pp_ok (rewrite_rules env line).
Proof.
  intros Hb Hnl Hok. unfold rewrite_rules, rstrip.
  match goal with
  | |- pp_ok (rstrip_by isspace ?x) =>
      destruct (rstrip_by_prefix isspace x) as [b Eb];
      apply (pp_ok_prefix _ b); rewrite <- Eb
  end.
  apply sentinel_pp.
  apply fold_rules_sw;
    [apply rules_keep|exact patterns_literal|exact patterns_no_bracket| |].
  - pose proof (pn_of_pp line Hnl false Hok) as Hp.
    destruct (arun pn_step false line) as [p|] eqn:E; [|congruence].
    exact (triple_sw env line p E).
  - now apply triple_no_bracket.
Qed.

(** Any line: without two percent signs in a row before, without them
    after, unless triple asterisks and an opening square bracket meet in
    it. *)
Lemma rewrite_rules_line (env : PyEnv) (line : str) :
  ~ In NL line -> pp_ok line -> (has3 line = true -> ~ In 91 line) ->
  pp_ok (rewrite_rules env line).
Proof.
  intros Hnl Hok Hb. destruct (has3 line) eqn:E.
  - apply rewrite_rules_sw; auto.
  - now apply rewrite_rules_pp.
Qed.

(* ------------------------------------------------------------------ *)
(** *** Parts of a text *)

Lemma occurs_refl (a : str) : occurs a a.
Proof. exists [], []. now rewrite app_nil_r. Qed.

Lemma occurs_trans (a b c : str) : occurs a b -> occurs b c -> occurs a c.
Proof.
  intros (x & y & ->) (u & v & ->). exists (u ++ x), (y ++ v). now rewrite <- !app_assoc.
Qed.

Lemma strip_by_occurs (p : N -> bool) (s : str) : occurs (strip_by p s) s.
Proof.
  unfold strip_by. destruct (lstrip_by_suffix p s) as [a Ha].
  destruct (rstrip_by_prefix p (lstrip_by p s)) as [b Hb].
  exists a, b. now rewrite <- Hb.
Qed.

Lemma join_occurs (sep : str) (ls : list str) (l : str) :
  In l ls -> occurs l (join sep ls).
Proof.
  induction ls as [|x ls IH]; [intros []|].
  intros [->|Hin]; destruct ls as [|y ls].
  - apply occurs_refl.
  - now exists [], (sep ++ join sep (y :: ls)).
  - destruct Hin.
  - destruct (IH Hin) as (a & b & E). exists (x ++ sep ++ a), b.
    change (join sep (x :: y :: ls)) with (x ++ sep ++ join sep (y :: ls)).
    rewrite E. now rewrite <- !app_assoc.
Qed.

Lemma split_occurs (sep : N) (s l : str) : In l (split sep s) -> occurs l s.
Proof. intros H. rewrite <- (join_split sep s). now apply join_occurs. Qed.

Lemma pp_ok_factor (a b : str) : occurs a b -> pp_ok b -> pp_ok a.
Proof.
  rewrite !pp_ok_iff. intros Hab Hb Ha. apply Hb. exact (occurs_trans _ _ _ Ha Hab).
Qed.

Lemma has3_factor (a b : str) : occurs a b -> has3 a = true -> has3 b = true.
Proof.
  intros (x & y & ->) Ha. destruct (has3 (x ++ a ++ y)) eqn:E; [reflexivity|].
  apply has3_suffix, has3_prefix in E. congruence.
Qed.

Lemma in_factor (c : N) (a b : str) : occurs a b -> In c a -> In c b.
Proof. intros (x & y & ->) Ha. rewrite !in_app_iff. auto. Qed.

Lemma emphasis_apart_spec (line : str) :
  emphasis_apart line = true <-> (has3 line = true -> ~ In 91 line).
Proof.
  unfold emphasis_apart. rewrite negb_true_iff, andb_false_iff. split.
  - intros [H|H] H3 Hin; [congruence|].
    assert (Ht : existsb (N.eqb 91) line = true)
      by (apply existsb_exists; exists 91; split; [exact Hin|apply N.eqb_refl]).
    congruence.
  - intros H. destruct (has3 line); [right|now left].
    destruct (existsb (N.eqb 91) line) eqn:E; [|reflexivity].
    apply existsb_exists in E as (c & Hc & Ec). apply N.eqb_eq in Ec. subst c.
    now elim (H eq_refl).
Qed.

Lemma emphasis_apart_factor (a b : str) :
  occurs a b -> emphasis_apart b = true -> emphasis_apart a = true.
Proof.
  rewrite !emphasis_apart_spec. intros Hab Hb H3 Hin.
  apply Hb; [exact (has3_factor _ _ Hab H3)|exact (in_factor _ _ _ Hab Hin)].
Qed.

(** A part without newline lies in one line. *)
Lemma split_app_first (l y : str) :
  ~ In NL l -> exists r ls, split NL (l ++ y) = (l ++ r) :: ls.
Proof.
  induction l as [|c l IH]; intros Hl.
  - destruct (split_nonempty NL y) as (r & ls & E). now exists r, ls.
  - destruct IH as (r & ls & E); [intros H; apply Hl; now right|].
    exists r, ls. cbn [app split]. rewrite E.
    destruct (N.eqb_spec c NL) as [->|_]; [elim Hl; now left|reflexivity].
Qed.

Lemma line_of_factor (x l y : str) :
  ~ In NL l -> exists l', In l' (split NL (x ++ l ++ y)) /\ occurs l l'.
Proof.
  intros Hl. induction x as [|c x (l' & Hin & Ho)].
  - destruct (split_app_first l y Hl) as (r & ls & E). exists (l ++ r).
    cbn [app]. rewrite E. split; [now left|]. now exists [], r.
  - cbn [app split]. destruct (c =? NL).
    + exists l'. split; [now right|exact Ho].
    + destruct (split NL (x ++ l ++ y)) as [|h t]; [destruct Hin|].
      destruct Hin as [->|Hin].
      * exists (c :: l'). split; [now left|].
        destruct Ho as (a & b & ->). now exists (c :: a), b.
      * exists l'. split; [now right|exact Ho].
Qed.

Lemma strip_lines (P : str -> Prop) (s : str) :
  (forall a b, occurs a b -> P b -> P a) ->
  Forall P (split NL s) -> Forall P (split NL (strip s)).
Proof.
  intros HP H. apply Forall_forall. intros l Hl.
  assert (Hnl : ~ In NL l).
  { pose proof (split_lines_no_sep NL (strip s)) as Hs.
    rewrite Forall_forall in Hs. now apply Hs. }
  destruct (split_occurs _ _ _ Hl) as (x & y & E).
  destruct (strip_by_occurs isspace s) as (a & b & Es).
  fold (strip s) in Es. rewrite E in Es.
  destruct (line_of_factor (a ++ x) l (y ++ b) Hnl) as (l' & Hin & Ho).
  replace ((a ++ x) ++ l ++ y ++ b) with s in Hin
    by (rewrite Es, <- !app_assoc; reflexivity).
  rewrite Forall_forall in H. exact (HP _ _ Ho (H _ Hin)).
Qed.

(* ------------------------------------------------------------------ *)
(** *** Texts put together without two percent signs in a row *)

Lemma pp_ok_nil : pp_ok [].
Proof. discriminate. Qed.

Lemma pp_ok_app_fresh (a t b : str) :
  pp_ok a -> t <> [] -> ~ In 37 t -> pp_ok b -> pp_ok (a ++ t ++ b).
Proof.
  unfold pp_ok. intros Ha Ht Hn Hb. rewrite arun_app.
  destruct (arun pp_step false a) as [q|]; [|congruence].
  now rewrite arun_app, (pp_fresh t q Ht Hn).
Qed.

Lemma pp_ok_join (sep : str) (ls : list str) :
  sep <> [] -> ~ In 37 sep -> Forall pp_ok ls -> pp_ok (join sep ls).
Proof.
  intros Hs Hn H. induction H as [|l ls Hl _ IH]; [exact pp_ok_nil|].
  destruct ls as [|l2 ls]; [exact Hl|].
  change (join sep (l :: l2 :: ls)) with (l ++ sep ++ join sep (l2 :: ls)).
  now apply pp_ok_app_fresh.
Qed.

Lemma pp_ok_wrap (t1 a t2 : str) :
  ~ In 37 t1 -> ~ In 37 t2 -> t2 <> [] -> pp_ok a -> pp_ok (t1 ++ a ++ t2).
Proof.
  intros H1 H2 Hne Ha. unfold pp_ok in *. rewrite arun_app.
  assert (E : arun pp_step false t1 = Some false).
  { destruct t1; [reflexivity|]. apply pp_fresh; [discriminate|exact H1]. }
  rewrite E, arun_app. destruct (arun pp_step false a) as [q|]; [|congruence].
  now rewrite (pp_fresh t2 q Hne H2).
Qed.

Lemma cells_pp (line : str) :
  pp_ok line -> Forall pp_ok (map strip (split bar (strip_chars [bar] line))).
Proof.
  intros H. apply Forall_map, Forall_forall. intros cell Hc.
  apply (pp_ok_factor _ line); [|exact H].
  apply (occurs_trans _ cell); [apply strip_by_occurs|].
  apply (occurs_trans _ (strip_chars [bar] line)); [|apply strip_by_occurs].
  now apply (split_occurs bar).
Qed.

(** The rendering of a table block. *)
Lemma render_table_pp (t : str) : pp_ok t -> pp_ok (render_table t).
Proof.
  intros Ht. unfold render_table.
  assert (Hlines : Forall pp_ok (split NL (strip t))).
  { apply Forall_forall. intros l Hl. apply (pp_ok_factor _ t); [|exact Ht].
    apply (occurs_trans _ (strip t)); [|apply strip_by_occurs].
    now apply (split_occurs NL). }
  apply pp_ok_join; [discriminate|vm_compute; intuition discriminate|].
  constructor.
  - apply (pp_ok_join (lit " | ")); [discriminate|vm_compute; intuition discriminate|].
    apply Forall_map.
    assert (Hh : pp_ok (nth 0 (split NL (strip t)) [])).
    { destruct (split NL (strip t)) as [|h tl]; [exact pp_ok_nil|].
      now inversion Hlines. }
    eapply Forall_impl; [|exact (cells_pp _ Hh)]. intros h Hp.
    apply (pp_ok_wrap (lit "*") h (lit "*"));
      try (vm_compute; intuition discriminate). exact Hp.
  - apply Forall_map, Forall_map.
    assert (Hd : Forall pp_ok (if Nat.ltb 2 (length (split NL (strip t)))
                               then skipn 2 (split NL (strip t)) else [])).
    { destruct (Nat.ltb 2 _); [|constructor]. now apply Forall_skipn'. }
    eapply Forall_impl; [|exact Hd]. intros l Hl.
    apply (pp_ok_join (lit " | ")); [discriminate|vm_compute; intuition discriminate|].
    now apply cells_pp.
Qed.

Lemma recorded_pp (env : PyEnv) (text : str) (d : dict) :
  pp_ok text -> Forall (recorded env text) d -> Forall (fun kv => pp_ok (snd kv)) d.
Proof.
  intros Ht H. eapply Forall_impl; [|exact H]. cbn.
  intros kv (t & Ho & ->). cbn [snd]. apply render_table_pp.
  exact (pp_ok_factor _ _ Ho Ht).
Qed.

Lemma pp_ok_no_prefix (l : str) : pp_ok l -> ~ occurs placeholder_prefix l.
Proof.
  rewrite pp_ok_iff. intros H (a & b & ->). apply H.
  exists a, (lit "TABLE_PLACEHOLDER_" ++ b). reflexivity.
Qed.

(* ------------------------------------------------------------------ *)
(** *** The lines, one by one *)

Lemma _convert_line_pp (env : PyEnv) (l : str) (self : SlackMarkdownConverter) :
  ~ In NL l -> pp_ok l -> emphasis_apart l = true ->
  exists out b, _convert_line env l self = (inr out, with_flag self b) /\ pp_ok out.
Proof.
  intros Hnl Hok Hb. destruct (fence_tag env l) as [tag|] eqn:Hf.
  - rewrite (_convert_line_fence env l tag self Hf).
    eexists _, (negb (in_code_block self)). split; [reflexivity|].
    apply fence_tag_some in Hf as [_ [->| ->]].
    + destruct (_ && _); [exact Hok|]. exact (pp_ok_factor _ _ (ex_intro _ [] (ex_intro _ tag eq_refl)) Hok).
    + elim Hnl. rewrite !in_app_iff. right. right. now left.
  - rewrite (_convert_line_plain env l self Hf).
    exists (if startswith l placeholder_prefix && endswith l pct2 then l
            else if in_code_block self then l else rewrite_rules env l),
           (in_code_block self).
    split; [now destruct self|].
    destruct (_ && _); [exact Hok|]. destruct (in_code_block self); [exact Hok|].
    apply rewrite_rules_line; [exact Hnl|exact Hok|now apply emphasis_apart_spec].
Qed.

Lemma _convert_line_token (env : PyEnv) (k : str) (self : SlackMarkdownConverter) :
  is_token k -> _convert_line env k self = (inr k, self).
Proof.
  intros Hk. apply token_shape in Hk. unfold placeholder_shape in Hk.
  apply andb_true_iff in Hk as [H1 H2]. now apply _convert_line_shape.
Qed.

Lemma mapM_lines_pp (env : PyEnv) (K : list str) (lines : list str) :
  Forall is_token K ->
  Forall (fun l => In l K \/ (~ In NL l /\ pp_ok l /\ emphasis_apart l = true)) lines ->
  forall self,
  exists outs b,
    mapM (_convert_line env) lines self = (inr outs, with_flag self b) /\
    Forall (fun o => In o K \/ pp_ok o) outs.
Proof.
  intros HK. induction 1 as [|l lines Hl _ IH]; intros self.
  - exists [], (in_code_block self). split; [now destruct self|constructor].
  - rewrite mapM_cons. destruct Hl as [Hl|(Hnl & Hok & Hb)].
    + rewrite Forall_forall in HK. rewrite (_convert_line_token env l self (HK _ Hl)).
      destruct (IH self) as (outs & b' & -> & Houts).
      exists (l :: outs), b'. split; [reflexivity|]. constructor; [now left|exact Houts].
    + destruct (_convert_line_pp env l self Hnl Hok Hb) as (out & b & -> & Ho).
      destruct (IH (with_flag self b)) as (outs & b' & -> & Houts).
      exists (out :: outs), b'. split; [reflexivity|]. constructor; [now right|exact Houts].
Qed.

(* ------------------------------------------------------------------ *)
(** *** The placeholders restored *)

Lemma replace_token_self (k v : str) : is_token k -> replace k v k = v.
Proof.
  intros Hk. rewrite (replace_token k v k Hk).
  destruct (token_head k Hk) as [k' E].
  rewrite <- (app_nil_r k) at 2. rewrite replace_from_hit by (rewrite E; discriminate).
  destruct k; [discriminate|]. cbn [replace_from]. apply app_nil_r.
Qed.

Lemma replace_other_token (k' v k : str) :
  is_token k' -> is_token k -> k' <> k -> replace k' v k = k.
Proof.
  intros Hk' Hk Hne. rewrite (replace_token k' v k Hk').
  apply replace_from_absent. intros a b E.
  apply (token_in_token k' k a b Hk' Hk) in E. congruence.
Qed.

Lemma replace_all_key (d : dict) (k : str) :
  Forall is_token (map fst d) -> Forall (fun kv => pp_ok (snd kv)) d ->
  is_token k -> In k (map fst d) -> pp_ok (replace_all d k).
Proof.
  intros Hd Hv Hk. induction d as [|[k' v'] d IH]; [intros []|].
  cbn [map fst] in Hd. inversion Hd as [|? ? Hk' Hd']; subst.
  inversion Hv as [|? ? Hv' Hvd]; subst. cbn [snd] in Hv'.
  cbn [replace_all map fst]. intros Hin.
  destruct (list_eq_dec N.eq_dec k' k) as [->|Hne].
  - rewrite replace_token_self by exact Hk.
    rewrite replace_all_no_prefix; [exact Hv'|exact Hd'|now apply pp_ok_no_prefix].
  - rewrite replace_other_token by assumption.
    apply IH; [exact Hd'|exact Hvd|]. destruct Hin as [E|Hin]; [congruence|exact Hin].
Qed.

Lemma replace_all_lines_pp (d : dict) (outs : list str) :
  Forall is_token (map fst d) -> Forall (fun kv => pp_ok (snd kv)) d ->
  Forall (fun o => In o (map fst d) \/ pp_ok o) outs ->
  pp_ok (replace_all d (join [NL] outs)).
Proof.
  intros Hd Hv Ho. rewrite (replace_all_join d Hd).
  apply pp_ok_join; [discriminate|vm_compute; intuition discriminate|].
  apply Forall_map. eapply Forall_impl; [|exact Ho]. cbn. intros o [Hin|Hok].
  - apply replace_all_key; auto. rewrite Forall_forall in Hd. now apply Hd.
  - rewrite replace_all_no_prefix; [exact Hok|exact Hd|now apply pp_ok_no_prefix].
Qed.

(* ------------------------------------------------------------------ *)
(** *** The whole conversion *)

Lemma convert_pp (env : PyEnv) (self : SlackMarkdownConverter) (s : str) :
  encoding self = Utf8 ->
  existsb is_surrogate s = false ->
  ~ occurs pct2 s ->
  Forall (fun l => emphasis_apart l = true) (split NL s) ->
  exists out, returned (convert env s self) = inr out /\ ~ occurs pct2 out.
Proof.
  intros Henc Hsur Hpp Hb. apply pp_ok_iff in Hpp.
  destruct s as [|c s].
  { exists []. split; [reflexivity|]. apply pp_ok_iff, pp_ok_nil. }
  set (lines := split NL (strip (c :: s))).
  assert (Hne : lines <> []).
  { unfold lines. destruct (split_nonempty NL (strip (c :: s))) as (l & ls & ->).
    discriminate. }
  assert (Hnl : Forall (fun l : str => ~ In NL l) lines) by apply split_lines_no_sep.
  assert (Hs : strip (c :: s) = join [NL] lines) by (symmetry; apply join_split).
  assert (Hpl : pp_ok (strip (c :: s))).
  { exact (pp_ok_factor _ _ (strip_by_occurs isspace (c :: s)) Hpp). }
  assert (Hgood : Forall (fun l => ~ In NL l /\ pp_ok l /\ emphasis_apart l = true) lines).
  { pose proof (strip_lines (fun l => emphasis_apart l = true) (c :: s)
                  emphasis_apart_factor Hb) as Hb'.
    fold lines in Hb'. apply Forall_forall. intros l Hl.
    rewrite Forall_forall in Hnl, Hb'. repeat split; [now apply Hnl| |now apply Hb'].
    apply (pp_ok_factor _ (strip (c :: s))); [|exact Hpl]. now apply (split_occurs NL). }
  (* the table pass *)
  destruct (tables_pass_scan env lines self Hne Hnl)
    as (outl & self1 & Hpass & _ & Hout & He1 & _ & Hrec & Hin).
  rewrite <- Hs in Hpass, Hrec.
  rewrite (convert_after_tables env c s _ _ _ Hpass).
  assert (Hkeys : Forall is_token (keys self1)) by exact (recorded_keys env _ _ Hrec).
  assert (Hnlo : Forall (fun l : str => ~ In NL l) outl).
  { eapply Forall_impl; [|exact Hin]. cbn. intros o [Ho|Ho].
    - rewrite Forall_forall in Hnl. now apply Hnl.
    - rewrite Forall_forall in Hkeys. now apply token_no_newline, Hkeys. }
  rewrite (split_join NL outl Hout Hnlo).
  assert (Hsuro : Forall (Forall (fun c => is_surrogate c = false)) outl).
  { assert (Hsl : Forall (Forall (fun c => is_surrogate c = false)) lines).
    { apply Forall_split, Forall_strip_by. now apply existsb_false_Forall. }
    eapply Forall_impl; [|exact Hin]. cbn. intros o [Ho|Ho].
    - rewrite Forall_forall in Hsl. now apply Hsl.
    - rewrite Forall_forall in Hkeys. now apply token_no_surrogate, Hkeys. }
  (* the line pass *)
  destruct (mapM_lines_total env outl self1) as (outs & bf & Hall & _ & Hok).
  specialize (Hok Hsuro).
  destruct (mapM_lines_pp env (keys self1) outl Hkeys) with (self := self1)
    as (outs' & bf' & Hall' & Hpo).
  { eapply Forall_impl; [|exact Hin]. cbn. intros o [Ho|Ho]; [right|now left].
    rewrite Forall_forall in Hgood. now apply Hgood. }
  rewrite Hall in Hall'. injection Hall' as <- _.
  rewrite Hall. cbn [with_flag encoding table_replacements].
  rewrite He1, Henc.
  (* nothing UTF-8 refuses *)
  assert (Hd : Forall (fun kv => Forall (fun c => is_surrogate c = false) (snd kv))
                      (table_replacements self1)).
  { apply (recorded_values env _ (strip (c :: s)));
      [now repeat constructor| |exact Hrec].
    apply Forall_strip_by. now apply existsb_false_Forall. }
  assert (Hclean : existsb is_surrogate
                     (replace_all (table_replacements self1) (join [NL] outs)) = false).
  { apply existsb_false_Forall. apply Forall_replace_all; auto.
    apply Forall_join; [now repeat constructor|exact Hok]. }
  unfold encode_decode. rewrite Hclean.
  eexists. split; [reflexivity|]. apply pp_ok_iff.
  apply replace_all_lines_pp; [exact Hkeys| |exact Hpo].
  exact (recorded_pp env _ _ Hpl Hrec).
Qed.

Lemma pct2_in_tokens (out : str) :
  ~ occurs pct2 out ->
  ~ occurs placeholder_prefix out /\ ~ occurs triple_start out /\ ~ occurs triple_end out.
Proof.
  intros H. repeat split; intros (a & b & ->); apply H.
  - exists a, (lit "TABLE_PLACEHOLDER_" ++ b). reflexivity.
  - exists a, (lit "BOLDITALIC_START%%" ++ b). reflexivity.
  - exists a, (lit "BOLDITALIC_END%%" ++ b). reflexivity.
Qed.

(* ================================================================== *)
(** ** The claims on fenced blocks and on placeholders *)

(** C4, as it holds. Take any fenced block of the text: an opening
    fence line that [convert] reaches outside a code block (whatever the
    flag of the object before the call and the fences before it), the
    lines up to the next fence line, and that fence line.  When no table
    block starts on a line between the two fences (and, if the text holds
    a table elsewhere, none of these lines holds the text
    "%%TABLE_PLACEHOLDER_"), these lines come out of [convert] as they
    are, whatever they look like, after the opening fence with its tag
    and before a bare closing fence; tables before and after the block
    may shorten what is around it.  For [_convert_line]: a fence line
    flips the flag and comes out with its tag when it opens a block,
    bare when it closes one; and inside a code block every other line is
    returned unchanged. *)
Theorem fenced_block_passthrough (env : PyEnv) (self : SlackMarkdownConverter) (s : str)
    (before body rest : list str) (tag tag' : str) :
  encoding self = Utf8 ->
  existsb is_surrogate s = false ->
  strip s = join [NL] (before ++ (backticks ++ tag) :: body
                         ++ (backticks ++ tag') :: rest) ->
  Forall (fun l : str => ~ In NL l) (before ++ body ++ rest) ->
  forallb (isword env) (tag ++ tag') = true ->
  xorb (in_code_block self) (Nat.odd (fence_count env before)) = false ->
  Forall (fun l => re_match env fence_pattern l = None) body ->
  (forall i, (length before < i <= length before + length body)%nat ->
     table_starts env (before ++ (backticks ++ tag) :: body
                         ++ (backticks ++ tag') :: rest) i = false) ->
  (search env table_pattern (strip s) = false \/
   Forall (fun l => ~ occurs placeholder_prefix l) body) ->
  (exists before' rest',
     returned (convert env s self) =
       inr (join [NL] (before' ++ (backticks ++ tag) :: body ++ backticks :: rest')) /\
     (length before' <= length before)%nat /\ (length rest' <= length rest)%nat /\
     (search env table_pattern (strip s) = false ->
      length before' = length before /\ length rest' = length rest)) /\
  (forall self0 t, forallb (isword env) t = true ->
     _convert_line env (backticks ++ t) self0 =
     (inr (if negb (in_code_block self0) && negb (Nat.eqb (length t) 0)
           then backticks ++ t else backticks), toggled self0)) /\
  (forall self0 l, in_code_block self0 = true ->
                   re_match env fence_pattern l = None ->
                   _convert_line env l self0 = (inr l, self0)).
Proof.
  intros Henc Hsur Hs Hnl Hw Hopen Hnf Htab Hpre. split; [|split].
  - exact (convert_any_block env self s before body rest tag tag'
             Henc Hsur Hs Hnl Hw Hopen Hnf Htab Hpre).
  - intros self0 t Ht. exact (_convert_line_fence env _ t self0 (fence_tag_whole env t Ht)).
  - intros self0 l Hin Hl. rewrite re_match_fence in Hl.
    assert (Hf : fence_tag env l = None) by now destruct (fence_tag env l).
    rewrite (_convert_line_plain env l self0 Hf), Hin.
    now destruct (startswith l placeholder_prefix && endswith l pct2).
Qed.

Lemma fenced_block_passthrough_witness :
  let self := {| encoding := Utf8; in_code_block := true; table_replacements := [] |} in
  let before := [backticks; lit "| A | B |"; lit "|---|---|"; lit "| 1 | 2 |";
                 lit "intro **b**"] in
  let body := [lit "# not a heading  "; lit "| not | a table"; lit "- [ ] 100% **x**"] in
  let rest := [lit "| C | D |"; lit "|---|---|"; lit "| 3 | 4 |"; lit "after *i*"] in
  let s := join [NL] (before ++ (backticks ++ lit "py") :: body
                        ++ (backticks ++ lit "end") :: rest) in
  (exists before' rest',
     returned (convert env0 s self) =
       inr (join [NL] (before' ++ (backticks ++ lit "py") :: body ++ backticks :: rest')) /\
     (length before' <= length before)%nat /\ (length rest' <= length rest)%nat /\
     (search env0 table_pattern (strip s) = false ->
      length before' = length before /\ length rest' = length rest)) /\
  (forall self0 t, forallb (isword env0) t = true ->
     _convert_line env0 (backticks ++ t) self0 =
     (inr (if negb (in_code_block self0) && negb (Nat.eqb (length t) 0)
           then backticks ++ t else backticks), toggled self0)) /\
  (forall self0 l, in_code_block self0 = true ->
                   re_match env0 fence_pattern l = None ->
                   _convert_line env0 l self0 = (inr l, self0)).
Proof.
  intros self before body rest s.
  apply (fenced_block_passthrough env0 self s before body rest (lit "py") (lit "end"));
    try reflexivity.
  - repeat constructor; vm_compute; intuition discriminate.
  - repeat constructor.
  - intros i Hi. unfold before, body in Hi. cbn [length] in Hi.
    assert (E : i = 6%nat \/ i = 7%nat \/ i = 8%nat) by lia.
    destruct E as [->|[->| ->]]; reflexivity.
  - right. repeat constructor; intros H; apply occursb_spec in H; discriminate H.
Defined.

(** C4, as stated, fails for a table inside a fence: the table pass runs
    on the whole text before any fence is looked at, so the three lines
    between the fences come out as the two lines of the rendered table. *)
Lemma fenced_table_is_transformed :
  (forall env, returned (convert env fenced_table (__init__ Utf8))
               = inr fenced_table_converted) /\
  split NL fenced_table =
    [backticks; lit "| A | B |"; lit "|---|---|"; lit "| 1 | 2 |"; backticks] /\
  split NL fenced_table_converted =
    [backticks; lit "*A* | *B*"; lit "1 | 2"; backticks].
Proof.
  split; [exact convert_fenced_table|]. split; reflexivity.
Qed.

(** The last hypothesis of C4 at work: a line between fences that is
    the token of a table of the same text is taken for it. *)
Lemma fenced_token_is_replaced :
  returned (convert env0
              (table_example ++ [NL] ++ backticks ++ [NL]
               ++ placeholder_of env0 table_example ++ [NL] ++ backticks)
              (__init__ Utf8))
  = inr (table_example_rendered ++ [NL] ++ backticks ++ [NL]
         ++ table_example_rendered ++ [NL] ++ backticks).
Proof. vm_compute. reflexivity. Qed.




(** The hypotheses of C8 at work.  Two percent signs in a row in the
    text: a rule can make a placeholder of what was none.  Triple
    asterisks and a square bracket in one line: the link rule puts the
    closing sentinel before the opening one, and both stay. *)
Lemma token_made_by_rule :
  (forall env, returned (convert env (lit "%%TABLE*PLACEHOLDER*1%%") (__init__ Utf8))
               = inr (lit "%%TABLE_PLACEHOLDER_1%%")) /\
  (forall env, returned (convert env (lit "[***a](b***)") (__init__ Utf8))
               = inr (lit "<b%%BOLDITALIC_END%%|%%BOLDITALIC_START%%a>")).
Proof. split; intros env; vm_compute; reflexivity. Qed.
